(** * Sculpt mesh filter: a shallow embedding of
    [source/blender/editors/sculpt_paint/sculpt_filter_mesh.cc]

    The operator keeps its state in the sculpt session ([SculptSession]) and
    in the [FilterCache] hanging off it.  The C functions that build the
    cache, run one iteration, end and cancel the filter are written here as
    functions on that state, in the order of the source; the invoke, modal
    and exec callbacks, which sequence them and derive the strength from the
    pointer, follow on the operator with its event history
    ([MeshFilterOperator]).  Single precision floats are IEEE binary32
    values (the standard library's [spec_float] at precision 24 and maximal
    exponent 128), so infinities, NaN and signed zeros behave as in the
    compiled code.

    What the file calls but does not define is either written out after its
    BLI or sculpt counterpart (comments starting "Modelled from the spec"),
    or a member of the classes [SculptExternals] and [InterfaceExternals],
    about which nothing is assumed.  The tasks of a parallel range take
    their turns in an order that is the scheduler's choice, another such
    member.  PBVH update flags ([BKE_pbvh_node_mark_update],
    [BKE_pbvh_vert_tag_update_normal], [BKE_pbvh_node_mark_normals_update])
    are not part of the state: their one reader in the file,
    [BKE_pbvh_update_normals], is handed the nodes the file has marked.
    Calls whose effect lies in other subsystems are recorded as [Event]s. *)

From stdpp Require Import base option list gmap.
From Stdlib Require Import ZArith Lia Floats.SpecFloat.

(* ===================================================================== *)
(** ** Single precision arithmetic *)
(* ===================================================================== *)

Module F32.
Local Open Scope Z_scope.

Definition prec : Z := 24.
Definition emax : Z := 128.

Definition float : Type := spec_float.

Definition add (a b : float) : float := SFadd prec emax a b.
Definition sub (a b : float) : float := SFsub prec emax a b.
Definition mul (a b : float) : float := SFmul prec emax a b.
Definition div (a b : float) : float := SFdiv prec emax a b.
Definition sqrtf (a : float) : float := SFsqrt prec emax a.
Definition neg (a : float) : float := SFopp a.
Definition fabsf (a : float) : float := SFabs a.

(** C's [==], [<] and [>] on floats: false as soon as one side is NaN. *)
Definition eqb (a b : float) : bool := SFeqb a b.
Definition ltb (a b : float) : bool := SFltb a b.
Definition gtb (a b : float) : bool := SFltb b a.

(** Conversion of an integer to float, rounding to nearest even. *)
Definition of_Z (n : Z) : float := binary_normalize prec emax n 0 false.

Definition zero : float := S754_zero false.
Definition one : float := Eval vm_compute in of_Z 1.
Definition half : float := Eval vm_compute in div (of_Z 1) (of_Z 2).
Definition minus_one : float := Eval vm_compute in of_Z (-1).
Definition infinity : float := S754_infinity false.
Definition nan : float := S754_nan.

Definition is_zero (a : float) : bool :=
  match a with S754_zero _ => true | _ => false end.

Definition is_nan (a : float) : bool :=
  match a with S754_nan => true | _ => false end.

(** Neither an infinity nor NaN. *)
Definition is_finite (a : float) : bool :=
  match a with S754_zero _ | S754_finite _ _ _ => true | _ => false end.

(** A normal number: a full mantissa and an exponent in range. *)
Definition is_normal (a : float) : bool :=
  match a with
  | S754_finite _ m e =>
      (Zpos (digits2_pos m) =? prec) && (3 - emax - prec <=? e)
      && (e <=? emax - prec)
  | _ => false
  end.

(** The object representation read through [(const uint * )]: sign, biased
    exponent, fraction.  [spec_float] carries no NaN payload; the quiet NaN
    pattern stands for every NaN. *)
Definition bits (a : float) : Z :=
  let sign (s : bool) := if s then Z.shiftl 1 31 else 0 in
  match a with
  | S754_zero s => sign s
  | S754_infinity s => Z.lor (sign s) 0x7F800000
  | S754_nan => 0x7FC00000
  | S754_finite s m e =>
      if Z.eqb (Zpos (digits2_pos m)) prec
      then Z.lor (sign s) (Z.lor (Z.shiftl (e + 150) 23) (Zpos m - Z.shiftl 1 23))
      else Z.lor (sign s) (Zpos m)
  end.

End F32.

Abbreviation float := F32.float.

Declare Scope f32_scope.
Delimit Scope f32_scope with f32.
Infix "+" := F32.add : f32_scope.
Infix "-" := F32.sub : f32_scope.
Infix "*" := F32.mul : f32_scope.
Infix "/" := F32.div : f32_scope.
Infix "==" := F32.eqb (at level 70) : f32_scope.
Infix "<" := F32.ltb : f32_scope.
Infix ">" := F32.gtb : f32_scope.
Notation "- x" := (F32.neg x) : f32_scope.

(* ===================================================================== *)
(** ** BLI math helpers used by the filter *)
(* ===================================================================== *)

Record float3 : Type := V3 { v3x : float; v3y : float; v3z : float }.

(** Row-major access as in C: [m i j] is [m[i][j]]. *)
Definition matrix : Type := nat -> nat -> float.

Module BLI.
Local Open Scope f32_scope.

(** [r[i]] for a [float[3]]. *)
Definition v3_get (v : float3) (i : nat) : float :=
  match i with O => v3x v | S O => v3y v | _ => v3z v end.

(** [r[i] = f] for a [float[3]]. *)
Definition v3_set (v : float3) (i : nat) (f : float) : float3 :=
  match i with
  | O => V3 f (v3y v) (v3z v)
  | S O => V3 (v3x v) f (v3z v)
  | _ => V3 (v3x v) (v3y v) f
  end.

Definition zero_v3 : float3 := V3 F32.zero F32.zero F32.zero.

(** Modelled from the spec: [clamp_f] of BLI_math_base, the value limited
    to the closed range (the fade "clamped to [-1,1]"). *)
Definition clamp_f (value min max : float) : float :=
  if value > max then max
  else if value < min then min
  else value.

(** Modelled from the spec: [pow2f] of BLI_math_base, the square. *)
Definition pow2f (x : float) : float := x * x.

(** Modelled from the spec: [add_v3_v3v3] of BLI_math_vector. *)
Definition add_v3_v3v3 (a b : float3) : float3 :=
  V3 (v3x a + v3x b) (v3y a + v3y b) (v3z a + v3z b).

(** Modelled from the spec: [sub_v3_v3v3] of BLI_math_vector. *)
Definition sub_v3_v3v3 (a b : float3) : float3 :=
  V3 (v3x a - v3x b) (v3y a - v3y b) (v3z a - v3z b).

(** Modelled from the spec: [mul_v3_v3fl] of BLI_math_vector. *)
Definition mul_v3_v3fl (a : float3) (f : float) : float3 :=
  V3 (v3x a * f) (v3y a * f) (v3z a * f).

(** Modelled from the spec: [madd_v3_v3v3fl] of BLI_math_vector,
    [r = a + b * f]. *)
Definition madd_v3_v3v3fl (a b : float3) (f : float) : float3 :=
  V3 (v3x a + v3x b * f) (v3y a + v3y b * f) (v3z a + v3z b * f).

(** Modelled from the spec: [mid_v3_v3v3] of BLI_math_vector. *)
Definition mid_v3_v3v3 (a b : float3) : float3 :=
  V3 (F32.half * (v3x a + v3x b)) (F32.half * (v3y a + v3y b))
     (F32.half * (v3z a + v3z b)).

(** Modelled from the spec: [dot_v3v3] of BLI_math_vector. *)
Definition dot_v3v3 (a b : float3) : float :=
  v3x a * v3x b + v3y a * v3y b + v3z a * v3z b.

(** Modelled from the spec: [len_v3] of BLI_math_vector, the Euclidean
    length. *)
Definition len_v3 (a : float3) : float := F32.sqrtf (dot_v3v3 a a).

(** Modelled from the spec: [unit_m3] followed by [scale_m3_fl]: the
    diagonal matrix with [scale] on the diagonal. *)
Definition scale_m3_fl (scale : float) : matrix :=
  fun i j => if Nat.eqb i j then scale else F32.zero.

(** Modelled from the spec: [mul_m3_v3] of BLI_math_matrix. *)
Definition mul_m3_v3 (M : matrix) (r : float3) : float3 :=
  let t0 := v3x r in let t1 := v3y r in let t2 := v3z r in
  V3 (M 0 0 * t0 + M 1 0 * t1 + M 2 0 * t2)
     (M 0 1 * t0 + M 1 1 * t1 + M 2 1 * t2)
     (M 0 2 * t0 + M 1 2 * t1 + M 2 2 * t2).

(** Modelled from the spec: [copy_m3_m4] of BLI_math_matrix: the upper left
    3x3 block of a 4x4 matrix. *)
Definition copy_m3_m4 (m : matrix) : matrix :=
  fun i j => if (i <? 3) && (j <? 3) then m i j else F32.zero.

(** Modelled from the spec: [mul_mat3_m4_v3] of BLI_math_matrix: the upper
    left 3x3 block of a 4x4 matrix applied to a direction. *)
Definition mul_mat3_m4_v3 (mat : matrix) (r : float3) : float3 :=
  let x := v3x r in let y := v3y r in
  V3 (x * mat 0 0 + y * mat 1 0 + mat 2 0 * v3z r)
     (x * mat 0 1 + y * mat 1 1 + mat 2 1 * v3z r)
     (x * mat 0 2 + y * mat 1 2 + mat 2 2 * v3z r).

(** [ELEM(v, a, b, ...)]: [v] equals one of the listed values. *)
Definition ELEM (v : Z) (l : list Z) : bool := existsb (Z.eqb v) l.

End BLI.

(* ===================================================================== *)
(** ** Data model *)
(* ===================================================================== *)

Inductive eSculptMeshFilterType : Type :=
  | MESH_FILTER_SMOOTH
  | MESH_FILTER_SCALE
  | MESH_FILTER_INFLATE
  | MESH_FILTER_SPHERE
  | MESH_FILTER_RANDOM
  | MESH_FILTER_RELAX
  | MESH_FILTER_RELAX_FACE_SETS
  | MESH_FILTER_SURFACE_SMOOTH
  | MESH_FILTER_SHARPEN
  | MESH_FILTER_ENHANCE_DETAILS
  | MESH_FILTER_ERASE_DISPLACEMENT.

#[global] Instance eSculptMeshFilterType_eq_dec : EqDecision eSculptMeshFilterType.
Proof. solve_decision. Defined.

(** The enumerators' integer values. *)
Definition filter_type_value (t : eSculptMeshFilterType) : Z :=
  match t with
  | MESH_FILTER_SMOOTH => 0
  | MESH_FILTER_SCALE => 1
  | MESH_FILTER_INFLATE => 2
  | MESH_FILTER_SPHERE => 3
  | MESH_FILTER_RANDOM => 4
  | MESH_FILTER_RELAX => 5
  | MESH_FILTER_RELAX_FACE_SETS => 6
  | MESH_FILTER_SURFACE_SMOOTH => 7
  | MESH_FILTER_SHARPEN => 8
  | MESH_FILTER_ENHANCE_DETAILS => 9
  | MESH_FILTER_ERASE_DISPLACEMENT => 10
  end%Z.

(** [ELEM] at the filter type enumeration. *)
Definition ELEM_type (t : eSculptMeshFilterType)
    (l : list eSculptMeshFilterType) : bool :=
  BLI.ELEM (filter_type_value t) (map filter_type_value l).

(** [eMeshFilterDeformAxis], a bit mask. *)
Definition MESH_FILTER_DEFORM_X : Z := Z.shiftl 1 0.
Definition MESH_FILTER_DEFORM_Y : Z := Z.shiftl 1 1.
Definition MESH_FILTER_DEFORM_Z : Z := Z.shiftl 1 2.

Inductive SculptFilterOrientation : Type :=
  | SCULPT_FILTER_ORIENTATION_LOCAL
  | SCULPT_FILTER_ORIENTATION_WORLD
  | SCULPT_FILTER_ORIENTATION_VIEW.

Inductive SculptUndoType : Type :=
  | SCULPT_UNDO_COORDS
  | SCULPT_UNDO_COLOR.

Inductive PBVHType : Type := PBVH_FACES | PBVH_GRIDS | PBVH_BMESH.

(** Operator return codes. *)
Inductive OperatorStatus : Type :=
  | OPERATOR_RUNNING_MODAL
  | OPERATOR_CANCELLED
  | OPERATOR_FINISHED
  | OPERATOR_PASS_THROUGH.

(** Handle of the automasking collaborator's cache. *)
Definition AutomaskingCache : Type := Z.

(** [FilterCache] of sculpt_intern.hh, restricted to the members the mesh
    filter reads or writes.  Arrays are lists indexed by vertex; a null array
    is the empty list. *)
Record FilterCache : Type := {
  enabled_axis : nat -> bool;
  enabled_force_axis : nat -> bool;
  random_seed : Z;
  surface_smooth_shape_preservation : float;
  surface_smooth_current_vertex : float;
  sharpen_smooth_ratio : float;
  sharpen_intensify_detail_strength : float;
  sharpen_curvature_smooth_iterations : Z;
  sharpen_factor : list float;
  detail_directions : list float3;
  limit_surface_co : list float3;
  orientation : SculptFilterOrientation;
  obmat : matrix;
  obmat_inv : matrix;
  viewmat : matrix;
  viewmat_inv : matrix;
  nodes : list nat;
  active_face_set : Z;
  automasking : option AutomaskingCache;
  initial_normal : float3;
  view_normal : float3;
  iteration_count : Z;
  start_filter_strength : float;
  no_orig_co : bool;
  preserve_fset_boundaries : bool
}.

(** What [SCULPT_orig_vert_data_update] hands out for a vertex. *)
Record SculptOrigVertData : Type := { od_co : float3; od_no : float3 }.

(** Calls to collaborators whose effect lies outside the modelled state, in
    the order in which the operator issues them. *)
Inductive Event : Type :=
  | EvUpdateObjectForEdit (need_pmap : bool)
  | EvStrokeIdNext
  | EvCursorGeometryInfoUpdate
  | EvVertexRandomAccessEnsure
  | EvBoundaryInfoEnsure
  | EvUndoPushBegin
  | EvUndoPushEnd
  | EvPbvhEnsureNodeLoops
  | EvPbvhUpdateNormals
  | EvPbvhUpdateBounds
  | EvStrokeLocationUpdate
  | EvAutomaskingCacheFree
  | EvFlushStrokeDeform
  | EvFlushUpdateStep
  | EvFlushUpdateDone.

(** The sculpt session with the part of the object it edits.  A PBVH leaf is
    named by its position in [pbvh_nodes] and holds the indices of its unique
    vertices. *)
Record SculptSession : Type := {
  vert_co : list float3;
  vert_no : list float3;
  vert_mask : option (list float);
  pbvh_type : PBVHType;
  pbvh_nodes : list (list nat);
  undo_coords : gmap nat SculptOrigVertData;
  laplacian_disp : list float3;
  last_normal : float3;
  deform_modifiers_active : bool;
  shapekey_active : bool;
  filter_cache : option FilterCache;
  events : list Event
}.

Definition set_vert_co (co : list float3) (ss : SculptSession) : SculptSession :=
  {| vert_co := co; vert_no := vert_no ss; vert_mask := vert_mask ss;
     pbvh_type := pbvh_type ss; pbvh_nodes := pbvh_nodes ss;
     undo_coords := undo_coords ss; laplacian_disp := laplacian_disp ss;
     last_normal := last_normal ss;
     deform_modifiers_active := deform_modifiers_active ss;
     shapekey_active := shapekey_active ss;
     filter_cache := filter_cache ss; events := events ss |}.

Definition set_vert_no (no : list float3) (ss : SculptSession) : SculptSession :=
  {| vert_co := vert_co ss; vert_no := no; vert_mask := vert_mask ss;
     pbvh_type := pbvh_type ss; pbvh_nodes := pbvh_nodes ss;
     undo_coords := undo_coords ss; laplacian_disp := laplacian_disp ss;
     last_normal := last_normal ss;
     deform_modifiers_active := deform_modifiers_active ss;
     shapekey_active := shapekey_active ss;
     filter_cache := filter_cache ss; events := events ss |}.

Definition set_undo_coords (u : gmap nat SculptOrigVertData)
    (ss : SculptSession) : SculptSession :=
  {| vert_co := vert_co ss; vert_no := vert_no ss; vert_mask := vert_mask ss;
     pbvh_type := pbvh_type ss; pbvh_nodes := pbvh_nodes ss;
     undo_coords := u; laplacian_disp := laplacian_disp ss;
     last_normal := last_normal ss;
     deform_modifiers_active := deform_modifiers_active ss;
     shapekey_active := shapekey_active ss;
     filter_cache := filter_cache ss; events := events ss |}.

Definition set_laplacian_disp (l : list float3) (ss : SculptSession)
    : SculptSession :=
  {| vert_co := vert_co ss; vert_no := vert_no ss; vert_mask := vert_mask ss;
     pbvh_type := pbvh_type ss; pbvh_nodes := pbvh_nodes ss;
     undo_coords := undo_coords ss; laplacian_disp := l;
     last_normal := last_normal ss;
     deform_modifiers_active := deform_modifiers_active ss;
     shapekey_active := shapekey_active ss;
     filter_cache := filter_cache ss; events := events ss |}.

Definition set_last_normal (n : float3) (ss : SculptSession) : SculptSession :=
  {| vert_co := vert_co ss; vert_no := vert_no ss; vert_mask := vert_mask ss;
     pbvh_type := pbvh_type ss; pbvh_nodes := pbvh_nodes ss;
     undo_coords := undo_coords ss; laplacian_disp := laplacian_disp ss;
     last_normal := n;
     deform_modifiers_active := deform_modifiers_active ss;
     shapekey_active := shapekey_active ss;
     filter_cache := filter_cache ss; events := events ss |}.

Definition set_filter_cache (fc : option FilterCache) (ss : SculptSession)
    : SculptSession :=
  {| vert_co := vert_co ss; vert_no := vert_no ss; vert_mask := vert_mask ss;
     pbvh_type := pbvh_type ss; pbvh_nodes := pbvh_nodes ss;
     undo_coords := undo_coords ss; laplacian_disp := laplacian_disp ss;
     last_normal := last_normal ss;
     deform_modifiers_active := deform_modifiers_active ss;
     shapekey_active := shapekey_active ss;
     filter_cache := fc; events := events ss |}.

(** Record one call to a collaborator. *)
Definition emit (e : Event) (ss : SculptSession) : SculptSession :=
  {| vert_co := vert_co ss; vert_no := vert_no ss; vert_mask := vert_mask ss;
     pbvh_type := pbvh_type ss; pbvh_nodes := pbvh_nodes ss;
     undo_coords := undo_coords ss; laplacian_disp := laplacian_disp ss;
     last_normal := last_normal ss;
     deform_modifiers_active := deform_modifiers_active ss;
     shapekey_active := shapekey_active ss;
     filter_cache := filter_cache ss; events := events ss ++ [e] |}.

(** The operator's RNA properties. *)
Record wmOperator : Type := {
  op_type : eSculptMeshFilterType;
  op_strength : float;
  op_deform_axis : Z;
  op_orientation : SculptFilterOrientation;
  op_start_mouse : Z * Z;
  op_area_normal_radius : float;
  op_iteration_count : Z;
  op_surface_smooth_shape_preservation : float;
  op_surface_smooth_current_vertex : float;
  op_sharpen_smooth_ratio : float;
  op_sharpen_intensify_detail_strength : float;
  op_sharpen_curvature_smooth_iterations : Z
}.

(** What the operator reads from the context when it starts. *)
Record bContext : Type := {
  ctx_automasking_enabled : bool;
  ctx_object_to_world : matrix;
  ctx_rv3d_viewmat : matrix;
  ctx_rv3d_viewinv : matrix;
  ctx_rand : Z
}.

(** The collaborators the filter calls into: topology queries, automasking,
    smoothing and relaxing kernels, hashing, the PBVH's normals, the task
    scheduler.  Each one receives the session it is called with and returns
    what the C function writes through its output arguments.
    [BKE_pbvh_update_normals] answers with the vertex normals as the PBVH
    leaves them once it has recomputed those of the nodes marked for it.
    [BLI_task_schedule] is the choice of the scheduler behind
    [BLI_task_parallel_range] for the range forked in the given session:
    turn after turn, the index of the task that proceeds. *)
Class SculptExternals : Type := {
  SCULPT_automasking_factor_get :
    option AutomaskingCache -> SculptSession -> nat -> float;
  SCULPT_automasking_cache_init : bContext -> SculptSession -> option AutomaskingCache;
  SCULPT_get_fset_projection : SculptSession -> float -> float;
  SCULPT_neighbor_coords_average_interior :
    SculptSession -> nat -> float -> float -> float3;
  SCULPT_neighbor_coords_average :
    SculptSession -> nat -> float -> float -> bool -> float3;
  SCULPT_vertex_neighbors : SculptSession -> nat -> list nat;
  SCULPT_vertex_has_unique_face_set : SculptSession -> nat -> bool;
  SCULPT_relax_vertex : SculptSession -> nat -> float -> Z -> float3;
  SCULPT_surface_smooth_laplacian_step :
    SculptSession -> float3 -> nat -> float3 -> float -> float3 * float3;
  SCULPT_surface_smooth_displace_step :
    SculptSession -> float3 -> nat -> float -> float -> float3;
  SCULPT_vertex_limit_surface_get : SculptSession -> nat -> float3;
  SCULPT_search_sphere_cb : SculptSession -> nat -> bool;
  SCULPT_stroke_get_location : bContext -> SculptSession -> Z * Z -> option float3;
  SCULPT_pbvh_calc_area_normal :
    bContext -> SculptSession -> float3 -> float -> option float3;
  BKE_pbvh_update_normals : SculptSession -> list nat -> list float3;
  BLI_task_schedule : SculptSession -> list nat;
  invert_m4_m4 : matrix -> matrix;
  normalize_v3_v3 : float3 -> float3;
  BLI_hash_int_2d : Z -> Z -> Z;
  SCULPT_BOUNDARY_MESH : Z;
  SCULPT_BOUNDARY_FACE_SET : Z;
  SCULPT_FACE_SET_NONE : Z
}.

(** [MEM_cnew<FilterCache>]: every member zero. *)
Definition FilterCache_cnew : FilterCache :=
  {| enabled_axis := fun _ => false; enabled_force_axis := fun _ => false;
     random_seed := 0;
     surface_smooth_shape_preservation := F32.zero;
     surface_smooth_current_vertex := F32.zero;
     sharpen_smooth_ratio := F32.zero;
     sharpen_intensify_detail_strength := F32.zero;
     sharpen_curvature_smooth_iterations := 0;
     sharpen_factor := []; detail_directions := []; limit_surface_co := [];
     orientation := SCULPT_FILTER_ORIENTATION_LOCAL;
     obmat := fun _ _ => F32.zero; obmat_inv := fun _ _ => F32.zero;
     viewmat := fun _ _ => F32.zero; viewmat_inv := fun _ _ => F32.zero;
     nodes := []; active_face_set := 0; automasking := None;
     initial_normal := BLI.zero_v3; view_normal := BLI.zero_v3;
     iteration_count := 0; start_filter_strength := F32.zero;
     no_orig_co := false; preserve_fset_boundaries := false |}.


(** Member updates of [FilterCache]. *)

(** [start_filter_strength] and [random_seed]. *)
Definition fc_set_start (strength : float) (seed : Z) (fc : FilterCache)
    : FilterCache :=
  {| enabled_axis := enabled_axis fc;
     enabled_force_axis := enabled_force_axis fc; random_seed := seed;
     surface_smooth_shape_preservation := surface_smooth_shape_preservation fc;
     surface_smooth_current_vertex := surface_smooth_current_vertex fc;
     sharpen_smooth_ratio := sharpen_smooth_ratio fc;
     sharpen_intensify_detail_strength := sharpen_intensify_detail_strength fc;
     sharpen_curvature_smooth_iterations := sharpen_curvature_smooth_iterations fc;
     sharpen_factor := sharpen_factor fc;
     detail_directions := detail_directions fc;
     limit_surface_co := limit_surface_co fc; orientation := orientation fc;
     obmat := obmat fc; obmat_inv := obmat_inv fc; viewmat := viewmat fc;
     viewmat_inv := viewmat_inv fc; nodes := nodes fc;
     active_face_set := active_face_set fc; automasking := automasking fc;
     initial_normal := initial_normal fc; view_normal := view_normal fc;
     iteration_count := iteration_count fc;
     start_filter_strength := strength; no_orig_co := no_orig_co fc;
     preserve_fset_boundaries := preserve_fset_boundaries fc |}.

(** [nodes] (and with it [totnode]). *)
Definition fc_set_nodes (gathered : list nat) (fc : FilterCache)
    : FilterCache :=
  {| enabled_axis := enabled_axis fc;
     enabled_force_axis := enabled_force_axis fc;
     random_seed := random_seed fc;
     surface_smooth_shape_preservation := surface_smooth_shape_preservation fc;
     surface_smooth_current_vertex := surface_smooth_current_vertex fc;
     sharpen_smooth_ratio := sharpen_smooth_ratio fc;
     sharpen_intensify_detail_strength := sharpen_intensify_detail_strength fc;
     sharpen_curvature_smooth_iterations := sharpen_curvature_smooth_iterations fc;
     sharpen_factor := sharpen_factor fc;
     detail_directions := detail_directions fc;
     limit_surface_co := limit_surface_co fc; orientation := orientation fc;
     obmat := obmat fc; obmat_inv := obmat_inv fc; viewmat := viewmat fc;
     viewmat_inv := viewmat_inv fc; nodes := gathered;
     active_face_set := active_face_set fc; automasking := automasking fc;
     initial_normal := initial_normal fc; view_normal := view_normal fc;
     iteration_count := iteration_count fc;
     start_filter_strength := start_filter_strength fc;
     no_orig_co := no_orig_co fc;
     preserve_fset_boundaries := preserve_fset_boundaries fc |}.

(** The orientation matrices. *)
Definition fc_set_matrices (ob : matrix) (ob_inv : matrix) (view : matrix)
    (view_inv : matrix) (fc : FilterCache)
    : FilterCache :=
  {| enabled_axis := enabled_axis fc;
     enabled_force_axis := enabled_force_axis fc;
     random_seed := random_seed fc;
     surface_smooth_shape_preservation := surface_smooth_shape_preservation fc;
     surface_smooth_current_vertex := surface_smooth_current_vertex fc;
     sharpen_smooth_ratio := sharpen_smooth_ratio fc;
     sharpen_intensify_detail_strength := sharpen_intensify_detail_strength fc;
     sharpen_curvature_smooth_iterations := sharpen_curvature_smooth_iterations fc;
     sharpen_factor := sharpen_factor fc;
     detail_directions := detail_directions fc;
     limit_surface_co := limit_surface_co fc; orientation := orientation fc;
     obmat := ob; obmat_inv := ob_inv; viewmat := view;
     viewmat_inv := view_inv; nodes := nodes fc;
     active_face_set := active_face_set fc; automasking := automasking fc;
     initial_normal := initial_normal fc; view_normal := view_normal fc;
     iteration_count := iteration_count fc;
     start_filter_strength := start_filter_strength fc;
     no_orig_co := no_orig_co fc;
     preserve_fset_boundaries := preserve_fset_boundaries fc |}.

(** [initial_normal]. *)
Definition fc_set_initial_normal (normal : float3) (fc : FilterCache)
    : FilterCache :=
  {| enabled_axis := enabled_axis fc;
     enabled_force_axis := enabled_force_axis fc;
     random_seed := random_seed fc;
     surface_smooth_shape_preservation := surface_smooth_shape_preservation fc;
     surface_smooth_current_vertex := surface_smooth_current_vertex fc;
     sharpen_smooth_ratio := sharpen_smooth_ratio fc;
     sharpen_intensify_detail_strength := sharpen_intensify_detail_strength fc;
     sharpen_curvature_smooth_iterations := sharpen_curvature_smooth_iterations fc;
     sharpen_factor := sharpen_factor fc;
     detail_directions := detail_directions fc;
     limit_surface_co := limit_surface_co fc; orientation := orientation fc;
     obmat := obmat fc; obmat_inv := obmat_inv fc; viewmat := viewmat fc;
     viewmat_inv := viewmat_inv fc; nodes := nodes fc;
     active_face_set := active_face_set fc; automasking := automasking fc;
     initial_normal := normal; view_normal := view_normal fc;
     iteration_count := iteration_count fc;
     start_filter_strength := start_filter_strength fc;
     no_orig_co := no_orig_co fc;
     preserve_fset_boundaries := preserve_fset_boundaries fc |}.

(** [view_normal]. *)
Definition fc_set_view_normal (normal : float3) (fc : FilterCache)
    : FilterCache :=
  {| enabled_axis := enabled_axis fc;
     enabled_force_axis := enabled_force_axis fc;
     random_seed := random_seed fc;
     surface_smooth_shape_preservation := surface_smooth_shape_preservation fc;
     surface_smooth_current_vertex := surface_smooth_current_vertex fc;
     sharpen_smooth_ratio := sharpen_smooth_ratio fc;
     sharpen_intensify_detail_strength := sharpen_intensify_detail_strength fc;
     sharpen_curvature_smooth_iterations := sharpen_curvature_smooth_iterations fc;
     sharpen_factor := sharpen_factor fc;
     detail_directions := detail_directions fc;
     limit_surface_co := limit_surface_co fc; orientation := orientation fc;
     obmat := obmat fc; obmat_inv := obmat_inv fc; viewmat := viewmat fc;
     viewmat_inv := viewmat_inv fc; nodes := nodes fc;
     active_face_set := active_face_set fc; automasking := automasking fc;
     initial_normal := initial_normal fc; view_normal := normal;
     iteration_count := iteration_count fc;
     start_filter_strength := start_filter_strength fc;
     no_orig_co := no_orig_co fc;
     preserve_fset_boundaries := preserve_fset_boundaries fc |}.

(** [active_face_set] and [automasking]. *)
Definition fc_set_automasking (face_set : Z)
    (handle : option AutomaskingCache) (fc : FilterCache)
    : FilterCache :=
  {| enabled_axis := enabled_axis fc;
     enabled_force_axis := enabled_force_axis fc;
     random_seed := random_seed fc;
     surface_smooth_shape_preservation := surface_smooth_shape_preservation fc;
     surface_smooth_current_vertex := surface_smooth_current_vertex fc;
     sharpen_smooth_ratio := sharpen_smooth_ratio fc;
     sharpen_intensify_detail_strength := sharpen_intensify_detail_strength fc;
     sharpen_curvature_smooth_iterations := sharpen_curvature_smooth_iterations fc;
     sharpen_factor := sharpen_factor fc;
     detail_directions := detail_directions fc;
     limit_surface_co := limit_surface_co fc; orientation := orientation fc;
     obmat := obmat fc; obmat_inv := obmat_inv fc; viewmat := viewmat fc;
     viewmat_inv := viewmat_inv fc; nodes := nodes fc;
     active_face_set := face_set; automasking := handle;
     initial_normal := initial_normal fc; view_normal := view_normal fc;
     iteration_count := iteration_count fc;
     start_filter_strength := start_filter_strength fc;
     no_orig_co := no_orig_co fc;
     preserve_fset_boundaries := preserve_fset_boundaries fc |}.

(** The two tuning scalars of Surface Smooth. *)
Definition fc_set_surface_smooth (shape_preservation : float)
    (current_vertex : float) (fc : FilterCache)
    : FilterCache :=
  {| enabled_axis := enabled_axis fc;
     enabled_force_axis := enabled_force_axis fc;
     random_seed := random_seed fc;
     surface_smooth_shape_preservation := shape_preservation;
     surface_smooth_current_vertex := current_vertex;
     sharpen_smooth_ratio := sharpen_smooth_ratio fc;
     sharpen_intensify_detail_strength := sharpen_intensify_detail_strength fc;
     sharpen_curvature_smooth_iterations := sharpen_curvature_smooth_iterations fc;
     sharpen_factor := sharpen_factor fc;
     detail_directions := detail_directions fc;
     limit_surface_co := limit_surface_co fc; orientation := orientation fc;
     obmat := obmat fc; obmat_inv := obmat_inv fc; viewmat := viewmat fc;
     viewmat_inv := viewmat_inv fc; nodes := nodes fc;
     active_face_set := active_face_set fc; automasking := automasking fc;
     initial_normal := initial_normal fc; view_normal := view_normal fc;
     iteration_count := iteration_count fc;
     start_filter_strength := start_filter_strength fc;
     no_orig_co := no_orig_co fc;
     preserve_fset_boundaries := preserve_fset_boundaries fc |}.

(** The members [mesh_filter_sharpen_init] fills. *)
Definition fc_set_sharpen (smooth_ratio : float) (intensify : float)
    (iterations : Z) (factor : list float) (directions : list float3)
    (fc : FilterCache)
    : FilterCache :=
  {| enabled_axis := enabled_axis fc;
     enabled_force_axis := enabled_force_axis fc;
     random_seed := random_seed fc;
     surface_smooth_shape_preservation := surface_smooth_shape_preservation fc;
     surface_smooth_current_vertex := surface_smooth_current_vertex fc;
     sharpen_smooth_ratio := smooth_ratio;
     sharpen_intensify_detail_strength := intensify;
     sharpen_curvature_smooth_iterations := iterations;
     sharpen_factor := factor; detail_directions := directions;
     limit_surface_co := limit_surface_co fc; orientation := orientation fc;
     obmat := obmat fc; obmat_inv := obmat_inv fc; viewmat := viewmat fc;
     viewmat_inv := viewmat_inv fc; nodes := nodes fc;
     active_face_set := active_face_set fc; automasking := automasking fc;
     initial_normal := initial_normal fc; view_normal := view_normal fc;
     iteration_count := iteration_count fc;
     start_filter_strength := start_filter_strength fc;
     no_orig_co := no_orig_co fc;
     preserve_fset_boundaries := preserve_fset_boundaries fc |}.

(** [detail_directions]. *)
Definition fc_set_detail_directions (directions : list float3)
    (fc : FilterCache)
    : FilterCache :=
  {| enabled_axis := enabled_axis fc;
     enabled_force_axis := enabled_force_axis fc;
     random_seed := random_seed fc;
     surface_smooth_shape_preservation := surface_smooth_shape_preservation fc;
     surface_smooth_current_vertex := surface_smooth_current_vertex fc;
     sharpen_smooth_ratio := sharpen_smooth_ratio fc;
     sharpen_intensify_detail_strength := sharpen_intensify_detail_strength fc;
     sharpen_curvature_smooth_iterations := sharpen_curvature_smooth_iterations fc;
     sharpen_factor := sharpen_factor fc; detail_directions := directions;
     limit_surface_co := limit_surface_co fc; orientation := orientation fc;
     obmat := obmat fc; obmat_inv := obmat_inv fc; viewmat := viewmat fc;
     viewmat_inv := viewmat_inv fc; nodes := nodes fc;
     active_face_set := active_face_set fc; automasking := automasking fc;
     initial_normal := initial_normal fc; view_normal := view_normal fc;
     iteration_count := iteration_count fc;
     start_filter_strength := start_filter_strength fc;
     no_orig_co := no_orig_co fc;
     preserve_fset_boundaries := preserve_fset_boundaries fc |}.

(** [limit_surface_co]. *)
Definition fc_set_limit_surface_co (limit : list float3) (fc : FilterCache)
    : FilterCache :=
  {| enabled_axis := enabled_axis fc;
     enabled_force_axis := enabled_force_axis fc;
     random_seed := random_seed fc;
     surface_smooth_shape_preservation := surface_smooth_shape_preservation fc;
     surface_smooth_current_vertex := surface_smooth_current_vertex fc;
     sharpen_smooth_ratio := sharpen_smooth_ratio fc;
     sharpen_intensify_detail_strength := sharpen_intensify_detail_strength fc;
     sharpen_curvature_smooth_iterations := sharpen_curvature_smooth_iterations fc;
     sharpen_factor := sharpen_factor fc;
     detail_directions := detail_directions fc; limit_surface_co := limit;
     orientation := orientation fc; obmat := obmat fc;
     obmat_inv := obmat_inv fc; viewmat := viewmat fc;
     viewmat_inv := viewmat_inv fc; nodes := nodes fc;
     active_face_set := active_face_set fc; automasking := automasking fc;
     initial_normal := initial_normal fc; view_normal := view_normal fc;
     iteration_count := iteration_count fc;
     start_filter_strength := start_filter_strength fc;
     no_orig_co := no_orig_co fc;
     preserve_fset_boundaries := preserve_fset_boundaries fc |}.

(** [enabled_axis] and [orientation]. *)
Definition fc_set_axis_orientation (axis : nat -> bool)
    (orient : SculptFilterOrientation) (fc : FilterCache)
    : FilterCache :=
  {| enabled_axis := axis; enabled_force_axis := enabled_force_axis fc;
     random_seed := random_seed fc;
     surface_smooth_shape_preservation := surface_smooth_shape_preservation fc;
     surface_smooth_current_vertex := surface_smooth_current_vertex fc;
     sharpen_smooth_ratio := sharpen_smooth_ratio fc;
     sharpen_intensify_detail_strength := sharpen_intensify_detail_strength fc;
     sharpen_curvature_smooth_iterations := sharpen_curvature_smooth_iterations fc;
     sharpen_factor := sharpen_factor fc;
     detail_directions := detail_directions fc;
     limit_surface_co := limit_surface_co fc; orientation := orient;
     obmat := obmat fc; obmat_inv := obmat_inv fc; viewmat := viewmat fc;
     viewmat_inv := viewmat_inv fc; nodes := nodes fc;
     active_face_set := active_face_set fc; automasking := automasking fc;
     initial_normal := initial_normal fc; view_normal := view_normal fc;
     iteration_count := iteration_count fc;
     start_filter_strength := start_filter_strength fc;
     no_orig_co := no_orig_co fc;
     preserve_fset_boundaries := preserve_fset_boundaries fc |}.

(** [iteration_count]. *)
Definition fc_set_iteration_count (count : Z) (fc : FilterCache)
    : FilterCache :=
  {| enabled_axis := enabled_axis fc;
     enabled_force_axis := enabled_force_axis fc;
     random_seed := random_seed fc;
     surface_smooth_shape_preservation := surface_smooth_shape_preservation fc;
     surface_smooth_current_vertex := surface_smooth_current_vertex fc;
     sharpen_smooth_ratio := sharpen_smooth_ratio fc;
     sharpen_intensify_detail_strength := sharpen_intensify_detail_strength fc;
     sharpen_curvature_smooth_iterations := sharpen_curvature_smooth_iterations fc;
     sharpen_factor := sharpen_factor fc;
     detail_directions := detail_directions fc;
     limit_surface_co := limit_surface_co fc; orientation := orientation fc;
     obmat := obmat fc; obmat_inv := obmat_inv fc; viewmat := viewmat fc;
     viewmat_inv := viewmat_inv fc; nodes := nodes fc;
     active_face_set := active_face_set fc; automasking := automasking fc;
     initial_normal := initial_normal fc; view_normal := view_normal fc;
     iteration_count := count;
     start_filter_strength := start_filter_strength fc;
     no_orig_co := no_orig_co fc;
     preserve_fset_boundaries := preserve_fset_boundaries fc |}.

(* ===================================================================== *)
(** ** The operator *)
(* ===================================================================== *)

Section Filter.
Context `{SculptExternals}.
Local Open Scope f32_scope.

(** *** Orientation frames *)

Definition SCULPT_filter_to_orientation_space (r_v : float3)
    (filter_cache : FilterCache) : float3 :=
  match orientation filter_cache with
  | SCULPT_FILTER_ORIENTATION_LOCAL =>
      (* Do nothing, Sculpt Mode already works in object space. *)
      r_v
  | SCULPT_FILTER_ORIENTATION_WORLD =>
      BLI.mul_mat3_m4_v3 (obmat filter_cache) r_v
  | SCULPT_FILTER_ORIENTATION_VIEW =>
      BLI.mul_mat3_m4_v3 (viewmat filter_cache)
        (BLI.mul_mat3_m4_v3 (obmat filter_cache) r_v)
  end.

Definition SCULPT_filter_to_object_space (r_v : float3)
    (filter_cache : FilterCache) : float3 :=
  match orientation filter_cache with
  | SCULPT_FILTER_ORIENTATION_LOCAL => r_v
  | SCULPT_FILTER_ORIENTATION_WORLD =>
      BLI.mul_mat3_m4_v3 (obmat_inv filter_cache) r_v
  | SCULPT_FILTER_ORIENTATION_VIEW =>
      BLI.mul_mat3_m4_v3 (obmat_inv filter_cache)
        (BLI.mul_mat3_m4_v3 (viewmat_inv filter_cache) r_v)
  end.

(** [for (axis = 0; axis < 3; axis++) if (!enabled[axis]) r_v[axis] = 0.0f;] *)
Definition zero_disabled_axes (enabled : nat -> bool) (r_v : float3) : float3 :=
  fold_left
    (fun r axis => if negb (enabled axis) then BLI.v3_set r axis F32.zero else r)
    (seq 0 3) r_v.

Definition SCULPT_filter_zero_disabled_axis_components (r_v : float3)
    (filter_cache : FilterCache) : float3 :=
  let r_v := SCULPT_filter_to_orientation_space r_v filter_cache in
  let r_v := zero_disabled_axes (enabled_force_axis filter_cache) r_v in
  SCULPT_filter_to_object_space r_v filter_cache.

(** *** Vertices, nodes, parallel ranges *)

(** [vd.co] / [SCULPT_vertex_co_get]: the live coordinate of a vertex. *)
Definition SCULPT_vertex_co_get (ss : SculptSession) (v : nat) : float3 :=
  default BLI.zero_v3 (vert_co ss !! v).

Definition SCULPT_vertex_normal_get (ss : SculptSession) (v : nat) : float3 :=
  default BLI.zero_v3 (vert_no ss !! v).

Definition SCULPT_vertex_count_get (ss : SculptSession) : nat :=
  length (vert_co ss).

(** [BKE_pbvh_vertex_iter_begin (pbvh, node, vd, PBVH_ITER_UNIQUE)]: the
    vertices the loop over a node visits. *)
Definition node_unique_verts (ss : SculptSession) (node : nat) : list nat :=
  default [] (pbvh_nodes ss !! node).

(** [copy_v3_v3(vd.co, co)]. *)
Definition write_vd_co (v : nat) (co : float3) (ss : SculptSession)
    : SculptSession :=
  set_vert_co (<[v := co]> (vert_co ss)) ss.

(** The turns the tasks of a parallel range take, in the order in which
    they take them.  [tasks] holds, task by task, the turns still to come;
    [order] names, turn after turn, the task that proceeds, a task with
    nothing left letting its turn pass.  When [order] is used up the tasks
    run to their ends one after the other. *)
Fixpoint BLI_task_turns {A : Type} (order : list nat) (tasks : list (list A))
    : list A :=
  match order with
  | [] => concat tasks
  | i :: order =>
      match tasks !! i with
      | Some (turn :: rest) => turn :: BLI_task_turns order (<[i := rest]> tasks)
      | _ => BLI_task_turns order tasks
      end
  end.

(** Modelled from the spec: [BLI_task_parallel_range] of BLI_task.h is a
    synchronous fork-join, one task per index of the range: the tasks have
    no required order relative to each other, and the call returns when
    all of them have run.  A task is given by the turns [func] lists for
    its index, a turn being what the task does to the shared state
    ([turn]) between two points at which another task may proceed;
    [order] is the scheduler's choice. *)
Definition BLI_task_parallel_range {S A : Type} (start stop : nat)
    (func : nat -> list A) (turn : S -> A -> S) (order : list nat) (s : S)
    : S :=
  fold_left turn (BLI_task_turns order (map func (seq start (stop - start)))) s.

(** *** The undo collaborator *)

(** Modelled from the spec: [SCULPT_undo_push_begin] of sculpt_undo.cc
    opens a fresh undo step; nothing is recorded in it yet. *)
Definition SCULPT_undo_push_begin (ss : SculptSession) : SculptSession :=
  emit EvUndoPushBegin (set_undo_coords ∅ ss).

(** Modelled from the spec: [SCULPT_undo_push_node] of sculpt_undo.cc
    snapshots the original coordinate and normal of the node's vertices
    into the open undo step; what the step already holds is kept. *)
Definition SCULPT_undo_push_node (node : nat) (ss : SculptSession)
    : SculptSession :=
  set_undo_coords
    (fold_left
       (fun u v =>
          match u !! v with
          | Some _ => u
          | None =>
              <[v := {| od_co := SCULPT_vertex_co_get ss v;
                        od_no := SCULPT_vertex_normal_get ss v |}]> u
          end)
       (node_unique_verts ss node) (undo_coords ss))
    ss.

(** Modelled from the spec: [SCULPT_orig_vert_data_init] of sculpt.cc
    fetches the node's snapshot, taking it when there is none. *)
Definition SCULPT_orig_vert_data_init (node : nat) (ss : SculptSession)
    : SculptSession :=
  SCULPT_undo_push_node node ss.

(** Modelled from the spec: [SCULPT_orig_vert_data_update] of sculpt.cc
    reads the vertex's snapshot. *)
Definition SCULPT_orig_vert_data_update (ss : SculptSession) (v : nat)
    : SculptOrigVertData :=
  default {| od_co := SCULPT_vertex_co_get ss v;
             od_no := SCULPT_vertex_normal_get ss v |}
          (undo_coords ss !! v).

(** The task of index [i] takes one turn, [SCULPT_undo_push_node] on its
    node. *)
Definition filter_cache_init_task_cb (nodes : list nat) (i : nat) : list nat :=
  match nodes !! i with
  | Some node => [node]
  | None => []
  end.

(** [BKE_pbvh_update_normals(pbvh, subdiv_ccg)] once the nodes [marked] have
    been marked for it ([BKE_pbvh_node_mark_normals_update],
    [BKE_pbvh_node_mark_update]): the vertex normals are rewritten. *)
Definition pbvh_update_normals (marked : list nat) (ss : SculptSession)
    : SculptSession :=
  emit EvPbvhUpdateNormals (set_vert_no (BKE_pbvh_update_normals ss marked) ss).

(** *** Cache construction and release *)

Definition SCULPT_filter_cache_init (C : bContext) (undo_type : SculptUndoType)
    (mval : Z * Z) (area_normal_radius start_strength : float)
    (ss : SculptSession) : SculptSession :=
  let fc := fc_set_start start_strength (ctx_rand C) FilterCache_cnew in
  let ss := set_filter_cache (Some fc) ss in
  let ss := if undo_type is SCULPT_UNDO_COLOR
            then emit EvPbvhEnsureNodeLoops ss else ss in
  (* BKE_pbvh_search_gather with SCULPT_search_sphere_cb: centre 0, radius
     FLT_MAX, original, ignore_fully_ineffective. *)
  let gathered :=
    filter (fun n => SCULPT_search_sphere_cb ss n = true)
           (seq 0 (length (pbvh_nodes ss))) in
  let fc := fc_set_nodes gathered fc in
  let ss := set_filter_cache (Some fc) ss in
  let totnode := length gathered in
  (* for (i = 0; i < totnode; i++)
       BKE_pbvh_node_mark_normals_update(nodes[i]); *)
  let marked := gathered in
  (* mesh->runtime.subdiv_ccg is not available. Updating of the normals is
     done during drawing. Filters can't use normals in multi-resolution. *)
  let ss := if pbvh_type ss is PBVH_GRIDS then ss
            else pbvh_update_normals marked ss in
  let ss :=
    BLI_task_parallel_range 0 totnode (filter_cache_init_task_cb gathered)
      (fun ss node => SCULPT_undo_push_node node ss) (BLI_task_schedule ss) ss in
  (* Setup orientation matrices. *)
  let fc :=
    fc_set_matrices (ctx_object_to_world C)
      (invert_m4_m4 (ctx_object_to_world C))
      (ctx_rv3d_viewmat C) (ctx_rv3d_viewinv C) fc in
  let ss := set_filter_cache (Some fc) ss in
  let '(fc, ss) :=
    match SCULPT_stroke_get_location C ss mval with
    | Some co =>
        let '(fc, ss) :=
          match SCULPT_pbvh_calc_area_normal C ss co area_normal_radius with
          | Some n => (fc_set_initial_normal n fc, set_last_normal n ss)
          | None => (fc_set_initial_normal (last_normal ss) fc, ss)
          end in
        (* Update last stroke location *)
        (fc, emit EvStrokeLocationUpdate ss)
    | None =>
        (* Use last normal. *)
        (fc_set_initial_normal (last_normal ss) fc, ss)
    end in
  let ss := set_filter_cache (Some fc) ss in
  (* Update view normal; ED_view3d_ob_project_mat_get fills projection_mat,
     which is not read. *)
  let viewDir := V3 F32.zero F32.zero F32.one in
  let world_to_object := invert_m4_m4 (ctx_object_to_world C) in
  let mat := BLI.copy_m3_m4 (ctx_rv3d_viewinv C) in
  let viewDir := BLI.mul_m3_v3 mat viewDir in
  let mat := BLI.copy_m3_m4 world_to_object in
  let viewDir := BLI.mul_m3_v3 mat viewDir in
  let fc := fc_set_view_normal (normalize_v3_v3 viewDir) fc in
  set_filter_cache (Some fc) ss.

Definition SCULPT_filter_cache_free (ss : SculptSession) : option SculptSession :=
  match filter_cache ss with
  | None => None
  | Some fc =>
      let ss := if automasking fc is Some _
                then emit EvAutomaskingCacheFree ss else ss in
      Some (set_filter_cache None ss)
  end.

Definition sculpt_mesh_filter_needs_pmap (filter_type : eSculptMeshFilterType)
    : bool :=
  ELEM_type filter_type
    [MESH_FILTER_SMOOTH; MESH_FILTER_RELAX; MESH_FILTER_RELAX_FACE_SETS;
     MESH_FILTER_SURFACE_SMOOTH; MESH_FILTER_ENHANCE_DETAILS;
     MESH_FILTER_SHARPEN].

Definition sculpt_mesh_filter_is_continuous (type : eSculptMeshFilterType)
    : bool :=
  ELEM_type type
    [MESH_FILTER_SHARPEN; MESH_FILTER_SMOOTH; MESH_FILTER_RELAX;
     MESH_FILTER_RELAX_FACE_SETS].

(** *** The per-vertex filter, [mesh_filter_task_cb] *)

(** [fade]: paint mask, strength and automasking combined. *)
Definition vertex_fade (fc : FilterCache) (ss : SculptSession)
    (filter_strength : float) (v : nat) : float :=
  let fade := match vert_mask ss with
              | Some mask => default F32.zero (mask !! v)
              | None => F32.zero
              end in
  let fade := F32.one - fade in
  let fade := fade * filter_strength in
  fade * SCULPT_automasking_factor_get (automasking fc) ss v.

(** When using the relax face sets meshes filter, each 3 iterations, do a
    whole mesh relax to smooth the contents of the Face Set. *)
Definition relax_face_sets_mode (fc : FilterCache) : bool :=
  negb (Z.rem (iteration_count fc) 3 =? 0)%Z.

(** Which coordinate the displacement is taken from. *)
Definition vertex_orig_co (fc : FilterCache) (ss : SculptSession)
    (filter_type : eSculptMeshFilterType) (v : nat) : float3 :=
  if ELEM_type filter_type [MESH_FILTER_RELAX; MESH_FILTER_RELAX_FACE_SETS]
     || no_orig_co fc
  then SCULPT_vertex_co_get ss v
  else od_co (SCULPT_orig_vert_data_update ss v).

(** The hash of the Random filter.  Index is not unique for
    multi-resolution, so hash by vertex coordinates. *)
Definition random_hash (orig_co : float3) (random_seed : Z) : Z :=
  Z.lxor
    (BLI_hash_int_2d (F32.bits (v3x orig_co)) (F32.bits (v3y orig_co)))
    (BLI_hash_int_2d (F32.bits (v3z orig_co)) (random_seed mod 2 ^ 32)%Z).

Definition random_disp (normal orig_co : float3) (random_seed : Z)
    (fade : float) : float3 :=
  let hash := random_hash orig_co random_seed in
  let normal :=
    BLI.mul_v3_v3fl normal
      (F32.of_Z hash * (F32.one / F32.of_Z 0xFFFFFFFF) - F32.half) in
  BLI.mul_v3_v3fl normal fade.

(** The boundary rule handed to the relax kernel by Relax Face Sets. *)
Definition relax_face_sets_boundtype (relax_face_sets : bool) : Z :=
  let boundtype := SCULPT_BOUNDARY_MESH in
  if relax_face_sets then Z.lor boundtype SCULPT_BOUNDARY_FACE_SET
  else boundtype.

Definition sharpen_disp (fc : FilterCache) (ss : SculptSession) (v : nat)
    (projection : float) : float3 :=
  let smooth_ratio := sharpen_smooth_ratio fc in
  let factor i := default F32.zero (sharpen_factor fc !! i) in
  let disp_sharpen :=
    fold_left
      (fun acc ni =>
         let disp_n := BLI.sub_v3_v3v3 (SCULPT_vertex_co_get ss ni)
                                       (SCULPT_vertex_co_get ss v) in
         let disp_n := BLI.mul_v3_v3fl disp_n (factor ni) in
         BLI.add_v3_v3v3 acc disp_n)
      (SCULPT_vertex_neighbors ss v) BLI.zero_v3 in
  let disp_sharpen := BLI.mul_v3_v3fl disp_sharpen (F32.one - factor v) in
  let avg_co :=
    SCULPT_neighbor_coords_average ss v projection
      (if preserve_fset_boundaries fc then F32.zero else F32.one) true in
  let disp_avg := BLI.sub_v3_v3v3 avg_co (SCULPT_vertex_co_get ss v) in
  let disp_avg :=
    BLI.mul_v3_v3fl disp_avg (smooth_ratio * BLI.pow2f (factor v)) in
  let disp := BLI.add_v3_v3v3 disp_avg disp_sharpen in
  (* Intensify details. *)
  if sharpen_intensify_detail_strength fc > F32.zero then
    let detail_strength := default BLI.zero_v3 (detail_directions fc !! v) in
    BLI.madd_v3_v3v3fl disp detail_strength
      (- sharpen_intensify_detail_strength fc * factor v)
  else disp.

(** The [switch (filter_type)]: the displacement, the fade as the case
    leaves it, and the Laplacian the Surface Smooth case stores. *)
Definition mesh_filter_displacement (fc : FilterCache) (ss : SculptSession)
    (filter_type : eSculptMeshFilterType) (v : nat)
    (orig_data : SculptOrigVertData) (orig_co : float3) (fade : float)
    (relax_face_sets : bool) (projection fset_projection : float)
    : float3 * float * option float3 :=
  let vd_co := SCULPT_vertex_co_get ss v in
  match filter_type with
  | MESH_FILTER_SMOOTH =>
      let fade := BLI.clamp_f fade F32.minus_one F32.one in
      let avg :=
        SCULPT_neighbor_coords_average_interior ss v projection fset_projection in
      let val := BLI.sub_v3_v3v3 avg orig_co in
      let val := BLI.madd_v3_v3v3fl orig_co val fade in
      (BLI.sub_v3_v3v3 val orig_co, fade, None)
  | MESH_FILTER_INFLATE =>
      (BLI.mul_v3_v3fl (od_no orig_data) fade, fade, None)
  | MESH_FILTER_SCALE =>
      let transform := BLI.scale_m3_fl (F32.one + fade) in
      let val := BLI.mul_m3_v3 transform orig_co in
      (BLI.sub_v3_v3v3 val orig_co, fade, None)
  | MESH_FILTER_SPHERE =>
      let disp := normalize_v3_v3 orig_co in
      let disp := if fade > F32.zero then BLI.mul_v3_v3fl disp fade
                  else BLI.mul_v3_v3fl disp (- fade) in
      let transform :=
        if fade > F32.zero then BLI.scale_m3_fl (F32.one - fade)
        else BLI.scale_m3_fl (F32.one + fade) in
      let val := BLI.mul_m3_v3 transform orig_co in
      let disp2 := BLI.sub_v3_v3v3 val orig_co in
      (BLI.mid_v3_v3v3 disp disp2, fade, None)
  | MESH_FILTER_RANDOM =>
      (random_disp (od_no orig_data) orig_co (random_seed fc) fade, fade, None)
  | MESH_FILTER_RELAX =>
      let val :=
        SCULPT_relax_vertex ss v (BLI.clamp_f fade F32.zero F32.one)
          SCULPT_BOUNDARY_MESH in
      (BLI.sub_v3_v3v3 val vd_co, fade, None)
  | MESH_FILTER_RELAX_FACE_SETS =>
      let boundtype := relax_face_sets_boundtype relax_face_sets in
      let val :=
        SCULPT_relax_vertex ss v (BLI.clamp_f fade F32.zero F32.one) boundtype in
      (BLI.sub_v3_v3v3 val vd_co, fade, None)
  | MESH_FILTER_SURFACE_SMOOTH =>
      let '(disp, laplacian) :=
        SCULPT_surface_smooth_laplacian_step ss vd_co v (od_co orig_data)
          F32.one in
      (disp, fade, Some laplacian)
  | MESH_FILTER_SHARPEN =>
      (* This filter can't work at full strength as it needs multiple
         iterations to reach a stable state. *)
      let fade := BLI.clamp_f fade F32.zero F32.half in
      (sharpen_disp fc ss v projection, fade, None)
  | MESH_FILTER_ENHANCE_DETAILS =>
      (BLI.mul_v3_v3fl (default BLI.zero_v3 (detail_directions fc !! v))
         (- F32.fabsf fade), fade, None)
  | MESH_FILTER_ERASE_DISPLACEMENT =>
      let fade := BLI.clamp_f fade F32.minus_one F32.one in
      let disp :=
        BLI.sub_v3_v3v3 (default BLI.zero_v3 (limit_surface_co fc !! v))
          orig_co in
      (BLI.mul_v3_v3fl disp fade, fade, None)
  end.

(** Lines 544-550: into the orientation frame, disabled axes zeroed, back
    to object space. *)
Definition mesh_filter_project_disp (fc : FilterCache) (disp : float3)
    : float3 :=
  let disp := SCULPT_filter_to_orientation_space disp fc in
  let disp := zero_disabled_axes (enabled_axis fc) disp in
  SCULPT_filter_to_object_space disp fc.

(** The body of the vertex loop.  [None] is [continue]: the vertex is
    skipped; otherwise the final position and the Laplacian to store. *)
Definition mesh_filter_vertex (fc : FilterCache) (ss : SculptSession)
    (filter_type : eSculptMeshFilterType) (filter_strength : float)
    (v : nat) : option (float3 * option float3) :=
  let relax_face_sets := relax_face_sets_mode fc in
  let fset_projection :=
    SCULPT_get_fset_projection ss
      (if preserve_fset_boundaries fc then F32.one else F32.zero) in
  let projection := F32.zero in
  let orig_data := SCULPT_orig_vert_data_update ss v in
  let fade := vertex_fade fc ss filter_strength v in
  if (fade == F32.zero)
     && negb (ELEM_type filter_type [MESH_FILTER_SURFACE_SMOOTH])
  then
    (* Surface Smooth can't skip the loop for this vertex as it needs to
       calculate its laplacian_disp. *)
    None
  else
    let orig_co := vertex_orig_co fc ss filter_type v in
    if ELEM_type filter_type [MESH_FILTER_RELAX_FACE_SETS]
       && Bool.eqb relax_face_sets (SCULPT_vertex_has_unique_face_set ss v)
    then None
    else
      let '(disp, fade, laplacian) :=
        mesh_filter_displacement fc ss filter_type v orig_data orig_co fade
          relax_face_sets projection fset_projection in
      let disp := mesh_filter_project_disp fc disp in
      let final_pos :=
        if ELEM_type filter_type [MESH_FILTER_SURFACE_SMOOTH; MESH_FILTER_SHARPEN]
        then BLI.madd_v3_v3v3fl (SCULPT_vertex_co_get ss v) disp
               (BLI.clamp_f fade F32.zero F32.one)
        else BLI.add_v3_v3v3 orig_co disp in
      Some (final_pos, laplacian).

(** One turn of the vertex loop on the session. *)
Definition mesh_filter_vertex_step (fc : FilterCache)
    (filter_type : eSculptMeshFilterType) (filter_strength : float)
    (ss : SculptSession) (v : nat) : SculptSession :=
  match mesh_filter_vertex fc ss filter_type filter_strength v with
  | None => ss
  | Some (final_pos, laplacian) =>
      let ss := match laplacian with
                | Some l => set_laplacian_disp (<[v := l]> (laplacian_disp ss)) ss
                | None => ss
                end in
      write_vd_co v final_pos ss
  end.

(** What a task of the filter does in one turn: the part of the callback
    ahead of its vertex loop, or one turn of the loop.  A turn of the loop
    reads the neighbours of its vertex as the other tasks have left them so
    far and writes the coordinate of its own vertex; tasks are interleaved
    between such turns. *)
Inductive TaskTurn : Type :=
  | TASK_node_begin (node : nat)
  | TASK_vertex (v : nat).

#[global] Instance TaskTurn_eq_dec : EqDecision TaskTurn.
Proof. solve_decision. Defined.

(** The turns of the task of index [i], [ss] being the session the range is
    forked in: the undo snapshot of the node is fetched, then the vertex
    loop visits the node's vertices. *)
Definition mesh_filter_task_cb (fc : FilterCache) (ss : SculptSession)
    (i : nat) : list TaskTurn :=
  match nodes fc !! i with
  | None => []
  | Some node =>
      TASK_node_begin node :: map TASK_vertex (node_unique_verts ss node)
  end.

(** One turn of [mesh_filter_task_cb] on the session. *)
Definition mesh_filter_task_turn (fc : FilterCache)
    (filter_type : eSculptMeshFilterType) (filter_strength : float)
    (ss : SculptSession) (turn : TaskTurn) : SculptSession :=
  match turn with
  | TASK_node_begin node => SCULPT_orig_vert_data_init node ss
  | TASK_vertex v => mesh_filter_vertex_step fc filter_type filter_strength ss v
  end.

(** *** Buffers filled when the filter starts *)

Definition mesh_filter_enhance_details_init_directions (ss : SculptSession)
    : list float3 :=
  map (fun i =>
         let avg := SCULPT_neighbor_coords_average ss i F32.zero F32.one true in
         BLI.sub_v3_v3v3 avg (SCULPT_vertex_co_get ss i))
      (seq 0 (SCULPT_vertex_count_get ss)).

Definition mesh_filter_surface_smooth_init (shape_preservation
    current_vertex_displacement : float) (fc : FilterCache) : FilterCache :=
  fc_set_surface_smooth shape_preservation current_vertex_displacement fc.

Definition mesh_filter_init_limit_surface_co (ss : SculptSession)
    : list float3 :=
  map (SCULPT_vertex_limit_surface_get ss) (seq 0 (SCULPT_vertex_count_get ss)).

(** First loop of [mesh_filter_sharpen_init]: the detail directions ... *)
Definition sharpen_init_directions (ss : SculptSession) : list float3 :=
  map (fun i =>
         let avg := SCULPT_neighbor_coords_average ss i F32.zero F32.one true in
         BLI.sub_v3_v3v3 avg (SCULPT_vertex_co_get ss i))
      (seq 0 (SCULPT_vertex_count_get ss)).

(** ... and their lengths, the raw sharpen factors. *)
Definition sharpen_init_magnitudes (ss : SculptSession) : list float :=
  map BLI.len_v3 (sharpen_init_directions ss).

(** Second loop: the largest factor, starting from [0.0f]. *)
Definition sharpen_max_factor (factor : list float) : float :=
  fold_left (fun max_factor f => if f > max_factor then f else max_factor)
            factor F32.zero.

(** The remap [1 - (1 - x)^2]. *)
Definition sharpen_remap (x : float) : float :=
  F32.one - BLI.pow2f (F32.one - x).

(** Third loop: scale by [1.0f / max_factor], then remap. *)
Definition sharpen_normalize (factor : list float) : list float :=
  let max_factor := sharpen_max_factor factor in
  let max_factor := F32.one / max_factor in
  map (fun f => sharpen_remap (f * max_factor)) factor.

(** One turn of the inner loop of the smoothing: vertex [i] takes the
    average of its neighbours, read from the arrays as they are. *)
Definition sharpen_smooth_vertex (ss : SculptSession)
    (st : list float3 * list float) (i : nat) : list float3 * list float :=
  let '(directions, factor) := st in
  let neighbors := SCULPT_vertex_neighbors ss i in
  let direction_avg :=
    fold_left (fun acc ni =>
                 BLI.add_v3_v3v3 acc (default BLI.zero_v3 (directions !! ni)))
              neighbors BLI.zero_v3 in
  let sharpen_avg :=
    fold_left (fun acc ni => acc + default F32.zero (factor !! ni))
              neighbors F32.zero in
  let total := Z.of_nat (length neighbors) in
  if (0 <? total)%Z then
    (<[i := BLI.mul_v3_v3fl direction_avg (F32.one / F32.of_Z total)]> directions,
     <[i := sharpen_avg / F32.of_Z total]> factor)
  else st.

(** Smooth the calculated factors and directions to remove high frequency
    detail. *)
Definition sharpen_smooth (ss : SculptSession) (iterations : Z)
    (st : list float3 * list float) : list float3 * list float :=
  Nat.iter (Z.to_nat iterations)
    (fun st => fold_left (sharpen_smooth_vertex ss)
                 (seq 0 (SCULPT_vertex_count_get ss)) st)
    st.

Definition mesh_filter_sharpen_init (ss : SculptSession)
    (smooth_ratio intensify_detail_strength : float)
    (curvature_smooth_iterations : Z) (fc : FilterCache) : FilterCache :=
  let directions := sharpen_init_directions ss in
  let factor := sharpen_normalize (sharpen_init_magnitudes ss) in
  let '(directions, factor) :=
    sharpen_smooth ss curvature_smooth_iterations (directions, factor) in
  fc_set_sharpen smooth_ratio intensify_detail_strength
    curvature_smooth_iterations factor directions fc.

(** *** Second pass of Surface Smooth *)

Definition surface_smooth_displace_vertex_step (fc : FilterCache)
    (filter_strength : float) (ss : SculptSession) (v : nat) : SculptSession :=
  let fade := vertex_fade fc ss filter_strength v in
  if fade == F32.zero then ss
  else
    write_vd_co v
      (SCULPT_surface_smooth_displace_step ss (SCULPT_vertex_co_get ss v) v
         (surface_smooth_current_vertex fc)
         (BLI.clamp_f fade F32.zero F32.one))
      ss.

(** The turns of the task of index [i]: its vertex loop has nothing ahead
    of it, each turn is [surface_smooth_displace_vertex_step] at a vertex of
    the node. *)
Definition mesh_filter_surface_smooth_displace_task_cb (fc : FilterCache)
    (ss : SculptSession) (i : nat) : list nat :=
  match nodes fc !! i with
  | None => []
  | Some node => node_unique_verts ss node
  end.

(** *** One iteration *)

(** Modelled from the spec: [SCULPT_surface_smooth_laplacian_init] of
    sculpt_smooth.cc makes sure the per-vertex Laplacian buffer exists,
    one entry per vertex. *)
Definition SCULPT_surface_smooth_laplacian_init (ss : SculptSession)
    : SculptSession :=
  if Nat.eqb (length (laplacian_disp ss)) (SCULPT_vertex_count_get ss) then ss
  else set_laplacian_disp
         (replicate (SCULPT_vertex_count_get ss) BLI.zero_v3) ss.

(** [int] increment, wrapping in two's complement. *)
Definition int_incr (n : Z) : Z :=
  ((n + 1 + 2 ^ 31) mod 2 ^ 32 - 2 ^ 31)%Z.

Definition sculpt_mesh_filter_apply (op : wmOperator) (ss : SculptSession)
    : option SculptSession :=
  match filter_cache ss with
  | None => None
  | Some fc =>
      let filter_type := op_type op in
      let filter_strength := op_strength op in
      let ss := emit EvVertexRandomAccessEnsure ss in
      let ss := if ELEM_type filter_type [MESH_FILTER_SURFACE_SMOOTH]
                then SCULPT_surface_smooth_laplacian_init ss else ss in
      let totnode := length (nodes fc) in
      let ss :=
        BLI_task_parallel_range 0 totnode (mesh_filter_task_cb fc ss)
          (mesh_filter_task_turn fc filter_type filter_strength)
          (BLI_task_schedule ss) ss in
      let ss :=
        if ELEM_type filter_type [MESH_FILTER_SURFACE_SMOOTH]
        then BLI_task_parallel_range 0 totnode
               (mesh_filter_surface_smooth_displace_task_cb fc ss)
               (surface_smooth_displace_vertex_step fc filter_strength)
               (BLI_task_schedule ss) ss
        else ss in
      let ss :=
        set_filter_cache
          (Some (fc_set_iteration_count (int_incr (iteration_count fc)) fc)) ss in
      let ss := if deform_modifiers_active ss || shapekey_active ss
                then emit EvFlushStrokeDeform ss else ss in
      (* The relax mesh filter needs the updated normals of the modified
         mesh after each iteration. *)
      let ss := if ELEM_type MESH_FILTER_RELAX [MESH_FILTER_RELAX_FACE_SETS]
                then pbvh_update_normals (nodes fc) ss else ss in
      Some (emit EvFlushUpdateStep ss)
  end.

(** *** End, cancel, start *)

Definition sculpt_mesh_filter_end (ss : SculptSession) : option SculptSession :=
  match SCULPT_filter_cache_free ss with
  | None => None
  | Some ss => Some (emit EvFlushUpdateDone (emit EvUndoPushEnd ss))
  end.

Definition sculpt_mesh_filter_cancel_node (ss : SculptSession) (node : nat)
    : SculptSession :=
  let ss := SCULPT_orig_vert_data_init node ss in
  fold_left
    (fun ss v => write_vd_co v (od_co (SCULPT_orig_vert_data_update ss v)) ss)
    (node_unique_verts ss node) ss.

(** The session of the model always has its PBVH, so the early return on
    [!ss || !ss->pbvh] is never taken. *)
Definition sculpt_mesh_filter_cancel (ss : SculptSession) : SculptSession :=
  (* Gather all PBVH leaf nodes. *)
  let nodes := seq 0 (length (pbvh_nodes ss)) in
  let ss := fold_left sculpt_mesh_filter_cancel_node nodes ss in
  emit EvPbvhUpdateBounds ss.

(** Returns OPERATOR_PASS_THROUGH on success. *)
Definition sculpt_mesh_filter_start (C : bContext) (op : wmOperator)
    (ss : SculptSession) : OperatorStatus * SculptSession :=
  let mval := op_start_mouse op in
  let filter_type := op_type op in
  let use_automasking := ctx_automasking_enabled C in
  let needs_topology_info :=
    sculpt_mesh_filter_needs_pmap filter_type || use_automasking in
  let ss := emit (EvUpdateObjectForEdit needs_topology_info) ss in
  let deform_axis := op_deform_axis op in
  if (deform_axis =? 0)%Z then
    (* All axis are disabled, so the filter is not going to produce any
       deformation. *)
    (OPERATOR_CANCELLED, ss)
  else
    let ss := if use_automasking
              then emit EvCursorGeometryInfoUpdate (emit EvStrokeIdNext ss)
              else ss in
    let ss := emit EvVertexRandomAccessEnsure ss in
    let ss := if needs_topology_info then emit EvBoundaryInfoEnsure ss else ss in
    let ss := SCULPT_undo_push_begin ss in
    let ss :=
      SCULPT_filter_cache_init C SCULPT_UNDO_COORDS mval
        (op_area_normal_radius op) (op_strength op) ss in
    let fc := default FilterCache_cnew (filter_cache ss) in
    let fc :=
      fc_set_automasking SCULPT_FACE_SET_NONE
        (SCULPT_automasking_cache_init C ss) fc in
    let ss := set_filter_cache (Some fc) ss in
    let fc :=
      match filter_type with
      | MESH_FILTER_SURFACE_SMOOTH =>
          mesh_filter_surface_smooth_init
            (op_surface_smooth_shape_preservation op)
            (op_surface_smooth_current_vertex op) fc
      | MESH_FILTER_SHARPEN =>
          mesh_filter_sharpen_init ss (op_sharpen_smooth_ratio op)
            (op_sharpen_intensify_detail_strength op)
            (op_sharpen_curvature_smooth_iterations op) fc
      | MESH_FILTER_ENHANCE_DETAILS =>
          fc_set_detail_directions
            (mesh_filter_enhance_details_init_directions ss) fc
      | MESH_FILTER_ERASE_DISPLACEMENT =>
          fc_set_limit_surface_co (mesh_filter_init_limit_surface_co ss) fc
      | _ => fc
      end in
    let axis (flag : Z) := negb (Z.land deform_axis flag =? 0)%Z in
    let fc :=
      fc_set_axis_orientation
        (fun it => match it with
                   | O => axis MESH_FILTER_DEFORM_X
                   | S O => axis MESH_FILTER_DEFORM_Y
                   | _ => axis MESH_FILTER_DEFORM_Z
                   end)
        (op_orientation op) fc in
    (OPERATOR_PASS_THROUGH, set_filter_cache (Some fc) ss).

End Filter.

(* ===================================================================== *)
(** ** Pointer interaction: strength, event history, modal and exec *)
(* ===================================================================== *)

(** [event->type] and [event->val], as far as the operator tells them
    apart. *)
Inductive wmEventType : Type :=
  | LEFTMOUSE
  | MOUSEMOVE
  | EVT_TYPE_OTHER (code : Z).

Inductive wmEventVal : Type :=
  | KM_RELEASE
  | KM_VAL_OTHER (code : Z).

(** [wmEvent], restricted to the members the operator reads;
    [ev_tablet_pressure] is what [WM_event_tablet_data(event, nullptr,
    nullptr)] returns for the event. *)
Record wmEvent : Type := {
  ev_type : wmEventType;
  ev_val : wmEventVal;
  ev_xy : Z * Z;
  ev_mval : Z * Z;
  ev_prev_press_xy : Z * Z;
  ev_tablet_pressure : float
}.

(** The float properties the operator writes through RNA. *)
Inductive RNAFloatProperty : Type :=
  | PROP_strength
  | PROP_mouse_event
  | PROP_pressure.

(** One element of the ["event_history"] collection. *)
Record OperatorStrokeElement : Type := {
  mouse_event : float * float;
  pressure : float
}.

(** The operator with its event history: [op_ptr] holds the properties
    declared by [SCULPT_mesh_filter_properties] and [SCULPT_OT_mesh_filter],
    [event_history] the runtime collection. *)
Record MeshFilterOperator : Type := {
  op_ptr : wmOperator;
  event_history : list OperatorStrokeElement
}.

(** What the interaction code reads from the user preferences and how RNA
    stores what it is given: [RNA_float_store p x] is the value property [p]
    holds after [RNA_float_set] (or one slot of [RNA_float_set_array]) with
    [x], [RNA_start_mouse_store] the same for the [start_mouse] array, and
    [RNA_pressure_default] the pressure of an element fresh from
    [RNA_collection_add]. *)
Class InterfaceExternals : Type := {
  UI_DPI_FAC : float;
  RNA_float_store : RNAFloatProperty -> float -> float;
  RNA_start_mouse_store : Z * Z -> Z * Z;
  RNA_pressure_default : float
}.

(** [0.001f]. *)
Definition f32_milli : float := S754_finite false 8589935 (-33).

(** [filter_cache->no_orig_co]. *)
Definition fc_set_no_orig_co (flag : bool) (fc : FilterCache) : FilterCache :=
  {| enabled_axis := enabled_axis fc;
     enabled_force_axis := enabled_force_axis fc;
     random_seed := random_seed fc;
     surface_smooth_shape_preservation := surface_smooth_shape_preservation fc;
     surface_smooth_current_vertex := surface_smooth_current_vertex fc;
     sharpen_smooth_ratio := sharpen_smooth_ratio fc;
     sharpen_intensify_detail_strength := sharpen_intensify_detail_strength fc;
     sharpen_curvature_smooth_iterations := sharpen_curvature_smooth_iterations fc;
     sharpen_factor := sharpen_factor fc;
     detail_directions := detail_directions fc;
     limit_surface_co := limit_surface_co fc; orientation := orientation fc;
     obmat := obmat fc; obmat_inv := obmat_inv fc; viewmat := viewmat fc;
     viewmat_inv := viewmat_inv fc; nodes := nodes fc;
     active_face_set := active_face_set fc; automasking := automasking fc;
     initial_normal := initial_normal fc; view_normal := view_normal fc;
     iteration_count := iteration_count fc;
     start_filter_strength := start_filter_strength fc; no_orig_co := flag;
     preserve_fset_boundaries := preserve_fset_boundaries fc |}.

(** [RNA_float_set(op->ptr, "strength", ...)], the stored value given. *)
Definition op_set_strength (strength : float) (op : wmOperator) : wmOperator :=
  {| op_type := op_type op; op_strength := strength;
     op_deform_axis := op_deform_axis op;
     op_orientation := op_orientation op;
     op_start_mouse := op_start_mouse op;
     op_area_normal_radius := op_area_normal_radius op;
     op_iteration_count := op_iteration_count op;
     op_surface_smooth_shape_preservation :=
       op_surface_smooth_shape_preservation op;
     op_surface_smooth_current_vertex := op_surface_smooth_current_vertex op;
     op_sharpen_smooth_ratio := op_sharpen_smooth_ratio op;
     op_sharpen_intensify_detail_strength :=
       op_sharpen_intensify_detail_strength op;
     op_sharpen_curvature_smooth_iterations :=
       op_sharpen_curvature_smooth_iterations op |}.

(** [RNA_int_set_array(op->ptr, "start_mouse", ...)], the stored value
    given. *)
Definition op_set_start_mouse (mval : Z * Z) (op : wmOperator) : wmOperator :=
  {| op_type := op_type op; op_strength := op_strength op;
     op_deform_axis := op_deform_axis op;
     op_orientation := op_orientation op;
     op_start_mouse := mval;
     op_area_normal_radius := op_area_normal_radius op;
     op_iteration_count := op_iteration_count op;
     op_surface_smooth_shape_preservation :=
       op_surface_smooth_shape_preservation op;
     op_surface_smooth_current_vertex := op_surface_smooth_current_vertex op;
     op_sharpen_smooth_ratio := op_sharpen_smooth_ratio op;
     op_sharpen_intensify_detail_strength :=
       op_sharpen_intensify_detail_strength op;
     op_sharpen_curvature_smooth_iterations :=
       op_sharpen_curvature_smooth_iterations op |}.

Section Interaction.
Context `{SculptExternals} `{InterfaceExternals}.
Local Open Scope f32_scope.

(** [float2(float(xy[0]), float(xy[1]))]. *)
Definition float2_of_xy (xy : Z * Z) : float * float :=
  (F32.of_Z (fst xy), F32.of_Z (snd xy)).

(** The local [filter_strength] of [sculpt_mesh_update_strength]. *)
Definition motion_filter_strength (start_filter_strength : float)
    (prev_press_mouse mouse : float * float) : float :=
  let len := fst prev_press_mouse - fst mouse in
  start_filter_strength * - len * f32_milli * UI_DPI_FAC.

(** [None]: the session has no filter cache to read the start strength
    from. *)
Definition sculpt_mesh_update_strength (op : wmOperator) (ss : SculptSession)
    (prev_press_mouse mouse : float * float) : option wmOperator :=
  match filter_cache ss with
  | None => None
  | Some fc =>
      let filter_strength :=
        motion_filter_strength (start_filter_strength fc) prev_press_mouse
          mouse in
      Some (op_set_strength (RNA_float_store PROP_strength filter_strength) op)
  end.

(** The loop of [sculpt_mesh_filter_apply_with_history] over the entries
    after the first. *)
Fixpoint apply_history_items (start_mouse : float * float)
    (items : list OperatorStrokeElement) (op : wmOperator) (ss : SculptSession)
    : option (wmOperator * SculptSession) :=
  match items with
  | [] => Some (op, ss)
  | item :: items =>
      let mouse := mouse_event item in
      match sculpt_mesh_update_strength op ss start_mouse mouse with
      | None => None
      | Some op =>
          match sculpt_mesh_filter_apply op ss with
          | None => None
          | Some ss => apply_history_items start_mouse items op ss
          end
      end
  end.

Definition sculpt_mesh_filter_apply_with_history (op : MeshFilterOperator)
    (ss : SculptSession) : option (MeshFilterOperator * SculptSession) :=
  match event_history op with
  | [] =>
      (* Event history is only stored for smooth and relax filters. *)
      match sculpt_mesh_filter_apply (op_ptr op) ss with
      | None => None
      | Some ss => Some (op, ss)
      end
  | first :: items =>
      match filter_cache ss with
      | None => None
      | Some fc =>
          let initial_strength := start_filter_strength fc in
          let start_mouse := mouse_event first in
          match apply_history_items start_mouse items (op_ptr op) ss with
          | None => None
          | Some (op_rna, ss) =>
              Some ({| op_ptr :=
                         op_set_strength
                           (RNA_float_store PROP_strength initial_strength)
                           op_rna;
                       event_history := event_history op |}, ss)
          end
      end
  end.

(** [RNA_collection_add] followed by the sets the caller does on the new
    element. *)
Definition history_start_entry (mouse_start : float * float)
    : OperatorStrokeElement :=
  {| mouse_event := (RNA_float_store PROP_mouse_event (fst mouse_start),
                     RNA_float_store PROP_mouse_event (snd mouse_start));
     pressure := RNA_pressure_default |}.

Definition history_entry (mouse : float * float) (tablet_pressure : float)
    : OperatorStrokeElement :=
  {| mouse_event := (RNA_float_store PROP_mouse_event (fst mouse),
                     RNA_float_store PROP_mouse_event (snd mouse));
     pressure := RNA_float_store PROP_pressure tablet_pressure |}.

(** [None]: a null [ss->filter_cache] is dereferenced. *)
Definition sculpt_mesh_filter_modal (op : MeshFilterOperator)
    (event : wmEvent) (ss : SculptSession)
    : option (OperatorStatus * MeshFilterOperator * SculptSession) :=
  let filter_type := op_type (op_ptr op) in
  match ev_type event, ev_val event with
  | LEFTMOUSE, KM_RELEASE =>
      match filter_cache ss with
      | None => None
      | Some fc =>
          let initial_strength := start_filter_strength fc in
          match sculpt_mesh_filter_end ss with
          | None => None
          | Some ss =>
              (* Don't update strength property if we're storing an event
                 history. *)
              let op :=
                if sculpt_mesh_filter_is_continuous filter_type
                then {| op_ptr :=
                          op_set_strength
                            (RNA_float_store PROP_strength initial_strength)
                            (op_ptr op);
                        event_history := event_history op |}
                else op in
              Some (OPERATOR_FINISHED, op, ss)
          end
      end
  | MOUSEMOVE, _ =>
      (* Note: some filter types are continuous, for these we store an event
         history in RNA for continuous. *)
      let history :=
        if sculpt_mesh_filter_is_continuous filter_type then
          let history :=
            match event_history op with
            | [] =>
                (* First entry is the start mouse position,
                   event->prev_press_xy. *)
                [history_start_entry (float2_of_xy (ev_prev_press_xy event))]
            | h => h
            end in
          history
          ++ [history_entry (float2_of_xy (ev_xy event))
                (ev_tablet_pressure event)]
        else event_history op in
      let prev_mval := float2_of_xy (ev_prev_press_xy event) in
      let mval := float2_of_xy (ev_xy event) in
      match sculpt_mesh_update_strength (op_ptr op) ss prev_mval mval with
      | None => None
      | Some op_rna =>
          let needs_pmap := sculpt_mesh_filter_needs_pmap filter_type in
          let ss := emit (EvUpdateObjectForEdit needs_pmap) ss in
          match sculpt_mesh_filter_apply op_rna ss with
          | None => None
          | Some ss =>
              Some (OPERATOR_RUNNING_MODAL,
                    {| op_ptr := op_rna; event_history := history |}, ss)
          end
      end
  | _, _ => Some (OPERATOR_RUNNING_MODAL, op, ss)
  end.

(** The modal handler [WM_event_add_modal_handler] registers lives in the
    window manager; the returned OPERATOR_RUNNING_MODAL stands for it. *)
Definition sculpt_mesh_filter_invoke (C : bContext) (op : MeshFilterOperator)
    (event : wmEvent) (ss : SculptSession)
    : OperatorStatus * MeshFilterOperator * SculptSession :=
  let op :=
    {| op_ptr :=
         op_set_start_mouse (RNA_start_mouse_store (ev_mval event)) (op_ptr op);
       event_history := event_history op |} in
  let '(ret, ss) := sculpt_mesh_filter_start C (op_ptr op) ss in
  match ret with
  | OPERATOR_PASS_THROUGH => (OPERATOR_RUNNING_MODAL, op, ss)
  | _ => (ret, op, ss)
  end.

(** [ss->filter_cache->no_orig_co = true]. *)
Definition set_no_orig_co (ss : SculptSession) : option SculptSession :=
  match filter_cache ss with
  | None => None
  | Some fc => Some (set_filter_cache (Some (fc_set_no_orig_co true fc)) ss)
  end.

(** The [for] loop of [sculpt_mesh_filter_exec]. *)
Fixpoint exec_iterations (iterations : nat) (op : MeshFilterOperator)
    (ss : SculptSession) : option (MeshFilterOperator * SculptSession) :=
  match iterations with
  | O => Some (op, ss)
  | S iterations =>
      match sculpt_mesh_filter_apply_with_history op ss with
      | None => None
      | Some (op, ss) =>
          match set_no_orig_co ss with
          | None => None
          | Some ss => exec_iterations iterations op ss
          end
      end
  end.

Definition sculpt_mesh_filter_exec (C : bContext) (op : MeshFilterOperator)
    (ss : SculptSession)
    : option (OperatorStatus * MeshFilterOperator * SculptSession) :=
  let '(ret, ss) := sculpt_mesh_filter_start C (op_ptr op) ss in
  match ret with
  | OPERATOR_PASS_THROUGH =>
      let iterations := op_iteration_count (op_ptr op) in
      let has_history := negb (Nat.eqb (length (event_history op)) 0) in
      match (if has_history then Some ss else set_no_orig_co ss) with
      | None => None
      | Some ss =>
          match exec_iterations (Z.to_nat iterations) op ss with
          | None => None
          | Some (op, ss) =>
              match sculpt_mesh_filter_end ss with
              | None => None
              | Some ss => Some (OPERATOR_FINISHED, op, ss)
              end
          end
      end
  | _ => Some (ret, op, ss)
  end.

End Interaction.

(* ===================================================================== *)
(** ** Vocabulary of the properties *)
(* ===================================================================== *)

(** The same value: identical, or two zeros (which compare equal whatever
    their signs). *)
Definition float_same (a b : float) : Prop :=
  a = b \/ (F32.is_zero a = true /\ F32.is_zero b = true).

Definition v3_same (a b : float3) : Prop :=
  float_same (v3x a) (v3x b) /\ float_same (v3y a) (v3y b) /\
  float_same (v3z a) (v3z b).

(** The same entry of a coordinate array. *)
Definition co_same (a b : option float3) : Prop :=
  match a, b with
  | Some a, Some b => v3_same a b
  | None, None => True
  | _, _ => False
  end.

Definition v3_finite (a : float3) : bool :=
  F32.is_finite (v3x a) && F32.is_finite (v3y a) && F32.is_finite (v3z a).

(** The turns of a loop, each with the state it starts in. *)
Fixpoint turn_visits {S A : Type} (turn : S -> A -> S) (turns : list A)
    (s : S) : list (A * S) :=
  match turns with
  | [] => []
  | a :: turns => (a, s) :: turn_visits turn turns (turn s a)
  end.

Section Vocabulary.
Context `{SculptExternals}.

(** The displacement Surface Smooth blends with in its first pass: the
    Laplacian step projected on the enabled axes. *)
Definition surface_smooth_projected_disp (fc : FilterCache)
    (ss : SculptSession) (v : nat) : float3 :=
  mesh_filter_project_disp fc
    (fst (SCULPT_surface_smooth_laplacian_step ss (SCULPT_vertex_co_get ss v) v
            (od_co (SCULPT_orig_vert_data_update ss v)) F32.one)).

(** The first pass of an iteration over all nodes. *)
Definition mesh_filter_pass (fc : FilterCache)
    (filter_type : eSculptMeshFilterType) (filter_strength : float)
    (ss : SculptSession) : SculptSession :=
  BLI_task_parallel_range 0 (length (nodes fc)) (mesh_filter_task_cb fc ss)
    (mesh_filter_task_turn fc filter_type filter_strength)
    (BLI_task_schedule ss) ss.

(** The second pass of Surface Smooth over all nodes. *)
Definition surface_smooth_displace_pass (fc : FilterCache)
    (filter_strength : float) (ss : SculptSession) : SculptSession :=
  BLI_task_parallel_range 0 (length (nodes fc))
    (mesh_filter_surface_smooth_displace_task_cb fc ss)
    (surface_smooth_displace_vertex_step fc filter_strength)
    (BLI_task_schedule ss) ss.

(** The turns of the first pass forked in [ss], in the order the scheduler
    gives them ... *)
Definition mesh_filter_pass_turns (fc : FilterCache) (ss : SculptSession)
    : list TaskTurn :=
  BLI_task_turns (BLI_task_schedule ss)
    (map (mesh_filter_task_cb fc ss) (seq 0 (length (nodes fc)))).

(** ... and each of them with the session it finds. *)
Definition mesh_filter_pass_visits (fc : FilterCache)
    (filter_type : eSculptMeshFilterType) (filter_strength : float)
    (ss : SculptSession) : list (TaskTurn * SculptSession) :=
  turn_visits (mesh_filter_task_turn fc filter_type filter_strength)
    (mesh_filter_pass_turns fc ss) ss.

(** The same for the second pass of Surface Smooth, a turn being named by
    its vertex. *)
Definition surface_smooth_displace_pass_turns (fc : FilterCache)
    (ss : SculptSession) : list nat :=
  BLI_task_turns (BLI_task_schedule ss)
    (map (mesh_filter_surface_smooth_displace_task_cb fc ss)
       (seq 0 (length (nodes fc)))).

Definition surface_smooth_displace_pass_visits (fc : FilterCache)
    (filter_strength : float) (ss : SculptSession)
    : list (nat * SculptSession) :=
  turn_visits (surface_smooth_displace_vertex_step fc filter_strength)
    (surface_smooth_displace_pass_turns fc ss) ss.

(** [vd.mask ? *vd.mask : 0.0f]. *)
Definition vertex_mask_value (ss : SculptSession) (v : nat) : float :=
  match vert_mask ss with
  | Some mask => default F32.zero (mask !! v)
  | None => F32.zero
  end.

(** [sculpt_mesh_filter_apply] up to the end of the parallel passes ... *)
Definition apply_passes (fc : FilterCache)
    (filter_type : eSculptMeshFilterType) (filter_strength : float)
    (ss : SculptSession) : SculptSession :=
  let ss := emit EvVertexRandomAccessEnsure ss in
  let ss := if ELEM_type filter_type [MESH_FILTER_SURFACE_SMOOTH]
            then SCULPT_surface_smooth_laplacian_init ss else ss in
  let ss := mesh_filter_pass fc filter_type filter_strength ss in
  if ELEM_type filter_type [MESH_FILTER_SURFACE_SMOOTH]
  then surface_smooth_displace_pass fc filter_strength ss
  else ss.

(** ... and what it does after them. *)
Definition apply_epilogue (fc : FilterCache) (ss : SculptSession)
    : SculptSession :=
  let ss :=
    set_filter_cache
      (Some (fc_set_iteration_count (int_incr (iteration_count fc)) fc)) ss in
  let ss := if deform_modifiers_active ss || shapekey_active ss
            then emit EvFlushStrokeDeform ss else ss in
  let ss := if ELEM_type MESH_FILTER_RELAX [MESH_FILTER_RELAX_FACE_SETS]
            then pbvh_update_normals (nodes fc) ss else ss in
  emit EvFlushUpdateStep ss.

(** The vertices of the nodes of the cache: those the passes of an
    iteration visit. *)
Definition filter_verts (fc : FilterCache) (ss : SculptSession) : list nat :=
  concat (map (node_unique_verts ss) (nodes fc)).

(** The Laplacian estimate the first pass of Surface Smooth computes for
    vertex [v] in session [s]. *)
Definition laplacian_of (s : SculptSession) (v : nat) : float3 :=
  snd (SCULPT_surface_smooth_laplacian_step s (SCULPT_vertex_co_get s v) v
         (od_co (SCULPT_orig_vert_data_update s v)) F32.one).

(** The buffer of [s] holds, for [v], the estimate the Laplacian step
    computed at one of the turns the first pass of Surface Smooth, forked
    in [s0], took at [v]. *)
Definition laplacian_stored (fc : FilterCache) (strength : float)
    (s0 : SculptSession) (v : nat) (s : SculptSession) : Prop :=
  exists x,
    In (TASK_vertex v, x)
       (mesh_filter_pass_visits fc MESH_FILTER_SURFACE_SMOOTH strength s0) /\
    laplacian_disp s !! v = Some (laplacian_of x v).

(** What the second pass of Surface Smooth writes at a turn it takes at [v]
    in session [x]. *)
Definition displaced_co (fc : FilterCache) (strength : float)
    (x : SculptSession) (v : nat) : float3 :=
  SCULPT_surface_smooth_displace_step x (SCULPT_vertex_co_get x v) v
    (surface_smooth_current_vertex fc)
    (BLI.clamp_f (vertex_fade fc x strength v) F32.zero F32.one).

(** [k] calls of [sculpt_mesh_filter_apply], each with the operator
    properties (filter type, strength) of its time. *)
Fixpoint apply_iterations (ops : list wmOperator) (ss : SculptSession)
    : option SculptSession :=
  match ops with
  | [] => Some ss
  | op :: ops =>
      match sculpt_mesh_filter_apply op ss with
      | Some ss => apply_iterations ops ss
      | None => None
      end
  end.

(** The vertex has a snapshot in the open undo step. *)
Definition snapshotted (s : SculptSession) (v : nat) : Prop :=
  is_Some (undo_coords s !! v).

(** What is left of a task of the first pass forked in [s0], seen from the
    session [s] the others have made meanwhile: all of it, or vertices that
    have their snapshot. *)
Definition task_in_order (fc : FilterCache) (s0 s : SculptSession)
    (task : list TaskTurn) : Prop :=
  (exists node,
     In node (nodes fc) /\
     task = TASK_node_begin node :: map TASK_vertex (node_unique_verts s0 node))
  \/
  (exists us,
     task = map TASK_vertex us /\
     forall u, In u us -> In u (filter_verts fc s0) /\ snapshotted s u).

(** What holds between start and cancel, [co0] and [nodes0] being the
    coordinates and the PBVH leaves at start: a snapshot holds the
    coordinate its vertex had at start and belongs to a vertex of some leaf;
    a vertex without snapshot has not moved. *)
Definition undo_invariant (co0 : list float3) (nodes0 : list (list nat))
    (s : SculptSession) : Prop :=
  length (vert_co s) = length co0 /\
  pbvh_nodes s = nodes0 /\
  forall v,
    match undo_coords s !! v with
    | Some od =>
        od_co od = default BLI.zero_v3 (co0 !! v) /\
        exists node vs, nodes0 !! node = Some vs /\ In v vs
    | None => vert_co s !! v = co0 !! v
    end.

(** What an iteration may do to vertex [v] when its fade is zero: the entry
    of the coordinate array stays the same value, the mask is untouched. *)
Definition position_kept (ss0 : SculptSession) (v : nat) (s : SculptSession)
    : Prop :=
  co_same (vert_co s !! v) (vert_co ss0 !! v) /\ vert_mask s = vert_mask ss0.

End Vocabulary.

(* ===================================================================== *)
(** ** A concrete set of collaborators *)
(* ===================================================================== *)

(** The filter is run on small meshes below.  The collaborators are then the
    following ones: the vertices form a polyline, vertex [v] touching [v-1]
    and [v+1], nothing is automasked, every node is gathered. *)
Module Demo.
Local Open Scope f32_scope.

Definition co (ss : SculptSession) (v : nat) : float3 :=
  default BLI.zero_v3 (vert_co ss !! v).

Definition neighbors (ss : SculptSession) (v : nat) : list nat :=
  match v with O => [] | S p => [p] end
  ++ (if S v <? length (vert_co ss) then [S v] else []).

(** Modelled from the spec: [SCULPT_neighbor_coords_average] of
    sculpt_smooth.cc, the neighbor average of section 4.3; a vertex without
    neighbours is its own average. *)
Definition neighbor_coords_average (ss : SculptSession) (v : nat) : float3 :=
  let ns := neighbors ss v in
  let avg := fold_left (fun acc n => BLI.add_v3_v3v3 acc (co ss n)) ns
               BLI.zero_v3 in
  let total := Z.of_nat (length ns) in
  if (0 <? total)%Z then BLI.mul_v3_v3fl avg (F32.one / F32.of_Z total)
  else co ss v.

(** Modelled from the spec: [SCULPT_relax_vertex] of sculpt_smooth.cc,
    reduced to a blend towards the neighbor average. *)
Definition relax_vertex (ss : SculptSession) (v : nat) (factor : float)
    (boundtype : Z) : float3 :=
  BLI.madd_v3_v3v3fl (co ss v)
    (BLI.sub_v3_v3v3 (neighbor_coords_average ss v) (co ss v)) factor.

(** Modelled from the spec: [SCULPT_surface_smooth_laplacian_step] of
    sculpt_smooth.cc, pass 1 of Surface Smooth: the displacement towards
    the neighbor average, and the Laplacian estimate taken from the
    original coordinate. *)
Definition surface_smooth_laplacian_step (ss : SculptSession) (vco : float3)
    (v : nat) (origco : float3) (alpha : float) : float3 * float3 :=
  let laplacian_smooth_co := neighbor_coords_average ss v in
  let weigthed_o := BLI.mul_v3_v3fl origco alpha in
  let weigthed_q := BLI.mul_v3_v3fl vco (F32.one - alpha) in
  let d := BLI.add_v3_v3v3 weigthed_o weigthed_q in
  (BLI.sub_v3_v3v3 laplacian_smooth_co vco,
   BLI.sub_v3_v3v3 laplacian_smooth_co d).

(** Modelled from the spec: [SCULPT_surface_smooth_displace_step] of
    sculpt_smooth.cc, pass 2 of Surface Smooth: the vertex moves back by a
    blend of its own Laplacian and the average of its neighbours'. *)
Definition surface_smooth_displace_step (ss : SculptSession) (vco : float3)
    (v : nat) (beta fade : float) : float3 :=
  let ns := neighbors ss v in
  let lap n := default BLI.zero_v3 (laplacian_disp ss !! n) in
  let b_avg := fold_left (fun acc n => BLI.add_v3_v3v3 acc (lap n)) ns
                 BLI.zero_v3 in
  let total := Z.of_nat (length ns) in
  if (0 <? total)%Z then
    let b_current_vertex :=
      BLI.mul_v3_v3fl b_avg ((F32.one - beta) / F32.of_Z total) in
    let b_current_vertex := BLI.madd_v3_v3v3fl b_current_vertex (lap v) beta in
    let b_current_vertex :=
      BLI.mul_v3_v3fl b_current_vertex (BLI.clamp_f fade F32.zero F32.one) in
    BLI.sub_v3_v3v3 vco b_current_vertex
  else vco.

(** Modelled from the spec: [normalize_v3_v3] of BLI_math_vector; a vector
    shorter than the threshold [1.0e-35f] (squared) becomes zero. *)
Definition normalize (a : float3) : float3 :=
  let d := BLI.dot_v3v3 a a in
  if d > S754_finite false 13937966 (-140) then
    BLI.mul_v3_v3fl a (F32.one / F32.sqrtf d)
  else BLI.zero_v3.

Definition rot (x k : Z) : Z :=
  (Z.lor (Z.shiftl x k) (Z.shiftr x (32 - k)) mod 2 ^ 32)%Z.

(** Modelled from the spec: [BLI_hash_int_2d] of BLI_hash.h, a 32-bit
    integer mix of its two keys. *)
Definition hash_int_2d (kx ky : Z) : Z :=
  let w x := (x mod 2 ^ 32)%Z in
  let init := w (0xdeadbeef + Z.shiftl 2 2 + 13)%Z in
  let a := w (init + kx)%Z in
  let b := w (init + ky)%Z in
  let c := init in
  let c := Z.lxor c b in let c := w (c - rot b 14)%Z in
  let a := Z.lxor a c in let a := w (a - rot c 11)%Z in
  let b := Z.lxor b a in let b := w (b - rot a 25)%Z in
  let c := Z.lxor c b in let c := w (c - rot b 16)%Z in
  let a := Z.lxor a c in let a := w (a - rot c 4)%Z in
  let b := Z.lxor b a in let b := w (b - rot a 14)%Z in
  let c := Z.lxor c b in w (c - rot b 24)%Z.

(** The collaborators, for a given choice of the task scheduler and of the
    normals the PBVH recomputes. *)
Definition collaborators_with (schedule : SculptSession -> list nat)
    (normals : SculptSession -> list nat -> list float3) : SculptExternals :=
  {| SCULPT_automasking_factor_get := fun _ _ _ => F32.one;
     SCULPT_automasking_cache_init := fun _ _ => None;
     SCULPT_get_fset_projection := fun _ x => x;
     SCULPT_neighbor_coords_average_interior :=
       fun ss v _ _ => neighbor_coords_average ss v;
     SCULPT_neighbor_coords_average :=
       fun ss v _ _ _ => neighbor_coords_average ss v;
     SCULPT_vertex_neighbors := neighbors;
     SCULPT_vertex_has_unique_face_set := fun _ v => Nat.even v;
     SCULPT_relax_vertex := relax_vertex;
     SCULPT_surface_smooth_laplacian_step := surface_smooth_laplacian_step;
     SCULPT_surface_smooth_displace_step := surface_smooth_displace_step;
     SCULPT_vertex_limit_surface_get := co;
     SCULPT_search_sphere_cb := fun _ _ => true;
     SCULPT_stroke_get_location := fun _ _ _ => None;
     SCULPT_pbvh_calc_area_normal := fun _ _ _ _ => None;
     BKE_pbvh_update_normals := normals;
     BLI_task_schedule := schedule;
     invert_m4_m4 := fun m => m;
     normalize_v3_v3 := normalize;
     BLI_hash_int_2d := hash_int_2d;
     SCULPT_BOUNDARY_MESH := Z.shiftl 1 0;
     SCULPT_BOUNDARY_FACE_SET := Z.shiftl 1 1;
     SCULPT_FACE_SET_NONE := -1 |}.

(** The normals come back from the PBVH as they are. *)
Definition collaborators (schedule : SculptSession -> list nat)
    : SculptExternals :=
  collaborators_with schedule (fun ss _ => vert_no ss).

(** The tasks run to their ends one after the other ... *)
#[local] Instance externals : SculptExternals := collaborators (fun _ => []).

(** ... or the second task goes first and the two then alternate. *)
Definition externals_interleaved : SculptExternals :=
  collaborators (fun _ => [1; 0; 1; 0; 1; 0]).

Definition identity : matrix :=
  fun i j => if Nat.eqb i j then F32.one else F32.zero.

(** An object at the origin seen along its axes; [rand()] returned 42. *)
Definition context : bContext :=
  {| ctx_automasking_enabled := false;
     ctx_object_to_world := identity;
     ctx_rv3d_viewmat := identity; ctx_rv3d_viewinv := identity;
     ctx_rand := 42 |}.

(** A point on the X axis. *)
Definition on_x (n : Z) : float3 := V3 (F32.of_Z n) F32.zero F32.zero.

(** A session in sculpt mode on the given vertices, spread over the given
    PBVH leaves, with no mask layer and nothing started ... *)
Definition session_of_leaves (cos : list float3) (leaves : list (list nat))
    : SculptSession :=
  {| vert_co := cos;
     vert_no := map (fun _ => V3 F32.zero F32.zero F32.one) cos;
     vert_mask := None;
     pbvh_type := PBVH_FACES;
     pbvh_nodes := leaves;
     undo_coords := ∅;
     laplacian_disp := [];
     last_normal := V3 F32.zero F32.zero F32.one;
     deform_modifiers_active := false; shapekey_active := false;
     filter_cache := None; events := [] |}.

(** ... and with all vertices in one leaf. *)
Definition session (cos : list float3) : SculptSession :=
  session_of_leaves cos [seq 0 (length cos)].

(** The operator's properties at their defaults, for a filter type, a
    strength and an axis mask. *)
Definition operator (type : eSculptMeshFilterType) (strength : float)
    (deform_axis : Z) : wmOperator :=
  {| op_type := type; op_strength := strength;
     op_deform_axis := deform_axis;
     op_orientation := SCULPT_FILTER_ORIENTATION_LOCAL;
     op_start_mouse := (0, 0)%Z;
     op_area_normal_radius := F32.one;
     op_iteration_count := 1;
     op_surface_smooth_shape_preservation := F32.half;
     op_surface_smooth_current_vertex := F32.half;
     op_sharpen_smooth_ratio := F32.zero;
     op_sharpen_intensify_detail_strength := F32.zero;
     op_sharpen_curvature_smooth_iterations := 0 |}.

Definition all_axes : Z :=
  Z.lor MESH_FILTER_DEFORM_X (Z.lor MESH_FILTER_DEFORM_Y MESH_FILTER_DEFORM_Z).

(** The largest power of two below [FLT_MAX], on either side of zero. *)
Definition far_right : float3 :=
  V3 (S754_finite false 8388608 104) F32.zero F32.zero.
Definition far_left : float3 :=
  V3 (S754_finite true 8388608 104) F32.zero F32.zero.

(** The session once the operator has started on it ... *)
Definition started_with (E : SculptExternals) (op : wmOperator)
    (ss : SculptSession) : SculptSession :=
  snd (sculpt_mesh_filter_start context op ss).

(** ... its cache ... *)
Definition cache_with (E : SculptExternals) (op : wmOperator)
    (ss : SculptSession) : FilterCache :=
  default FilterCache_cnew (filter_cache (started_with E op ss)).

(** ... and the session after one iteration. *)
Definition applied_with (E : SculptExternals) (op : wmOperator)
    (ss : SculptSession) : SculptSession :=
  default ss (sculpt_mesh_filter_apply op (started_with E op ss)).

Definition started := started_with externals.
Definition cache := cache_with externals.
Definition applied := applied_with externals.

End Demo.

(* ===================================================================== *)
(** ** Vocabulary of the interaction properties *)
(* ===================================================================== *)

(** The same component [it] of two entries of a coordinate array. *)
Definition axis_same (it : nat) (a b : option float3) : Prop :=
  match a, b with
  | Some a, Some b => float_same (BLI.v3_get a it) (BLI.v3_get b it)
  | None, None => True
  | _, _ => False
  end.

(** The session with another log of collaborator calls. *)
Definition set_events (log : list Event) (ss : SculptSession) : SculptSession :=
  {| vert_co := vert_co ss; vert_no := vert_no ss; vert_mask := vert_mask ss;
     pbvh_type := pbvh_type ss; pbvh_nodes := pbvh_nodes ss;
     undo_coords := undo_coords ss; laplacian_disp := laplacian_disp ss;
     last_normal := last_normal ss;
     deform_modifiers_active := deform_modifiers_active ss;
     shapekey_active := shapekey_active ss;
     filter_cache := filter_cache ss; events := log |}.

(** Two sessions that differ at most in the calls logged so far. *)
Definition same_state (a b : SculptSession) : Prop :=
  set_events [] a = set_events [] b.

(** Collaborators whose answers during an iteration depend on the mesh, the
    undo step and the cache, not on which calls were issued before. *)
Class EventsBlind `{SculptExternals} : Prop := {
  blind_automasking_factor_get :
    forall s s', same_state s s' -> forall a v,
      SCULPT_automasking_factor_get a s v = SCULPT_automasking_factor_get a s' v;
  blind_get_fset_projection :
    forall s s', same_state s s' -> forall x,
      SCULPT_get_fset_projection s x = SCULPT_get_fset_projection s' x;
  blind_neighbor_coords_average_interior :
    forall s s', same_state s s' -> forall v p q,
      SCULPT_neighbor_coords_average_interior s v p q =
      SCULPT_neighbor_coords_average_interior s' v p q;
  blind_neighbor_coords_average :
    forall s s', same_state s s' -> forall v p q b,
      SCULPT_neighbor_coords_average s v p q b =
      SCULPT_neighbor_coords_average s' v p q b;
  blind_vertex_neighbors :
    forall s s', same_state s s' -> forall v,
      SCULPT_vertex_neighbors s v = SCULPT_vertex_neighbors s' v;
  blind_vertex_has_unique_face_set :
    forall s s', same_state s s' -> forall v,
      SCULPT_vertex_has_unique_face_set s v =
      SCULPT_vertex_has_unique_face_set s' v;
  blind_relax_vertex :
    forall s s', same_state s s' -> forall v f b,
      SCULPT_relax_vertex s v f b = SCULPT_relax_vertex s' v f b;
  blind_surface_smooth_laplacian_step :
    forall s s', same_state s s' -> forall co v orig alpha,
      SCULPT_surface_smooth_laplacian_step s co v orig alpha =
      SCULPT_surface_smooth_laplacian_step s' co v orig alpha;
  blind_surface_smooth_displace_step :
    forall s s', same_state s s' -> forall co v beta fade,
      SCULPT_surface_smooth_displace_step s co v beta fade =
      SCULPT_surface_smooth_displace_step s' co v beta fade
}.

(** A scheduler that goes by the state of the session: forked again in a
    session that differs at most in the calls logged, the tasks take their
    turns in the same order. *)
Definition schedule_repeats `{SculptExternals} : Prop :=
  forall s s', same_state s s' -> BLI_task_schedule s = BLI_task_schedule s'.

(** The parts of the mesh an iteration has no business writing: the number
    of vertices, their normals, the paint mask, the PBVH. *)
Definition layout_kept (ss0 s : SculptSession) : Prop :=
  length (vert_co s) = length (vert_co ss0) /\
  vert_no s = vert_no ss0 /\
  vert_mask s = vert_mask ss0 /\
  pbvh_type s = pbvh_type ss0 /\
  pbvh_nodes s = pbvh_nodes ss0.

(** The same without the normals, which the PBVH recomputes at start. *)
Definition topology_kept (ss0 s : SculptSession) : Prop :=
  length (vert_co s) = length (vert_co ss0) /\
  vert_mask s = vert_mask ss0 /\
  pbvh_type s = pbvh_type ss0 /\
  pbvh_nodes s = pbvh_nodes ss0.

(** Building the cache leaves in [s'] the normals the PBVH recomputes for
    the nodes [marked]: those [BKE_pbvh_update_normals] answers when called
    in [pre], the session [s] with the cache holding these nodes; on a
    multires PBVH the call is not made and the normals stay. *)
Definition normals_updated `{SculptExternals} (s : SculptSession)
    (marked : list nat) (pre s' : SculptSession) : Prop :=
  vert_co pre = vert_co s /\ vert_no pre = vert_no s /\
  topology_kept s pre /\
  (exists fc, filter_cache pre = Some fc /\ nodes fc = marked) /\
  vert_no s' =
    (if pbvh_type s is PBVH_GRIDS then vert_no s
     else BKE_pbvh_update_normals pre marked).

(** The filter types whose displacement is computed from the original
    coordinate and normal of the vertex and from buffers filled at start,
    not from where the mesh is now. *)
Definition displaces_from_original (filter_type : eSculptMeshFilterType)
    : bool :=
  ELEM_type filter_type
    [MESH_FILTER_SCALE; MESH_FILTER_INFLATE; MESH_FILTER_SPHERE;
     MESH_FILTER_RANDOM; MESH_FILTER_ENHANCE_DETAILS;
     MESH_FILTER_ERASE_DISPLACEMENT].

(** What [x] has kept of [s0]: the undo snapshots, the mask, the PBVH and
    the number of vertices. *)
Definition original_kept (s0 x : SculptSession) : Prop :=
  undo_coords x = undo_coords s0 /\ vert_mask x = vert_mask s0 /\
  pbvh_nodes x = pbvh_nodes s0 /\
  length (vert_co x) = length (vert_co s0).

(** No undo step is opened or closed among the calls [l]. *)
Definition undo_quiet (l : list Event) : Prop :=
  ~ In EvUndoPushBegin l /\ ~ In EvUndoPushEnd l.

(** From [s] to [s'] the log grew, without an undo step opened or closed. *)
Definition logs_quietly (s s' : SculptSession) : Prop :=
  exists l, events s' = events s ++ l /\ undo_quiet l.

(** From [s] to [s'] the log grew by one undo step: it is opened once,
    closed once afterwards, and that is all the undo collaborator hears. *)
Definition one_undo_step (s s' : SculptSession) : Prop :=
  exists pre mid post,
    events s' =
    events s ++ pre ++ [EvUndoPushBegin] ++ mid ++ [EvUndoPushEnd] ++ post /\
    undo_quiet pre /\ undo_quiet mid /\ undo_quiet post.

Section InteractionVocabulary.
Context `{SculptExternals} `{InterfaceExternals}.

(** Modelled from the spec: the modal callback is re-entered on every input
    sample, for as long as it answers OPERATOR_RUNNING_MODAL. *)
Fixpoint run_modal (events : list wmEvent) (op : MeshFilterOperator)
    (ss : SculptSession)
    : option (OperatorStatus * MeshFilterOperator * SculptSession) :=
  match events with
  | [] => Some (OPERATOR_RUNNING_MODAL, op, ss)
  | event :: events =>
      match sculpt_mesh_filter_modal op event ss with
      | Some (OPERATOR_RUNNING_MODAL, op, ss) => run_modal events op ss
      | result => result
      end
  end.

(** Modelled from the spec: the modal path, invoke on the press, then the
    callback on the events that follow, the release last. *)
Definition drag (C : bContext) (op : MeshFilterOperator) (press : wmEvent)
    (moves : list wmEvent) (release : wmEvent) (ss : SculptSession)
    : option (OperatorStatus * MeshFilterOperator * SculptSession) :=
  let '(ret, op, ss) := sculpt_mesh_filter_invoke C op press ss in
  match ret with
  | OPERATOR_RUNNING_MODAL => run_modal (moves ++ [release]) op ss
  | _ => Some (ret, op, ss)
  end.

(** The events the modal callback acts on. *)
Definition is_release (event : wmEvent) : bool :=
  match ev_type event, ev_val event with
  | LEFTMOUSE, KM_RELEASE => true
  | _, _ => false
  end.

Definition is_move (event : wmEvent) : bool :=
  match ev_type event with MOUSEMOVE => true | _ => false end.

(** What a motion sample appends to the history. *)
Definition sample_entry (event : wmEvent) : OperatorStrokeElement :=
  history_entry (float2_of_xy (ev_xy event)) (ev_tablet_pressure event).

(** The history a run of motion samples leaves, from history [h]: the press
    origin of the first sample if [h] was empty, then the samples. *)
Definition recorded_history (h : list OperatorStrokeElement)
    (moves : list wmEvent) : list OperatorStrokeElement :=
  match moves with
  | [] => h
  | first :: _ =>
      match h with
      | [] => [history_start_entry (float2_of_xy (ev_prev_press_xy first))]
      | _ => h
      end
      ++ map sample_entry moves
  end.

(** The strength a motion sample gives, as the property holds it. *)
Definition stored_motion_strength (start_filter_strength : float)
    (press_xy xy : Z * Z) : float :=
  RNA_float_store PROP_strength
    (motion_filter_strength start_filter_strength (float2_of_xy press_xy)
       (float2_of_xy xy)).

(** A motion sample of a drag started at [press_xy] whose horizontal
    position the history holds as it was. *)
Definition faithful_sample (press_xy : Z * Z) (event : wmEvent) : Prop :=
  is_move event = true /\ ev_prev_press_xy event = press_xy /\
  RNA_float_store PROP_mouse_event (F32.of_Z (fst (ev_xy event))) =
  F32.of_Z (fst (ev_xy event)).

End InteractionVocabulary.

(** The interface of the runs below: no DPI scaling; the strength property
    keeps what lies in its hard range [-10, 10] and the other properties keep
    everything. *)
Module DemoInterface.

Definition strength_store (x : float) : float :=
  BLI.clamp_f x (F32.of_Z (-10)) (F32.of_Z 10).

#[local] Instance interface : InterfaceExternals :=
  {| UI_DPI_FAC := F32.one;
     RNA_float_store :=
       fun p x => match p with PROP_strength => strength_store x | _ => x end;
     RNA_start_mouse_store := fun mval => mval;
     RNA_pressure_default := F32.zero |}.

(** The press at window position [xy]. *)
Definition press (xy : Z * Z) : wmEvent :=
  {| ev_type := LEFTMOUSE; ev_val := KM_VAL_OTHER 1; ev_xy := xy;
     ev_mval := xy; ev_prev_press_xy := xy;
     ev_tablet_pressure := F32.one |}.

(** A motion to [xy] while the button pressed at [origin] is held. *)
Definition move (origin xy : Z * Z) : wmEvent :=
  {| ev_type := MOUSEMOVE; ev_val := KM_VAL_OTHER 0; ev_xy := xy;
     ev_mval := xy; ev_prev_press_xy := origin;
     ev_tablet_pressure := F32.one |}.

Definition release (origin xy : Z * Z) : wmEvent :=
  {| ev_type := LEFTMOUSE; ev_val := KM_RELEASE; ev_xy := xy;
     ev_mval := xy; ev_prev_press_xy := origin;
     ev_tablet_pressure := F32.one |}.

(** A key press, which the modal callback has no use for. *)
Definition key (origin : Z * Z) (code : Z) : wmEvent :=
  {| ev_type := EVT_TYPE_OTHER code; ev_val := KM_VAL_OTHER 1; ev_xy := origin;
     ev_mval := origin; ev_prev_press_xy := origin;
     ev_tablet_pressure := F32.one |}.

(** The operator before its first use: no event history. *)
Definition fresh (op : wmOperator) : MeshFilterOperator :=
  {| op_ptr := op; event_history := [] |}.

(** A drag from [origin] over the [targets], released at [origin] ... *)
Definition dragged (op : wmOperator) (origin : Z * Z) (targets : list (Z * Z))
    (mesh : SculptSession)
    : option (OperatorStatus * MeshFilterOperator * SculptSession) :=
  @drag Demo.externals interface Demo.context (fresh op) (press origin)
    (map (move origin) targets) (release origin origin) mesh.

(** ... the operator it leaves ... *)
Definition dragged_op (op : wmOperator) (origin : Z * Z)
    (targets : list (Z * Z)) (mesh : SculptSession) : MeshFilterOperator :=
  match dragged op origin targets mesh with
  | Some (_, op', _) => op'
  | None => fresh op
  end.

(** ... and the session. *)
Definition dragged_session (op : wmOperator) (origin : Z * Z)
    (targets : list (Z * Z)) (mesh : SculptSession) : SculptSession :=
  match dragged op origin targets mesh with
  | Some (_, _, ss') => ss'
  | None => mesh
  end.

End DemoInterface.

(* ===================================================================== *)
(** ** Properties *)
(* ===================================================================== *)

(** *** Facts of binary32 arithmetic *)

Lemma f32_eqb_zero (a : float) :
  F32.eqb a F32.zero = true <-> F32.is_zero a = true.
Proof. destruct a as [s|s| |s m e]; try destruct s; cbn; intuition congruence. Qed.

Lemma f32_mul_zero_r (a z : float) :
  F32.is_finite a = true -> F32.is_zero z = true ->
  F32.is_zero (F32.mul a z) = true.
Proof. destruct a, z; cbn; congruence. Qed.

Lemma f32_add_zero_r (a z : float) :
  F32.is_zero z = true -> float_same (F32.add a z) a.
Proof.
  destruct z as [sz| | |]; cbn; try congruence. intros _.
  destruct a as [sa|sa| |sa m e]; cbn.
  - right. destruct sa, sz; cbn; auto.
  - left. reflexivity.
  - left. reflexivity.
  - left. reflexivity.
Qed.

Lemma f32_clamp_zero (z : float) :
  F32.is_zero z = true -> BLI.clamp_f z F32.zero F32.one = z.
Proof. destruct z as [[]| | |]; cbn; congruence. Qed.

Lemma float_same_refl (a : float) : float_same a a.
Proof. left. reflexivity. Qed.

Lemma float_same_trans (a b c : float) :
  float_same a b -> float_same b c -> float_same a c.
Proof.
  intros [->|[Ha Hb]] [->|[Hb' Hc]]; try (left; reflexivity);
    right; auto; split; congruence.
Qed.

Lemma v3_same_refl (a : float3) : v3_same a a.
Proof. repeat split; apply float_same_refl. Qed.

Lemma v3_same_trans (a b c : float3) :
  v3_same a b -> v3_same b c -> v3_same a c.
Proof.
  intros (?&?&?) (?&?&?); repeat split; eapply float_same_trans; eauto.
Qed.

Lemma co_same_refl (a : option float3) : co_same a a.
Proof. destruct a; cbn; auto using v3_same_refl. Qed.

Lemma co_same_trans (a b c : option float3) :
  co_same a b -> co_same b c -> co_same a c.
Proof.
  destruct a, b, c; cbn; try tauto. apply v3_same_trans.
Qed.

(** Blending a finite displacement with a zero factor gives the coordinate
    back. *)
Lemma madd_zero_factor (co disp : float3) (z : float) :
  v3_finite disp = true -> F32.is_zero z = true ->
  v3_same (BLI.madd_v3_v3v3fl co disp z) co.
Proof.
  unfold v3_finite. intros Hf Hz.
  apply andb_prop in Hf as [Hf Hf3]. apply andb_prop in Hf as [Hf1 Hf2].
  repeat split; cbn; apply f32_add_zero_r, f32_mul_zero_r; assumption.
Qed.

(** *** Loops *)

Lemma fold_left_preserves {A S : Type} (P : S -> Prop) (f : S -> A -> S)
    (l : list A) (s : S) :
  P s -> (forall s a, In a l -> P s -> P (f s a)) -> P (fold_left f l s).
Proof.
  revert s. induction l as [|a l IH]; intros s Hs Hf; cbn; [exact Hs|].
  apply IH.
  - apply Hf; [left; reflexivity | exact Hs].
  - intros s' a' Hin. apply Hf. right. exact Hin.
Qed.

Lemma fold_left_reaches {A S : Type} (G R : S -> Prop) (hit : A -> Prop)
    (f : S -> A -> S) (l : list A) (s : S) :
  (forall s a, In a l -> G s -> G (f s a)) ->
  (forall s a, In a l -> G s -> R s -> R (f s a)) ->
  (forall s a, In a l -> G s -> hit a -> R (f s a)) ->
  G s -> R s \/ (exists a, In a l /\ hit a) ->
  G (fold_left f l s) /\ R (fold_left f l s).
Proof.
  revert s. induction l as [|a l IH]; intros s HG HR Hhit Hs Hor; cbn.
  - split; [exact Hs|]. destruct Hor as [Hr|(a & [] & _)]. exact Hr.
  - apply IH.
    + intros s' b Hb. apply HG. right. exact Hb.
    + intros s' b Hb. apply HR. right. exact Hb.
    + intros s' b Hb. apply Hhit. right. exact Hb.
    + apply HG; [left; reflexivity | exact Hs].
    + destruct Hor as [Hr|(b & [<-|Hin] & Hb)].
      * left. apply HR; [left; reflexivity | assumption..].
      * left. apply Hhit; [left; reflexivity | assumption..].
      * right. exists b. split; assumption.
Qed.

Lemma fold_left_related {A S : Type} (R : S -> S -> Prop) (f g : S -> A -> S)
    (l : list A) (s s' : S) :
  R s s' -> (forall x x' a, R x x' -> R (f x a) (g x' a)) ->
  R (fold_left f l s) (fold_left g l s').
Proof.
  intros Hs Hstep. revert s s' Hs.
  induction l as [|a l IH]; intros s s' Hs; cbn; [exact Hs|].
  apply IH, Hstep, Hs.
Qed.

(** A loop seen through its visits: what holds at the start and is kept by
    every turn in the state the turn finds holds at the end. *)
Lemma turn_visits_preserves {A S : Type} (P : S -> Prop) (f : S -> A -> S)
    (l : list A) (s : S) :
  P s ->
  (forall a x, In (a, x) (turn_visits f l s) -> P x -> P (f x a)) ->
  P (fold_left f l s).
Proof.
  revert s. induction l as [|a l IH]; intros s Hs Hf; cbn; [exact Hs|].
  apply IH.
  - apply Hf; [left; reflexivity | exact Hs].
  - intros b x Hin. apply Hf. right. exact Hin.
Qed.

Lemma turn_visits_turn {A S : Type} (f : S -> A -> S) (l : list A) (s : S)
    (a : A) (x : S) :
  In (a, x) (turn_visits f l s) -> In a l.
Proof.
  revert s. induction l as [|b l IH]; intros s; cbn; [tauto|].
  intros [[= -> _]|Hin]; [left; reflexivity | right; apply (IH _ Hin)].
Qed.

Lemma turn_visits_state {A S : Type} (P : S -> Prop) (f : S -> A -> S)
    (l : list A) (s : S) :
  P s -> (forall x a, In a l -> P x -> P (f x a)) ->
  forall a x, In (a, x) (turn_visits f l s) -> P x.
Proof.
  revert s. induction l as [|b l IH]; intros s Hs Hf a x; cbn; [tauto|].
  intros [[= _ <-]|Hin]; [exact Hs|].
  apply (IH (f s b)) with (a := a); [| |exact Hin].
  - apply Hf; [left; reflexivity | exact Hs].
  - intros y c Hc. apply Hf. right. exact Hc.
Qed.

Lemma turn_visits_has {A S : Type} (f : S -> A -> S) (l : list A) (s : S)
    (a : A) :
  In a l -> exists x, In (a, x) (turn_visits f l s).
Proof.
  revert s. induction l as [|b l IH]; intros s; cbn; [tauto|].
  intros [->|Hin].
  - exists s. left. reflexivity.
  - destruct (IH (f s b) Hin) as [x Hx]. exists x. right. exact Hx.
Qed.

(** Checking the visits of a loop by running it. *)
Lemma turn_visits_check {A S : Type} (hit : A -> bool) (P : S -> bool)
    (visits : list (A * S)) :
  forallb (fun visit => negb (hit (fst visit)) || P (snd visit)) visits = true ->
  forall a x, In (a, x) visits -> hit a = true -> P x = true.
Proof.
  intros Hall a x Hin Ha.
  rewrite forallb_forall in Hall. specialize (Hall (a, x) Hin).
  cbn in Hall. rewrite Ha in Hall. exact Hall.
Qed.

(** The last turn that hits decides: [R] is set up by every turn that
    hits, in the state the turn finds, and kept by the turns that do
    not. *)
Lemma turn_visits_reaches {A S : Type} (R : S -> Prop) (hit : A -> S -> Prop)
    (f : S -> A -> S) (l : list A) (s : S) :
  (forall a x, In (a, x) (turn_visits f l s) -> hit a x -> R (f x a)) ->
  (forall a x, In (a, x) (turn_visits f l s) -> ~ hit a x -> R x ->
               R (f x a)) ->
  (forall a x, hit a x \/ ~ hit a x) ->
  R s \/ (exists a x, In (a, x) (turn_visits f l s) /\ hit a x) ->
  R (fold_left f l s).
Proof.
  intros Hhit Hkeep Hdec. revert s Hhit Hkeep.
  induction l as [|a l IH]; intros s Hhit Hkeep Hor; cbn.
  - destruct Hor as [Hr|(a & x & [] & _)]. exact Hr.
  - apply IH.
    + intros b x Hin. apply Hhit. right. exact Hin.
    + intros b x Hin. apply Hkeep. right. exact Hin.
    + destruct (Hdec a s) as [Ha|Hna].
      * left. apply Hhit; [left; reflexivity | exact Ha].
      * destruct Hor as [Hr|(b & x & [[= <- <-]|Hin] & Hb)].
        -- left. apply Hkeep; [left; reflexivity | assumption..].
        -- contradiction.
        -- right. exists b, x. split; assumption.
Qed.

(** *** Parallel ranges *)

(** Whatever the order, the turns taken are those of the tasks: each one
    once. *)
Lemma BLI_task_turns_perm {A : Type} (order : list nat)
    (tasks : list (list A)) :
  BLI_task_turns order tasks ≡ₚ concat tasks.
Proof.
  revert tasks. induction order as [|i order IH]; intros tasks; cbn;
    [reflexivity|].
  destruct (tasks !! i) as [[|a rest]|] eqn:Hi; [apply IH| |apply IH].
  rewrite IH.
  rewrite <- (take_drop_middle tasks i (a :: rest) Hi) at 2.
  rewrite insert_take_drop by (eapply lookup_lt_Some; exact Hi).
  rewrite !concat_app. cbn [concat].
  apply (Permutation_middle (concat (take i tasks))).
Qed.

Lemma BLI_task_turns_in {A : Type} (order : list nat) (tasks : list (list A))
    (a : A) :
  In a (BLI_task_turns order tasks) <-> In a (concat tasks).
Proof.
  split; apply Permutation_in;
    [|symmetry]; apply BLI_task_turns_perm.
Qed.

(** One task leaves the scheduler no choice. *)
Lemma BLI_task_turns_single {A : Type} (order : list nat)
    (tasks : list (list A)) :
  length tasks <= 1 -> BLI_task_turns order tasks = concat tasks.
Proof.
  revert tasks. induction order as [|i order IH]; intros tasks Hlen; cbn;
    [reflexivity|].
  destruct tasks as [|t [|t' tasks]]; cbn in Hlen; [| |lia].
  - apply IH. cbn. lia.
  - destruct i as [|i]; cbn.
    + destruct t as [|a rest]; [apply IH; cbn; lia|].
      rewrite IH by (cbn; lia). reflexivity.
    + apply IH. cbn. lia.
Qed.

Lemma turns_of_concat {A : Type} (tasks : list (list A)) (a : A)
    (l : list A) :
  concat tasks = a :: l ->
  exists i rest,
    tasks !! i = Some (a :: rest) /\ concat (<[i := rest]> tasks) = l.
Proof.
  induction tasks as [|t tasks IH]; cbn; [discriminate|].
  destruct t as [|b rest]; cbn.
  - intros Hl. destruct (IH Hl) as (i & rest & Hi & Hc).
    exists (S i), rest. split; [exact Hi | exact Hc].
  - intros [= -> <-]. exists 0, rest. split; reflexivity.
Qed.

(** Reasoning on the tasks in flight: what holds of the turns still to come
    and of the state, and is kept whenever some task takes its next turn,
    holds when all have run. *)
Lemma BLI_task_turns_invariant {S A : Type} (turn : S -> A -> S)
    (I : list (list A) -> S -> Prop) :
  (forall tasks i a rest s,
     tasks !! i = Some (a :: rest) -> I tasks s ->
     I (<[i := rest]> tasks) (turn s a)) ->
  forall order tasks s,
    I tasks s ->
    exists tasks', I tasks' (fold_left turn (BLI_task_turns order tasks) s).
Proof.
  intros Hstep.
  assert (Hrun : forall l tasks s,
            concat tasks = l -> I tasks s ->
            exists tasks', I tasks' (fold_left turn l s)).
  { induction l as [|a l IH]; intros tasks s Hl Hs; cbn.
    - exists tasks. exact Hs.
    - destruct (turns_of_concat tasks a l Hl) as (i & rest & Hi & Hc).
      apply (IH (<[i := rest]> tasks)); [exact Hc|].
      apply Hstep; assumption. }
  induction order as [|i order IH]; intros tasks s Hs; cbn.
  - apply (Hrun _ tasks); [reflexivity | exact Hs].
  - destruct (tasks !! i) as [[|a rest]|] eqn:Hi;
      [apply IH; exact Hs| |apply IH; exact Hs].
    cbn. apply IH. apply Hstep; assumption.
Qed.

Lemma BLI_task_parallel_range_preserves {S A : Type} (P : S -> Prop)
    (start stop : nat) (func : nat -> list A) (turn : S -> A -> S)
    (order : list nat) (s : S) :
  P s -> (forall a x, P x -> P (turn x a)) ->
  P (BLI_task_parallel_range start stop func turn order s).
Proof.
  intros Hs Hf. unfold BLI_task_parallel_range.
  apply fold_left_preserves; [exact Hs|]. intros x a _. apply Hf.
Qed.

#[global] Arguments F32.add : simpl never.
#[global] Arguments F32.sub : simpl never.
#[global] Arguments F32.mul : simpl never.
#[global] Arguments F32.div : simpl never.
#[global] Arguments F32.eqb : simpl never.
#[global] Arguments F32.ltb : simpl never.
#[global] Arguments F32.gtb : simpl never.
#[global] Arguments F32.of_Z : simpl never.
#[global] Arguments BLI.clamp_f : simpl never.

(** *** The shape of one iteration *)

Section ApplyShape.
Context `{SculptExternals}.

Lemma sculpt_mesh_filter_apply_unfold (op : wmOperator) (ss : SculptSession)
    (fc : FilterCache) :
  filter_cache ss = Some fc ->
  sculpt_mesh_filter_apply op ss =
  Some (apply_epilogue fc
          (apply_passes fc (op_type op) (op_strength op) ss)).
Proof.
  intros Hfc. unfold sculpt_mesh_filter_apply. rewrite Hfc. reflexivity.
Qed.

Lemma apply_epilogue_vert_co (fc : FilterCache) (ss : SculptSession) :
  vert_co (apply_epilogue fc ss) = vert_co ss.
Proof.
  unfold apply_epilogue. cbn.
  destruct (_ || _); reflexivity.
Qed.

Lemma apply_epilogue_undo_coords (fc : FilterCache) (ss : SculptSession) :
  undo_coords (apply_epilogue fc ss) = undo_coords ss.
Proof.
  unfold apply_epilogue. cbn.
  destruct (_ || _); reflexivity.
Qed.

Lemma apply_epilogue_pbvh_nodes (fc : FilterCache) (ss : SculptSession) :
  pbvh_nodes (apply_epilogue fc ss) = pbvh_nodes ss.
Proof.
  unfold apply_epilogue. cbn.
  destruct (_ || _); reflexivity.
Qed.

Lemma apply_epilogue_filter_cache (fc : FilterCache) (ss : SculptSession) :
  filter_cache (apply_epilogue fc ss) =
  Some (fc_set_iteration_count (int_incr (iteration_count fc)) fc).
Proof.
  unfold apply_epilogue. cbn.
  destruct (_ || _); reflexivity.
Qed.

End ApplyShape.

(** *** The passes, turn by turn *)

Section Passes.
Context `{SculptExternals}.
Variables (fc : FilterCache) (ft : eSculptMeshFilterType) (strength : float).

Lemma mesh_filter_pass_unfold (s : SculptSession) :
  mesh_filter_pass fc ft strength s =
  fold_left (mesh_filter_task_turn fc ft strength)
            (mesh_filter_pass_turns fc s) s.
Proof.
  unfold mesh_filter_pass, BLI_task_parallel_range, mesh_filter_pass_turns.
  rewrite Nat.sub_0_r. reflexivity.
Qed.

Lemma displace_pass_unfold (s : SculptSession) :
  surface_smooth_displace_pass fc strength s =
  fold_left (surface_smooth_displace_vertex_step fc strength)
            (surface_smooth_displace_pass_turns fc s) s.
Proof.
  unfold surface_smooth_displace_pass, BLI_task_parallel_range,
    surface_smooth_displace_pass_turns.
  rewrite Nat.sub_0_r. reflexivity.
Qed.

Lemma range_tasks_in {A : Type} (l : list nat) (task : nat -> list A) (a : A) :
  In a (concat (map (fun i => match l !! i with
                              | Some node => task node
                              | None => []
                              end) (seq 0 (length l)))) <->
  exists node, In node l /\ In a (task node).
Proof.
  rewrite in_concat. split.
  - intros (t & Ht & Ha). apply in_map_iff in Ht as (i & <- & _).
    destruct (l !! i) as [node|] eqn:Hi; [|destruct Ha].
    exists node. split; [|exact Ha].
    apply list_elem_of_In. eapply list_elem_of_lookup_2. exact Hi.
  - intros (node & Hnode & Ha).
    apply list_elem_of_In, list_elem_of_lookup_1 in Hnode as [i Hi].
    exists (task node). split; [|exact Ha].
    apply in_map_iff. exists i. rewrite Hi. split; [reflexivity|].
    apply in_seq. apply lookup_lt_Some in Hi. lia.
Qed.

(** The turns of the first pass: for every node of the cache its snapshot
    is fetched and its vertices are visited. *)
Lemma mesh_filter_pass_turns_in (s : SculptSession) (a : TaskTurn) :
  In a (mesh_filter_pass_turns fc s) <->
  exists node,
    In node (nodes fc) /\
    (a = TASK_node_begin node \/
     exists u, In u (node_unique_verts s node) /\ a = TASK_vertex u).
Proof.
  unfold mesh_filter_pass_turns. rewrite BLI_task_turns_in.
  change (mesh_filter_task_cb fc s)
    with (fun i => match nodes fc !! i with
                   | Some node =>
                       TASK_node_begin node
                       :: map TASK_vertex (node_unique_verts s node)
                   | None => []
                   end).
  rewrite range_tasks_in. split; intros (node & Hnode & Ha); exists node;
    (split; [exact Hnode|]).
  - destruct Ha as [<-|Ha]; [left; reflexivity|]. right.
    apply in_map_iff in Ha as (u & <- & Hu). exists u. split; [exact Hu|].
    reflexivity.
  - destruct Ha as [->|(u & Hu & ->)]; [left; reflexivity|]. right.
    apply in_map. exact Hu.
Qed.

Lemma mesh_filter_pass_turn_vertex (s : SculptSession) (u : nat) :
  In (TASK_vertex u) (mesh_filter_pass_turns fc s) <->
  In u (filter_verts fc s).
Proof.
  rewrite mesh_filter_pass_turns_in. unfold filter_verts. rewrite in_concat.
  split.
  - intros (node & Hnode & [Ha|(w & Hw & Ha)]); [discriminate Ha|].
    injection Ha as ->.
    exists (node_unique_verts s node). split; [|exact Hw].
    apply in_map. exact Hnode.
  - intros (vs & Hvs & Hu). apply in_map_iff in Hvs as (node & <- & Hnode).
    exists node. split; [exact Hnode|]. right. exists u.
    split; [exact Hu | reflexivity].
Qed.

(** The turns of the second pass: the vertices of the nodes of the cache. *)
Lemma displace_pass_turns_in (s : SculptSession) (u : nat) :
  In u (surface_smooth_displace_pass_turns fc s) <->
  In u (filter_verts fc s).
Proof.
  unfold surface_smooth_displace_pass_turns. rewrite BLI_task_turns_in.
  change (mesh_filter_surface_smooth_displace_task_cb fc s)
    with (fun i => match nodes fc !! i with
                   | Some node => node_unique_verts s node
                   | None => []
                   end).
  rewrite range_tasks_in. unfold filter_verts. rewrite in_concat. split.
  - intros (node & Hnode & Hu). exists (node_unique_verts s node).
    split; [apply in_map; exact Hnode | exact Hu].
  - intros (vs & Hvs & Hu). apply in_map_iff in Hvs as (node & <- & Hnode).
    exists node. split; assumption.
Qed.

(** What every turn keeps, the pass keeps, whatever the order of the
    turns. *)
Lemma mesh_filter_pass_preserves (P : SculptSession -> Prop)
    (s : SculptSession) :
  P s ->
  (forall x node, In node (nodes fc) -> P x ->
                  P (SCULPT_orig_vert_data_init node x)) ->
  (forall x u, In u (filter_verts fc s) -> P x ->
               P (mesh_filter_vertex_step fc ft strength x u)) ->
  P (mesh_filter_pass fc ft strength s).
Proof.
  intros Hs Hnode Hvert. rewrite mesh_filter_pass_unfold.
  apply fold_left_preserves; [exact Hs|].
  intros x a Ha Hx. destruct a as [node|u]; cbn.
  - apply Hnode; [|exact Hx].
    apply mesh_filter_pass_turns_in in Ha
      as (node' & Hin & [Heq|(u & _ & Hu)]); [|discriminate Hu].
    injection Heq as ->. exact Hin.
  - apply Hvert; [|exact Hx]. apply mesh_filter_pass_turn_vertex. exact Ha.
Qed.

Lemma displace_pass_preserves (P : SculptSession -> Prop)
    (s : SculptSession) :
  P s ->
  (forall x u, In u (filter_verts fc s) -> P x ->
               P (surface_smooth_displace_vertex_step fc strength x u)) ->
  P (surface_smooth_displace_pass fc strength s).
Proof.
  intros Hs Hvert. rewrite displace_pass_unfold.
  apply fold_left_preserves; [exact Hs|].
  intros x u Hu Hx. apply Hvert; [|exact Hx].
  apply displace_pass_turns_in. exact Hu.
Qed.

(** The same with the sessions the turns find. *)
Lemma mesh_filter_pass_visits_preserves (P : SculptSession -> Prop)
    (s : SculptSession) :
  P s ->
  (forall a x, In (a, x) (mesh_filter_pass_visits fc ft strength s) ->
               P x -> P (mesh_filter_task_turn fc ft strength x a)) ->
  P (mesh_filter_pass fc ft strength s).
Proof.
  intros Hs Hturn. rewrite mesh_filter_pass_unfold.
  apply turn_visits_preserves; [exact Hs | exact Hturn].
Qed.

(** The passes of two sessions that have the same nodes and get the same
    order from the scheduler go turn by turn. *)
Lemma mesh_filter_pass_related (R : SculptSession -> SculptSession -> Prop)
    (ft' : eSculptMeshFilterType) (strength' : float) (s s' : SculptSession) :
  pbvh_nodes s = pbvh_nodes s' ->
  length (nodes fc) <= 1 \/ BLI_task_schedule s = BLI_task_schedule s' ->
  R s s' ->
  (forall x x' a, R x x' ->
     R (mesh_filter_task_turn fc ft strength x a)
       (mesh_filter_task_turn fc ft' strength' x' a)) ->
  R (mesh_filter_pass fc ft strength s) (mesh_filter_pass fc ft' strength' s').
Proof.
  intros Hn Hsched Hs Hturn.
  unfold mesh_filter_pass, BLI_task_parallel_range.
  assert (Htasks : map (mesh_filter_task_cb fc s)
                     (seq 0 (length (nodes fc) - 0)) =
                   map (mesh_filter_task_cb fc s')
                     (seq 0 (length (nodes fc) - 0))).
  { apply map_ext. intros i. unfold mesh_filter_task_cb, node_unique_verts.
    rewrite Hn. reflexivity. }
  rewrite Htasks.
  assert (Hturns :
            BLI_task_turns (BLI_task_schedule s)
              (map (mesh_filter_task_cb fc s')
                 (seq 0 (length (nodes fc) - 0))) =
            BLI_task_turns (BLI_task_schedule s')
              (map (mesh_filter_task_cb fc s')
                 (seq 0 (length (nodes fc) - 0)))).
  { destruct Hsched as [Hone | ->]; [|reflexivity].
    rewrite !BLI_task_turns_single; [reflexivity|..];
      rewrite length_map, length_seq; lia. }
  rewrite Hturns. apply (fold_left_related R); assumption.
Qed.

Lemma displace_pass_related (R : SculptSession -> SculptSession -> Prop)
    (strength' : float) (s s' : SculptSession) :
  pbvh_nodes s = pbvh_nodes s' ->
  length (nodes fc) <= 1 \/ BLI_task_schedule s = BLI_task_schedule s' ->
  R s s' ->
  (forall x x' u, R x x' ->
     R (surface_smooth_displace_vertex_step fc strength x u)
       (surface_smooth_displace_vertex_step fc strength' x' u)) ->
  R (surface_smooth_displace_pass fc strength s)
    (surface_smooth_displace_pass fc strength' s').
Proof.
  intros Hn Hsched Hs Hturn.
  unfold surface_smooth_displace_pass, BLI_task_parallel_range.
  assert (Htasks : map (mesh_filter_surface_smooth_displace_task_cb fc s)
                     (seq 0 (length (nodes fc) - 0)) =
                   map (mesh_filter_surface_smooth_displace_task_cb fc s')
                     (seq 0 (length (nodes fc) - 0))).
  { apply map_ext. intros i.
    unfold mesh_filter_surface_smooth_displace_task_cb, node_unique_verts.
    rewrite Hn. reflexivity. }
  rewrite Htasks.
  assert (Hturns :
            BLI_task_turns (BLI_task_schedule s)
              (map (mesh_filter_surface_smooth_displace_task_cb fc s')
                 (seq 0 (length (nodes fc) - 0))) =
            BLI_task_turns (BLI_task_schedule s')
              (map (mesh_filter_surface_smooth_displace_task_cb fc s')
                 (seq 0 (length (nodes fc) - 0)))).
  { destruct Hsched as [Hone | ->]; [|reflexivity].
    rewrite !BLI_task_turns_single; [reflexivity|..];
      rewrite length_map, length_seq; lia. }
  rewrite Hturns. apply (fold_left_related R); assumption.
Qed.

End Passes.

(** *** Zero fade *)

Section FadeZero.
Context `{SculptExternals}.

Lemma vertex_step_other (fc : FilterCache) (ft : eSculptMeshFilterType)
    (strength : float) (s : SculptSession) (u v : nat) :
  u <> v ->
  vert_co (mesh_filter_vertex_step fc ft strength s u) !! v = vert_co s !! v.
Proof.
  intros Hne. unfold mesh_filter_vertex_step.
  destruct (mesh_filter_vertex fc s ft strength u) as [[final [l|]]|]; cbn;
    try reflexivity; apply list_lookup_insert_ne; exact Hne.
Qed.

Lemma vertex_step_mask (fc : FilterCache) (ft : eSculptMeshFilterType)
    (strength : float) (s : SculptSession) (u : nat) :
  vert_mask (mesh_filter_vertex_step fc ft strength s u) = vert_mask s.
Proof.
  unfold mesh_filter_vertex_step.
  destruct (mesh_filter_vertex fc s ft strength u) as [[final [l|]]|];
    reflexivity.
Qed.

Lemma write_same_value (s : SculptSession) (v : nat) (final : float3) :
  v3_same final (SCULPT_vertex_co_get s v) ->
  co_same (<[v := final]> (vert_co s) !! v) (vert_co s !! v).
Proof.
  unfold SCULPT_vertex_co_get. intros Hsame.
  destruct (vert_co s !! v) as [c|] eqn:Hv.
  - rewrite list_lookup_insert_eq by (eapply lookup_lt_Some; exact Hv).
    exact Hsame.
  - rewrite list_insert_ge by (apply lookup_ge_None; exact Hv).
    rewrite Hv. exact I.
Qed.

(** A vertex with zero fade is skipped, except by Surface Smooth. *)
Lemma mesh_filter_vertex_skips (fc : FilterCache) (ft : eSculptMeshFilterType)
    (strength : float) (s : SculptSession) (v : nat) :
  F32.eqb (vertex_fade fc s strength v) F32.zero = true ->
  ft <> MESH_FILTER_SURFACE_SMOOTH ->
  mesh_filter_vertex fc s ft strength v = None.
Proof.
  intros Hz Hft. unfold mesh_filter_vertex. rewrite Hz.
  destruct ft; try reflexivity. congruence.
Qed.

(** Surface Smooth rewrites it as [co + disp * fade]. *)
Lemma mesh_filter_vertex_surface_smooth (fc : FilterCache) (strength : float)
    (s : SculptSession) (v : nat) :
  exists laplacian,
    mesh_filter_vertex fc s MESH_FILTER_SURFACE_SMOOTH strength v =
    Some (BLI.madd_v3_v3v3fl (SCULPT_vertex_co_get s v)
            (surface_smooth_projected_disp fc s v)
            (BLI.clamp_f (vertex_fade fc s strength v) F32.zero F32.one),
          Some laplacian).
Proof.
  unfold mesh_filter_vertex, surface_smooth_projected_disp.
  replace (ELEM_type MESH_FILTER_SURFACE_SMOOTH [MESH_FILTER_SURFACE_SMOOTH])
    with true by reflexivity.
  rewrite andb_false_r. cbn [negb].
  replace (ELEM_type MESH_FILTER_SURFACE_SMOOTH [MESH_FILTER_RELAX_FACE_SETS])
    with false by reflexivity.
  cbn [andb]. unfold mesh_filter_displacement.
  destruct (SCULPT_surface_smooth_laplacian_step s (SCULPT_vertex_co_get s v) v
              (od_co (SCULPT_orig_vert_data_update s v)) F32.one)
    as [disp laplacian].
  exists laplacian. reflexivity.
Qed.

Lemma vertex_step_fade_zero (fc : FilterCache) (ft : eSculptMeshFilterType)
    (strength : float) (s : SculptSession) (v : nat) :
  F32.eqb (vertex_fade fc s strength v) F32.zero = true ->
  (ft = MESH_FILTER_SURFACE_SMOOTH ->
   v3_finite (surface_smooth_projected_disp fc s v) = true) ->
  co_same (vert_co (mesh_filter_vertex_step fc ft strength s v) !! v)
          (vert_co s !! v).
Proof.
  intros Hz Hfin. unfold mesh_filter_vertex_step.
  destruct (decide (ft = MESH_FILTER_SURFACE_SMOOTH)) as [->|Hft].
  - destruct (mesh_filter_vertex_surface_smooth fc strength s v) as [l ->].
    cbn. apply write_same_value.
    apply f32_eqb_zero in Hz.
    rewrite f32_clamp_zero by exact Hz.
    apply madd_zero_factor; [apply Hfin; reflexivity | exact Hz].
  - rewrite mesh_filter_vertex_skips by assumption. apply co_same_refl.
Qed.

End FadeZero.

Section FadeZeroIteration.
Context `{SculptExternals}.
Variables (ss0 : SculptSession) (fc : FilterCache) (op : wmOperator) (v : nat).

(** The session the passes of the iteration are forked in. *)
Let forked : SculptSession :=
  if ELEM_type (op_type op) [MESH_FILTER_SURFACE_SMOOTH]
  then SCULPT_surface_smooth_laplacian_init (emit EvVertexRandomAccessEnsure ss0)
  else emit EvVertexRandomAccessEnsure ss0.

Hypothesis fade_is_zero :
  forall s, vert_mask s = vert_mask ss0 ->
    F32.eqb (vertex_fade fc s (op_strength op) v) F32.zero = true.

(** For Surface Smooth: the displacement the first pass computes for [v],
    in the session a turn at [v] finds, is finite. *)
Hypothesis laplacian_disp_finite :
  op_type op = MESH_FILTER_SURFACE_SMOOTH ->
  forall s,
    In (TASK_vertex v, s)
       (mesh_filter_pass_visits fc (op_type op) (op_strength op) forked) ->
    v3_finite (surface_smooth_projected_disp fc s v) = true.

Lemma vertex_step_kept (s : SculptSession) (u : nat) :
  (u = v -> op_type op = MESH_FILTER_SURFACE_SMOOTH ->
   v3_finite (surface_smooth_projected_disp fc s v) = true) ->
  position_kept ss0 v s ->
  position_kept ss0 v
    (mesh_filter_vertex_step fc (op_type op) (op_strength op) s u).
Proof.
  intros Hfin [Hco Hmask]. split.
  - destruct (decide (u = v)) as [->|Hne].
    + eapply co_same_trans; [|exact Hco].
      apply vertex_step_fade_zero; [apply fade_is_zero; exact Hmask|].
      apply Hfin. reflexivity.
    + rewrite vertex_step_other by exact Hne. exact Hco.
  - rewrite vertex_step_mask. exact Hmask.
Qed.

Lemma displace_step_kept (s : SculptSession) (u : nat) :
  position_kept ss0 v s ->
  position_kept ss0 v
    (surface_smooth_displace_vertex_step fc (op_strength op) s u).
Proof.
  intros [Hco Hmask]. unfold surface_smooth_displace_vertex_step.
  destruct (F32.eqb (vertex_fade fc s (op_strength op) u) F32.zero) eqn:Hz;
    [split; assumption|].
  split; [|exact Hmask].
  destruct (decide (u = v)) as [->|Hne].
  - rewrite fade_is_zero in Hz by exact Hmask. discriminate.
  - cbn. rewrite list_lookup_insert_ne by exact Hne. exact Hco.
Qed.

Lemma forked_kept : position_kept ss0 v forked.
Proof.
  subst forked. unfold SCULPT_surface_smooth_laplacian_init.
  destruct (ELEM_type _ _); [destruct (Nat.eqb _ _)|];
    (split; [apply co_same_refl | reflexivity]).
Qed.

Lemma first_pass_kept :
  position_kept ss0 v
    (mesh_filter_pass fc (op_type op) (op_strength op) forked).
Proof.
  apply mesh_filter_pass_visits_preserves; [apply forked_kept|].
  intros [node|u] x Hin Hx; cbn.
  - exact Hx.
  - apply vertex_step_kept; [|exact Hx].
    intros -> Htype. apply laplacian_disp_finite; assumption.
Qed.

Lemma apply_passes_kept :
  position_kept ss0 v
    (apply_passes fc (op_type op) (op_strength op) ss0).
Proof.
  pose proof first_pass_kept as Hpass. subst forked.
  unfold apply_passes.
  destruct (ELEM_type (op_type op) [MESH_FILTER_SURFACE_SMOOTH]);
    [|exact Hpass].
  apply displace_pass_preserves; [exact Hpass|].
  intros x u _. apply displace_step_kept.
Qed.

(** C1, as amended.  A vertex whose fade is zero, because the strength is
    zero or because it is fully masked, has the same position after one
    [sculpt_mesh_filter_apply] as before it: every filter but Surface
    Smooth skips the vertex; Surface Smooth rewrites it as
    [co + disp * 0], which is [co] again as long as the projected
    Laplacian displacement [disp] it computes for the vertex is finite.
    This holds whatever the order in which the tasks take their turns. *)
Theorem zero_fade_keeps_position (ss' : SculptSession) :
  filter_cache ss0 = Some fc ->
  sculpt_mesh_filter_apply op ss0 = Some ss' ->
  co_same (vert_co ss' !! v) (vert_co ss0 !! v).
Proof.
  intros Hfc Happly.
  rewrite (sculpt_mesh_filter_apply_unfold _ _ _ Hfc) in Happly.
  injection Happly as <-.
  rewrite apply_epilogue_vert_co. apply apply_passes_kept.
Qed.

End FadeZeroIteration.


Section FadeZeroExamples.
#[local] Existing Instance Demo.externals.

(** Surface Smooth at strength zero on two vertices at the two ends of the
    float range: the fade is zero, the Laplacian displacement overflows,
    and [co + inf * 0] leaves NaN where the coordinate was. *)
Lemma zero_fade_surface_smooth_overflow :
  let op := Demo.operator MESH_FILTER_SURFACE_SMOOTH F32.zero Demo.all_axes in
  let ss := Demo.started op (Demo.session [Demo.far_left; Demo.far_right]) in
  exists fc ss',
    filter_cache ss = Some fc /\
    F32.eqb (vertex_fade fc ss (op_strength op) 0) F32.zero = true /\
    sculpt_mesh_filter_apply op ss = Some ss' /\
    ~ co_same (vert_co ss' !! 0) (vert_co ss !! 0).
Proof.
  cbv zeta. eexists. eexists.
  split; [vm_compute; reflexivity|].
  split; [vm_compute; reflexivity|].
  split; [vm_compute; reflexivity|].
  vm_compute. intros [[Hx|[Hx _]] _]; discriminate Hx.
Qed.

(** The amended C1 at work: Surface Smooth at strength zero on three
    vertices at 0, 1 and 5.  The one turn the first pass takes at vertex 1
    computes a finite displacement, and the vertex stays. *)
Lemma zero_fade_keeps_position_witness :
  let op := Demo.operator MESH_FILTER_SURFACE_SMOOTH F32.zero Demo.all_axes in
  let mesh := Demo.session [Demo.on_x 0; Demo.on_x 1; Demo.on_x 5] in
  co_same (vert_co (Demo.applied op mesh) !! 1)
          (vert_co (Demo.started op mesh) !! 1).
Proof.
  intros op mesh.
  apply (zero_fade_keeps_position (Demo.started op mesh) (Demo.cache op mesh)
           op 1).
  - intros s Hmask. unfold vertex_fade. rewrite Hmask. vm_compute. reflexivity.
  - intros _ s Hin.
    refine (turn_visits_check
              (fun a => match a with TASK_vertex 1 => true | _ => false end)
              (fun x => v3_finite
                          (surface_smooth_projected_disp
                             (Demo.cache op mesh) x 1))
              _ _ _ s Hin eq_refl).
    vm_compute. reflexivity.
  - vm_compute. reflexivity.
  - vm_compute. reflexivity.
Defined.

End FadeZeroExamples.

(** The two causes of a zero fade: zero strength, full mask. *)
Lemma f32_mul_zero_l (z a : float) :
  F32.is_zero z = true -> F32.is_finite a = true ->
  F32.is_zero (F32.mul z a) = true.
Proof. destruct a, z; unfold F32.mul; cbn; congruence. Qed.

Section FadeZeroCauses.
Context `{SculptExternals}.

Lemma fade_zero_of_zero_strength (fc : FilterCache) (ss : SculptSession)
    (strength : float) (v : nat) :
  F32.eqb strength F32.zero = true ->
  F32.is_finite (F32.sub F32.one (vertex_mask_value ss v)) = true ->
  F32.is_finite (SCULPT_automasking_factor_get (automasking fc) ss v) = true ->
  F32.eqb (vertex_fade fc ss strength v) F32.zero = true.
Proof.
  intros Hs Hm Ha. apply f32_eqb_zero. apply f32_eqb_zero in Hs.
  unfold vertex_fade. fold (vertex_mask_value ss v).
  apply f32_mul_zero_l; [|exact Ha]. apply f32_mul_zero_r; assumption.
Qed.

Lemma fade_zero_of_full_mask (fc : FilterCache) (ss : SculptSession)
    (strength : float) (v : nat) :
  vertex_mask_value ss v = F32.one ->
  F32.is_finite strength = true ->
  F32.is_finite (SCULPT_automasking_factor_get (automasking fc) ss v) = true ->
  F32.eqb (vertex_fade fc ss strength v) F32.zero = true.
Proof.
  intros Hm Hs Ha. apply f32_eqb_zero.
  unfold vertex_fade. fold (vertex_mask_value ss v). rewrite Hm.
  apply f32_mul_zero_l; [|exact Ha].
  apply f32_mul_zero_l; [reflexivity | exact Hs].
Qed.

End FadeZeroCauses.

(** *** Refusal of an empty axis mask *)

(** C4.  With no axis enabled, [sculpt_mesh_filter_start] answers
    OPERATOR_CANCELLED after the session refresh that opens it and before
    anything else: no undo step is begun, no filter cache is allocated, and
    coordinates, normals, mask and undo snapshots are as they were. *)
Theorem start_refuses_empty_axis_mask `{SculptExternals} (C : bContext)
    (op : wmOperator) (ss : SculptSession) :
  op_deform_axis op = 0%Z ->
  let result := sculpt_mesh_filter_start C op ss in
  fst result = OPERATOR_CANCELLED /\
  filter_cache (snd result) = filter_cache ss /\
  undo_coords (snd result) = undo_coords ss /\
  vert_co (snd result) = vert_co ss /\
  vert_no (snd result) = vert_no ss /\
  vert_mask (snd result) = vert_mask ss /\
  laplacian_disp (snd result) = laplacian_disp ss /\
  events (snd result) =
    events ss ++
    [EvUpdateObjectForEdit
       (sculpt_mesh_filter_needs_pmap (op_type op) || ctx_automasking_enabled C)] /\
  ~ In EvUndoPushBegin
      [EvUpdateObjectForEdit
         (sculpt_mesh_filter_needs_pmap (op_type op) || ctx_automasking_enabled C)].
Proof.
  intros Haxis result. subst result. unfold sculpt_mesh_filter_start.
  rewrite Haxis. cbn.
  repeat split; try reflexivity.
  intros [Hin|[]]. discriminate Hin.
Qed.

Lemma start_refuses_empty_axis_mask_witness :
  fst (@sculpt_mesh_filter_start Demo.externals Demo.context
         (Demo.operator MESH_FILTER_INFLATE F32.one 0)
         (Demo.session [Demo.on_x 0; Demo.on_x 1])) = OPERATOR_CANCELLED.
Proof.
  apply (@start_refuses_empty_axis_mask Demo.externals Demo.context
           (Demo.operator MESH_FILTER_INFLATE F32.one 0)
           (Demo.session [Demo.on_x 0; Demo.on_x 1])).
  reflexivity.
Defined.

(** *** What an iteration asks of the collaborators *)

Section ApplyEvents.
Context `{SculptExternals}.

Lemma vertex_step_events (fc : FilterCache) (ft : eSculptMeshFilterType)
    (strength : float) (s : SculptSession) (u : nat) :
  events (mesh_filter_vertex_step fc ft strength s u) = events s.
Proof.
  unfold mesh_filter_vertex_step.
  destruct (mesh_filter_vertex fc s ft strength u) as [[final [l|]]|];
    reflexivity.
Qed.

Lemma mesh_filter_pass_events (fc : FilterCache) (ft : eSculptMeshFilterType)
    (strength : float) (s : SculptSession) :
  events (mesh_filter_pass fc ft strength s) = events s.
Proof.
  apply (mesh_filter_pass_preserves fc ft strength
           (fun s' => events s' = events s)); [reflexivity|..].
  - intros x node _ Hx. exact Hx.
  - intros x u _ Hx. rewrite vertex_step_events. exact Hx.
Qed.

Lemma displace_pass_events (fc : FilterCache) (strength : float)
    (s : SculptSession) :
  events (surface_smooth_displace_pass fc strength s) = events s.
Proof.
  apply (displace_pass_preserves fc strength
           (fun s' => events s' = events s)); [reflexivity|].
  intros x u _ Hx. unfold surface_smooth_displace_vertex_step.
  destruct (F32.eqb _ _); exact Hx.
Qed.

Lemma apply_passes_events (fc : FilterCache) (ft : eSculptMeshFilterType)
    (strength : float) (s : SculptSession) :
  events (apply_passes fc ft strength s) =
  events s ++ [EvVertexRandomAccessEnsure].
Proof.
  unfold apply_passes, SCULPT_surface_smooth_laplacian_init.
  destruct (ELEM_type ft [MESH_FILTER_SURFACE_SMOOTH]);
    rewrite ?displace_pass_events, mesh_filter_pass_events;
    [destruct (Nat.eqb _ _)|]; reflexivity.
Qed.

Lemma apply_passes_flags (fc : FilterCache) (ft : eSculptMeshFilterType)
    (strength : float) (s : SculptSession) :
  deform_modifiers_active (apply_passes fc ft strength s)
    = deform_modifiers_active s /\
  shapekey_active (apply_passes fc ft strength s) = shapekey_active s.
Proof.
  set (P := fun s' : SculptSession =>
              deform_modifiers_active s' = deform_modifiers_active s /\
              shapekey_active s' = shapekey_active s).
  assert (Hstep : forall s' u, P s' ->
            P (mesh_filter_vertex_step fc ft strength s' u)).
  { intros s' u Hs'. unfold mesh_filter_vertex_step.
    destruct (mesh_filter_vertex fc s' ft strength u) as [[final [l|]]|];
      exact Hs'. }
  assert (Hdisp : forall s' u, P s' ->
            P (surface_smooth_displace_vertex_step fc strength s' u)).
  { intros s' u Hs'. unfold surface_smooth_displace_vertex_step.
    destruct (F32.eqb _ _); exact Hs'. }
  assert (Hpass : forall s', P s' -> P (mesh_filter_pass fc ft strength s')).
  { intros s' Hs'. apply mesh_filter_pass_preserves; [exact Hs'|..].
    - intros x node _ Hx. exact Hx.
    - intros; apply Hstep; assumption. }
  assert (Hpass2 : forall s', P s' ->
            P (surface_smooth_displace_pass fc strength s')).
  { intros s' Hs'. apply displace_pass_preserves; [exact Hs'|].
    intros; apply Hdisp; assumption. }
  change (P (apply_passes fc ft strength s)).
  unfold apply_passes, SCULPT_surface_smooth_laplacian_init.
  destruct (ELEM_type ft [MESH_FILTER_SURFACE_SMOOTH]).
  - apply Hpass2, Hpass. destruct (Nat.eqb _ _); split; reflexivity.
  - apply Hpass. split; reflexivity.
Qed.

(** Whatever the filter type, an iteration calls the collaborators for
    random access, for the deform flush when modifiers or shape keys are
    active, and for the redraw: the normal update is never among them. *)
Lemma apply_events (op : wmOperator) (ss ss' : SculptSession) :
  sculpt_mesh_filter_apply op ss = Some ss' ->
  events ss' =
    events ss ++ [EvVertexRandomAccessEnsure]
    ++ (if deform_modifiers_active ss || shapekey_active ss
        then [EvFlushStrokeDeform] else [])
    ++ [EvFlushUpdateStep].
Proof.
  intros Happly. destruct (filter_cache ss) as [fc|] eqn:Hfc;
    [|unfold sculpt_mesh_filter_apply in Happly; rewrite Hfc in Happly;
      discriminate].
  rewrite (sculpt_mesh_filter_apply_unfold _ _ _ Hfc) in Happly.
  injection Happly as <-.
  destruct (apply_passes_flags fc (op_type op) (op_strength op) ss)
    as [Hd Hk].
  unfold apply_epilogue. cbn. rewrite Hd, Hk.
  destruct (_ || _); cbn; rewrite apply_passes_events, <- !app_assoc;
    reflexivity.
Qed.

(** The counter moves by one. *)
Lemma apply_iteration_count (op : wmOperator) (ss ss' : SculptSession)
    (fc : FilterCache) :
  filter_cache ss = Some fc ->
  sculpt_mesh_filter_apply op ss = Some ss' ->
  iteration_count <$> filter_cache ss' = Some (int_incr (iteration_count fc)).
Proof.
  intros Hfc Happly.
  rewrite (sculpt_mesh_filter_apply_unfold _ _ _ Hfc) in Happly.
  injection Happly as <-. rewrite apply_epilogue_filter_cache. reflexivity.
Qed.

Lemma int_incr_succ (n : Z) :
  (- 2 ^ 31 <= n < 2 ^ 31 - 1)%Z -> int_incr n = (n + 1)%Z.
Proof.
  intros Hn. unfold int_incr.
  rewrite Z.mod_small by lia. lia.
Qed.

End ApplyEvents.

Section RelaxNormalsExample.
#[local] Existing Instance Demo.externals.

(** C5: the code at the Relax filter.  One iteration at full strength on
    three vertices bumps the counter from 0 to 1 and calls the
    collaborators for random access and for the redraw only: the guard
    [ELEM(MESH_FILTER_RELAX, MESH_FILTER_RELAX_FACE_SETS)] compares the two
    enumerators with each other, is false, and the normal update the
    comment above it announces is not requested. *)
Lemma relax_iteration_skips_normal_update :
  let op := Demo.operator MESH_FILTER_RELAX F32.one Demo.all_axes in
  let mesh := Demo.session [Demo.on_x 0; Demo.on_x 1; Demo.on_x 5] in
  ELEM_type MESH_FILTER_RELAX [MESH_FILTER_RELAX_FACE_SETS] = false /\
  events (Demo.applied op mesh) =
    events (Demo.started op mesh)
    ++ [EvVertexRandomAccessEnsure; EvFlushUpdateStep] /\
  iteration_count <$> filter_cache (Demo.started op mesh) = Some 0%Z /\
  iteration_count <$> filter_cache (Demo.applied op mesh) = Some 1%Z.
Proof. vm_compute. repeat split; reflexivity. Qed.

End RelaxNormalsExample.

(** *** Relax Face Sets *)

(** C8, as amended.  For a vertex whose fade is not zero, Relax Face Sets
    follows the iteration counter: on iterations with
    [iteration_count % 3 == 0] the relax kernel gets the mesh boundary rule
    alone, on the others the face set boundary rule is added; the vertex is
    skipped exactly when that second mode flag equals
    [SCULPT_vertex_has_unique_face_set], and is otherwise moved to the
    relaxed position, projected on the enabled axes. *)
Theorem relax_face_sets_alternation `{SculptExternals} (fc : FilterCache)
    (ss : SculptSession) (strength : float) (v : nat) :
  F32.eqb (vertex_fade fc ss strength v) F32.zero = false ->
  let across := negb (Z.rem (iteration_count fc) 3 =? 0)%Z in
  let boundtype :=
    if across then Z.lor SCULPT_BOUNDARY_MESH SCULPT_BOUNDARY_FACE_SET
    else SCULPT_BOUNDARY_MESH in
  let co := SCULPT_vertex_co_get ss v in
  let relaxed :=
    SCULPT_relax_vertex ss v
      (BLI.clamp_f (vertex_fade fc ss strength v) F32.zero F32.one) boundtype in
  mesh_filter_vertex fc ss MESH_FILTER_RELAX_FACE_SETS strength v =
    (if Bool.eqb across (SCULPT_vertex_has_unique_face_set ss v) then None
     else Some (BLI.add_v3_v3v3 co
                  (mesh_filter_project_disp fc (BLI.sub_v3_v3v3 relaxed co)),
                None)) /\
  (mesh_filter_vertex fc ss MESH_FILTER_RELAX_FACE_SETS strength v = None <->
   across = SCULPT_vertex_has_unique_face_set ss v).
Proof.
  intros Hfade across boundtype co relaxed.
  assert (Heq : mesh_filter_vertex fc ss MESH_FILTER_RELAX_FACE_SETS strength v =
    (if Bool.eqb across (SCULPT_vertex_has_unique_face_set ss v) then None
     else Some (BLI.add_v3_v3v3 co
                  (mesh_filter_project_disp fc (BLI.sub_v3_v3v3 relaxed co)),
                None))).
  { unfold mesh_filter_vertex. rewrite Hfade. cbn [andb].
    replace (ELEM_type MESH_FILTER_RELAX_FACE_SETS [MESH_FILTER_RELAX_FACE_SETS])
      with true by reflexivity.
    cbn [andb]. change (relax_face_sets_mode fc) with across.
    destruct (Bool.eqb across (SCULPT_vertex_has_unique_face_set ss v));
      reflexivity. }
  split; [exact Heq|]. rewrite Heq.
  destruct (Bool.eqb across (SCULPT_vertex_has_unique_face_set ss v)) eqn:Hb.
  - apply Bool.eqb_prop in Hb. tauto.
  - split; [discriminate|]. intros ->.
    rewrite Bool.eqb_reflx in Hb. discriminate.
Qed.

Section RelaxFaceSetsExamples.
#[local] Existing Instance Demo.externals.

(** Strength 1, first iteration: vertex 1 borders two face sets, the mode
    flag is off, so the vertex is skipped; vertex 0 is not. *)
Lemma relax_face_sets_alternation_witness :
  let op := Demo.operator MESH_FILTER_RELAX_FACE_SETS F32.one Demo.all_axes in
  let mesh := Demo.session [Demo.on_x 0; Demo.on_x 1; Demo.on_x 5] in
  mesh_filter_vertex (Demo.cache op mesh) (Demo.started op mesh)
    MESH_FILTER_RELAX_FACE_SETS F32.one 1 = None <->
  negb (Z.rem (iteration_count (Demo.cache op mesh)) 3 =? 0)%Z =
    SCULPT_vertex_has_unique_face_set (Demo.started op mesh) 1.
Proof.
  intros op mesh.
  apply (relax_face_sets_alternation (Demo.cache op mesh)
           (Demo.started op mesh) F32.one 1).
  vm_compute. reflexivity.
Defined.

(** Strength 0, first iteration: vertex 0 lies inside one face set while
    the mode flag is off, so the face set rule does not skip it; it is
    skipped all the same, its fade being zero. *)
Lemma relax_face_sets_zero_fade_skipped :
  let op := Demo.operator MESH_FILTER_RELAX_FACE_SETS F32.zero Demo.all_axes in
  let mesh := Demo.session [Demo.on_x 0; Demo.on_x 1; Demo.on_x 5] in
  ~ (mesh_filter_vertex (Demo.cache op mesh) (Demo.started op mesh)
       MESH_FILTER_RELAX_FACE_SETS F32.zero 0 = None <->
     relax_face_sets_mode (Demo.cache op mesh) =
       SCULPT_vertex_has_unique_face_set (Demo.started op mesh) 0).
Proof.
  intros op mesh [Hskip _].
  assert (Hnone : mesh_filter_vertex (Demo.cache op mesh)
                    (Demo.started op mesh) MESH_FILTER_RELAX_FACE_SETS
                    F32.zero 0 = None) by (vm_compute; reflexivity).
  specialize (Hskip Hnone). vm_compute in Hskip. discriminate Hskip.
Qed.

End RelaxFaceSetsExamples.

(** *** The Random filter *)

(** C7.  The hash of the Random filter is a function of the coordinate the
    displacement starts from and of the seed: two vertices, whatever their
    indices and whatever sessions they live in, get the same hash when those
    agree; with the same original normal, fade and axis frame on top, they
    are moved to the same position. *)
Theorem random_filter_deterministic `{SculptExternals}
    (fc1 fc2 : FilterCache) (ss1 ss2 : SculptSession)
    (strength1 strength2 : float) (v1 v2 : nat) :
  vertex_orig_co fc1 ss1 MESH_FILTER_RANDOM v1 =
    vertex_orig_co fc2 ss2 MESH_FILTER_RANDOM v2 ->
  random_seed fc1 = random_seed fc2 ->
  od_no (SCULPT_orig_vert_data_update ss1 v1) =
    od_no (SCULPT_orig_vert_data_update ss2 v2) ->
  vertex_fade fc1 ss1 strength1 v1 = vertex_fade fc2 ss2 strength2 v2 ->
  (forall disp, mesh_filter_project_disp fc1 disp =
                mesh_filter_project_disp fc2 disp) ->
  random_hash (vertex_orig_co fc1 ss1 MESH_FILTER_RANDOM v1) (random_seed fc1) =
    random_hash (vertex_orig_co fc2 ss2 MESH_FILTER_RANDOM v2) (random_seed fc2) /\
  mesh_filter_vertex fc1 ss1 MESH_FILTER_RANDOM strength1 v1 =
    mesh_filter_vertex fc2 ss2 MESH_FILTER_RANDOM strength2 v2.
Proof.
  intros Hco Hseed Hno Hfade Hframe. split; [rewrite Hco, Hseed; reflexivity|].
  unfold mesh_filter_vertex. rewrite Hfade.
  destruct (F32.eqb _ _ && _); [reflexivity|].
  replace (ELEM_type MESH_FILTER_RANDOM [MESH_FILTER_RELAX_FACE_SETS])
    with false by reflexivity.
  cbn [andb]. unfold mesh_filter_displacement.
  rewrite Hco, Hseed, Hno, Hframe. reflexivity.
Qed.

Section RandomExamples.
#[local] Existing Instance Demo.externals.

(** Vertices 0 and 2 of one mesh and vertex 1 of another sit at the same
    place: same seed, same displacement. *)
Lemma random_filter_deterministic_witness :
  let op := Demo.operator MESH_FILTER_RANDOM F32.one Demo.all_axes in
  let mesh1 := Demo.session [Demo.on_x 3; Demo.on_x 1; Demo.on_x 3] in
  let mesh2 := Demo.session [Demo.on_x 7; Demo.on_x 3] in
  mesh_filter_vertex (Demo.cache op mesh1) (Demo.started op mesh1)
    MESH_FILTER_RANDOM F32.one 2 =
  mesh_filter_vertex (Demo.cache op mesh2) (Demo.started op mesh2)
    MESH_FILTER_RANDOM F32.one 1.
Proof.
  intros op mesh1 mesh2.
  apply (random_filter_deterministic (Demo.cache op mesh1)
           (Demo.cache op mesh2) (Demo.started op mesh1)
           (Demo.started op mesh2) F32.one F32.one 2 1).
  - vm_compute. reflexivity.
  - vm_compute. reflexivity.
  - vm_compute. reflexivity.
  - vm_compute. reflexivity.
  - intros disp. reflexivity.
Defined.

End RandomExamples.

(** *** Axis exclusion *)

Section AxisExclusion.
Context `{SculptExternals}.

Lemma zero_disabled_axes_get (enabled : nat -> bool) (r : float3) (it : nat) :
  it < 3 -> enabled it = false ->
  BLI.v3_get (zero_disabled_axes enabled r) it = F32.zero.
Proof.
  intros Hit Hen. unfold zero_disabled_axes. cbn [seq fold_left].
  destruct it as [|[|[|it]]]; [| | |lia]; rewrite ?Hen; cbn [negb];
    destruct (enabled 0), (enabled 1), (enabled 2); try discriminate;
    reflexivity.
Qed.

(** The displacement the first pass hands on is the object space image of a
    vector whose disabled components are exactly [0.0f] in the frame. *)
Lemma project_disp_frame (fc : FilterCache) (disp : float3) (it : nat) :
  it < 3 -> enabled_axis fc it = false ->
  exists framed,
    mesh_filter_project_disp fc disp = SCULPT_filter_to_object_space framed fc /\
    BLI.v3_get framed it = F32.zero.
Proof.
  intros Hit Hen. eexists. split; [reflexivity|].
  apply zero_disabled_axes_get; assumption.
Qed.

(** In the local frame that vector is the displacement itself. *)
Lemma project_disp_local (fc : FilterCache) (disp : float3) (it : nat) :
  orientation fc = SCULPT_FILTER_ORIENTATION_LOCAL ->
  it < 3 -> enabled_axis fc it = false ->
  BLI.v3_get (mesh_filter_project_disp fc disp) it = F32.zero.
Proof.
  intros Hor Hit Hen.
  unfold mesh_filter_project_disp, SCULPT_filter_to_object_space,
    SCULPT_filter_to_orientation_space.
  rewrite Hor. apply zero_disabled_axes_get; assumption.
Qed.

End AxisExclusion.

Section AxisExclusionExample.
#[local] Existing Instance Demo.externals.

(** C3: the code at Surface Smooth.  Local frame, X disabled, strength 1,
    three vertices on the X axis at 0, 1 and 5.  The first pass leaves the
    X coordinate of vertex 0 alone; the second pass, which hands [vd.co] to
    the displace step without the axis zeroing, moves it to -1.25. *)
Lemma surface_smooth_ignores_disabled_axis :
  let op :=
    Demo.operator MESH_FILTER_SURFACE_SMOOTH F32.one
      (Z.lor MESH_FILTER_DEFORM_Y MESH_FILTER_DEFORM_Z) in
  let mesh := Demo.session [Demo.on_x 0; Demo.on_x 1; Demo.on_x 5] in
  let fc := Demo.cache op mesh in
  let first_pass :=
    mesh_filter_pass fc MESH_FILTER_SURFACE_SMOOTH F32.one
      (SCULPT_surface_smooth_laplacian_init (Demo.started op mesh)) in
  enabled_axis fc 0 = false /\
  orientation fc = SCULPT_FILTER_ORIENTATION_LOCAL /\
  v3x (SCULPT_vertex_co_get (Demo.started op mesh) 0) = F32.zero /\
  v3x (SCULPT_vertex_co_get first_pass 0) = F32.zero /\
  v3x (SCULPT_vertex_co_get (Demo.applied op mesh) 0) =
    F32.div (F32.of_Z (-5)) (F32.of_Z 4).
Proof. vm_compute. repeat split; reflexivity. Qed.

End AxisExclusionExample.


(** *** The two passes of Surface Smooth *)

Section SurfaceSmoothPasses.
Context `{SculptExternals}.
Variables (fc : FilterCache) (strength : float).

Lemma mesh_filter_vertex_surface_smooth_laplacian (s : SculptSession) (v : nat) :
  exists final,
    mesh_filter_vertex fc s MESH_FILTER_SURFACE_SMOOTH strength v =
    Some (final, Some (laplacian_of s v)).
Proof.
  unfold mesh_filter_vertex, laplacian_of.
  replace (ELEM_type MESH_FILTER_SURFACE_SMOOTH [MESH_FILTER_SURFACE_SMOOTH])
    with true by reflexivity.
  rewrite andb_false_r. cbn [negb].
  replace (ELEM_type MESH_FILTER_SURFACE_SMOOTH [MESH_FILTER_RELAX_FACE_SETS])
    with false by reflexivity.
  cbn [andb]. unfold mesh_filter_displacement.
  destruct (SCULPT_surface_smooth_laplacian_step s (SCULPT_vertex_co_get s v) v
              (od_co (SCULPT_orig_vert_data_update s v)) F32.one)
    as [disp laplacian].
  eexists. reflexivity.
Qed.

(** During the first pass the PBVH and the size of the buffer are fixed. *)
Lemma first_pass_turn_frame (s0 x : SculptSession) (a : TaskTurn) :
  pbvh_nodes x = pbvh_nodes s0 /\
  length (laplacian_disp x) = length (laplacian_disp s0) ->
  pbvh_nodes (mesh_filter_task_turn fc MESH_FILTER_SURFACE_SMOOTH strength x a)
    = pbvh_nodes s0 /\
  length (laplacian_disp
            (mesh_filter_task_turn fc MESH_FILTER_SURFACE_SMOOTH strength x a))
    = length (laplacian_disp s0).
Proof.
  intros [Hn Hl]. destruct a as [node|u]; cbn; [split; assumption|].
  unfold mesh_filter_vertex_step.
  destruct (mesh_filter_vertex_surface_smooth_laplacian x u) as [final ->].
  cbn. rewrite length_insert. split; assumption.
Qed.

Lemma first_pass_frame (s0 : SculptSession) :
  pbvh_nodes (mesh_filter_pass fc MESH_FILTER_SURFACE_SMOOTH strength s0)
    = pbvh_nodes s0 /\
  length (laplacian_disp
            (mesh_filter_pass fc MESH_FILTER_SURFACE_SMOOTH strength s0))
    = length (laplacian_disp s0).
Proof.
  rewrite mesh_filter_pass_unfold.
  apply (fold_left_preserves
           (fun x => pbvh_nodes x = pbvh_nodes s0 /\
                     length (laplacian_disp x) = length (laplacian_disp s0)));
    [split; reflexivity|].
  intros x a _. apply first_pass_turn_frame.
Qed.

(** Pass 1 stores an estimate for every vertex of every node of the cache:
    the one computed at the last turn taken at the vertex. *)
Lemma first_pass_stores (s0 : SculptSession) (v : nat) :
  v < length (laplacian_disp s0) ->
  In v (filter_verts fc s0) ->
  laplacian_stored fc strength s0 v
    (mesh_filter_pass fc MESH_FILTER_SURFACE_SMOOTH strength s0).
Proof.
  intros Hv Hin. rewrite mesh_filter_pass_unfold.
  assert (Hframe : forall a x,
            In (a, x) (mesh_filter_pass_visits fc MESH_FILTER_SURFACE_SMOOTH
                         strength s0) ->
            length (laplacian_disp x) = length (laplacian_disp s0)).
  { intros a x Hax.
    apply (turn_visits_state
             (fun x => pbvh_nodes x = pbvh_nodes s0 /\
                       length (laplacian_disp x) = length (laplacian_disp s0))
             _ _ _ (conj eq_refl eq_refl)
             (fun y b _ => first_pass_turn_frame s0 y b) a x Hax). }
  apply (turn_visits_reaches
           (laplacian_stored fc strength s0 v)
           (fun a _ => a = TASK_vertex v)).
  - intros a x Hax ->. exists x. split; [exact Hax|].
    cbn. unfold mesh_filter_vertex_step.
    destruct (mesh_filter_vertex_surface_smooth_laplacian x v) as [final ->].
    cbn. apply list_lookup_insert_eq. rewrite (Hframe _ _ Hax). exact Hv.
  - intros a x Hax Hne (y & Hy & Hlook). exists y. split; [exact Hy|].
    destruct a as [node|u]; cbn; [exact Hlook|].
    unfold mesh_filter_vertex_step.
    destruct (mesh_filter_vertex_surface_smooth_laplacian x u) as [final ->].
    cbn. rewrite list_lookup_insert_ne; [exact Hlook|]. congruence.
  - intros a _. destruct (decide (a = TASK_vertex v)); [left|right]; assumption.
  - right.
    destruct (turn_visits_has
                (mesh_filter_task_turn fc MESH_FILTER_SURFACE_SMOOTH strength)
                (mesh_filter_pass_turns fc s0) s0 (TASK_vertex v)) as [x Hx].
    + apply mesh_filter_pass_turn_vertex. exact Hin.
    + exists (TASK_vertex v), x. split; [exact Hx | reflexivity].
Qed.

(** Pass 2 writes coordinates only. *)
Lemma displace_step_frame (s : SculptSession) (u : nat) :
  pbvh_nodes (surface_smooth_displace_vertex_step fc strength s u)
    = pbvh_nodes s /\
  laplacian_disp (surface_smooth_displace_vertex_step fc strength s u)
    = laplacian_disp s /\
  length (vert_co (surface_smooth_displace_vertex_step fc strength s u))
    = length (vert_co s).
Proof.
  unfold surface_smooth_displace_vertex_step.
  destruct (F32.eqb _ _); cbn; rewrite ?length_insert; repeat split.
Qed.

(** Every turn of pass 2 is taken at a vertex of a node of the cache and
    finds the buffer as it was when the pass was forked. *)
Lemma second_pass_visits (s1 x : SculptSession) (u : nat) :
  In (u, x) (surface_smooth_displace_pass_visits fc strength s1) ->
  In u (filter_verts fc s1) /\ laplacian_disp x = laplacian_disp s1 /\
  length (vert_co x) = length (vert_co s1).
Proof.
  intros Hux. split.
  - apply displace_pass_turns_in. eapply turn_visits_turn. exact Hux.
  - refine (turn_visits_state
              (fun x => laplacian_disp x = laplacian_disp s1 /\
                        length (vert_co x) = length (vert_co s1))
              _ _ _ (conj eq_refl eq_refl) _ u x Hux).
    intros y w _ [Hl Hc].
    destruct (displace_step_frame y w) as (_ & Hl' & Hc').
    split; congruence.
Qed.

(** A vertex that has a turn at a fade other than zero ends where the last
    such turn puts it. *)
Lemma second_pass_writes (s1 : SculptSession) (v : nat) :
  v < length (vert_co s1) ->
  (exists x,
     In (v, x) (surface_smooth_displace_pass_visits fc strength s1) /\
     F32.eqb (vertex_fade fc x strength v) F32.zero = false) ->
  exists x,
    In (v, x) (surface_smooth_displace_pass_visits fc strength s1) /\
    F32.eqb (vertex_fade fc x strength v) F32.zero = false /\
    vert_co (surface_smooth_displace_pass fc strength s1) !! v =
    Some (displaced_co fc strength x v).
Proof.
  intros Hv (x0 & Hx0 & Hfade0). rewrite displace_pass_unfold.
  apply (turn_visits_reaches
           (fun y =>
              exists x,
                In (v, x) (surface_smooth_displace_pass_visits fc strength s1) /\
                F32.eqb (vertex_fade fc x strength v) F32.zero = false /\
                vert_co y !! v = Some (displaced_co fc strength x v))
           (fun u x =>
              u = v /\ F32.eqb (vertex_fade fc x strength v) F32.zero = false)).
  - intros u x Hux [-> Hfade]. exists x. split; [exact Hux|].
    split; [exact Hfade|]. unfold surface_smooth_displace_vertex_step.
    rewrite Hfade. cbn. apply list_lookup_insert_eq.
    destruct (second_pass_visits s1 x v Hux) as (_ & _ & ->). exact Hv.
  - intros u x Hux Hno (y & Hy & Hfade & Hlook). exists y.
    split; [exact Hy|]. split; [exact Hfade|].
    unfold surface_smooth_displace_vertex_step.
    destruct (F32.eqb (vertex_fade fc x strength u) F32.zero) eqn:Hz;
      [exact Hlook|].
    cbn. rewrite list_lookup_insert_ne; [exact Hlook|].
    intros ->. apply Hno. split; [reflexivity | exact Hz].
  - intros u x. destruct (decide (u = v)) as [->|Hne];
      [|right; intros [Heq _]; contradiction].
    destruct (F32.eqb (vertex_fade fc x strength v) F32.zero);
      [right; intros [_ Hf]; discriminate Hf | left; split; reflexivity].
  - right. exists v, x0. split; [exact Hx0|]. split; [reflexivity|exact Hfade0].
Qed.

End SurfaceSmoothPasses.

(** C6.  For Surface Smooth one [sculpt_mesh_filter_apply] is the second
    pass forked in the session the complete first pass has left, and this
    whatever the order in which the tasks of either pass take their turns.
    When the first pass is over, the buffer holds for every vertex of every
    node of the cache, whatever its fade, the Laplacian estimate computed at
    a turn of that pass taken at the vertex.  The second pass takes a turn
    at every one of these vertices; each of its turns finds the buffer as
    the first pass left it, and a vertex whose fade is not zero ends where
    the displace step, reading that buffer, puts it. *)
Theorem surface_smooth_two_passes `{SculptExternals} (op : wmOperator)
    (ss : SculptSession) (fc : FilterCache) :
  op_type op = MESH_FILTER_SURFACE_SMOOTH ->
  filter_cache ss = Some fc ->
  let strength := op_strength op in
  let s0 :=
    SCULPT_surface_smooth_laplacian_init (emit EvVertexRandomAccessEnsure ss) in
  let s1 := mesh_filter_pass fc MESH_FILTER_SURFACE_SMOOTH strength s0 in
  let s2 := surface_smooth_displace_pass fc strength s1 in
  let verts := filter_verts fc ss in
  sculpt_mesh_filter_apply op ss = Some (apply_epilogue fc s2) /\
  (forall v, In v verts -> v < length (vert_co ss) ->
     exists x,
       In (TASK_vertex v, x)
          (mesh_filter_pass_visits fc MESH_FILTER_SURFACE_SMOOTH strength s0) /\
       laplacian_disp s1 !! v = Some (laplacian_of x v)) /\
  (forall v, In v verts ->
     exists x, In (v, x) (surface_smooth_displace_pass_visits fc strength s1)) /\
  (forall u x,
     In (u, x) (surface_smooth_displace_pass_visits fc strength s1) ->
     In u verts /\ laplacian_disp x = laplacian_disp s1) /\
  (forall v, v < length (vert_co ss) ->
     (exists x,
        In (v, x) (surface_smooth_displace_pass_visits fc strength s1) /\
        F32.eqb (vertex_fade fc x strength v) F32.zero = false) ->
     exists x,
       In (v, x) (surface_smooth_displace_pass_visits fc strength s1) /\
       F32.eqb (vertex_fade fc x strength v) F32.zero = false /\
       laplacian_disp x = laplacian_disp s1 /\
       vert_co s2 !! v =
       Some (SCULPT_surface_smooth_displace_step x (SCULPT_vertex_co_get x v) v
               (surface_smooth_current_vertex fc)
               (BLI.clamp_f (vertex_fade fc x strength v) F32.zero F32.one))).
Proof.
  intros Htype Hfc strength s0 s1 s2 verts.
  assert (Hlen : length (laplacian_disp s0) = length (vert_co ss)).
  { subst s0. unfold SCULPT_surface_smooth_laplacian_init.
    destruct (Nat.eqb _ _) eqn:Heq.
    - apply Nat.eqb_eq in Heq. exact Heq.
    - cbn. apply length_replicate. }
  assert (Hco0 : length (vert_co s0) = length (vert_co ss)).
  { subst s0. unfold SCULPT_surface_smooth_laplacian_init.
    destruct (Nat.eqb _ _); reflexivity. }
  assert (Hnodes0 : pbvh_nodes s0 = pbvh_nodes ss).
  { subst s0. unfold SCULPT_surface_smooth_laplacian_init.
    destruct (Nat.eqb _ _); reflexivity. }
  assert (Hverts0 : filter_verts fc s0 = verts).
  { unfold verts, filter_verts, node_unique_verts. rewrite Hnodes0. reflexivity. }
  destruct (first_pass_frame fc strength s0) as (Hnodes1 & _).
  fold s1 in Hnodes1.
  assert (Hverts1 : filter_verts fc s1 = verts).
  { rewrite <- Hverts0. unfold filter_verts, node_unique_verts.
    rewrite Hnodes1. reflexivity. }
  assert (Hco1 : length (vert_co s1) = length (vert_co ss)).
  { rewrite <- Hco0. subst s1.
    apply (mesh_filter_pass_preserves fc MESH_FILTER_SURFACE_SMOOTH strength
             (fun x => length (vert_co x) = length (vert_co s0)));
      [reflexivity|..].
    - intros x node _ Hx. exact Hx.
    - intros x u _ Hx. unfold mesh_filter_vertex_step.
      destruct (mesh_filter_vertex fc x MESH_FILTER_SURFACE_SMOOTH strength u)
        as [[final [l|]]|]; cbn; rewrite ?length_insert; exact Hx. }
  split; [|split; [|split; [|split]]].
  - rewrite (sculpt_mesh_filter_apply_unfold _ _ _ Hfc).
    unfold apply_passes. rewrite Htype. reflexivity.
  - intros v Hin Hv.
    apply (first_pass_stores fc strength s0 v); [lia | rewrite Hverts0; exact Hin].
  - intros v Hin. apply turn_visits_has. apply displace_pass_turns_in.
    rewrite Hverts1. exact Hin.
  - intros u x Hux.
    destruct (second_pass_visits fc strength s1 x u Hux) as (Hu & Hl & _).
    rewrite Hverts1 in Hu. split; assumption.
  - intros v Hv Hhit.
    destruct (second_pass_writes fc strength s1 v) as (x & Hx & Hfade & Hlook);
      [lia | exact Hhit|].
    exists x. split; [exact Hx|]. split; [exact Hfade|].
    split; [apply (second_pass_visits fc strength s1 x v Hx) | exact Hlook].
Qed.

Section SurfaceSmoothExample.

(** Surface Smooth at full strength on the vertices 0, 1 and 5 of the X
    axis, the first two in one PBVH leaf and the third in another, the
    scheduler letting the task of the second leaf go first and the two
    tasks alternate: vertex 2 has its estimate stored by the first pass,
    however the turns fell, and the second pass moves vertex 0, as the
    displace step tells from the buffer the first pass left. *)
Lemma surface_smooth_two_passes_witness :
  let E := Demo.externals_interleaved in
  let op := Demo.operator MESH_FILTER_SURFACE_SMOOTH F32.one Demo.all_axes in
  let mesh :=
    Demo.session_of_leaves [Demo.on_x 0; Demo.on_x 1; Demo.on_x 5]
      [[0; 1]; [2]] in
  let ss := Demo.started_with E op mesh in
  let fc := Demo.cache_with E op mesh in
  let s0 :=
    SCULPT_surface_smooth_laplacian_init (emit EvVertexRandomAccessEnsure ss) in
  let s1 := mesh_filter_pass fc MESH_FILTER_SURFACE_SMOOTH F32.one s0 in
  let s2 := surface_smooth_displace_pass fc F32.one s1 in
  mesh_filter_pass_turns fc s0 =
    [TASK_node_begin 1; TASK_node_begin 0; TASK_vertex 2; TASK_vertex 0;
     TASK_vertex 1] /\
  (exists x,
     In (TASK_vertex 2, x)
        (mesh_filter_pass_visits fc MESH_FILTER_SURFACE_SMOOTH F32.one s0) /\
     laplacian_disp s1 !! 2 = Some (laplacian_of x 2)) /\
  (exists x,
     In (0, x) (surface_smooth_displace_pass_visits fc F32.one s1) /\
     laplacian_disp x = laplacian_disp s1 /\
     vert_co s2 !! 0 =
     Some (SCULPT_surface_smooth_displace_step x (SCULPT_vertex_co_get x 0) 0
             (surface_smooth_current_vertex fc)
             (BLI.clamp_f (vertex_fade fc x F32.one 0) F32.zero F32.one))) /\
  vert_co s2 !! 0 <> vert_co ss !! 0.
Proof.
  intros E op mesh ss fc s0 s1 s2.
  destruct (@surface_smooth_two_passes E op ss fc)
    as (_ & Hstored & Hturn & _ & Hwrites).
  - reflexivity.
  - vm_compute. reflexivity.
  - split; [vm_compute; reflexivity|].
    split; [apply (Hstored 2); [vm_compute; auto | vm_compute; lia]|].
    split; [|vm_compute; discriminate].
    destruct (Hwrites 0) as (x & Hx & _ & Hl & Hco).
    + vm_compute. lia.
    + destruct (Hturn 0) as [x Hx]; [vm_compute; auto|].
      exists x. split; [exact Hx|].
      apply negb_true_iff.
      refine (turn_visits_check (fun u => Nat.eqb u 0)
                (fun x => negb (F32.eqb (vertex_fade fc x F32.one 0) F32.zero))
                _ _ 0 x Hx eq_refl).
      vm_compute. reflexivity.
    + exists x. split; [exact Hx|]. split; [exact Hl | exact Hco].
Defined.

End SurfaceSmoothExample.


(** *** Cancellation *)

Section UndoPush.
Context `{SculptExternals}.

Lemma undo_push_fold_lookup (cur : nat -> SculptOrigVertData) (vs : list nat)
    (u : gmap nat SculptOrigVertData) (v : nat) :
  let u' :=
    fold_left (fun u w => match u !! w with
                          | Some _ => u
                          | None => <[w := cur w]> u
                          end) vs u in
  (forall od, u !! v = Some od -> u' !! v = Some od) /\
  (u !! v = None -> In v vs -> u' !! v = Some (cur v)) /\
  (u !! v = None -> ~ In v vs -> u' !! v = None).
Proof.
  revert u. induction vs as [|w vs IH]; intros u; cbn [fold_left].
  - repeat split; [auto | intros _ [] | auto].
  - set (u1 := match u !! w with Some _ => u | None => <[w := cur w]> u end).
    specialize (IH u1). cbn zeta in IH. destruct IH as (IHa & IHb & IHc).
    assert (Hother : v <> w -> u1 !! v = u !! v).
    { intros Hne. subst u1. destruct (u !! w); [reflexivity|].
      apply lookup_insert_ne. congruence. }
    repeat split.
    + intros od Hv. apply IHa. subst u1.
      destruct (u !! w) eqn:Hw; [exact Hv|].
      rewrite lookup_insert_ne; [exact Hv|]. congruence.
    + intros Hv [<-|Hin].
      * apply IHa. subst u1. rewrite Hv. apply lookup_insert_eq.
      * destruct (decide (v = w)) as [->|Hne].
        -- apply IHa. subst u1. rewrite Hv. apply lookup_insert_eq.
        -- apply IHb; [|exact Hin]. rewrite Hother by exact Hne. exact Hv.
    + intros Hv Hnin. apply IHc.
      * rewrite Hother; [exact Hv|]. intros ->. apply Hnin. left. reflexivity.
      * intros Hin. apply Hnin. right. exact Hin.
Qed.

Lemma undo_push_node_keeps (co0 : list float3) (nodes0 : list (list nat))
    (node : nat) (s : SculptSession) :
  undo_invariant co0 nodes0 s ->
  undo_invariant co0 nodes0 (SCULPT_undo_push_node node s).
Proof.
  intros (Hlen & Hnodes & Hinv). split; [exact Hlen|]. split; [exact Hnodes|].
  intros v. unfold SCULPT_undo_push_node. cbn.
  pose proof (undo_push_fold_lookup
                (fun w => {| od_co := SCULPT_vertex_co_get s w;
                             od_no := SCULPT_vertex_normal_get s w |})
                (node_unique_verts s node) (undo_coords s) v) as Hpush.
  cbn zeta in Hpush. destruct Hpush as (Ha & Hb & Hc).
  specialize (Hinv v). destruct (undo_coords s !! v) as [od|] eqn:Hv.
  - rewrite (Ha od eq_refl). exact Hinv.
  - destruct (In_dec Nat.eq_dec v (node_unique_verts s node)) as [Hin|Hnin].
    + rewrite (Hb eq_refl Hin). cbn. split.
      * unfold SCULPT_vertex_co_get. rewrite Hinv. reflexivity.
      * unfold node_unique_verts in Hin. rewrite Hnodes in Hin.
        destruct (nodes0 !! node) as [vs|] eqn:Hnode; [|destruct Hin].
        exists node, vs. split; [exact Hnode | exact Hin].
    + rewrite (Hc eq_refl Hnin). exact Hinv.
Qed.

Lemma undo_push_node_snapshots (node : nat) (s : SculptSession) (v : nat) :
  In v (node_unique_verts s node) ->
  snapshotted (SCULPT_undo_push_node node s) v.
Proof.
  intros Hin. unfold snapshotted, SCULPT_undo_push_node. cbn.
  pose proof (undo_push_fold_lookup
                (fun w => {| od_co := SCULPT_vertex_co_get s w;
                             od_no := SCULPT_vertex_normal_get s w |})
                (node_unique_verts s node) (undo_coords s) v) as Hpush.
  cbn zeta in Hpush. destruct Hpush as (Ha & Hb & _).
  destruct (undo_coords s !! v) as [od|] eqn:Hv.
  - rewrite (Ha od eq_refl). eexists. reflexivity.
  - rewrite (Hb eq_refl Hin). eexists. reflexivity.
Qed.

Lemma undo_push_node_keeps_snapshot (node : nat) (s : SculptSession) (v : nat) :
  snapshotted s v -> snapshotted (SCULPT_undo_push_node node s) v.
Proof.
  intros [od Hv]. unfold snapshotted, SCULPT_undo_push_node. cbn.
  pose proof (undo_push_fold_lookup
                (fun w => {| od_co := SCULPT_vertex_co_get s w;
                             od_no := SCULPT_vertex_normal_get s w |})
                (node_unique_verts s node) (undo_coords s) v) as Hpush.
  cbn zeta in Hpush. destruct Hpush as (Ha & _).
  rewrite (Ha od Hv). eexists. reflexivity.
Qed.

(** Moving a vertex that has a snapshot keeps the invariant. *)
Lemma write_snapshotted_keeps (co0 : list float3) (nodes0 : list (list nat))
    (s : SculptSession) (u : nat) (final : float3) :
  snapshotted s u -> undo_invariant co0 nodes0 s ->
  undo_invariant co0 nodes0 (write_vd_co u final s).
Proof.
  intros [odu Hu] (Hlen & Hnodes & Hinv). split; [|split].
  - cbn. rewrite length_insert. exact Hlen.
  - exact Hnodes.
  - intros v. cbn. specialize (Hinv v).
    destruct (undo_coords s !! v) as [od|] eqn:Hv; [exact Hinv|].
    rewrite list_lookup_insert_ne; [exact Hinv|]. congruence.
Qed.

End UndoPush.

Section PassOrder.
Context `{SculptExternals}.
Variables (fc : FilterCache) (ft : eSculptMeshFilterType) (strength : float).

Lemma vertex_step_undo (s : SculptSession) (u : nat) :
  undo_coords (mesh_filter_vertex_step fc ft strength s u) = undo_coords s.
Proof.
  unfold mesh_filter_vertex_step.
  destruct (mesh_filter_vertex fc s ft strength u) as [[final [l|]]|];
    reflexivity.
Qed.

Lemma vertex_step_pbvh_nodes (s : SculptSession) (u : nat) :
  pbvh_nodes (mesh_filter_vertex_step fc ft strength s u) = pbvh_nodes s.
Proof.
  unfold mesh_filter_vertex_step.
  destruct (mesh_filter_vertex fc s ft strength u) as [[final [l|]]|];
    reflexivity.
Qed.

Lemma task_turn_keeps_snapshot (s : SculptSession) (a : TaskTurn) (v : nat) :
  snapshotted s v -> snapshotted (mesh_filter_task_turn fc ft strength s a) v.
Proof.
  intros Hv. destruct a as [node|u]; cbn.
  - apply undo_push_node_keeps_snapshot. exact Hv.
  - unfold snapshotted. rewrite vertex_step_undo. exact Hv.
Qed.

(** However the tasks of the first pass interleave, a vertex is visited
    after the snapshot of its node has been fetched: what the fetches keep,
    and the visits of vertices that have their snapshot keep, the pass
    keeps. *)
Lemma mesh_filter_pass_ordered (G : SculptSession -> Prop)
    (s0 : SculptSession) :
  (forall x, G x -> pbvh_nodes x = pbvh_nodes s0) ->
  (forall x node, In node (nodes fc) -> G x ->
                  G (SCULPT_orig_vert_data_init node x)) ->
  (forall x u, In u (filter_verts fc s0) -> snapshotted x u -> G x ->
               G (mesh_filter_vertex_step fc ft strength x u)) ->
  G s0 -> G (mesh_filter_pass fc ft strength s0).
Proof.
  intros Hnodes Hbegin Hvertex Hs0.
  unfold mesh_filter_pass, BLI_task_parallel_range.
  destruct (BLI_task_turns_invariant
              (mesh_filter_task_turn fc ft strength)
              (fun tasks s => G s /\ Forall (task_in_order fc s0 s) tasks))
    with (order := BLI_task_schedule s0)
         (tasks := map (mesh_filter_task_cb fc s0)
                     (seq 0 (length (nodes fc) - 0)))
         (s := s0) as (tasks' & HG & _); [| |exact HG].
  - intros tasks i a rest s Hi [HGs Hall].
    assert (Hmono : forall task,
              task_in_order fc s0 s task ->
              task_in_order fc s0 (mesh_filter_task_turn fc ft strength s a)
                task).
    { intros task [Hall'|(us & -> & Hus)]; [left; exact Hall'|].
      right. exists us. split; [reflexivity|]. intros u Hu.
      destruct (Hus u Hu) as [Hin Hsnap]. split; [exact Hin|].
      apply task_turn_keeps_snapshot. exact Hsnap. }
    pose proof (proj1 (Forall_lookup _ _) Hall i _ Hi) as Htask.
    destruct Htask as [(node & Hnode & Heq)|(us & Heq & Hus)].
    + injection Heq as -> ->. cbn. split; [apply Hbegin; assumption|].
      apply Forall_insert.
      * eapply Forall_impl; [exact Hall|]. intros task Htask.
        apply (Hmono task Htask).
      * right. exists (node_unique_verts s0 node).
        split; [reflexivity|]. intros u Hu. split.
        -- unfold filter_verts. apply in_concat.
           exists (node_unique_verts s0 node).
           split; [apply in_map; exact Hnode | exact Hu].
        -- apply undo_push_node_snapshots.
           unfold node_unique_verts in *. rewrite (Hnodes s HGs). exact Hu.
    + destruct us as [|u us]; [discriminate Heq|].
      injection Heq as -> ->. cbn.
      destruct (Hus u (or_introl eq_refl)) as [Hin Hsnap].
      split; [apply Hvertex; assumption|].
      apply Forall_insert.
      * eapply Forall_impl; [exact Hall|]. intros task Htask.
        apply (Hmono task Htask).
      * right. exists us. split; [reflexivity|]. intros w Hw.
        destruct (Hus w (or_intror Hw)) as [Hin' Hsnap'].
        split; [exact Hin'|].
        unfold snapshotted. rewrite vertex_step_undo. exact Hsnap'.
  - split; [exact Hs0|]. apply Forall_forall. intros task Htask.
    apply list_elem_of_In, in_map_iff in Htask as (i & <- & _).
    unfold mesh_filter_task_cb.
    destruct (nodes fc !! i) as [node|] eqn:Hi.
    + left. exists node. split; [|reflexivity].
      apply list_elem_of_In. eapply list_elem_of_lookup_2. exact Hi.
    + right. exists []. split; [reflexivity|]. intros u [].
Qed.

(** When the first pass is over every vertex of every node of the cache has
    its snapshot. *)
Lemma mesh_filter_pass_snapshots (s0 : SculptSession) (v : nat) :
  In v (filter_verts fc s0) ->
  snapshotted (mesh_filter_pass fc ft strength s0) v.
Proof.
  intros Hin. unfold filter_verts in Hin.
  apply in_concat in Hin as (vs & Hvs & Hv).
  apply in_map_iff in Hvs as (node & <- & Hnode).
  rewrite mesh_filter_pass_unfold.
  apply (fold_left_reaches (fun x => pbvh_nodes x = pbvh_nodes s0)
           (fun x => snapshotted x v)
           (fun a => a = TASK_node_begin node)).
  - intros x a _ Hx. rewrite <- Hx. destruct a as [n|u]; cbn;
      [reflexivity | apply vertex_step_pbvh_nodes].
  - intros x a _ _ Hsnap. apply task_turn_keeps_snapshot. exact Hsnap.
  - intros x a _ Hx ->. cbn. apply undo_push_node_snapshots.
    unfold node_unique_verts in *. rewrite Hx. exact Hv.
  - reflexivity.
  - right. exists (TASK_node_begin node). split; [|reflexivity].
    apply mesh_filter_pass_turns_in. exists node. split; [exact Hnode|].
    left. reflexivity.
Qed.

End PassOrder.

Section ApplyKeepsUndo.
Context `{SculptExternals}.
Variables (co0 : list float3) (nodes0 : list (list nat)).
Variables (fc : FilterCache) (ft : eSculptMeshFilterType) (strength : float).

Lemma vertex_step_keeps_undo (s : SculptSession) (u : nat) :
  snapshotted s u -> undo_invariant co0 nodes0 s ->
  undo_invariant co0 nodes0 (mesh_filter_vertex_step fc ft strength s u).
Proof.
  intros Hu Hinv. unfold mesh_filter_vertex_step.
  destruct (mesh_filter_vertex fc s ft strength u) as [[final [l|]]|];
    [| |exact Hinv]; apply write_snapshotted_keeps; assumption.
Qed.

Lemma displace_step_keeps_undo (s : SculptSession) (u : nat) :
  snapshotted s u -> undo_invariant co0 nodes0 s ->
  undo_invariant co0 nodes0
    (surface_smooth_displace_vertex_step fc strength s u).
Proof.
  intros Hu Hinv. unfold surface_smooth_displace_vertex_step.
  destruct (F32.eqb _ _); [exact Hinv|].
  apply write_snapshotted_keeps; assumption.
Qed.

(** The first pass keeps the invariant and leaves a snapshot for every
    vertex of every node of the cache. *)
Lemma first_pass_keeps_undo (s : SculptSession) :
  undo_invariant co0 nodes0 s ->
  undo_invariant co0 nodes0 (mesh_filter_pass fc ft strength s) /\
  (forall v, In v (filter_verts fc s) ->
             snapshotted (mesh_filter_pass fc ft strength s) v).
Proof.
  intros Hinv. split; [|apply mesh_filter_pass_snapshots].
  apply (mesh_filter_pass_ordered fc ft strength (undo_invariant co0 nodes0)).
  - intros x (_ & Hx & _). destruct Hinv as (_ & Hs & _). congruence.
  - intros x node _ Hx. apply undo_push_node_keeps. exact Hx.
  - intros x u _ Hsnap Hx. apply vertex_step_keeps_undo; assumption.
  - exact Hinv.
Qed.

(** The second pass moves vertices that all have a snapshot. *)
Lemma displace_pass_keeps_undo (s : SculptSession) :
  undo_invariant co0 nodes0 s ->
  (forall v, In v (filter_verts fc s) -> snapshotted s v) ->
  undo_invariant co0 nodes0 (surface_smooth_displace_pass fc strength s).
Proof.
  intros Hinv Hsnap.
  apply (displace_pass_preserves fc strength
           (fun x => undo_invariant co0 nodes0 x /\
                     undo_coords x = undo_coords s)); [split; auto|].
  intros x u Hin [Hx Hundo]. split.
  - apply displace_step_keeps_undo; [|exact Hx].
    unfold snapshotted. rewrite Hundo. apply Hsnap. exact Hin.
  - rewrite <- Hundo. unfold surface_smooth_displace_vertex_step.
    destruct (F32.eqb _ _); reflexivity.
Qed.

Lemma apply_passes_keeps_undo (s : SculptSession) :
  undo_invariant co0 nodes0 s ->
  undo_invariant co0 nodes0 (apply_passes fc ft strength s).
Proof.
  intros Hinv. unfold apply_passes.
  set (s0 := if ELEM_type ft [MESH_FILTER_SURFACE_SMOOTH]
             then SCULPT_surface_smooth_laplacian_init
                    (emit EvVertexRandomAccessEnsure s)
             else emit EvVertexRandomAccessEnsure s).
  assert (H0 : undo_invariant co0 nodes0 s0).
  { subst s0. unfold SCULPT_surface_smooth_laplacian_init.
    destruct (ELEM_type ft [MESH_FILTER_SURFACE_SMOOTH]);
      [destruct (Nat.eqb _ _)|]; exact Hinv. }
  destruct (first_pass_keeps_undo s0 H0) as [H1 Hsnap].
  destruct (ELEM_type ft [MESH_FILTER_SURFACE_SMOOTH]); [|exact H1].
  apply displace_pass_keeps_undo; [exact H1|].
  intros v Hin. apply Hsnap.
  destruct H0 as (_ & Hn0 & _). destruct H1 as (_ & Hn1 & _).
  unfold filter_verts, node_unique_verts in *. rewrite Hn0.
  rewrite Hn1 in Hin. exact Hin.
Qed.

End ApplyKeepsUndo.

Section CancelRoundTrip.
Context `{SculptExternals}.
Variables (co0 : list float3) (nodes0 : list (list nat)).

Lemma apply_keeps_undo (op : wmOperator) (s : SculptSession) :
  is_Some (filter_cache s) -> undo_invariant co0 nodes0 s ->
  exists s', sculpt_mesh_filter_apply op s = Some s' /\
             is_Some (filter_cache s') /\ undo_invariant co0 nodes0 s'.
Proof.
  intros [fc Hfc] Hinv. eexists. split; [|split].
  - apply sculpt_mesh_filter_apply_unfold. exact Hfc.
  - rewrite apply_epilogue_filter_cache. eexists. reflexivity.
  - pose proof (apply_passes_keeps_undo co0 nodes0 fc (op_type op)
                  (op_strength op) s Hinv) as (Hlen & Hnodes & Hv).
    split; [|split].
    + rewrite apply_epilogue_vert_co. exact Hlen.
    + rewrite apply_epilogue_pbvh_nodes. exact Hnodes.
    + intros v. rewrite apply_epilogue_undo_coords, apply_epilogue_vert_co.
      apply Hv.
Qed.

Lemma apply_iterations_keep_undo (ops : list wmOperator) (s : SculptSession) :
  is_Some (filter_cache s) -> undo_invariant co0 nodes0 s ->
  exists s', apply_iterations ops s = Some s' /\ undo_invariant co0 nodes0 s'.
Proof.
  revert s. induction ops as [|op ops IH]; intros s Hfc Hinv; cbn.
  - exists s. split; [reflexivity | exact Hinv].
  - destruct (apply_keeps_undo op s Hfc Hinv) as (s' & -> & Hfc' & Hinv').
    apply IH; assumption.
Qed.

(** Restoring one node: the invariant stays, restored vertices stay
    restored, and the vertices of the node are restored. *)
Lemma cancel_node_restores (s : SculptSession) (node : nat) :
  undo_invariant co0 nodes0 s ->
  let s' := sculpt_mesh_filter_cancel_node s node in
  undo_invariant co0 nodes0 s' /\
  (forall v, vert_co s !! v = co0 !! v -> vert_co s' !! v = co0 !! v) /\
  (forall v, In v (node_unique_verts s node) -> vert_co s' !! v = co0 !! v).
Proof.
  intros Hinv s'. unfold sculpt_mesh_filter_cancel_node in s'.
  set (s1 := SCULPT_orig_vert_data_init node s) in *.
  set (step := fun (ss : SculptSession) (v : nat) =>
                 write_vd_co v (od_co (SCULPT_orig_vert_data_update ss v)) ss)
    in *.
  set (G := fun x : SculptSession =>
              undo_invariant co0 nodes0 x /\ undo_coords x = undo_coords s1).
  assert (HG1 : G s1)
    by (split; [apply undo_push_node_keeps; exact Hinv | reflexivity]).
  assert (Hsnap : forall x u, In u (node_unique_verts s node) -> G x ->
                    snapshotted x u).
  { intros x u Hin [_ Hundo]. unfold snapshotted. rewrite Hundo.
    apply undo_push_node_snapshots. exact Hin. }
  assert (HGstep : forall x u, In u (node_unique_verts s node) -> G x ->
                     G (step x u)).
  { intros x u Hin Hx. split; [|apply Hx].
    apply write_snapshotted_keeps; [apply Hsnap; assumption | apply Hx]. }
  assert (Hwrite : forall x u, In u (node_unique_verts s node) -> G x ->
                     vert_co (step x u) !! u = co0 !! u).
  { intros x u Hin Hx. destruct (Hsnap x u Hin Hx) as [od Hod].
    destruct Hx as [(Hlen & _ & Hv) _]. specialize (Hv u).
    unfold step, SCULPT_orig_vert_data_update. cbn. rewrite Hod in *. cbn.
    destruct Hv as [-> _].
    destruct (co0 !! u) as [c|] eqn:Hc; cbn.
    - apply list_lookup_insert_eq. rewrite Hlen.
      eapply lookup_lt_Some. exact Hc.
    - rewrite list_insert_ge; [apply lookup_ge_None|];
        rewrite Hlen; apply lookup_ge_None; exact Hc. }
  assert (Hkeep : forall v x u, In u (node_unique_verts s node) -> G x ->
                    vert_co x !! v = co0 !! v ->
                    vert_co (step x u) !! v = co0 !! v).
  { intros v x u Hin Hx Hv. destruct (decide (u = v)) as [->|Hne].
    - apply Hwrite; assumption.
    - unfold step. cbn. rewrite list_lookup_insert_ne by exact Hne. exact Hv. }
  change (node_unique_verts s1 node) with (node_unique_verts s node) in s'.
  split; [|split].
  - subst s'. apply (fold_left_preserves G); [exact HG1|]. exact HGstep.
  - intros v Hv. subst s'.
    eapply proj2, (fold_left_reaches G (fun x => vert_co x !! v = co0 !! v)
                     (fun _ => False)); try exact HG1; try exact HGstep.
    + intros x u Hin Hx Hr. apply Hkeep; assumption.
    + intros x u _ _ [].
    + left. exact Hv.
  - intros v Hin. subst s'.
    eapply proj2, (fold_left_reaches G (fun x => vert_co x !! v = co0 !! v)
                     (fun u => u = v)); try exact HG1; try exact HGstep.
    + intros x u Hu Hx Hr. apply Hkeep; assumption.
    + intros x u Hu Hx ->. apply Hwrite; assumption.
    + right. exists v. split; [exact Hin | reflexivity].
Qed.

(** Cancelling puts every coordinate back. *)
Lemma cancel_restores (s : SculptSession) :
  undo_invariant co0 nodes0 s ->
  vert_co (sculpt_mesh_filter_cancel s) = co0.
Proof.
  intros Hinv. unfold sculpt_mesh_filter_cancel. cbn.
  set (leaves := seq 0 (length (pbvh_nodes s))).
  assert (HG : undo_invariant co0 nodes0
                 (fold_left sculpt_mesh_filter_cancel_node leaves s)).
  { apply (fold_left_preserves (undo_invariant co0 nodes0)); [exact Hinv|].
    intros x node _ Hx. apply (cancel_node_restores x node Hx). }
  apply list_eq. intros v.
  destruct HG as (Hlen & Hnodes & Hv). specialize (Hv v).
  destruct (undo_coords (fold_left sculpt_mesh_filter_cancel_node leaves s) !! v)
    as [od|] eqn:Hod; [|exact Hv].
  destruct Hv as (_ & node & vs & Hnode & Hin).
  eapply proj2, (fold_left_reaches (undo_invariant co0 nodes0)
                   (fun x => vert_co x !! v = co0 !! v)
                   (fun n => nodes0 !! n = Some vs)).
  - intros x n _ Hx. apply (cancel_node_restores x n Hx).
  - intros x n _ Hx Hr.
    destruct (cancel_node_restores x n Hx) as (_ & Hkeep & _).
    apply Hkeep. exact Hr.
  - intros x n _ Hx Hn.
    destruct (cancel_node_restores x n Hx) as (_ & _ & Hrest).
    apply Hrest. destruct Hx as (_ & Hnx & _).
    unfold node_unique_verts. rewrite Hnx, Hn. exact Hin.
  - exact Hinv.
  - right. exists node. split; [|exact Hnode].
    subst leaves. apply in_seq. destruct Hinv as (_ & Hns & _).
    rewrite Hns. apply lookup_lt_Some in Hnode. lia.
Qed.

End CancelRoundTrip.

Section StartSnapshots.
Context `{SculptExternals}.

Lemma undo_invariant_ext (co0 : list float3) (nodes0 : list (list nat))
    (s s' : SculptSession) :
  vert_co s' = vert_co s -> pbvh_nodes s' = pbvh_nodes s ->
  undo_coords s' = undo_coords s ->
  undo_invariant co0 nodes0 s -> undo_invariant co0 nodes0 s'.
Proof.
  intros Hco Hn Hu. unfold undo_invariant. rewrite Hco, Hn, Hu. tauto.
Qed.

Lemma cache_init_keeps_undo (co0 : list float3) (nodes0 : list (list nat))
    (C : bContext) (undo_type : SculptUndoType) (mval : Z * Z)
    (area_normal_radius start_strength : float) (s : SculptSession) :
  undo_invariant co0 nodes0 s ->
  undo_invariant co0 nodes0
    (SCULPT_filter_cache_init C undo_type mval area_normal_radius
       start_strength s) /\
  is_Some (filter_cache
             (SCULPT_filter_cache_init C undo_type mval area_normal_radius
                start_strength s)).
Proof.
  intros Hinv. unfold SCULPT_filter_cache_init.
  match goal with
  | |- context [BLI_task_parallel_range ?a ?b ?f ?t ?o ?x] =>
      assert (Hmid : undo_invariant co0 nodes0
                       (BLI_task_parallel_range a b f t o x));
      [|set (mid := BLI_task_parallel_range a b f t o x) in *]
  end.
  { apply BLI_task_parallel_range_preserves.
    - apply (undo_invariant_ext co0 nodes0 s); [..|exact Hinv];
        destruct undo_type; cbn; destruct (pbvh_type s); reflexivity.
    - intros node x Hx. apply undo_push_node_keeps. exact Hx. }
  destruct (SCULPT_stroke_get_location C _ mval) as [co|];
    [destruct (SCULPT_pbvh_calc_area_normal C _ co area_normal_radius)|];
    (split; [apply (undo_invariant_ext co0 nodes0 mid);
               [reflexivity..|exact Hmid]
            | eexists; reflexivity]).
Qed.

(** A started filter has its cache, and the undo step holds the coordinates
    the mesh had before the start. *)
Lemma start_takes_snapshots (C : bContext) (op : wmOperator)
    (ss ss1 : SculptSession) :
  sculpt_mesh_filter_start C op ss = (OPERATOR_PASS_THROUGH, ss1) ->
  is_Some (filter_cache ss1) /\
  undo_invariant (vert_co ss) (pbvh_nodes ss) ss1.
Proof.
  unfold sculpt_mesh_filter_start.
  destruct (op_deform_axis op =? 0)%Z; [discriminate|].
  intros Hstart. injection Hstart as <-.
  split; [eexists; reflexivity|].
  match goal with
  | |- context [SCULPT_filter_cache_init ?c ?u ?m ?r ?st ?x] =>
      destruct (cache_init_keeps_undo (vert_co ss) (pbvh_nodes ss) c u m r st x)
        as [Hinit _];
      [|apply (undo_invariant_ext _ _ (SCULPT_filter_cache_init c u m r st x));
        [reflexivity..|exact Hinit]]
  end.
  split; [|split].
  - destruct (ctx_automasking_enabled C), (_ || _); reflexivity.
  - destruct (ctx_automasking_enabled C), (_ || _); reflexivity.
  - intros v. cbn. rewrite lookup_empty.
    destruct (ctx_automasking_enabled C), (_ || _); reflexivity.
Qed.

End StartSnapshots.

(** C2.  Start, then any number of iterations with whatever filter types and
    strengths, then cancel: the iterations all run, and after the cancel the
    coordinate array is the one the mesh had before the start. *)
Theorem cancel_restores_positions `{SculptExternals} (C : bContext)
    (op : wmOperator) (ops : list wmOperator) (ss ss1 : SculptSession) :
  sculpt_mesh_filter_start C op ss = (OPERATOR_PASS_THROUGH, ss1) ->
  exists ss2,
    apply_iterations ops ss1 = Some ss2 /\
    vert_co (sculpt_mesh_filter_cancel ss2) = vert_co ss.
Proof.
  intros Hstart.
  destruct (start_takes_snapshots C op ss ss1 Hstart) as [Hfc Hinv].
  destruct (apply_iterations_keep_undo (vert_co ss) (pbvh_nodes ss) ops ss1
              Hfc Hinv) as (ss2 & Happly & Hinv2).
  exists ss2. split; [exact Happly|].
  apply (cancel_restores (vert_co ss) (pbvh_nodes ss)). exact Hinv2.
Qed.

Section CancelExample.
#[local] Existing Instance Demo.externals.

(** Start Smooth on three vertices, smooth once, inflate once at strength 2,
    run Surface Smooth once, cancel. *)
Lemma cancel_restores_positions_witness :
  let mesh := Demo.session [Demo.on_x 0; Demo.on_x 1; Demo.on_x 5] in
  let op := Demo.operator MESH_FILTER_SMOOTH F32.one Demo.all_axes in
  let ops :=
    [op; Demo.operator MESH_FILTER_INFLATE (F32.of_Z 2) Demo.all_axes;
     Demo.operator MESH_FILTER_SURFACE_SMOOTH F32.one Demo.all_axes] in
  exists ss2,
    apply_iterations ops (Demo.started op mesh) = Some ss2 /\
    vert_co (sculpt_mesh_filter_cancel ss2) = vert_co mesh.
Proof.
  intros mesh op ops.
  apply (cancel_restores_positions Demo.context op ops mesh
           (Demo.started op mesh)).
  vm_compute. reflexivity.
Defined.

End CancelExample.

(** *** Sharpen factors *)

Lemma f32_positive_cases (x : float) :
  F32.ltb F32.zero x = true ->
  x = S754_infinity false \/ exists m e, x = S754_finite false m e.
Proof.
  destruct x as [s|[]| |[] m e]; cbn; try discriminate; eauto.
Qed.


Lemma f32_above_positive (m f : float) :
  F32.ltb F32.zero m = true -> F32.ltb m f = true -> F32.ltb F32.zero f = true.
Proof.
  intros Hm. destruct (f32_positive_cases m Hm) as [->|(mm & em & ->)].
  - destruct f as [s|[]| |[] mf ef]; cbn; discriminate.
  - destruct f as [s|[]| |[] mf ef]; cbn; try discriminate; reflexivity.
Qed.






(** *** Rounding *)

Section Rounding.
Local Open Scope Z_scope.

(** The number of binary digits. *)
Lemma digits2_pos_bounds (p : positive) :
  2 ^ (Zpos (digits2_pos p) - 1) <= Zpos p < 2 ^ Zpos (digits2_pos p).
Proof.
  induction p as [p IH|p IH|]; cbn [digits2_pos]; [| |cbn; lia];
    rewrite Pos2Z.inj_succ;
    replace (Z.succ (Zpos (digits2_pos p)) - 1)
      with (Z.succ (Zpos (digits2_pos p) - 1)) by lia;
    rewrite !Z.pow_succ_r by lia; lia.
Qed.

Lemma Zdigits2_bounds (m : Z) :
  0 < m -> 2 ^ (Zdigits2 m - 1) <= m < 2 ^ Zdigits2 m.
Proof.
  destruct m as [|p|p]; try lia. intros _. apply digits2_pos_bounds.
Qed.

Lemma Zdigits2_nonneg (m : Z) : 0 <= m -> 0 <= Zdigits2 m.
Proof. destruct m; cbn; lia. Qed.

Lemma Zdigits2_le (m k : Z) : 0 <= k -> 0 <= m < 2 ^ k -> Zdigits2 m <= k.
Proof.
  intros Hk [H0 Hm]. destruct (Z.eq_dec m 0) as [->|Hne]; [cbn; lia|].
  destruct (Zdigits2_bounds m ltac:(lia)) as [Hlo _].
  destruct (Z_le_gt_dec (Zdigits2 m) k) as [Hle|Hgt]; [exact Hle|].
  assert (2 ^ k <= 2 ^ (Zdigits2 m - 1)) by (apply Z.pow_le_mono_r; lia).
  lia.
Qed.

Lemma Zdigits2_ge (m k : Z) : 2 ^ (k - 1) <= m -> 0 < m -> k <= Zdigits2 m.
Proof.
  intros Hm H0. destruct (Zdigits2_bounds m H0) as [_ Hhi].
  destruct (Z_le_gt_dec k (Zdigits2 m)) as [Hle|Hgt]; [exact Hle|].
  pose proof (Zdigits2_nonneg m ltac:(lia)).
  assert (2 ^ Zdigits2 m <= 2 ^ (k - 1)) by (apply Z.pow_le_mono_r; lia).
  lia.
Qed.

Lemma Zdigits2_eq (m k : Z) :
  0 < k -> 2 ^ (k - 1) <= m < 2 ^ k -> Zdigits2 m = k.
Proof.
  intros Hk [Hlo Hhi].
  assert (0 < m) by (pose proof (Z.pow_pos_nonneg 2 (k - 1)); lia).
  pose proof (Zdigits2_le m k ltac:(lia) ltac:(lia)).
  pose proof (Zdigits2_ge m k Hlo ltac:(lia)). lia.
Qed.

(** Shifting right. *)
Lemma shr_1_m (mrs : shr_record) :
  0 <= shr_m mrs -> shr_m (shr_1 mrs) = shr_m mrs / 2.
Proof.
  destruct mrs as [m r s]. cbn [shr_m shr_1].
  destruct m as [|[p|p|]|p]; intros Hm; cbn [shr_m]; try lia.
  - reflexivity.
  - rewrite Pos2Z.inj_xI. apply (Z.div_unique _ _ _ 1); lia.
  - rewrite Pos2Z.inj_xO. apply (Z.div_unique _ _ _ 0); lia.
  - reflexivity.
Qed.

Lemma iter_pos_shr_m (p : positive) (mrs : shr_record) :
  0 <= shr_m mrs ->
  shr_m (iter_pos shr_1 p mrs) = shr_m mrs / 2 ^ Zpos p.
Proof.
  revert mrs. induction p as [p IH|p IH|]; intros mrs Hm; cbn [iter_pos].
  - assert (H1 : 0 <= shr_m (shr_1 mrs))
      by (rewrite shr_1_m by exact Hm; apply Z.div_pos; lia).
    assert (H2 : 0 <= shr_m (iter_pos shr_1 p (shr_1 mrs)))
      by (rewrite IH by exact H1; apply Z.div_pos; [exact H1|];
          apply Z.pow_pos_nonneg; lia).
    rewrite IH by exact H2. rewrite IH by exact H1. rewrite shr_1_m by exact Hm.
    rewrite !Z.div_div by (try apply Z.pow_pos_nonneg; lia).
    f_equal. replace (Zpos p~1) with (1 + Zpos p + Zpos p) by lia.
    rewrite !Z.pow_add_r by lia. rewrite Z.pow_1_r. lia.
  - assert (H2 : 0 <= shr_m (iter_pos shr_1 p mrs))
      by (rewrite IH by exact Hm; apply Z.div_pos; [exact Hm|];
          apply Z.pow_pos_nonneg; lia).
    rewrite IH by exact H2. rewrite IH by exact Hm.
    rewrite !Z.div_div by (try apply Z.pow_pos_nonneg; lia).
    f_equal. replace (Zpos p~0) with (Zpos p + Zpos p) by lia.
    rewrite Z.pow_add_r by lia. reflexivity.
  - rewrite shr_1_m by exact Hm. reflexivity.
Qed.

Lemma shr_record_of_loc_m (m : Z) (l : location) :
  shr_m (shr_record_of_loc m l) = m.
Proof. destruct l as [|[]]; reflexivity. Qed.

(** [shr_fexp] brings the exponent up to [fexp] and divides the mantissa
    accordingly. *)
Lemma shr_fexp_spec (m e : Z) (l : location) :
  0 <= m ->
  let e1 := Z.max e (fexp F32.prec F32.emax (Zdigits2 m + e)) in
  snd (shr_fexp F32.prec F32.emax m e l) = e1 /\
  shr_m (fst (shr_fexp F32.prec F32.emax m e l)) = m / 2 ^ (e1 - e).
Proof.
  intros Hm e1. unfold shr_fexp, shr. subst e1.
  set (f := fexp F32.prec F32.emax (Zdigits2 m + e)).
  destruct (f - e) as [|p|p] eqn:Hn; cbn [fst snd].
  - replace (Z.max e f) with e by lia. rewrite Z.sub_diag, Z.pow_0_r, Z.div_1_r.
    split; [reflexivity | apply shr_record_of_loc_m].
  - replace (Z.max e f) with (e + Zpos p) by lia. split; [reflexivity|].
    rewrite iter_pos_shr_m by (rewrite shr_record_of_loc_m; exact Hm).
    rewrite shr_record_of_loc_m. f_equal. f_equal. lia.
  - replace (Z.max e f) with e by lia. rewrite Z.sub_diag, Z.pow_0_r, Z.div_1_r.
    split; [reflexivity | apply shr_record_of_loc_m].
Qed.

Lemma round_nearest_even_range (m : Z) (l : location) :
  m <= round_nearest_even m l <= m + 1.
Proof.
  unfold round_nearest_even. destruct l as [|[]]; try lia.
  destruct (Z.even m); lia.
Qed.

(** What [binary_round_aux] answers, up to the direction of the rounding. *)
Lemma binary_round_aux_range (sx : bool) (mx ex : Z) (lx : location) :
  0 <= mx ->
  let e1 := Z.max ex (fexp F32.prec F32.emax (Zdigits2 mx + ex)) in
  let m1 := mx / 2 ^ (e1 - ex) in
  exists m2,
    m1 <= m2 <= m1 + 1 /\
    let e2 := Z.max e1 (fexp F32.prec F32.emax (Zdigits2 m2 + e1)) in
    binary_round_aux F32.prec F32.emax sx mx ex lx =
    match m2 / 2 ^ (e2 - e1) with
    | Z0 => S754_zero sx
    | Zpos m => if e2 <=? F32.emax - F32.prec then S754_finite sx m e2
                else S754_infinity sx
    | Zneg _ => S754_nan
    end.
Proof.
  intros Hmx e1 m1. unfold binary_round_aux.
  destruct (shr_fexp_spec mx ex lx Hmx) as [He1 Hm1].
  destruct (shr_fexp F32.prec F32.emax mx ex lx) as [mrs' e'].
  cbn [fst snd] in He1, Hm1. fold e1 in He1, Hm1. fold m1 in Hm1.
  set (m2 := round_nearest_even (shr_m mrs') (loc_of_shr_record mrs')).
  pose proof (round_nearest_even_range (shr_m mrs') (loc_of_shr_record mrs'))
    as Hm2. fold m2 in Hm2. rewrite Hm1 in Hm2.
  assert (H1 : 0 <= m1)
    by (apply Z.div_pos; [exact Hmx | apply Z.pow_pos_nonneg; lia]).
  exists m2. split; [exact Hm2|]. cbv zeta.
  destruct (shr_fexp_spec m2 e' loc_Exact ltac:(lia)) as [He2 Hm3].
  destruct (shr_fexp F32.prec F32.emax m2 e' loc_Exact) as [mrs'' e''].
  cbn [fst snd] in He2, Hm3. subst e'. rewrite Hm3, He2. reflexivity.
Qed.

End Rounding.

Section Reciprocal.
Local Open Scope Z_scope.

Lemma f32_fexp_unfold (x : Z) :
  fexp F32.prec F32.emax x = Z.max (x - 24) (-149).
Proof. reflexivity. Qed.

Lemma f32_pow_23 : 2 ^ 23 = 8388608. Proof. reflexivity. Qed.
Lemma f32_pow_24 : 2 ^ 24 = 16777216. Proof. reflexivity. Qed.

(** The reciprocal of a positive normal number [mant * 2^e] is a positive
    finite [m * 2^e'], and [mant * m] is within [2^24] of [2^t], [-t] being
    the exponent [e + e'] of the product. *)
Lemma f32_reciprocal_normal (mant : positive) (e : Z) :
  2 ^ 23 <= Zpos mant < 2 ^ 24 -> -149 <= e <= 104 ->
  exists (m : positive) (e' t : Z),
    F32.div F32.one (S754_finite false mant e) = S754_finite false m e' /\
    e + e' = - t /\ 45 <= t <= 47 /\
    2 ^ t - 2 ^ 24 <= Zpos mant * Zpos m <= 2 ^ t + 2 ^ 24.
Proof.
  rewrite f32_pow_23, f32_pow_24. intros Hmant He.
  set (s := if e <=? 102 then 24 else 126 - e).
  set (E := if e <=? 102 then -47 - e else -149).
  assert (Hs : 22 <= s <= 24) by (subst s; destruct (Z.leb_spec e 102); lia).
  assert (HsE : E = - (23 + s) - e)
    by (subst s E; destruct (Z.leb_spec e 102); lia).
  assert (HE : -149 <= E) by (subst E; destruct (Z.leb_spec e 102); lia).
  assert (Hd : Zdigits2 (Zpos mant) = 24).
  { apply Zdigits2_eq; [lia|]. change (2 ^ (24 - 1)) with 8388608.
    rewrite f32_pow_24. lia. }
  unfold F32.div, F32.one, SFdiv, SFdiv_core_binary. rewrite Hd.
  change (Zdigits2 8388608) with 24.
  match goal with
  | |- context [Z.min ?a ?b] =>
      replace (Z.min a b) with E
        by (rewrite f32_fexp_unfold; subst E; destruct (Z.leb_spec e 102); lia)
  end.
  replace (-23 - e - E) with s by lia.
  replace (match s with
           | 0 => 8388608
           | Zpos _ => Z.shiftl 8388608 s
           | Zneg _ => 0
           end) with (2 ^ (23 + s))
    by (destruct s as [|p|p]; try lia; rewrite Z.shiftl_mul_pow2 by lia;
        rewrite Z.pow_add_r by lia; reflexivity).
  clearbody s E.
  pose proof (Z.div_eucl_eq (2 ^ (23 + s)) (Zpos mant) ltac:(lia)) as Hdiv.
  pose proof (Z.mod_pos_bound (2 ^ (23 + s)) (Zpos mant) ltac:(lia)) as Hmod.
  unfold Z.modulo in Hmod.
  destruct (Z.div_eucl (2 ^ (23 + s)) (Zpos mant)) as [q r].
  assert (Hcases : s = 22 \/ s = 23 \/ s = 24) by lia.
  assert (Hq : 2 ^ (s - 1) <= q <= 2 ^ s /\
               2 ^ (23 + s) - 2 ^ 24 <= Zpos mant * q /\
               Zpos mant * (q + 1) <= 2 ^ (23 + s) + 2 ^ 24).
  { destruct Hcases as [Heq|[Heq|Heq]];
      rewrite Heq in *; cbn in Hdiv |- *; nia. }
  destruct Hq as (Hq & Hlo & Hhi).
  assert (Hs24 : 2 ^ s <= 2 ^ 24) by (apply Z.pow_le_mono_r; lia).
  assert (Hs23 : s <> 24 -> 2 ^ s <= 2 ^ 23)
    by (intros; apply Z.pow_le_mono_r; lia).
  assert (Hspos : 0 < 2 ^ (s - 1)) by (apply Z.pow_pos_nonneg; lia).
  rewrite f32_pow_23 in Hs23. rewrite f32_pow_24 in Hs24, Hlo, Hhi.
  clear Hdiv Hmod.
  destruct (binary_round_aux_range (xorb false false) q E
              (new_location (Zpos mant) r))
    as (m2 & Hm2 & Hres); [lia|].
  cbv zeta in Hres. rewrite Hres. clear Hres.
  rewrite !f32_fexp_unfold in *. cbn [xorb].
  assert (Hfin : forall x, x <= 104 -> (x <=? F32.emax - F32.prec) = true)
    by (intros x Hx; apply Z.leb_le; unfold F32.emax, F32.prec; lia).
  destruct (Z.eq_dec q 16777216) as [Hq24|Hq24].
  - (* the quotient has 25 digits: the divisor is 2^23 *)
    assert (s = 24) by (destruct (Z.eq_dec s 24); [assumption|lia]).
    subst s q. change (Zdigits2 16777216) with 25 in *.
    replace (Z.max E (Z.max (25 + E - 24) (-149))) with (E + 1) in * by lia.
    replace (E + 1 - E) with 1 in * by lia.
    change (16777216 / 2 ^ 1) with 8388608 in *.
    assert (Hd2 : Zdigits2 m2 = 24).
    { apply Zdigits2_eq; [lia|]. change (2 ^ (24 - 1)) with 8388608.
      rewrite f32_pow_24. lia. }
    rewrite Hd2.
    replace (Z.max (E + 1) (Z.max (24 + (E + 1) - 24) (-149))) with (E + 1)
      by lia.
    rewrite Z.sub_diag, Z.pow_0_r, Z.div_1_r.
    destruct m2 as [|p|p]; try lia.
    rewrite Hfin by lia.
    exists p, (E + 1), 46. split; [reflexivity|].
    split; [lia|]. split; [lia|].
    change (2 ^ 46) with 70368744177664.
    change (2 ^ (23 + 24)) with 140737488355328 in *. nia.
  - (* the quotient has at most 24 digits *)
    assert (Hq' : q < 16777216) by lia.
    assert (Hdq : Zdigits2 q <= 24)
      by (apply Zdigits2_le; [lia|]; rewrite f32_pow_24; lia).
    assert (He1 : Z.max E (Z.max (Zdigits2 q + E - 24) (-149)) = E) by lia.
    rewrite He1 in *. rewrite Z.sub_diag, Z.pow_0_r, Z.div_1_r in *.
    destruct (Z.eq_dec m2 16777216) as [Hm24|Hm24].
    + (* rounding up carries into a 25th digit *)
      rewrite Hm24. change (Zdigits2 16777216) with 25.
      assert (s = 24) by (destruct (Z.eq_dec s 24); [assumption|lia]).
      subst s.
      replace (Z.max E (Z.max (25 + E - 24) (-149))) with (E + 1) by lia.
      replace (E + 1 - E) with 1 by lia.
      change (16777216 / 2 ^ 1) with (Zpos 8388608).
      rewrite Hfin by lia.
      exists 8388608%positive, (E + 1), 46.
      split; [reflexivity|]. split; [lia|]. split; [lia|].
      change (2 ^ 46) with 70368744177664.
      change (2 ^ (23 + 24)) with 140737488355328 in *. nia.
    + assert (Hm2' : m2 < 16777216) by lia.
      assert (Hd2 : Zdigits2 m2 <= 24)
        by (apply Zdigits2_le; [lia|]; rewrite f32_pow_24; lia).
      replace (Z.max E (Z.max (Zdigits2 m2 + E - 24) (-149))) with E by lia.
      rewrite Z.sub_diag, Z.pow_0_r, Z.div_1_r.
      destruct m2 as [|p|p]; try lia.
      rewrite Hfin by lia.
      exists p, E, (23 + s).
      split; [reflexivity|]. split; [lia|]. split; [lia|]. nia.
Qed.

End Reciprocal.

Section NearOne.
Local Open Scope Z_scope.

(** Rounding a mantissa within [2^24] of [2^t] at exponent [-t] gives a
    number within a few units in the last place of 1. *)
Lemma f32_round_near_one (M : positive) (t : Z) :
  45 <= t <= 47 ->
  2 ^ t - 2 ^ 24 <= Zpos M <= 2 ^ t + 2 ^ 24 ->
  exists (mx : positive) (ex : Z),
    binary_round_aux F32.prec F32.emax false (Zpos M) (- t) loc_Exact =
    S754_finite false mx ex /\
    ((ex = -24 /\ 16777208 <= Zpos mx < 16777216) \/
     (ex = -23 /\ 8388608 <= Zpos mx <= 8388613)).
Proof.
  intros Ht HM.
  destruct (binary_round_aux_range false (Zpos M) (- t) loc_Exact)
    as (m2 & Hm2 & Hres); [lia|].
  cbv zeta in Hres. rewrite Hres. clear Hres.
  rewrite !f32_fexp_unfold in *.
  assert (Hfin : forall x, x <= 104 -> (x <=? F32.emax - F32.prec) = true)
    by (intros x Hx; apply Z.leb_le; unfold F32.emax, F32.prec; lia).
  assert (Hcases : t = 45 \/ t = 46 \/ t = 47) by lia.
  destruct (Z_lt_le_dec (Zpos M) (2 ^ t)) as [Hlt|Hge].
  - (* below 1: [t] digits *)
    assert (Hd : Zdigits2 (Zpos M) = t).
    { apply Zdigits2_eq; [lia|]. split; [|exact Hlt].
      destruct Hcases as [-> | [-> | ->]]; cbn in *; lia. }
    rewrite Hd in *.
    replace (Z.max (- t) (Z.max (t + - t - 24) (-149))) with (-24) in * by lia.
    replace (-24 - - t) with (t - 24) in * by lia.
    assert (Hm1 : 16777208 <= Zpos M / 2 ^ (t - 24) <= 16777215).
    { destruct Hcases as [-> | [-> | ->]]; cbn in HM, Hlt |- *;
        match goal with
        | |- _ <= _ / ?c <= _ =>
            pose proof (Z.div_mod (Zpos M) c ltac:(lia));
            pose proof (Z.mod_pos_bound (Zpos M) c ltac:(lia))
        end; lia. }
    destruct (Z.eq_dec m2 16777216) as [->|Hne].
    + change (Zdigits2 16777216) with 25.
      replace (Z.max (-24) (Z.max (25 + -24 - 24) (-149))) with (-23) by lia.
      change (16777216 / 2 ^ (-23 - -24)) with (Zpos 8388608).
      rewrite Hfin by lia. exists 8388608%positive, (-23).
      split; [reflexivity|]. right. lia.
    + assert (Hd2 : Zdigits2 m2 = 24).
      { apply Zdigits2_eq; [lia|]. change (2 ^ (24 - 1)) with 8388608.
        rewrite f32_pow_24. lia. }
      rewrite Hd2.
      replace (Z.max (-24) (Z.max (24 + -24 - 24) (-149))) with (-24) by lia.
      rewrite Z.sub_diag, Z.pow_0_r, Z.div_1_r.
      destruct m2 as [|p|p]; try lia.
      rewrite Hfin by lia. exists p, (-24).
      split; [reflexivity|]. left. lia.
  - (* at least 1: [t + 1] digits *)
    assert (Hd : Zdigits2 (Zpos M) = t + 1).
    { apply Zdigits2_eq; [lia|]. replace (t + 1 - 1) with t by lia.
      split; [exact Hge|].
      destruct Hcases as [-> | [-> | ->]]; cbn in *; lia. }
    rewrite Hd in *.
    replace (Z.max (- t) (Z.max (t + 1 + - t - 24) (-149))) with (-23) in *
      by lia.
    replace (-23 - - t) with (t - 23) in * by lia.
    assert (Hm1 : 8388608 <= Zpos M / 2 ^ (t - 23) <= 8388612).
    { destruct Hcases as [-> | [-> | ->]]; cbn in HM, Hge |- *;
        match goal with
        | |- _ <= _ / ?c <= _ =>
            pose proof (Z.div_mod (Zpos M) c ltac:(lia));
            pose proof (Z.mod_pos_bound (Zpos M) c ltac:(lia))
        end; lia. }
    assert (Hd2 : Zdigits2 m2 = 24).
    { apply Zdigits2_eq; [lia|]. change (2 ^ (24 - 1)) with 8388608.
      rewrite f32_pow_24. lia. }
    rewrite Hd2.
    replace (Z.max (-23) (Z.max (24 + -23 - 24) (-149))) with (-23) by lia.
    rewrite Z.sub_diag, Z.pow_0_r, Z.div_1_r.
    destruct m2 as [|p|p]; try lia.
    rewrite Hfin by lia. exists p, (-23).
    split; [reflexivity|]. right. lia.
Qed.

(** The remap sends these numbers to 1: the square of their distance to 1
    is lost in the rounding. *)
Lemma sharpen_remap_near_one (mx : positive) (ex : Z) :
  (ex = -24 /\ 16777208 <= Zpos mx < 16777216) \/
  (ex = -23 /\ 8388608 <= Zpos mx <= 8388613) ->
  sharpen_remap (S754_finite false mx ex) = F32.one.
Proof.
  intros [[-> Hm]|[-> Hm]].
  - assert (Hc : (mx = 16777208 \/ mx = 16777209 \/ mx = 16777210 \/
                  mx = 16777211 \/ mx = 16777212 \/ mx = 16777213 \/
                  mx = 16777214 \/ mx = 16777215)%positive) by lia.
    repeat (destruct Hc as [->|Hc]; [vm_compute; reflexivity|]).
    subst mx. vm_compute. reflexivity.
  - assert (Hc : (mx = 8388608 \/ mx = 8388609 \/ mx = 8388610 \/
                  mx = 8388611 \/ mx = 8388612 \/ mx = 8388613)%positive)
      by lia.
    repeat (destruct Hc as [->|Hc]; [vm_compute; reflexivity|]).
    subst mx. vm_compute. reflexivity.
Qed.

(** A positive normal number times its reciprocal is remapped to 1. *)
Lemma sharpen_remap_reciprocal (mant : positive) (e : Z) :
  2 ^ 23 <= Zpos mant < 2 ^ 24 -> -149 <= e <= 104 ->
  sharpen_remap
    (F32.mul (S754_finite false mant e)
       (F32.div F32.one (S754_finite false mant e))) = F32.one.
Proof.
  intros Hmant He.
  destruct (f32_reciprocal_normal mant e Hmant He)
    as (m & e' & t & -> & Hexp & Ht & Hprod).
  unfold F32.mul, SFmul. cbn [xorb]. rewrite Hexp.
  destruct (f32_round_near_one (mant * m) t Ht) as (mx & ex & -> & Hx).
  - rewrite Pos2Z.inj_mul. exact Hprod.
  - apply sharpen_remap_near_one. exact Hx.
Qed.

End NearOne.

Section BelowOne.
Local Open Scope Z_scope.

Lemma pos_iter_xO (d m : positive) :
  Zpos (Pos.iter xO m d) = Zpos m * 2 ^ Zpos d.
Proof.
  induction d as [|d IH] using Pos.peano_ind.
  - cbn. lia.
  - rewrite Pos.iter_succ, Pos2Z.inj_xO, IH, Pos2Z.inj_succ.
    rewrite Z.pow_succ_r by lia. lia.
Qed.

Lemma shl_align_spec (mx : positive) (ex ez : Z) :
  ez <= ex ->
  Zpos (fst (shl_align mx ex ez)) = Zpos mx * 2 ^ (ex - ez) /\
  snd (shl_align mx ex ez) = ez.
Proof.
  intros Hle. unfold shl_align.
  destruct (ez - ex) as [|d|d] eqn:Hd; cbn [fst snd]; try lia.
  - replace (ex - ez) with 0 by lia. rewrite Z.pow_0_r. lia.
  - rewrite pos_iter_xO. replace (ex - ez) with (Zpos d) by lia.
    split; reflexivity.
Qed.

Lemma Zdigits2_shift (m k : Z) :
  0 < m -> 0 <= k -> Zdigits2 (m * 2 ^ k) = Zdigits2 m + k.
Proof.
  intros Hm Hk. destruct (Zdigits2_bounds m Hm) as [Hlo Hhi].
  pose proof (Zdigits2_ge m 1 ltac:(cbn; lia) Hm) as Hd.
  assert (Hp : 0 < 2 ^ k) by (apply Z.pow_pos_nonneg; lia).
  apply Zdigits2_eq; [lia|].
  replace (Zdigits2 m + k - 1) with (Zdigits2 m - 1 + k) by lia.
  rewrite !Z.pow_add_r by lia. nia.
Qed.

(** The sign of a rounded number is the one given. *)
Lemma binary_round_aux_sign (sx : bool) (mx ex : Z) (lx : location) :
  0 <= mx ->
  let r := binary_round_aux F32.prec F32.emax sx mx ex lx in
  r = S754_zero sx \/ r = S754_infinity sx \/
  exists m e, r = S754_finite sx m e.
Proof.
  intros Hmx.
  destruct (binary_round_aux_range sx mx ex lx Hmx) as (m2 & Hm2 & Hres).
  cbv zeta in *. rewrite Hres.
  assert (H0 : 0 <= mx / 2 ^ (Z.max ex (fexp F32.prec F32.emax (Zdigits2 mx + ex)) - ex)).
  { apply Z.div_pos; [exact Hmx|]. apply Z.pow_pos_nonneg; [lia|].
    lia. }
  match goal with
  | |- context [m2 / ?c] =>
      assert (Hq : 0 <= m2 / c)
        by (apply Z.div_pos; [lia | apply Z.pow_pos_nonneg; lia]);
      destruct (m2 / c) as [|p|p]; [left; reflexivity| |lia]
  end.
  destruct (_ <=? _); [right; right; eexists _, _; reflexivity|].
  right. left. reflexivity.
Qed.

Lemma binary_round_sign (sx : bool) (mx : positive) (ex : Z) :
  let r := binary_round F32.prec F32.emax sx mx ex in
  r = S754_zero sx \/ r = S754_infinity sx \/
  exists m e, r = S754_finite sx m e.
Proof.
  unfold binary_round.
  destruct (shl_align mx ex _) as [mz ez].
  apply binary_round_aux_sign. lia.
Qed.

(** Among the positive numbers, the ones not above 1. *)
Lemma f32_finite_le_one (m : positive) (e : Z) :
  e < -23 \/ (e = -23 /\ Zpos m <= 8388608) ->
  SFltb F32.one (S754_finite false m e) = false.
Proof.
  intros He. unfold SFltb, SFcompare, F32.one.
  destruct (Z.compare_spec (-23) e) as [Heq|Hlt|Hgt]; [|lia|reflexivity].
  destruct He as [He|[_ Hm]]; [lia|].
  change (Pos.compare_cont Eq 8388608 m) with (Pos.compare 8388608 m).
  destruct (Pos.compare_spec 8388608 m); try reflexivity. lia.
Qed.

(** A positive number below 1 is not rounded above 1. *)
Lemma binary_round_below_one (zp : positive) (ez : Z) :
  Zpos zp < 2 ^ (- ez) ->
  SFltb F32.one (binary_round F32.prec F32.emax false zp ez) = false.
Proof.
  intros Hz. assert (Hez : ez <= 0).
  { destruct (Z_le_gt_dec ez 0); [assumption|].
    rewrite Z.pow_neg_r in Hz by lia. lia. }
  unfold binary_round. fold (Zdigits2 (Zpos zp)).
  set (d := Zdigits2 (Zpos zp)).
  assert (Hd : 1 <= d <= - ez).
  { split; [apply Zdigits2_ge; cbn; lia|].
    apply Zdigits2_le; [lia|]. lia. }
  rewrite f32_fexp_unfold.
  set (f0 := Z.max (d + ez - 24) (-149)).
  assert (Hf0 : -149 <= f0 <= -24) by lia.
  assert (Halign : exists mz E',
            shl_align zp ez f0 = (mz, E') /\ E' <= f0 /\
            Zdigits2 (Zpos mz) + E' = d + ez).
  { unfold shl_align. destruct (f0 - ez) as [|p|p] eqn:Hp.
    - exists zp, ez. split; [reflexivity|]. fold d. lia.
    - exists zp, ez. split; [reflexivity|]. fold d. lia.
    - eexists _, f0. split; [reflexivity|]. split; [lia|].
      rewrite pos_iter_xO, Zdigits2_shift by lia. fold d. lia. }
  destruct Halign as (mz & E' & -> & HE' & Hdz).
  destruct (binary_round_aux_range false (Zpos mz) E' loc_Exact)
    as (m2 & Hm2 & Hres); [lia|].
  cbv zeta in Hres. rewrite Hres. clear Hres.
  rewrite !f32_fexp_unfold in *. rewrite Hdz in *.
  fold f0 in Hm2 |- *.
  replace (Z.max E' f0) with f0 in * by lia.
  assert (Hm1 : 0 <= Zpos mz / 2 ^ (f0 - E') < 16777216).
  { split; [apply Z.div_pos; [lia | apply Z.pow_pos_nonneg; lia]|].
    apply Z.div_lt_upper_bound; [apply Z.pow_pos_nonneg; lia|].
    destruct (Zdigits2_bounds (Zpos mz) ltac:(lia)) as [_ Hhi].
    assert (2 ^ Zdigits2 (Zpos mz) <= 2 ^ (f0 - E' + 24))
      by (apply Z.pow_le_mono_r; lia).
    rewrite Z.pow_add_r in H by lia. rewrite f32_pow_24 in H. lia. }
  destruct (Z.eq_dec m2 16777216) as [->|Hne].
  - change (Zdigits2 16777216) with 25.
    replace (Z.max f0 (Z.max (25 + f0 - 24) (-149))) with (f0 + 1) by lia.
    replace (f0 + 1 - f0) with 1 by lia.
    change (16777216 / 2 ^ 1) with (Zpos 8388608).
    replace (f0 + 1 <=? F32.emax - F32.prec) with true
      by (symmetry; apply Z.leb_le; unfold F32.emax, F32.prec; lia).
    apply f32_finite_le_one. lia.
  - assert (Hd2 : Zdigits2 m2 <= 24)
      by (apply Zdigits2_le; [lia|]; rewrite f32_pow_24; lia).
    replace (Z.max f0 (Z.max (Zdigits2 m2 + f0 - 24) (-149))) with f0 by lia.
    rewrite Z.sub_diag, Z.pow_0_r, Z.div_1_r.
    destruct m2 as [|p|p]; [reflexivity| |lia].
    replace (f0 <=? F32.emax - F32.prec) with true
      by (symmetry; apply Z.leb_le; unfold F32.emax, F32.prec; lia).
    apply f32_finite_le_one. lia.
Qed.

(** Taking a number that is not negative away from 1 leaves at most 1. *)
Lemma f32_one_minus_le_one (p : float) :
  match p with
  | S754_finite true _ _ | S754_infinity true => False
  | _ => True
  end ->
  F32.gtb (F32.sub F32.one p) F32.one = false.
Proof.
  unfold F32.gtb.
  destruct p as [s|[]| |[] mp ep]; try contradiction; intros _;
    try reflexivity.
  unfold F32.sub, F32.one, SFsub. cbn [cond_Zopp].
  set (ez := Z.min (-23) ep).
  destruct (shl_align_spec 8388608 (-23) ez ltac:(lia)) as [H1 _].
  destruct (shl_align_spec mp ep ez ltac:(lia)) as [H2 _].
  rewrite H1, H2.
  assert (HA : 8388608 * 2 ^ (-23 - ez) = 2 ^ (- ez)).
  { replace (- ez) with (23 + (-23 - ez)) by lia.
    rewrite Z.pow_add_r by lia. reflexivity. }
  rewrite HA.
  assert (HB : 0 < Zpos mp * 2 ^ (ep - ez))
    by (apply Z.mul_pos_pos; [lia | apply Z.pow_pos_nonneg; lia]).
  destruct (2 ^ (- ez) - Zpos mp * 2 ^ (ep - ez)) as [|zp|zp] eqn:Hz;
    cbn [binary_normalize].
  - reflexivity.
  - apply binary_round_below_one. lia.
  - destruct (binary_round_sign true zp ez) as [->|[->|(m & e & ->)]];
      reflexivity.
Qed.

Lemma f32_square_not_negative (t : float) :
  match F32.mul t t with
  | S754_finite true _ _ | S754_infinity true => False
  | _ => True
  end.
Proof.
  destruct t as [s|s| |s m e]; unfold F32.mul, SFmul; try exact I;
    try (destruct s; exact I).
  replace (xorb s s) with false by (destruct s; reflexivity).
  destruct (binary_round_aux_sign false (Zpos (m * m)) (e + e) loc_Exact
              ltac:(lia)) as [->|[->|(m' & e' & ->)]]; exact I.
Qed.

(** No sharpen factor is above 1. *)
Lemma sharpen_remap_le_one (x : float) :
  F32.gtb (sharpen_remap x) F32.one = false.
Proof.
  unfold sharpen_remap, BLI.pow2f. apply f32_one_minus_le_one.
  apply f32_square_not_negative.
Qed.

End BelowOne.

Section NotNan.
Local Open Scope Z_scope.

Lemma f32_normal_cases (x : float) :
  F32.is_normal x = true ->
  exists s mant e,
    x = S754_finite s mant e /\
    2 ^ 23 <= Zpos mant < 2 ^ 24 /\ -149 <= e <= 104.
Proof.
  destruct x as [| | |s mant e]; try discriminate. cbn [F32.is_normal].
  intros H. apply andb_prop in H as [H He2]. apply andb_prop in H as [Hd He1].
  apply Z.eqb_eq in Hd. apply Z.leb_le in He1, He2.
  unfold F32.emax, F32.prec in *.
  exists s, mant, e. split; [reflexivity|]. split; [|lia].
  pose proof (digits2_pos_bounds mant) as Hb. rewrite Hd in Hb. exact Hb.
Qed.





Lemma f32_gtb_not_nan (f m : float) : F32.gtb f m = true -> F32.is_nan f = false.
Proof.
  unfold F32.gtb, SFltb, SFcompare.
  destruct f; try reflexivity. destruct m; discriminate.
Qed.

(** Neither below nor above 1, and a number: 1 itself. *)
Lemma f32_eq_one (m : float) :
  F32.is_nan m = false -> F32.gtb m F32.one = false ->
  F32.gtb F32.one m = false -> m = F32.one.
Proof.
  unfold F32.gtb, SFltb, SFcompare, F32.one.
  destruct m as [s|[]| |[] mm e]; try discriminate.
  intros _.
  destruct (Z.compare_spec (-23) e) as [<-|Hlt|Hgt]; try discriminate.
  - change (-23 ?= -23) with Eq. cbv iota.
    change (Pos.compare_cont Eq 8388608 mm) with (Pos.compare 8388608 mm).
    change (Pos.compare_cont Eq mm 8388608) with (Pos.compare mm 8388608).
    rewrite (Pos.compare_antisym 8388608 mm).
    destruct (Pos.compare_spec 8388608 mm) as [<-| |]; try discriminate.
    reflexivity.
  - intros _. destruct (Z.compare_spec e (-23)); try discriminate; lia.
Qed.

(** When no factor is above 1 and one factor is 1, the largest is 1. *)
Lemma sharpen_max_factor_one (factor : list float) :
  (forall f, In f factor -> F32.gtb f F32.one = false) ->
  In F32.one factor ->
  sharpen_max_factor factor = F32.one.
Proof.
  intros Hle Hin. unfold sharpen_max_factor.
  eapply proj2, (fold_left_reaches
                   (fun m => F32.is_nan m = false /\ F32.gtb m F32.one = false)
                   (fun m => m = F32.one) (fun f => f = F32.one)).
  - intros m f Hf [Hnan Hm]. destruct (F32.gtb f m) eqn:Hgt.
    + split; [eapply f32_gtb_not_nan; exact Hgt | apply Hle; exact Hf].
    + split; assumption.
  - intros m f Hf _ ->. rewrite (Hle f Hf). reflexivity.
  - intros m f _ [Hnan Hm] ->. destruct (F32.gtb F32.one m) eqn:Hgt;
      [reflexivity|]. apply f32_eq_one; assumption.
  - split; reflexivity.
  - right. exists F32.one. split; [exact Hin | reflexivity].
Qed.

End NotNan.

Lemma sharpen_max_factor_fold_positive (factor : list float) (start : float) :
  F32.ltb F32.zero start = true ->
  F32.ltb F32.zero
    (fold_left (fun max_factor f => if F32.gtb f max_factor then f else max_factor)
               factor start) = true.
Proof.
  intros Hstart.
  apply (fold_left_preserves (fun m => F32.ltb F32.zero m = true));
    [exact Hstart|].
  intros m f _ Hm. unfold F32.gtb. fold (F32.ltb m f).
  destruct (F32.ltb m f) eqn:Hlt; [|exact Hm].
  eapply f32_above_positive; eassumption.
Qed.

(** With one positive magnitude the largest factor is positive. *)
Lemma sharpen_max_factor_positive (factor : list float) :
  (exists f, In f factor /\ F32.gtb f F32.zero = true) ->
  F32.gtb (sharpen_max_factor factor) F32.zero = true.
Proof.
  intros (f & Hin & Hf). unfold sharpen_max_factor, F32.gtb in *.
  fold (F32.ltb F32.zero f) in Hf.
  match goal with |- SFltb _ ?x = true => change (F32.ltb F32.zero x = true) end.
  assert (Hgen : forall start,
            start = F32.zero \/ F32.ltb F32.zero start = true ->
            F32.ltb F32.zero
              (fold_left
                 (fun max_factor f =>
                    if SFltb max_factor f then f else max_factor)
                 factor start) = true).
  { induction factor as [|g factor IH]; [destruct Hin|].
    intros start Hstart. cbn [fold_left].
    destruct Hin as [->|Hin].
    - apply (sharpen_max_factor_fold_positive factor).
      destruct Hstart as [->|Hstart].
      + change (SFltb F32.zero f) with (F32.ltb F32.zero f). rewrite Hf.
        exact Hf.
      + change (SFltb start f) with (F32.ltb start f).
        destruct (F32.ltb start f) eqn:Hlt; [exact Hf | exact Hstart].
    - apply IH; [exact Hin|].
      change (SFltb start g) with (F32.ltb start g).
      destruct (F32.ltb start g) eqn:Hlt; [|exact Hstart].
      right. destruct Hstart as [->|Hstart]; [exact Hlt|].
      eapply f32_above_positive; eassumption. }
  apply Hgen. left. reflexivity.
Qed.

(** The largest factor is [0.0f] or one of the factors. *)
Lemma sharpen_max_factor_attained (factor : list float) :
  sharpen_max_factor factor = F32.zero \/ In (sharpen_max_factor factor) factor.
Proof.
  unfold sharpen_max_factor.
  enough (Hgen : forall start,
            let m := fold_left
                       (fun max_factor f =>
                          if F32.gtb f max_factor then f else max_factor)
                       factor start in
            m = start \/ In m factor) by apply Hgen.
  induction factor as [|g factor IH]; intros start; cbn [fold_left];
    [left; reflexivity|].
  destruct (IH (if F32.gtb g start then g else start)) as [Heq|Hin].
  - cbn zeta in Heq. rewrite Heq.
    destruct (F32.gtb g start); [right; left; reflexivity | left; reflexivity].
  - right. right. exact Hin.
Qed.

(** Magnitudes that are all zero leave the largest factor at [0.0f]. *)
Lemma sharpen_max_factor_zero (factor : list float) :
  (forall f, In f factor -> F32.is_zero f = true) ->
  sharpen_max_factor factor = F32.zero.
Proof.
  intros Hzero. unfold sharpen_max_factor.
  apply (fold_left_preserves (fun m => m = F32.zero)); [reflexivity|].
  intros m f Hin ->. specialize (Hzero f Hin).
  destruct f as [[]| | |]; try discriminate; reflexivity.
Qed.

Lemma f32_positive_normal (x : float) :
  F32.gtb x F32.zero = true -> F32.is_normal x = true ->
  exists mant e,
    x = S754_finite false mant e /\
    (2 ^ 23 <= Zpos mant < 2 ^ 24)%Z /\ (-149 <= e <= 104)%Z.
Proof.
  intros Hpos Hnormal.
  destruct (f32_normal_cases x Hnormal) as (s & mant & e & -> & Hm & He).
  destruct s; [discriminate Hpos|]. exists mant, e. repeat split; apply Hm || apply He.
Qed.


Section SharpenDivisorExample.
#[local] Existing Instance Demo.externals.


End SharpenDivisorExample.

(** C9, as amended.  Without smoothing passes, and when the largest detail
    magnitude is a positive normal number, the largest sharpen factor is 1
    exactly: the largest magnitude is attained, every vertex attaining it
    gets the factor 1, and no vertex gets a factor above 1. *)
Theorem sharpen_factor_peak `{SculptExternals} (ss : SculptSession)
    (smooth_ratio intensify_detail_strength : float)
    (curvature_smooth_iterations : Z) (fc : FilterCache) :
  let magnitudes := sharpen_init_magnitudes ss in
  let m := sharpen_max_factor magnitudes in
  let fc' :=
    mesh_filter_sharpen_init ss smooth_ratio intensify_detail_strength
      curvature_smooth_iterations fc in
  (curvature_smooth_iterations <= 0)%Z ->
  (exists f, In f magnitudes /\ F32.gtb f F32.zero = true) ->
  F32.is_normal m = true ->
  (exists i, magnitudes !! i = Some m) /\
  (forall i, magnitudes !! i = Some m ->
             sharpen_factor fc' !! i = Some F32.one) /\
  (forall f, In f (sharpen_factor fc') -> F32.gtb f F32.one = false) /\
  sharpen_max_factor (sharpen_factor fc') = F32.one.
Proof.
  intros magnitudes m fc' Hiter Hpos Hnormal.
  assert (Hfactor : sharpen_factor fc' = sharpen_normalize magnitudes).
  { subst fc'. unfold mesh_filter_sharpen_init, sharpen_smooth.
    replace (Z.to_nat curvature_smooth_iterations) with 0 by lia.
    reflexivity. }
  pose proof (sharpen_max_factor_positive magnitudes Hpos) as Hmax.
  fold m in Hmax.
  destruct (f32_positive_normal m Hmax Hnormal)
    as (mant & e & Heq & Hmant & He).
  assert (Hattained : exists i, magnitudes !! i = Some m).
  { destruct (sharpen_max_factor_attained magnitudes) as [Hz|Hin].
    - fold m in Hz. rewrite Hz in Hmax. discriminate Hmax.
    - apply (proj2 (list_elem_of_In _ _)) in Hin.
      apply list_elem_of_lookup in Hin. exact Hin. }
  assert (Hpeak : forall i, magnitudes !! i = Some m ->
                    sharpen_factor fc' !! i = Some F32.one).
  { intros i Hi. rewrite Hfactor. unfold sharpen_normalize.
    rewrite list_lookup_fmap. fold magnitudes. rewrite Hi.
    cbn [fmap option_fmap option_map]. fold m. rewrite Heq.
    f_equal. apply sharpen_remap_reciprocal; assumption. }
  assert (Hle : forall f, In f (sharpen_factor fc') ->
                  F32.gtb f F32.one = false).
  { intros f Hin. rewrite Hfactor in Hin. unfold sharpen_normalize in Hin.
    apply in_map_iff in Hin as (g & <- & _). apply sharpen_remap_le_one. }
  split; [exact Hattained|]. split; [exact Hpeak|]. split; [exact Hle|].
  apply sharpen_max_factor_one; [exact Hle|].
  destruct Hattained as [i Hi]. specialize (Hpeak i Hi).
  apply list_elem_of_In. eapply list_elem_of_lookup_2. exact Hpeak.
Qed.

Section SharpenPeakExamples.
#[local] Existing Instance Demo.externals.

(** Vertices at 0, 1 and 5: magnitudes 1, 1.5 and 4; the last vertex gets
    the factor 1, which is the largest. *)
Lemma sharpen_factor_peak_witness :
  let fc :=
    mesh_filter_sharpen_init
      (Demo.session [Demo.on_x 0; Demo.on_x 1; Demo.on_x 5])
      F32.zero F32.zero 0 FilterCache_cnew in
  sharpen_factor fc !! 2 = Some F32.one /\
  sharpen_max_factor (sharpen_factor fc) = F32.one.
Proof.
  intros fc.
  destruct (sharpen_factor_peak
              (Demo.session [Demo.on_x 0; Demo.on_x 1; Demo.on_x 5])
              F32.zero F32.zero 0 FilterCache_cnew)
    as (_ & Hpeak & _ & Hmax).
  - lia.
  - exists F32.one. vm_compute. auto.
  - vm_compute. reflexivity.
  - split; [|exact Hmax]. apply (Hpeak 2). vm_compute. reflexivity.
Defined.

(** The same mesh with one smoothing pass: the magnitudes are not all zero,
    the factors before smoothing peak at 1, and after the pass every factor
    is below 1, the largest being 0.8046875.  And without smoothing, three
    vertices at -2^127, 0 and 2^127: the squares overflow, the magnitudes
    are infinite, zero and infinite, the divisor is infinite, its reciprocal
    zero, and the factors are NaN, 0 and NaN, the largest being 0. *)
Lemma sharpen_factor_smoothed_below_one :
  let mesh := Demo.session [Demo.on_x 0; Demo.on_x 1; Demo.on_x 5] in
  let fc := mesh_filter_sharpen_init mesh F32.zero F32.zero 1 FilterCache_cnew in
  let wide := Demo.session [Demo.far_left; Demo.on_x 0; Demo.far_right] in
  let fc_wide :=
    mesh_filter_sharpen_init wide F32.zero F32.zero 0 FilterCache_cnew in
  ((exists f, In f (sharpen_init_magnitudes mesh) /\ F32.gtb f F32.zero = true) /\
   Forall (fun f => F32.ltb f F32.one = true) (sharpen_factor fc) /\
   sharpen_max_factor (sharpen_factor fc) = F32.div (F32.of_Z 103) (F32.of_Z 128) /\
   sharpen_max_factor (sharpen_factor fc) <> F32.one) /\
  ((exists f, In f (sharpen_init_magnitudes wide) /\ F32.gtb f F32.zero = true) /\
   sharpen_max_factor (sharpen_init_magnitudes wide) = F32.infinity /\
   sharpen_factor fc_wide = [F32.nan; F32.zero; F32.nan] /\
   sharpen_max_factor (sharpen_factor fc_wide) <> F32.one).
Proof.
  cbv zeta. split.
  - split; [exists F32.one; vm_compute; auto|].
    assert (Hfactor :
      sharpen_factor
        (mesh_filter_sharpen_init
           (Demo.session [Demo.on_x 0; Demo.on_x 1; Demo.on_x 5])
           F32.zero F32.zero 1 FilterCache_cnew) =
      [F32.div (F32.of_Z 39) (F32.of_Z 64);
       F32.div (F32.of_Z 103) (F32.of_Z 128);
       F32.div (F32.of_Z 103) (F32.of_Z 128)]) by (vm_compute; reflexivity).
    rewrite Hfactor. split; [|split].
    + repeat (apply List.Forall_cons; [vm_compute; reflexivity|]).
      apply List.Forall_nil.
    + vm_compute. reflexivity.
    + vm_compute. discriminate.
  - split; [exists F32.infinity; vm_compute; auto|].
    split; [vm_compute; reflexivity|].
    split; [vm_compute; reflexivity|].
    vm_compute. discriminate.
Qed.

End SharpenPeakExamples.

Section SharpenSmoothing.
Context `{SculptExternals}.

Lemma f32_sum_nan (g : nat -> float) (ns : list nat) (acc : float) :
  (acc = F32.nan \/ ns <> []) -> (forall n, In n ns -> g n = F32.nan) ->
  fold_left (fun acc n => F32.add acc (g n)) ns acc = F32.nan.
Proof.
  revert acc. induction ns as [|n ns IH]; intros acc Hacc Hg; cbn [fold_left].
  - destruct Hacc as [->|Hne]; [reflexivity | congruence].
  - apply IH; [|intros k Hk; apply Hg; right; exact Hk].
    left. rewrite (Hg n) by (left; reflexivity).
    destruct acc; reflexivity.
Qed.

(** The smoothing passes keep factors that are all NaN as they are, the
    neighbours being vertices of the mesh. *)
Lemma sharpen_smooth_keeps_nan (ss : SculptSession) (iterations : Z)
    (directions : list float3) (factor : list float) :
  (forall i n, In n (SCULPT_vertex_neighbors ss i) -> n < length factor) ->
  Forall (fun f => f = F32.nan) factor ->
  Forall (fun f => f = F32.nan)
         (snd (sharpen_smooth ss iterations (directions, factor))).
Proof.
  intros Hvalid Hnan. unfold sharpen_smooth.
  set (P := fun st : list float3 * list float =>
              length (snd st) = length factor /\
              Forall (fun f => f = F32.nan) (snd st)).
  enough (HP : P (Nat.iter (Z.to_nat iterations)
                    (fun st => fold_left (sharpen_smooth_vertex ss)
                                 (seq 0 (SCULPT_vertex_count_get ss)) st)
                    (directions, factor))) by apply HP.
  induction (Z.to_nat iterations) as [|k IH]; cbn [Nat.iter];
    [split; [reflexivity | exact Hnan]|].
  apply (fold_left_preserves P); [exact IH|].
  intros [dirs facs] i _ [Hlen Hfacs]. cbn [snd] in *.
  unfold sharpen_smooth_vertex. cbv beta iota zeta.
  destruct (0 <? Z.of_nat (length (SCULPT_vertex_neighbors ss i)))%Z eqn:Htot;
    [|split; assumption].
  unfold P. cbn [snd]. split; [rewrite length_insert; exact Hlen|].
  apply Forall_insert; [exact Hfacs|].
  rewrite (f32_sum_nan (fun ni => default F32.zero (facs !! ni))).
  - reflexivity.
  - right. intros Hnil. rewrite Hnil in Htot. discriminate Htot.
  - intros n Hn. specialize (Hvalid i n Hn). rewrite <- Hlen in Hvalid.
    destruct (lookup_lt_is_Some_2 facs n Hvalid) as [f Hf]. rewrite Hf.
    cbn. eapply Forall_lookup_1 in Hfacs; [|exact Hf]. exact Hfacs.
Qed.

(** A mesh whose detail magnitudes are all zero comes out of
    [mesh_filter_sharpen_init] with every sharpen factor NaN, however many
    smoothing passes are configured. *)
Lemma sharpen_init_all_nan (ss : SculptSession)
    (smooth_ratio intensify_detail_strength : float)
    (curvature_smooth_iterations : Z) (fc : FilterCache) :
  (forall i n, In n (SCULPT_vertex_neighbors ss i) ->
               n < SCULPT_vertex_count_get ss) ->
  (forall f, In f (sharpen_init_magnitudes ss) -> F32.is_zero f = true) ->
  Forall (fun f => f = F32.nan)
    (sharpen_factor
       (mesh_filter_sharpen_init ss smooth_ratio intensify_detail_strength
          curvature_smooth_iterations fc)).
Proof.
  intros Hvalid Hzero. unfold mesh_filter_sharpen_init.
  pose proof (sharpen_smooth_keeps_nan ss curvature_smooth_iterations
                (sharpen_init_directions ss)
                (sharpen_normalize (sharpen_init_magnitudes ss))) as Hkeep.
  destruct (sharpen_smooth ss curvature_smooth_iterations _) as [dirs facs].
  cbn [sharpen_factor fc_set_sharpen]. cbn [snd] in Hkeep. apply Hkeep.
  - intros i n Hn. specialize (Hvalid i n Hn).
    unfold sharpen_normalize, sharpen_init_magnitudes, sharpen_init_directions.
    rewrite !length_map, length_seq. exact Hvalid.
  - apply List.Forall_forall. intros f Hf.
    unfold sharpen_normalize in Hf.
    rewrite (sharpen_max_factor_zero _ Hzero) in Hf.
    apply in_map_iff in Hf as (g & <- & Hg).
    specialize (Hzero g Hg). destruct g as [[]| | |]; try discriminate;
      reflexivity.
Qed.

End SharpenSmoothing.

(* ===================================================================== *)
(** ** Further properties of the filter *)
(* ===================================================================== *)

(** *** What an iteration leaves alone *)

Section ApplyFrame.
Context `{SculptExternals}.
Variables (ss0 : SculptSession) (fc : FilterCache).
Variables (ft : eSculptMeshFilterType) (strength : float).

Lemma layout_kept_refl : layout_kept ss0 ss0.
Proof. repeat split. Qed.

Lemma layout_kept_ext (s s' : SculptSession) :
  length (vert_co s') = length (vert_co s) -> vert_no s' = vert_no s ->
  vert_mask s' = vert_mask s -> pbvh_type s' = pbvh_type s ->
  pbvh_nodes s' = pbvh_nodes s ->
  layout_kept ss0 s -> layout_kept ss0 s'.
Proof.
  intros H1 H2 H3 H4 H5 (K1 & K2 & K3 & K4 & K5).
  repeat split; congruence.
Qed.

Lemma vertex_step_layout (s : SculptSession) (u : nat) :
  layout_kept ss0 s ->
  layout_kept ss0 (mesh_filter_vertex_step fc ft strength s u).
Proof.
  apply layout_kept_ext; unfold mesh_filter_vertex_step;
    destruct (mesh_filter_vertex fc s ft strength u) as [[final [l|]]|]; cbn;
    rewrite ?length_insert; reflexivity.
Qed.

Lemma displace_step_layout (s : SculptSession) (u : nat) :
  layout_kept ss0 s ->
  layout_kept ss0 (surface_smooth_displace_vertex_step fc strength s u).
Proof.
  apply layout_kept_ext; unfold surface_smooth_displace_vertex_step;
    destruct (F32.eqb _ _); cbn; rewrite ?length_insert; reflexivity.
Qed.

Lemma orig_vert_data_init_layout (s : SculptSession) (node : nat) :
  layout_kept ss0 s -> layout_kept ss0 (SCULPT_orig_vert_data_init node s).
Proof. apply layout_kept_ext; reflexivity. Qed.

Lemma laplacian_init_layout (s : SculptSession) :
  layout_kept ss0 s -> layout_kept ss0 (SCULPT_surface_smooth_laplacian_init s).
Proof.
  apply layout_kept_ext; unfold SCULPT_surface_smooth_laplacian_init;
    destruct (Nat.eqb _ _); reflexivity.
Qed.

Lemma apply_epilogue_layout (s : SculptSession) :
  layout_kept ss0 s -> layout_kept ss0 (apply_epilogue fc s).
Proof.
  apply layout_kept_ext; unfold apply_epilogue; cbn;
    destruct (_ || _); reflexivity.
Qed.

(** The vertices of a node of the cache are among [filter_verts]. *)
Lemma node_verts_in_filter_verts (s : SculptSession) (node u : nat) :
  pbvh_nodes s = pbvh_nodes ss0 -> In node (nodes fc) ->
  In u (node_unique_verts s node) -> In u (filter_verts fc ss0).
Proof.
  intros Hn Hnode Hu. unfold filter_verts. apply in_concat.
  exists (node_unique_verts ss0 node). split.
  - apply in_map. exact Hnode.
  - unfold node_unique_verts in *. rewrite <- Hn. exact Hu.
Qed.

Lemma apply_passes_frame :
  let s' := apply_passes fc ft strength ss0 in
  layout_kept ss0 s' /\
  forall v, ~ In v (filter_verts fc ss0) -> vert_co s' !! v = vert_co ss0 !! v.
Proof.
  set (G := fun s : SculptSession =>
              layout_kept ss0 s /\
              forall v, ~ In v (filter_verts fc ss0) ->
                        vert_co s !! v = vert_co ss0 !! v).
  assert (Hstep : forall s u, In u (filter_verts fc ss0) -> G s ->
                    G (mesh_filter_vertex_step fc ft strength s u)).
  { intros s u Hu [Hl Hv]. split; [apply vertex_step_layout; exact Hl|].
    intros v Hnin. rewrite vertex_step_other; [apply Hv; exact Hnin|].
    intros ->. apply Hnin. exact Hu. }
  assert (Hdisp : forall s u, In u (filter_verts fc ss0) -> G s ->
                    G (surface_smooth_displace_vertex_step fc strength s u)).
  { intros s u Hu [Hl Hv]. split; [apply displace_step_layout; exact Hl|].
    intros v Hnin. unfold surface_smooth_displace_vertex_step.
    destruct (F32.eqb _ _); [apply Hv; exact Hnin|]. cbn.
    rewrite list_lookup_insert_ne; [apply Hv; exact Hnin|].
    intros ->. apply Hnin. exact Hu. }
  assert (Hverts : forall s, G s -> filter_verts fc s = filter_verts fc ss0).
  { intros s [Hl _]. unfold filter_verts, node_unique_verts.
    replace (pbvh_nodes s) with (pbvh_nodes ss0) by (symmetry; apply Hl).
    reflexivity. }
  assert (Hpass : forall s, G s -> G (mesh_filter_pass fc ft strength s)).
  { intros s Hs. apply mesh_filter_pass_preserves; [exact Hs|..].
    - intros x node _ [Hl Hv].
      split; [apply orig_vert_data_init_layout; exact Hl | exact Hv].
    - intros x u Hu Hx. apply Hstep; [|exact Hx].
      rewrite <- (Hverts s Hs). exact Hu. }
  assert (Hpass2 : forall s, G s ->
                     G (surface_smooth_displace_pass fc strength s)).
  { intros s Hs. apply displace_pass_preserves; [exact Hs|].
    intros x u Hu Hx. apply Hdisp; [|exact Hx].
    rewrite <- (Hverts s Hs). exact Hu. }
  change (G (apply_passes fc ft strength ss0)). unfold apply_passes.
  assert (H0 : G (emit EvVertexRandomAccessEnsure ss0))
    by (split; [apply layout_kept_refl | reflexivity]).
  destruct (ELEM_type ft [MESH_FILTER_SURFACE_SMOOTH]).
  - apply Hpass2, Hpass. destruct H0 as [Hl Hv].
    split; [apply laplacian_init_layout; exact Hl|].
    intros v Hnin. rewrite <- (Hv v Hnin).
    unfold SCULPT_surface_smooth_laplacian_init.
    destruct (Nat.eqb _ _); reflexivity.
  - apply Hpass, H0.
Qed.

End ApplyFrame.

(** X1.  One [sculpt_mesh_filter_apply] writes coordinates of vertices of
    the nodes gathered in the cache and nothing else of the mesh: the number
    of vertices, the normals, the paint mask and the PBVH are as before, and
    so is the coordinate of every vertex outside those nodes. *)
Theorem apply_moves_cache_vertices_only `{SculptExternals} (op : wmOperator)
    (ss ss' : SculptSession) (fc : FilterCache) :
  filter_cache ss = Some fc ->
  sculpt_mesh_filter_apply op ss = Some ss' ->
  layout_kept ss ss' /\
  forall v, ~ In v (filter_verts fc ss) -> vert_co ss' !! v = vert_co ss !! v.
Proof.
  intros Hfc Happly.
  rewrite (sculpt_mesh_filter_apply_unfold _ _ _ Hfc) in Happly.
  injection Happly as <-.
  destruct (apply_passes_frame ss fc (op_type op) (op_strength op))
    as [Hl Hv].
  split; [apply apply_epilogue_layout; exact Hl|].
  intros v Hnin. rewrite apply_epilogue_vert_co. apply Hv. exact Hnin.
Qed.

Section ApplyFrameExample.
#[local] Existing Instance Demo.externals.

(** Smooth at full strength on three vertices in two PBVH leaves, the cache
    holding the first leaf only: vertex 2, in the other leaf, stays. *)
Lemma apply_moves_cache_vertices_only_witness :
  let op := Demo.operator MESH_FILTER_SMOOTH F32.one Demo.all_axes in
  let mesh :=
    {| vert_co := [Demo.on_x 0; Demo.on_x 1; Demo.on_x 5];
       vert_no := [Demo.on_x 1; Demo.on_x 1; Demo.on_x 1];
       vert_mask := None; pbvh_type := PBVH_FACES;
       pbvh_nodes := [[0; 1]; [2]]; undo_coords := ∅; laplacian_disp := [];
       last_normal := Demo.on_x 1;
       deform_modifiers_active := false; shapekey_active := false;
       filter_cache := None; events := [] |} in
  let fc := fc_set_nodes [0] (Demo.cache op mesh) in
  let ss := set_filter_cache (Some fc) (Demo.started op mesh) in
  exists ss',
    sculpt_mesh_filter_apply op ss = Some ss' /\
    vert_co ss' !! 0 <> vert_co ss !! 0 /\
    vert_co ss' !! 2 = vert_co ss !! 2.
Proof.
  intros op mesh fc ss. eexists. split; [reflexivity|]. split.
  - vm_compute. discriminate.
  - refine (proj2 (apply_moves_cache_vertices_only op ss _ fc _ _) 2 _).
    + reflexivity.
    + reflexivity.
    + vm_compute. intros [H|[H|[]]]; discriminate H.
Defined.

End ApplyFrameExample.

(** *** What a successful start sets up *)

Section StartCache.
Context `{SculptExternals}.

Lemma cache_init_mesh (C : bContext) (undo_type : SculptUndoType)
    (mval : Z * Z) (area_normal_radius start_strength : float)
    (s : SculptSession) :
  let s' :=
    SCULPT_filter_cache_init C undo_type mval area_normal_radius start_strength
      s in
  vert_co s' = vert_co s /\ topology_kept s s' /\
  laplacian_disp s' = laplacian_disp s.
Proof.
  set (Q := fun x : SculptSession =>
              vert_co x = vert_co s /\ topology_kept s x /\
              laplacian_disp x = laplacian_disp s).
  cbv zeta. change (Q (SCULPT_filter_cache_init C undo_type mval
                         area_normal_radius start_strength s)).
  unfold SCULPT_filter_cache_init.
  match goal with
  | |- context [BLI_task_parallel_range ?a ?b ?f ?t ?o ?x] =>
      assert (Hmid : Q (BLI_task_parallel_range a b f t o x));
      [|set (mid := BLI_task_parallel_range a b f t o x) in *]
  end.
  { apply BLI_task_parallel_range_preserves.
    - destruct undo_type; cbn; destruct (pbvh_type s); repeat split.
    - intros node x Hx. exact Hx. }
  destruct (SCULPT_stroke_get_location C _ mval) as [co|];
    [destruct (SCULPT_pbvh_calc_area_normal C _ co area_normal_radius)|];
    exact Hmid.
Qed.

Lemma cache_init_cache (C : bContext) (undo_type : SculptUndoType)
    (mval : Z * Z) (area_normal_radius start_strength : float)
    (s : SculptSession) :
  exists fc,
    filter_cache
      (SCULPT_filter_cache_init C undo_type mval area_normal_radius
         start_strength s) = Some fc /\
    iteration_count fc = 0%Z /\
    start_filter_strength fc = start_strength /\
    random_seed fc = ctx_rand C /\
    no_orig_co fc = false /\
    Forall (fun node => node < length (pbvh_nodes s)) (nodes fc).
Proof.
  assert (Hnodes : forall f : nat -> bool,
            Forall (fun node => node < length (pbvh_nodes s))
                   (filter (fun n => f n = true)
                           (seq 0 (length (pbvh_nodes s))))).
  { intros f. apply List.Forall_forall. intros node Hin.
    apply list_elem_of_In, list_elem_of_filter in Hin as [_ Hin].
    apply list_elem_of_In, in_seq in Hin. lia. }
  unfold SCULPT_filter_cache_init.
  destruct (SCULPT_stroke_get_location C _ mval) as [co|];
    [destruct (SCULPT_pbvh_calc_area_normal C _ co area_normal_radius)|];
    (eexists; split; [reflexivity|]; cbn; repeat split;
     destruct undo_type; apply Hnodes).
Qed.

End StartCache.

Lemma axis_flag_testbit (deform_axis : Z) (it : nat) :
  negb (Z.land deform_axis (Z.shiftl 1 (Z.of_nat it)) =? 0)%Z =
  Z.testbit deform_axis (Z.of_nat it).
Proof.
  rewrite Z.shiftl_1_l.
  destruct (Z.testbit deform_axis (Z.of_nat it)) eqn:Hbit.
  - apply negb_true_iff, Z.eqb_neq. intros Hz.
    assert (Hk : Z.testbit (Z.land deform_axis (2 ^ Z.of_nat it)) (Z.of_nat it)
                 = true).
    { rewrite Z.land_spec, Hbit, Z.pow2_bits_true by lia. reflexivity. }
    rewrite Hz, Z.bits_0 in Hk. discriminate.
  - apply negb_false_iff, Z.eqb_eq. apply Z.bits_inj'. intros n Hn.
    rewrite Z.land_spec, Z.bits_0.
    destruct (Z.eq_dec n (Z.of_nat it)) as [->|Hne].
    + rewrite Hbit. reflexivity.
    + rewrite Z.pow2_bits_false by lia. apply andb_false_r.
Qed.

Lemma start_sets_up `{SculptExternals} (C : bContext) (op : wmOperator)
    (ss ss1 : SculptSession) :
  sculpt_mesh_filter_start C op ss = (OPERATOR_PASS_THROUGH, ss1) ->
  vert_co ss1 = vert_co ss /\ topology_kept ss ss1 /\
  exists fc,
    filter_cache ss1 = Some fc /\
    iteration_count fc = 0%Z /\
    start_filter_strength fc = op_strength op /\
    random_seed fc = ctx_rand C /\
    no_orig_co fc = false /\
    orientation fc = op_orientation op /\
    (forall it, it < 3 ->
       enabled_axis fc it = Z.testbit (op_deform_axis op) (Z.of_nat it)) /\
    Forall (fun node => node < length (pbvh_nodes ss)) (nodes fc).
Proof.
  unfold sculpt_mesh_filter_start.
  destruct (op_deform_axis op =? 0)%Z; [discriminate|].
  intros Hstart. injection Hstart as <-.
  match goal with
  | |- context [SCULPT_filter_cache_init ?c ?u ?m ?r ?st ?x] =>
      destruct (cache_init_mesh c u m r st x) as (Hco & Hl & _);
      destruct (cache_init_cache c u m r st x)
        as (fc0 & Hfc0 & Hcount & Hstrength & Hseed & Horig & Hnodes);
      set (init := SCULPT_filter_cache_init c u m r st x) in *;
      assert (Hx : vert_co x = vert_co ss /\ topology_kept ss x)
  end.
  { destruct (ctx_automasking_enabled C), (_ || _); repeat split. }
  destruct Hx as [Hxco Hxl]. rewrite Hfc0. cbn [default].
  split; [|split].
  - cbn. congruence.
  - destruct Hl as (L1 & L3 & L4 & L5).
    destruct Hxl as (X1 & X3 & X4 & X5).
    repeat split; cbn; congruence.
  - eexists. split; [reflexivity|].
    destruct (op_type op); unfold mesh_filter_sharpen_init;
      try destruct (sharpen_smooth _ _ _) as [directions factor]; cbn;
      repeat (match goal with |- _ /\ _ => split end);
      try assumption; try reflexivity;
      try (destruct Hxl as (_ & _ & _ & <-); exact Hnodes);
      (intros [|[|[|it]]] Hit;
       [exact (axis_flag_testbit (op_deform_axis op) 0)
       |exact (axis_flag_testbit (op_deform_axis op) 1)
       |exact (axis_flag_testbit (op_deform_axis op) 2)
       |lia]).
Qed.

(** *** A locked axis *)

Lemma v3_get_add (a b : float3) (it : nat) :
  BLI.v3_get (BLI.add_v3_v3v3 a b) it =
  F32.add (BLI.v3_get a it) (BLI.v3_get b it).
Proof. destruct it as [|[|it]]; reflexivity. Qed.

Lemma float_same_sym (a b : float) : float_same a b -> float_same b a.
Proof. intros [->|[Ha Hb]]; [left; reflexivity | right; split; assumption]. Qed.

Section AxisLock.
Context `{SculptExternals}.
Variables (co0 : list float3) (nodes0 : list (list nat)).
Variables (fc : FilterCache) (ft : eSculptMeshFilterType) (strength : float).
Variable it : nat.

Hypothesis local_frame : orientation fc = SCULPT_FILTER_ORIENTATION_LOCAL.
Hypothesis axis_index : it < 3.
Hypothesis axis_disabled : enabled_axis fc it = false.
Hypothesis not_surface_smooth : ft <> MESH_FILTER_SURFACE_SMOOTH.
Hypothesis not_sharpen : ft <> MESH_FILTER_SHARPEN.

(** These filter types write the original coordinate plus the projected
    displacement. *)
Lemma mesh_filter_vertex_adds (s : SculptSession) (u : nat) (final : float3)
    (l : option float3) :
  mesh_filter_vertex fc s ft strength u = Some (final, l) ->
  exists disp,
    final = BLI.add_v3_v3v3 (vertex_orig_co fc s ft u)
              (mesh_filter_project_disp fc disp).
Proof.
  unfold mesh_filter_vertex.
  destruct (_ && _); [discriminate|]. destruct (_ && _); [discriminate|].
  destruct (mesh_filter_displacement _ _ _ _ _ _ _ _ _ _) as [[disp fade] lap].
  replace (ELEM_type ft [MESH_FILTER_SURFACE_SMOOTH; MESH_FILTER_SHARPEN])
    with false by (destruct ft; try reflexivity; congruence).
  intros [= <- _]. exists disp. reflexivity.
Qed.

Lemma vertex_step_locked (s : SculptSession) (u : nat) :
  snapshotted s u ->
  undo_invariant co0 nodes0 s ->
  (forall v, axis_same it (vert_co s !! v) (co0 !! v)) ->
  forall v,
    axis_same it
      (vert_co (mesh_filter_vertex_step fc ft strength s u) !! v) (co0 !! v).
Proof.
  intros [od Hod] (Hlen & Hnodes & Hundo) Haxis v.
  destruct (decide (u = v)) as [<-|Hne];
    [|rewrite vertex_step_other by exact Hne; apply Haxis].
  unfold mesh_filter_vertex_step.
  destruct (mesh_filter_vertex fc s ft strength u) as [[final l]|] eqn:Hvertex;
    [|apply Haxis].
  destruct (mesh_filter_vertex_adds s u final l Hvertex) as [disp ->].
  assert (Hco : vert_co
                  (write_vd_co u
                     (BLI.add_v3_v3v3 (vertex_orig_co fc s ft u)
                        (mesh_filter_project_disp fc disp))
                     match l with
                     | Some l0 =>
                         set_laplacian_disp (<[u:=l0]> (laplacian_disp s)) s
                     | None => s
                     end) =
                <[u := BLI.add_v3_v3v3 (vertex_orig_co fc s ft u)
                         (mesh_filter_project_disp fc disp)]> (vert_co s))
    by (destruct l; reflexivity).
  rewrite Hco. clear Hco.
  specialize (Haxis u). specialize (Hundo u). rewrite Hod in Hundo.
  destruct Hundo as [Hsnap _].
  destruct (vert_co s !! u) as [c|] eqn:Hc.
  - rewrite list_lookup_insert_eq by (eapply lookup_lt_Some; exact Hc).
    destruct (co0 !! u) as [c0|] eqn:Hc0; [|destruct Haxis]. cbn in *.
    rewrite v3_get_add, project_disp_local by assumption.
    eapply float_same_trans; [apply f32_add_zero_r; reflexivity|].
    unfold vertex_orig_co, SCULPT_orig_vert_data_update, SCULPT_vertex_co_get.
    rewrite Hod, Hc. cbn [default from_option id]. rewrite Hsnap.
    destruct (_ || _); [exact Haxis | apply float_same_refl].
  - rewrite list_insert_ge by (apply lookup_ge_None; exact Hc).
    rewrite Hc. exact Haxis.
Qed.

Lemma apply_passes_locked (s : SculptSession) :
  undo_invariant co0 nodes0 s ->
  (forall v, axis_same it (vert_co s !! v) (co0 !! v)) ->
  undo_invariant co0 nodes0 (apply_passes fc ft strength s) /\
  forall v, axis_same it (vert_co (apply_passes fc ft strength s) !! v)
              (co0 !! v).
Proof.
  intros Hinv Haxis. unfold apply_passes.
  replace (ELEM_type ft [MESH_FILTER_SURFACE_SMOOTH])
    with false by (destruct ft; try reflexivity; congruence).
  apply (mesh_filter_pass_ordered fc ft strength
           (fun x => undo_invariant co0 nodes0 x /\
                     forall v, axis_same it (vert_co x !! v) (co0 !! v))).
  - intros x [(_ & Hx & _) _]. destruct Hinv as (_ & Hs & _). cbn. congruence.
  - intros x node _ [Hx Hax].
    split; [apply undo_push_node_keeps; exact Hx | exact Hax].
  - intros x u _ Hsnap [Hx Hax]. split.
    + apply vertex_step_keeps_undo; assumption.
    + apply vertex_step_locked; assumption.
  - split; [exact Hinv | exact Haxis].
Qed.

End AxisLock.

Section AxisLockIterations.
Context `{SculptExternals}.
Variables (co0 : list float3) (nodes0 : list (list nat)) (it : nat).

Lemma axis_same_refl (a : option float3) : axis_same it a a.
Proof. destruct a; cbn; [apply float_same_refl | exact I]. Qed.

Lemma apply_keeps_locked_axis (op : wmOperator) (s s' : SculptSession)
    (fc : FilterCache) :
  filter_cache s = Some fc ->
  orientation fc = SCULPT_FILTER_ORIENTATION_LOCAL ->
  it < 3 -> enabled_axis fc it = false ->
  op_type op <> MESH_FILTER_SURFACE_SMOOTH ->
  op_type op <> MESH_FILTER_SHARPEN ->
  undo_invariant co0 nodes0 s ->
  (forall v, axis_same it (vert_co s !! v) (co0 !! v)) ->
  sculpt_mesh_filter_apply op s = Some s' ->
  undo_invariant co0 nodes0 s' /\
  forall v, axis_same it (vert_co s' !! v) (co0 !! v).
Proof.
  intros Hfc Hlocal Hit Hoff Hss Hsh Hinv Haxis Happly.
  rewrite (sculpt_mesh_filter_apply_unfold _ _ _ Hfc) in Happly.
  injection Happly as <-.
  destruct (apply_passes_locked co0 nodes0 fc (op_type op) (op_strength op) it
              Hlocal Hit Hoff Hss Hsh s Hinv Haxis) as [Hinv' Haxis'].
  split.
  - eapply undo_invariant_ext; [| | |exact Hinv'].
    + apply apply_epilogue_vert_co.
    + apply apply_epilogue_pbvh_nodes.
    + apply apply_epilogue_undo_coords.
  - intros v. rewrite apply_epilogue_vert_co. apply Haxis'.
Qed.

Lemma apply_iterations_keep_locked_axis (ops : list wmOperator)
    (s s' : SculptSession) (fc : FilterCache) :
  filter_cache s = Some fc ->
  orientation fc = SCULPT_FILTER_ORIENTATION_LOCAL ->
  it < 3 -> enabled_axis fc it = false ->
  Forall (fun o => op_type o <> MESH_FILTER_SURFACE_SMOOTH /\
                   op_type o <> MESH_FILTER_SHARPEN) ops ->
  undo_invariant co0 nodes0 s ->
  (forall v, axis_same it (vert_co s !! v) (co0 !! v)) ->
  apply_iterations ops s = Some s' ->
  forall v, axis_same it (vert_co s' !! v) (co0 !! v).
Proof.
  intros Hfc Hlocal Hit Hoff Hops. revert s fc Hfc Hlocal Hoff.
  induction Hops as [|op ops [Hss Hsh] _ IH];
    intros s fc Hfc Hlocal Hoff Hinv Haxis; cbn.
  - intros [= <-]. exact Haxis.
  - destruct (sculpt_mesh_filter_apply op s) as [s1|] eqn:Happly;
      [|discriminate].
    destruct (apply_keeps_locked_axis op s s1 fc Hfc Hlocal Hit Hoff Hss Hsh
                Hinv Haxis Happly) as [Hinv1 Haxis1].
    apply (IH s1 (fc_set_iteration_count (int_incr (iteration_count fc)) fc));
      try assumption.
    rewrite (sculpt_mesh_filter_apply_unfold _ _ _ Hfc) in Happly.
    injection Happly as <-. apply apply_epilogue_filter_cache.
Qed.

End AxisLockIterations.

(** X3.  An axis locked in the local frame stays put.  Start the filter
    with the local orientation and bit [it] of [deform_axis] clear, then run
    any number of iterations of filter types other than Surface Smooth and
    Sharpen, at whatever strengths: component [it] of every vertex is the
    value it had before the start (a zero possibly with the other sign). *)
Theorem locked_axis_never_moves `{SculptExternals} (C : bContext)
    (op : wmOperator) (ops : list wmOperator) (ss ss1 ss2 : SculptSession)
    (it : nat) :
  sculpt_mesh_filter_start C op ss = (OPERATOR_PASS_THROUGH, ss1) ->
  op_orientation op = SCULPT_FILTER_ORIENTATION_LOCAL ->
  it < 3 ->
  Z.testbit (op_deform_axis op) (Z.of_nat it) = false ->
  Forall (fun o => op_type o <> MESH_FILTER_SURFACE_SMOOTH /\
                   op_type o <> MESH_FILTER_SHARPEN) ops ->
  apply_iterations ops ss1 = Some ss2 ->
  forall v, axis_same it (vert_co ss2 !! v) (vert_co ss !! v).
Proof.
  intros Hstart Hlocal Hit Hbit Hops Hiter.
  destruct (start_takes_snapshots C op ss ss1 Hstart) as [_ Hinv].
  destruct (start_sets_up C op ss ss1 Hstart)
    as (Hco & _ & fc & Hfc & _ & _ & _ & _ & Hor & Haxis & _).
  apply (apply_iterations_keep_locked_axis (vert_co ss) (pbvh_nodes ss) it ops
           ss1 ss2 fc); try assumption.
  - congruence.
  - rewrite (Haxis it Hit). exact Hbit.
  - intros v. rewrite Hco. apply axis_same_refl.
Qed.

Section AxisLockExample.
#[local] Existing Instance Demo.externals.

(** Smooth started with X locked on three vertices of the X axis, then one
    iteration each of Smooth, Random and Scale. *)
Lemma locked_axis_never_moves_witness :
  let op :=
    Demo.operator MESH_FILTER_SMOOTH F32.one
      (Z.lor MESH_FILTER_DEFORM_Y MESH_FILTER_DEFORM_Z) in
  let mesh := Demo.session [Demo.on_x 0; Demo.on_x 1; Demo.on_x 5] in
  let ops :=
    [op; Demo.operator MESH_FILTER_RANDOM F32.one Demo.all_axes;
     Demo.operator MESH_FILTER_SCALE F32.half Demo.all_axes] in
  let ss2 :=
    default mesh (apply_iterations ops (Demo.started op mesh)) in
  axis_same 0 (vert_co ss2 !! 1) (vert_co mesh !! 1).
Proof.
  intros op mesh ops ss2.
  apply (locked_axis_never_moves Demo.context op ops mesh
           (Demo.started op mesh) ss2 0).
  - vm_compute. reflexivity.
  - reflexivity.
  - lia.
  - reflexivity.
  - repeat constructor; discriminate.
  - vm_compute. reflexivity.
Defined.

End AxisLockExample.

(** *** The iteration counter *)

Lemma apply_iterations_count `{SculptExternals} (ops : list wmOperator)
    (s s' : SculptSession) (fc : FilterCache) :
  filter_cache s = Some fc ->
  (0 <= iteration_count fc)%Z ->
  (iteration_count fc + Z.of_nat (length ops) < 2 ^ 31)%Z ->
  apply_iterations ops s = Some s' ->
  iteration_count <$> filter_cache s' =
  Some (iteration_count fc + Z.of_nat (length ops))%Z.
Proof.
  revert s fc. induction ops as [|op ops IH]; intros s fc Hfc Hpos Hmax; cbn.
  - intros [= <-]. rewrite Hfc. cbn. f_equal. lia.
  - destruct (sculpt_mesh_filter_apply op s) as [s1|] eqn:Happly;
      [|discriminate].
    rewrite (sculpt_mesh_filter_apply_unfold _ _ _ Hfc) in Happly.
    injection Happly as <-.
    intros Hrest. cbn [length] in Hmax.
    pose proof (IH _ _ (apply_epilogue_filter_cache fc
                          (apply_passes fc (op_type op) (op_strength op) s)))
      as Hk.
    cbn [iteration_count fc_set_iteration_count] in Hk.
    rewrite int_incr_succ in Hk by lia.
    rewrite Hk; [f_equal|..|exact Hrest]; cbn [length]; lia.
Qed.

(** X4.  The cache counts the iterations: after a successful start and [k]
    calls of [sculpt_mesh_filter_apply] (fewer than 2^31) the counter is
    [k], so that the next Relax Face Sets iteration relaxes across face set
    boundaries exactly when [k] is not a multiple of 3. *)
Theorem iteration_counter_counts `{SculptExternals} (C : bContext)
    (op : wmOperator) (ops : list wmOperator) (ss ss1 ss2 : SculptSession) :
  sculpt_mesh_filter_start C op ss = (OPERATOR_PASS_THROUGH, ss1) ->
  apply_iterations ops ss1 = Some ss2 ->
  (Z.of_nat (length ops) < 2 ^ 31)%Z ->
  exists fc2,
    filter_cache ss2 = Some fc2 /\
    iteration_count fc2 = Z.of_nat (length ops) /\
    relax_face_sets_mode fc2 = negb (Z.of_nat (length ops) mod 3 =? 0)%Z.
Proof.
  intros Hstart Hiter Hmax.
  destruct (start_sets_up C op ss ss1 Hstart)
    as (_ & _ & fc & Hfc & Hcount & _).
  pose proof (apply_iterations_count ops ss1 ss2 fc Hfc) as Hk.
  rewrite Hcount in Hk. specialize (Hk ltac:(lia) ltac:(lia) Hiter).
  destruct (filter_cache ss2) as [fc2|]; [|discriminate].
  cbn in Hk. injection Hk as Hk. exists fc2.
  split; [reflexivity|]. split; [lia|].
  unfold relax_face_sets_mode. rewrite Hk, Z.add_0_l.
  rewrite Z.rem_mod_nonneg by lia. reflexivity.
Qed.

Section IterationCounterExample.
#[local] Existing Instance Demo.externals.

Lemma iteration_counter_counts_witness :
  let op := Demo.operator MESH_FILTER_RELAX_FACE_SETS F32.one Demo.all_axes in
  let mesh := Demo.session [Demo.on_x 0; Demo.on_x 1; Demo.on_x 5] in
  let ss2 :=
    default mesh (apply_iterations [op; op; op; op] (Demo.started op mesh)) in
  exists fc2,
    filter_cache ss2 = Some fc2 /\
    iteration_count fc2 = 4%Z /\ relax_face_sets_mode fc2 = true.
Proof.
  intros op mesh ss2.
  apply (iteration_counter_counts Demo.context op [op; op; op; op] mesh
           (Demo.started op mesh) ss2).
  - vm_compute. reflexivity.
  - vm_compute. reflexivity.
  - vm_compute. reflexivity.
Defined.

End IterationCounterExample.

(** *** The buffers filled at start *)

Section StartBuffers.
Context `{SculptExternals}.

Lemma sharpen_smooth_vertex_lengths (ss : SculptSession)
    (st : list float3 * list float) (i : nat) :
  length (fst (sharpen_smooth_vertex ss st i)) = length (fst st) /\
  length (snd (sharpen_smooth_vertex ss st i)) = length (snd st).
Proof.
  destruct st as [directions factor]. unfold sharpen_smooth_vertex.
  destruct (0 <? _)%Z; cbn; rewrite ?length_insert; split; reflexivity.
Qed.

Lemma sharpen_smooth_lengths (ss : SculptSession) (iterations : Z)
    (st : list float3 * list float) :
  length (fst (sharpen_smooth ss iterations st)) = length (fst st) /\
  length (snd (sharpen_smooth ss iterations st)) = length (snd st).
Proof.
  unfold sharpen_smooth.
  induction (Z.to_nat iterations) as [|n IH]; cbn [Nat.iter];
    [split; reflexivity|].
  apply (fold_left_preserves
           (fun x => length (fst x) = length (fst st) /\
                     length (snd x) = length (snd st))); [exact IH|].
  intros x i _ [Hd Hf].
  destruct (sharpen_smooth_vertex_lengths ss x i) as [Hd' Hf'].
  split; congruence.
Qed.

Lemma sharpen_init_lengths (ss : SculptSession)
    (smooth_ratio intensify_detail_strength : float)
    (curvature_smooth_iterations : Z) (fc : FilterCache) :
  let fc' :=
    mesh_filter_sharpen_init ss smooth_ratio intensify_detail_strength
      curvature_smooth_iterations fc in
  length (sharpen_factor fc') = length (vert_co ss) /\
  length (detail_directions fc') = length (vert_co ss).
Proof.
  unfold mesh_filter_sharpen_init.
  pose proof (sharpen_smooth_lengths ss curvature_smooth_iterations
                (sharpen_init_directions ss,
                 sharpen_normalize (sharpen_init_magnitudes ss))) as [Hd Hf].
  destruct (sharpen_smooth _ _ _) as [directions factor]. cbn in *.
  rewrite Hd, Hf. unfold sharpen_normalize, sharpen_init_magnitudes,
    sharpen_init_directions, SCULPT_vertex_count_get.
  rewrite !length_map, length_seq. split; reflexivity.
Qed.

End StartBuffers.

(** X5.  The per-vertex buffers a filter type needs are filled at start
    with one entry per vertex of the mesh: the sharpen factors and detail
    directions of Sharpen, whatever the number of smoothing passes, the
    detail directions of Enhance Details, the limit surface coordinates of
    Erase Displacement.  Every later read at a vertex index finds its
    entry. *)
Theorem start_buffers_cover_mesh `{SculptExternals} (C : bContext)
    (op : wmOperator) (ss ss1 : SculptSession) (fc : FilterCache) :
  sculpt_mesh_filter_start C op ss = (OPERATOR_PASS_THROUGH, ss1) ->
  filter_cache ss1 = Some fc ->
  (op_type op = MESH_FILTER_SHARPEN ->
   length (sharpen_factor fc) = length (vert_co ss) /\
   length (detail_directions fc) = length (vert_co ss)) /\
  (op_type op = MESH_FILTER_ENHANCE_DETAILS ->
   length (detail_directions fc) = length (vert_co ss)) /\
  (op_type op = MESH_FILTER_ERASE_DISPLACEMENT ->
   length (limit_surface_co fc) = length (vert_co ss)).
Proof.
  unfold sculpt_mesh_filter_start.
  destruct (op_deform_axis op =? 0)%Z; [discriminate|].
  intros Hstart. injection Hstart as <-. cbn [filter_cache set_filter_cache].
  intros [= <-].
  match goal with
  | |- context [SCULPT_filter_cache_init ?c ?u ?m ?r ?st ?x] =>
      destruct (cache_init_mesh c u m r st x) as (Hco & _);
      set (init := SCULPT_filter_cache_init c u m r st x) in *;
      assert (Hx : vert_co x = vert_co ss)
        by (destruct (ctx_automasking_enabled C), (_ || _); reflexivity)
  end.
  rewrite Hx in Hco. clear Hx.
  split; [|split]; intros Htype; rewrite Htype.
  - match goal with
    | |- context [mesh_filter_sharpen_init ?s ?a ?b ?c ?f] =>
        pose proof (sharpen_init_lengths s a b c f) as Hlen
    end.
    cbv zeta in Hlen. cbn [vert_co set_filter_cache] in Hlen.
    rewrite Hco in Hlen. exact Hlen.
  - cbn. unfold mesh_filter_enhance_details_init_directions,
      SCULPT_vertex_count_get.
    rewrite length_map, length_seq. cbn. congruence.
  - cbn. unfold mesh_filter_init_limit_surface_co, SCULPT_vertex_count_get.
    rewrite length_map, length_seq. cbn. congruence.
Qed.

Section StartBuffersExample.
#[local] Existing Instance Demo.externals.

(** Sharpen started on three vertices with two smoothing passes. *)
Lemma start_buffers_cover_mesh_witness :
  let op :=
    {| op_type := MESH_FILTER_SHARPEN; op_strength := F32.one;
       op_deform_axis := Demo.all_axes;
       op_orientation := SCULPT_FILTER_ORIENTATION_LOCAL;
       op_start_mouse := (0, 0)%Z; op_area_normal_radius := F32.one;
       op_iteration_count := 1;
       op_surface_smooth_shape_preservation := F32.half;
       op_surface_smooth_current_vertex := F32.half;
       op_sharpen_smooth_ratio := F32.half;
       op_sharpen_intensify_detail_strength := F32.zero;
       op_sharpen_curvature_smooth_iterations := 2 |} in
  let mesh := Demo.session [Demo.on_x 0; Demo.on_x 1; Demo.on_x 5] in
  length (sharpen_factor (Demo.cache op mesh)) = 3 /\
  length (detail_directions (Demo.cache op mesh)) = 3.
Proof.
  intros op mesh.
  refine (proj1 (start_buffers_cover_mesh Demo.context op mesh
                   (Demo.started op mesh) (Demo.cache op mesh) _ _) _).
  - vm_compute. reflexivity.
  - vm_compute. reflexivity.
  - reflexivity.
Defined.

End StartBuffersExample.

(** *** Zeroing disabled components in the local frame *)

Lemma zero_disabled_axes_spec (enabled : nat -> bool) (r : float3) (it : nat) :
  it < 3 ->
  BLI.v3_get (zero_disabled_axes enabled r) it =
  if enabled it then BLI.v3_get r it else F32.zero.
Proof.
  intros Hit. unfold zero_disabled_axes. cbn [seq fold_left].
  destruct it as [|[|[|it]]]; [| | |lia];
    destruct (enabled 0), (enabled 1), (enabled 2); reflexivity.
Qed.

Lemma float3_ext (a b : float3) :
  (forall it, it < 3 -> BLI.v3_get a it = BLI.v3_get b it) -> a = b.
Proof.
  intros Hget. destruct a as [ax ay az], b as [bx b_y bz].
  pose proof (Hget 0 ltac:(lia)) as H0. pose proof (Hget 1 ltac:(lia)) as H1.
  pose proof (Hget 2 ltac:(lia)) as H2. cbn in *. congruence.
Qed.

(** X6.  In the local frame [SCULPT_filter_zero_disabled_axis_components]
    keeps the components whose axis is forced on and sets the others to
    [0.0f]; doing it twice changes nothing more. *)
Theorem zero_disabled_axis_components_local `{SculptExternals}
    (fc : FilterCache) (r_v : float3) :
  orientation fc = SCULPT_FILTER_ORIENTATION_LOCAL ->
  (forall it, it < 3 ->
     BLI.v3_get (SCULPT_filter_zero_disabled_axis_components r_v fc) it =
     if enabled_force_axis fc it then BLI.v3_get r_v it else F32.zero) /\
  SCULPT_filter_zero_disabled_axis_components
    (SCULPT_filter_zero_disabled_axis_components r_v fc) fc =
  SCULPT_filter_zero_disabled_axis_components r_v fc.
Proof.
  intros Hlocal.
  assert (Hget : forall r it, it < 3 ->
            BLI.v3_get (SCULPT_filter_zero_disabled_axis_components r fc) it =
            if enabled_force_axis fc it then BLI.v3_get r it else F32.zero).
  { intros r it Hit.
    unfold SCULPT_filter_zero_disabled_axis_components,
      SCULPT_filter_to_object_space, SCULPT_filter_to_orientation_space.
    rewrite Hlocal. apply zero_disabled_axes_spec. exact Hit. }
  split; [apply Hget|].
  apply float3_ext. intros it Hit. rewrite !Hget by exact Hit.
  destruct (enabled_force_axis fc it); reflexivity.
Qed.

Section ZeroDisabledExample.
#[local] Existing Instance Demo.externals.

Lemma zero_disabled_axis_components_local_witness :
  let fc := FilterCache_cnew in
  let r := V3 F32.one F32.half F32.minus_one in
  SCULPT_filter_zero_disabled_axis_components
    (SCULPT_filter_zero_disabled_axis_components r fc) fc =
  SCULPT_filter_zero_disabled_axis_components r fc.
Proof.
  intros fc r.
  refine (proj2 (zero_disabled_axis_components_local fc r _)).
  reflexivity.
Defined.

End ZeroDisabledExample.

(* ===================================================================== *)
(** ** Properties of the pointer interaction *)
(* ===================================================================== *)

(** *** The three kinds of event *)

Section ModalSteps.
Context `{SculptExternals} `{InterfaceExternals}.

Lemma apply_succeeds (op : wmOperator) (s : SculptSession) (fc : FilterCache) :
  filter_cache s = Some fc ->
  exists s',
    sculpt_mesh_filter_apply op s = Some s' /\
    filter_cache s' =
    Some (fc_set_iteration_count (int_incr (iteration_count fc)) fc).
Proof.
  intros Hfc. eexists. split.
  - apply sculpt_mesh_filter_apply_unfold. exact Hfc.
  - apply apply_epilogue_filter_cache.
Qed.

Lemma move_is_no_release (event : wmEvent) :
  is_move event = true -> is_release event = false.
Proof. unfold is_move, is_release. destruct (ev_type event); congruence. Qed.

(** An event that is neither a motion nor the release is passed over. *)
Lemma modal_other (op : MeshFilterOperator) (event : wmEvent)
    (s : SculptSession) :
  is_release event = false -> is_move event = false ->
  sculpt_mesh_filter_modal op event s = Some (OPERATOR_RUNNING_MODAL, op, s).
Proof.
  unfold is_release, is_move, sculpt_mesh_filter_modal.
  destruct (ev_type event), (ev_val event); congruence.
Qed.

(** The release ends the filter. *)
Lemma modal_release (op : MeshFilterOperator) (event : wmEvent)
    (s : SculptSession) (fc : FilterCache) :
  is_release event = true -> filter_cache s = Some fc ->
  exists s',
    sculpt_mesh_filter_end s = Some s' /\
    sculpt_mesh_filter_modal op event s =
    Some (OPERATOR_FINISHED,
          if sculpt_mesh_filter_is_continuous (op_type (op_ptr op))
          then {| op_ptr :=
                    op_set_strength
                      (RNA_float_store PROP_strength (start_filter_strength fc))
                      (op_ptr op);
                  event_history := event_history op |}
          else op,
          s').
Proof.
  unfold is_release, sculpt_mesh_filter_modal. intros Hrel Hfc.
  destruct (ev_type event); try discriminate.
  destruct (ev_val event); try discriminate.
  rewrite Hfc. unfold sculpt_mesh_filter_end, SCULPT_filter_cache_free.
  rewrite Hfc. eexists. split; reflexivity.
Qed.

(** A motion sample sets the strength, asks for the session to be
    refreshed and runs one iteration. *)
Lemma modal_move (op : MeshFilterOperator) (event : wmEvent)
    (s : SculptSession) (fc : FilterCache) :
  is_move event = true -> filter_cache s = Some fc ->
  let filter_type := op_type (op_ptr op) in
  let op_rna :=
    op_set_strength
      (stored_motion_strength (start_filter_strength fc)
         (ev_prev_press_xy event) (ev_xy event))
      (op_ptr op) in
  let history :=
    if sculpt_mesh_filter_is_continuous filter_type then
      match event_history op with
      | [] => [history_start_entry (float2_of_xy (ev_prev_press_xy event))]
      | h => h
      end
      ++ [history_entry (float2_of_xy (ev_xy event))
            (ev_tablet_pressure event)]
    else event_history op in
  exists s',
    sculpt_mesh_filter_apply op_rna
      (emit (EvUpdateObjectForEdit (sculpt_mesh_filter_needs_pmap filter_type))
         s) = Some s' /\
    filter_cache s' =
    Some (fc_set_iteration_count (int_incr (iteration_count fc)) fc) /\
    sculpt_mesh_filter_modal op event s =
    Some (OPERATOR_RUNNING_MODAL,
          {| op_ptr := op_rna; event_history := history |}, s').
Proof.
  intros Hmove Hfc filter_type op_rna history.
  destruct (apply_succeeds op_rna
              (emit (EvUpdateObjectForEdit
                       (sculpt_mesh_filter_needs_pmap filter_type)) s) fc Hfc)
    as (s' & Happly & Hfc').
  exists s'. split; [exact Happly|]. split; [exact Hfc'|].
  unfold is_move in Hmove. unfold sculpt_mesh_filter_modal.
  destruct (ev_type event); try discriminate.
  unfold sculpt_mesh_update_strength. rewrite Hfc.
  fold filter_type.
  change (op_set_strength _ (op_ptr op)) with op_rna.
  rewrite Happly. reflexivity.
Qed.

Lemma end_frees_cache (s s' : SculptSession) :
  sculpt_mesh_filter_end s = Some s' ->
  filter_cache s' = None /\ vert_co s' = vert_co s /\
  pbvh_nodes s' = pbvh_nodes s /\ undo_coords s' = undo_coords s /\
  layout_kept s s' /\ laplacian_disp s' = laplacian_disp s /\
  last_normal s' = last_normal s /\
  deform_modifiers_active s' = deform_modifiers_active s /\
  shapekey_active s' = shapekey_active s.
Proof.
  unfold sculpt_mesh_filter_end, SCULPT_filter_cache_free.
  destruct (filter_cache s) as [fc|]; [|discriminate].
  intros [= <-]. destruct (automasking fc); repeat split.
Qed.

(** While the operator is modal the session has its cache, with the start
    strength it was given at first, and the undo step keeps the coordinates
    of the start. *)
Lemma run_modal_total (co0 : list float3) (nodes0 : list (list nat))
    (events : list wmEvent) (op : MeshFilterOperator)
    (s : SculptSession) (fc : FilterCache) :
  filter_cache s = Some fc ->
  undo_invariant co0 nodes0 s ->
  exists status op' s',
    run_modal events op s = Some (status, op', s') /\
    undo_invariant co0 nodes0 s' /\
    ((status = OPERATOR_RUNNING_MODAL /\
      Forall (fun e => is_release e = false) events /\
      exists fc', filter_cache s' = Some fc' /\
                  start_filter_strength fc' = start_filter_strength fc) \/
     (status = OPERATOR_FINISHED /\ filter_cache s' = None /\
      Exists (fun e => is_release e = true) events)).
Proof.
  revert op s fc.
  induction events as [|event events IH]; intros op s fc Hfc Hinv.
  - exists OPERATOR_RUNNING_MODAL, op, s. split; [reflexivity|].
    split; [exact Hinv|]. left.
    split; [reflexivity|]. split; [constructor|]. exists fc.
    split; [exact Hfc | reflexivity].
  - cbn [run_modal].
    destruct (is_release event) eqn:Hrel.
    + destruct (modal_release op event s fc Hrel Hfc) as (s' & Hend & ->).
      destruct (end_frees_cache s s' Hend) as (Hnone & Hco & Hn & Hu & _).
      eexists _, _, s'. split; [reflexivity|].
      split; [apply (undo_invariant_ext _ _ s); assumption|]. right.
      split; [reflexivity|]. split; [exact Hnone | left; exact Hrel].
    + destruct (is_move event) eqn:Hmove.
      * destruct (modal_move op event s fc Hmove Hfc)
          as (s' & Happly & Hfc' & ->).
        assert (Hinv' : undo_invariant co0 nodes0 s').
        { match type of Happly with
          | sculpt_mesh_filter_apply ?o ?x = _ =>
              destruct (apply_keeps_undo co0 nodes0 o x)
                as (s2 & Happly2 & _ & Hinv2)
          end.
          - eexists. exact Hfc.
          - apply (undo_invariant_ext _ _ s); [reflexivity..|exact Hinv].
          - congruence. }
        match goal with
        | |- context [run_modal events ?o s'] =>
            destruct (IH o s' _ Hfc' Hinv')
              as (status & op' & s'' & -> & Hinv'' & Hcases)
        end.
        exists status, op', s''. split; [reflexivity|].
        split; [exact Hinv''|].
        destruct Hcases as [(-> & Hall & fc' & Hfc'' & Hst)|(-> & Hnone & Hex)].
        -- left. split; [reflexivity|]. split; [constructor; assumption|].
           exists fc'. split; [exact Hfc'' | exact Hst].
        -- right. split; [reflexivity|]. split; [exact Hnone|].
           right. exact Hex.
      * rewrite (modal_other op event s Hrel Hmove).
        destruct (IH op s fc Hfc Hinv)
          as (status & op' & s'' & -> & Hinv'' & Hcases).
        exists status, op', s''. split; [reflexivity|].
        split; [exact Hinv''|].
        destruct Hcases as [(-> & Hall & Hrest)|(-> & Hnone & Hex)].
        -- left. split; [reflexivity|]. split; [constructor; assumption|].
           exact Hrest.
        -- right. split; [reflexivity|]. split; [exact Hnone|].
           right. exact Hex.
Qed.

Lemma start_refuses_empty_axis (C : bContext) (op : wmOperator)
    (ss : SculptSession) :
  op_deform_axis op = 0%Z ->
  vert_co (snd (sculpt_mesh_filter_start C op ss)) = vert_co ss /\
  filter_cache (snd (sculpt_mesh_filter_start C op ss)) = filter_cache ss.
Proof.
  intros Haxis. unfold sculpt_mesh_filter_start. rewrite Haxis.
  split; reflexivity.
Qed.

(** The answer of [sculpt_mesh_filter_start] follows the axis mask. *)
Lemma start_status (C : bContext) (op : wmOperator) (ss : SculptSession) :
  (op_deform_axis op = 0%Z /\
   fst (sculpt_mesh_filter_start C op ss) = OPERATOR_CANCELLED) \/
  (op_deform_axis op <> 0%Z /\
   fst (sculpt_mesh_filter_start C op ss) = OPERATOR_PASS_THROUGH).
Proof.
  unfold sculpt_mesh_filter_start.
  destruct (op_deform_axis op =? 0)%Z eqn:Haxis.
  - left. split; [apply Z.eqb_eq; exact Haxis | reflexivity].
  - right. split; [apply Z.eqb_neq; exact Haxis | reflexivity].
Qed.

End ModalSteps.

(** X7.  A drag runs to its end without ever finding the cache missing.
    With an empty axis mask invoke answers OPERATOR_CANCELLED and the mesh
    and the session's cache are as before.  Otherwise, whatever events come
    between press and release, the release ends the operator with
    OPERATOR_FINISHED, the cache is freed, and the undo step still tells the
    coordinates of the start: a vertex with a snapshot has its old
    coordinate there, a vertex without one has not moved. *)
Theorem drag_completes `{SculptExternals} `{InterfaceExternals}
    (C : bContext) (op : MeshFilterOperator) (press release : wmEvent)
    (events : list wmEvent) (ss : SculptSession) :
  is_release release = true ->
  exists status op' ss',
    drag C op press events release ss = Some (status, op', ss') /\
    ((op_deform_axis (op_ptr op) = 0%Z /\ status = OPERATOR_CANCELLED /\
      vert_co ss' = vert_co ss /\ filter_cache ss' = filter_cache ss) \/
     (op_deform_axis (op_ptr op) <> 0%Z /\ status = OPERATOR_FINISHED /\
      filter_cache ss' = None /\
      undo_invariant (vert_co ss) (pbvh_nodes ss) ss')).
Proof.
  intros Hrel. unfold drag, sculpt_mesh_filter_invoke.
  cbn [op_ptr event_history].
  set (op_rna := op_set_start_mouse _ (op_ptr op)).
  destruct (start_status C op_rna ss) as [[Haxis Hst]|[Haxis Hst]];
    destruct (sculpt_mesh_filter_start C op_rna ss) as [ret s1] eqn:Hstart;
    cbn [fst] in Hst; subst ret.
  - eexists _, _, s1. split; [reflexivity|]. left.
    split; [exact Haxis|]. split; [reflexivity|].
    pose proof (start_refuses_empty_axis C op_rna ss Haxis) as Hkeep.
    rewrite Hstart in Hkeep. exact Hkeep.
  - destruct (start_takes_snapshots C op_rna ss s1 Hstart) as [[fc Hfc] Hinv].
    destruct (run_modal_total (vert_co ss) (pbvh_nodes ss)
                (events ++ [release])
                {| op_ptr := op_rna; event_history := event_history op |}
                s1 fc Hfc Hinv)
      as (status & op' & s' & Hrun & Hinv' & Hcases).
    exists status, op', s'. split; [exact Hrun|]. right.
    split; [exact Haxis|].
    destruct Hcases as [(_ & Hall & _)|(-> & Hnone & _)].
    + apply Forall_app in Hall as [_ Hall].
      apply Forall_inv in Hall. congruence.
    + split; [reflexivity|]. split; [exact Hnone | exact Hinv'].
Qed.

Section DragExample.
#[local] Existing Instance Demo.externals.
#[local] Existing Instance DemoInterface.interface.

(** Smooth dragged from (100, 100) to (150, 100), a key pressed on the way,
    then back to (120, 100). *)
Lemma drag_completes_witness :
  let op :=
    DemoInterface.fresh
      (Demo.operator MESH_FILTER_SMOOTH F32.one Demo.all_axes) in
  let mesh := Demo.session [Demo.on_x 0; Demo.on_x 1; Demo.on_x 5] in
  let origin := (100, 100)%Z in
  let events :=
    [DemoInterface.move origin (150, 100)%Z; DemoInterface.key origin 5;
     DemoInterface.move origin (120, 100)%Z] in
  exists status op' ss',
    drag Demo.context op (DemoInterface.press origin) events
      (DemoInterface.release origin (120, 100)%Z) mesh =
    Some (status, op', ss') /\
    ((op_deform_axis (op_ptr op) = 0%Z /\ status = OPERATOR_CANCELLED /\
      vert_co ss' = vert_co mesh /\ filter_cache ss' = filter_cache mesh) \/
     (op_deform_axis (op_ptr op) <> 0%Z /\ status = OPERATOR_FINISHED /\
      filter_cache ss' = None /\
      undo_invariant (vert_co mesh) (pbvh_nodes mesh) ss')).
Proof.
  intros op mesh origin events.
  apply (drag_completes Demo.context op (DemoInterface.press origin)
           (DemoInterface.release origin (120, 100)%Z) events mesh).
  reflexivity.
Defined.

End DragExample.

(** *** Non-interactive execution *)

Section ExecSteps.
Context `{SculptExternals} `{InterfaceExternals}.
Variables (co0 : list float3) (nodes0 : list (list nat)).

Lemma update_strength_succeeds (op : wmOperator) (s : SculptSession)
    (fc : FilterCache) (prev_press_mouse mouse : float * float) :
  filter_cache s = Some fc ->
  sculpt_mesh_update_strength op s prev_press_mouse mouse =
  Some (op_set_strength
          (RNA_float_store PROP_strength
             (motion_filter_strength (start_filter_strength fc)
                prev_press_mouse mouse)) op).
Proof.
  intros Hfc. unfold sculpt_mesh_update_strength. rewrite Hfc. reflexivity.
Qed.

(** What the callers need to know of a session between start and end. *)
Lemma apply_keeps_running (op : wmOperator) (s : SculptSession)
    (fc : FilterCache) :
  filter_cache s = Some fc -> undo_invariant co0 nodes0 s ->
  exists s' fc',
    sculpt_mesh_filter_apply op s = Some s' /\
    filter_cache s' = Some fc' /\
    start_filter_strength fc' = start_filter_strength fc /\
    undo_invariant co0 nodes0 s'.
Proof.
  intros Hfc Hinv.
  destruct (apply_succeeds op s fc Hfc) as (s' & Happly & Hfc').
  destruct (apply_keeps_undo co0 nodes0 op s) as (s2 & Happly2 & _ & Hinv2);
    [eexists; exact Hfc | exact Hinv |].
  exists s', (fc_set_iteration_count (int_incr (iteration_count fc)) fc).
  split; [exact Happly|]. split; [exact Hfc'|]. split; [reflexivity|].
  congruence.
Qed.

Lemma apply_history_items_total (start_mouse : float * float)
    (items : list OperatorStrokeElement) (op : wmOperator)
    (s : SculptSession) (fc : FilterCache) :
  filter_cache s = Some fc -> undo_invariant co0 nodes0 s ->
  exists op' s' fc',
    apply_history_items start_mouse items op s = Some (op', s') /\
    filter_cache s' = Some fc' /\
    start_filter_strength fc' = start_filter_strength fc /\
    undo_invariant co0 nodes0 s'.
Proof.
  revert op s fc. induction items as [|item items IH]; intros op s fc Hfc Hinv;
    cbn [apply_history_items].
  - exists op, s, fc. split; [reflexivity|]. split; [exact Hfc|].
    split; [reflexivity | exact Hinv].
  - rewrite (update_strength_succeeds _ _ fc) by exact Hfc.
    match goal with
    | |- context [sculpt_mesh_filter_apply ?o s] =>
        destruct (apply_keeps_running o s fc Hfc Hinv)
          as (s1 & fc1 & -> & Hfc1 & Hst1 & Hinv1);
        destruct (IH o s1 fc1 Hfc1 Hinv1)
          as (op' & s' & fc' & -> & Hfc' & Hst' & Hinv')
    end.
    exists op', s', fc'. split; [reflexivity|]. split; [exact Hfc'|].
    split; [congruence | exact Hinv'].
Qed.

Lemma apply_with_history_total (op : MeshFilterOperator) (s : SculptSession)
    (fc : FilterCache) :
  filter_cache s = Some fc -> undo_invariant co0 nodes0 s ->
  exists op' s' fc',
    sculpt_mesh_filter_apply_with_history op s = Some (op', s') /\
    filter_cache s' = Some fc' /\
    start_filter_strength fc' = start_filter_strength fc /\
    undo_invariant co0 nodes0 s' /\
    event_history op' = event_history op /\
    (event_history op = [] -> op' = op) /\
    (event_history op <> [] ->
     op_strength (op_ptr op') =
     RNA_float_store PROP_strength (start_filter_strength fc)).
Proof.
  intros Hfc Hinv. unfold sculpt_mesh_filter_apply_with_history.
  destruct (event_history op) as [|first items] eqn:Hhist.
  - destruct (apply_keeps_running (op_ptr op) s fc Hfc Hinv)
      as (s' & fc' & -> & Hfc' & Hst' & Hinv').
    exists op, s', fc'. split; [reflexivity|]. split; [exact Hfc'|].
    split; [exact Hst'|]. split; [exact Hinv'|]. split; [exact Hhist|].
    split; [reflexivity | congruence].
  - rewrite Hfc.
    destruct (apply_history_items_total (mouse_event first) items (op_ptr op)
                s fc Hfc Hinv) as (op' & s' & fc' & -> & Hfc' & Hst' & Hinv').
    eexists _, s', fc'. split; [reflexivity|]. split; [exact Hfc'|].
    split; [exact Hst'|]. split; [exact Hinv'|]. split; [reflexivity|].
    split; [discriminate | reflexivity].
Qed.

Lemma set_no_orig_co_total (s : SculptSession) (fc : FilterCache) :
  filter_cache s = Some fc -> undo_invariant co0 nodes0 s ->
  exists s',
    set_no_orig_co s = Some s' /\
    filter_cache s' = Some (fc_set_no_orig_co true fc) /\
    undo_invariant co0 nodes0 s'.
Proof.
  intros Hfc Hinv. unfold set_no_orig_co. rewrite Hfc. eexists.
  split; [reflexivity|]. split; [reflexivity|].
  apply (undo_invariant_ext _ _ s); [reflexivity..|exact Hinv].
Qed.

Lemma exec_iterations_total (iterations : nat) (op : MeshFilterOperator)
    (s : SculptSession) (fc : FilterCache) :
  filter_cache s = Some fc -> undo_invariant co0 nodes0 s ->
  exists op' s' fc',
    exec_iterations iterations op s = Some (op', s') /\
    filter_cache s' = Some fc' /\
    start_filter_strength fc' = start_filter_strength fc /\
    undo_invariant co0 nodes0 s' /\
    event_history op' = event_history op /\
    (event_history op = [] \/ iterations = 0 -> op' = op) /\
    (event_history op <> [] -> iterations <> 0 ->
     op_strength (op_ptr op') =
     RNA_float_store PROP_strength (start_filter_strength fc)).
Proof.
  revert op s fc.
  induction iterations as [|n IH]; intros op s fc Hfc Hinv;
    cbn [exec_iterations].
  - exists op, s, fc. split; [reflexivity|]. split; [exact Hfc|].
    split; [reflexivity|]. split; [exact Hinv|]. split; [reflexivity|].
    split; [reflexivity | congruence].
  - destruct (apply_with_history_total op s fc Hfc Hinv)
      as (op1 & s1 & fc1 & -> & Hfc1 & Hst1 & Hinv1 & Hh1 & He1 & Hn1).
    destruct (set_no_orig_co_total s1 fc1 Hfc1 Hinv1)
      as (s2 & -> & Hfc2 & Hinv2).
    destruct (IH op1 s2 _ Hfc2 Hinv2)
      as (op' & s' & fc' & -> & Hfc' & Hst' & Hinv' & Hh' & He' & Hn').
    exists op', s', fc'. split; [reflexivity|]. split; [exact Hfc'|].
    split; [cbn in Hst'; congruence|]. split; [exact Hinv'|].
    split; [congruence|]. split.
    + intros [Hempty|Hzero]; [|discriminate].
      rewrite He' by (left; congruence). apply He1. exact Hempty.
    + intros Hhist _. destruct n as [|n].
      * rewrite He' by (right; reflexivity). apply Hn1. exact Hhist.
      * rewrite Hn' by congruence. cbn. congruence.
Qed.

End ExecSteps.

(** X8.  With an axis enabled [sculpt_mesh_filter_exec] always runs to
    OPERATOR_FINISHED, never finding the cache missing, and frees the cache.
    The undo step then still tells the coordinates before the call: a vertex
    with a snapshot has its old coordinate there, a vertex without one has
    not moved.  The event history is as it was; without a history the
    operator's properties are untouched, and after replaying one the
    strength property holds the strength exec was called with. *)
Theorem exec_finishes `{SculptExternals} `{InterfaceExternals}
    (C : bContext) (op : MeshFilterOperator) (ss : SculptSession) :
  op_deform_axis (op_ptr op) <> 0%Z ->
  exists op' ss',
    sculpt_mesh_filter_exec C op ss = Some (OPERATOR_FINISHED, op', ss') /\
    filter_cache ss' = None /\
    undo_invariant (vert_co ss) (pbvh_nodes ss) ss' /\
    event_history op' = event_history op /\
    (event_history op = [] -> op' = op) /\
    (event_history op <> [] -> (0 < op_iteration_count (op_ptr op))%Z ->
     op_strength (op_ptr op') =
     RNA_float_store PROP_strength (op_strength (op_ptr op))).
Proof.
  intros Haxis. unfold sculpt_mesh_filter_exec.
  destruct (start_status C (op_ptr op) ss) as [[Hz _]|[_ Hst]];
    [contradiction|].
  destruct (sculpt_mesh_filter_start C (op_ptr op) ss) as [ret s1] eqn:Hstart.
  cbn [fst] in Hst. subst ret.
  destruct (start_takes_snapshots C (op_ptr op) ss s1 Hstart) as [_ Hinv].
  destruct (start_sets_up C (op_ptr op) ss s1 Hstart)
    as (_ & _ & fc & Hfc & _ & Hstrength & _).
  assert (Hpre : exists s2 fc2,
            (if negb (length (event_history op) =? 0)
             then Some s1 else set_no_orig_co s1) = Some s2 /\
            filter_cache s2 = Some fc2 /\
            start_filter_strength fc2 = op_strength (op_ptr op) /\
            undo_invariant (vert_co ss) (pbvh_nodes ss) s2).
  { destruct (negb _).
    - exists s1, fc. split; [reflexivity|]. split; [exact Hfc|].
      split; [exact Hstrength | exact Hinv].
    - destruct (set_no_orig_co_total (vert_co ss) (pbvh_nodes ss) s1 fc Hfc
                  Hinv) as (s2 & -> & Hfc2 & Hinv2).
      exists s2, (fc_set_no_orig_co true fc). split; [reflexivity|].
      split; [exact Hfc2|]. split; [exact Hstrength | exact Hinv2]. }
  destruct Hpre as (s2 & fc2 & -> & Hfc2 & Hst2 & Hinv2).
  destruct (exec_iterations_total (vert_co ss) (pbvh_nodes ss)
              (Z.to_nat (op_iteration_count (op_ptr op))) op s2 fc2 Hfc2 Hinv2)
    as (op' & s3 & fc3 & -> & Hfc3 & Hst3 & Hinv3 & Hh & He & Hn).
  unfold sculpt_mesh_filter_end, SCULPT_filter_cache_free. rewrite Hfc3.
  eexists op', _. split; [reflexivity|].
  split; [destruct (automasking fc3); reflexivity|].
  split; [apply (undo_invariant_ext _ _ s3);
            [destruct (automasking fc3); reflexivity..|exact Hinv3]|].
  split; [exact Hh|]. split; [intros Hempty; apply He; left; exact Hempty|].
  intros Hhist Hpos. rewrite Hn by (assumption || lia). congruence.
Qed.

Section ExecExample.
#[local] Existing Instance Demo.externals.
#[local] Existing Instance DemoInterface.interface.

(** Inflate executed with three iterations and no history. *)
Lemma exec_finishes_witness :
  let op :=
    DemoInterface.fresh
      {| op_type := MESH_FILTER_INFLATE; op_strength := F32.half;
         op_deform_axis := Demo.all_axes;
         op_orientation := SCULPT_FILTER_ORIENTATION_LOCAL;
         op_start_mouse := (0, 0)%Z; op_area_normal_radius := F32.one;
         op_iteration_count := 3;
         op_surface_smooth_shape_preservation := F32.half;
         op_surface_smooth_current_vertex := F32.half;
         op_sharpen_smooth_ratio := F32.zero;
         op_sharpen_intensify_detail_strength := F32.zero;
         op_sharpen_curvature_smooth_iterations := 0 |} in
  let mesh := Demo.session [Demo.on_x 0; Demo.on_x 1; Demo.on_x 5] in
  exists op' ss',
    sculpt_mesh_filter_exec Demo.context op mesh =
    Some (OPERATOR_FINISHED, op', ss') /\
    filter_cache ss' = None /\
    undo_invariant (vert_co mesh) (pbvh_nodes mesh) ss'.
Proof.
  intros op mesh.
  destruct (exec_finishes Demo.context op mesh)
    as (op' & ss' & Hexec & Hnone & Hinv & _).
  - vm_compute. discriminate.
  - exists op', ss'. split; [exact Hexec|]. split; [exact Hnone | exact Hinv].
Defined.

End ExecExample.

(** *** What a drag records *)

Section ModalRecords.
Context `{SculptExternals} `{InterfaceExternals}.

Lemma recorded_history_step (h : list OperatorStrokeElement) (event : wmEvent)
    (moves : list wmEvent) :
  recorded_history
    (match h with
     | [] => [history_start_entry (float2_of_xy (ev_prev_press_xy event))]
     | x :: l => x :: l
     end ++ [sample_entry event]) moves =
  recorded_history h (event :: moves).
Proof.
  unfold recorded_history.
  destruct moves as [|m moves], h as [|x h]; cbn; rewrite <- ?app_assoc;
    reflexivity.
Qed.

(** The events before the release: the motion samples among them make the
    history and the last one the strength. *)
Lemma run_modal_moves (events : list wmEvent) (op : MeshFilterOperator)
    (s : SculptSession) (fc : FilterCache) (status : OperatorStatus)
    (op' : MeshFilterOperator) (s' : SculptSession) :
  filter_cache s = Some fc ->
  Forall (fun e => is_release e = false) events ->
  run_modal events op s = Some (status, op', s') ->
  let moves := List.filter is_move events in
  status = OPERATOR_RUNNING_MODAL /\
  event_history op' =
    (if sculpt_mesh_filter_is_continuous (op_type (op_ptr op))
     then recorded_history (event_history op) moves
     else event_history op) /\
  op_ptr op' =
    match last moves with
    | Some m =>
        op_set_strength
          (stored_motion_strength (start_filter_strength fc)
             (ev_prev_press_xy m) (ev_xy m))
          (op_ptr op)
    | None => op_ptr op
    end /\
  exists fc', filter_cache s' = Some fc' /\
              start_filter_strength fc' = start_filter_strength fc.
Proof.
  intros Hfc Hall. revert op s fc Hfc.
  induction Hall as [|event events Hrel _ IH]; intros op s fc Hfc;
    cbn [run_modal].
  - intros [= <- <- <-]. cbn.
    split; [reflexivity|]. split; [destruct (_ : bool); reflexivity|].
    split; [reflexivity|]. exists fc. split; [exact Hfc | reflexivity].
  - destruct (is_move event) eqn:Hmove.
    + destruct (modal_move op event s fc Hmove Hfc)
        as (s1 & _ & Hfc1 & ->).
      intros Hrun. apply (IH _ _ _ Hfc1) in Hrun.
      cbn [op_ptr event_history op_type op_set_strength] in Hrun.
      destruct Hrun as (-> & Hhist & Hptr & fc' & Hfc' & Hst').
      cbn [List.filter]. rewrite Hmove.
      split; [reflexivity|]. split; [|split].
      * rewrite Hhist.
        destruct (sculpt_mesh_filter_is_continuous (op_type (op_ptr op)));
          [apply recorded_history_step | reflexivity].
      * rewrite Hptr. cbn [start_filter_strength fc_set_iteration_count].
        destruct (List.filter is_move events) as [|m moves]; [reflexivity|].
        change (last (event :: m :: moves)) with (last (m :: moves)).
        destruct (last (m :: moves)) eqn:Hlast; [reflexivity|].
        apply last_None in Hlast. discriminate.
      * exists fc'. split; [exact Hfc' | exact Hst'].
    + rewrite (modal_other op event s Hrel Hmove).
      intros Hrun. apply (IH _ _ _ Hfc) in Hrun.
      cbn [List.filter]. rewrite Hmove. exact Hrun.
Qed.

Lemma run_modal_app (events rest : list wmEvent) (op : MeshFilterOperator)
    (s : SculptSession) :
  run_modal (events ++ rest) op s =
  match run_modal events op s with
  | Some (OPERATOR_RUNNING_MODAL, op', s') => run_modal rest op' s'
  | result => result
  end.
Proof.
  revert op s. induction events as [|event events IH]; intros op s;
    cbn [app run_modal]; [reflexivity|].
  destruct (sculpt_mesh_filter_modal op event s) as [[[status op1] s1]|];
    [|reflexivity].
  destruct status; try reflexivity. apply IH.
Qed.

End ModalRecords.

(** X9.  While the button is held, a continuous filter type records the
    motion samples in the event history, in order, after the press origin
    that the first sample of an empty history puts in front; the events that
    are not motion samples leave no trace, and the other filter types record
    nothing. *)
Theorem modal_records_history `{SculptExternals} `{InterfaceExternals}
    (events : list wmEvent) (op op' : MeshFilterOperator)
    (ss ss' : SculptSession) (fc : FilterCache) (status : OperatorStatus) :
  filter_cache ss = Some fc ->
  Forall (fun e => is_release e = false) events ->
  run_modal events op ss = Some (status, op', ss') ->
  event_history op' =
    if sculpt_mesh_filter_is_continuous (op_type (op_ptr op))
    then recorded_history (event_history op) (List.filter is_move events)
    else event_history op.
Proof.
  intros Hfc Hall Hrun.
  apply (run_modal_moves events op ss fc status op' ss' Hfc Hall Hrun).
Qed.

(** X10.  After the release the strength property is, for a continuous
    filter type, the strength the operator was invoked with, as the property
    stores it; for the other types it stays at the strength of the last
    motion sample.  The other properties are those invoke left: the ones it
    was given, with the press position as [start_mouse]. *)
Theorem drag_leaves_strength `{SculptExternals} `{InterfaceExternals}
    (C : bContext) (op op' : MeshFilterOperator) (press release : wmEvent)
    (events : list wmEvent) (ss ss' : SculptSession) :
  Forall (fun e => is_release e = false) events ->
  is_release release = true ->
  drag C op press events release ss = Some (OPERATOR_FINISHED, op', ss') ->
  let invoked :=
    op_set_start_mouse (RNA_start_mouse_store (ev_mval press)) (op_ptr op) in
  let start_strength := op_strength (op_ptr op) in
  op_ptr op' =
    op_set_strength
      (if sculpt_mesh_filter_is_continuous (op_type (op_ptr op))
       then RNA_float_store PROP_strength start_strength
       else match last (List.filter is_move events) with
            | Some m =>
                stored_motion_strength start_strength (ev_prev_press_xy m)
                  (ev_xy m)
            | None => start_strength
            end)
      invoked.
Proof.
  intros Hall Hrel. unfold drag, sculpt_mesh_filter_invoke.
  cbn [op_ptr event_history].
  set (op_rna := op_set_start_mouse _ (op_ptr op)).
  destruct (start_status C op_rna ss) as [[_ Hst]|[_ Hst]];
    destruct (sculpt_mesh_filter_start C op_rna ss) as [ret s1] eqn:Hstart;
    cbn [fst] in Hst; subst ret; [discriminate|].
  destruct (start_sets_up C op_rna ss s1 Hstart)
    as (_ & _ & fc & Hfc & _ & Hstrength & _).
  rewrite run_modal_app.
  destruct (run_modal events _ s1) as [[[status op1] s2]|] eqn:Hrun;
    [|discriminate].
  destruct (run_modal_moves events _ s1 fc status op1 s2 Hfc Hall Hrun)
    as (-> & _ & Hptr & fc' & Hfc' & Hst').
  cbn [run_modal].
  destruct (modal_release op1 release s2 fc' Hrel Hfc') as (s3 & _ & ->).
  cbn [op_ptr] in Hptr. rewrite Hstrength in Hptr.
  assert (Htype : op_type (op_ptr op1) = op_type (op_ptr op))
    by (rewrite Hptr; destruct (last _); reflexivity).
  rewrite Htype, Hst', Hstrength. intros [= <- _]. cbv zeta.
  destruct (sculpt_mesh_filter_is_continuous (op_type (op_ptr op)));
    cbn [op_ptr]; rewrite Hptr; destruct (last _); reflexivity.
Qed.

Section ModalRecordsExample.
#[local] Existing Instance Demo.externals.
#[local] Existing Instance DemoInterface.interface.

(** Smooth, a continuous type, over two motion samples and a key press. *)
Lemma modal_records_history_witness :
  let op := Demo.operator MESH_FILTER_SMOOTH F32.one Demo.all_axes in
  let mesh := Demo.session [Demo.on_x 0; Demo.on_x 1; Demo.on_x 5] in
  let origin := (100, 100)%Z in
  let events :=
    [DemoInterface.move origin (150, 100)%Z; DemoInterface.key origin 5;
     DemoInterface.move origin (120, 100)%Z] in
  exists status op' ss',
    run_modal events (DemoInterface.fresh op) (Demo.started op mesh) =
    Some (status, op', ss') /\
    map mouse_event (event_history op') =
    [(F32.of_Z 100, F32.of_Z 100); (F32.of_Z 150, F32.of_Z 100);
     (F32.of_Z 120, F32.of_Z 100)].
Proof.
  intros op mesh origin events.
  destruct (run_modal events (DemoInterface.fresh op) (Demo.started op mesh))
    as [[[status op'] ss']|] eqn:Hrun; [|vm_compute in Hrun; discriminate].
  exists status, op', ss'. split; [reflexivity|].
  rewrite (modal_records_history events (DemoInterface.fresh op) op'
             (Demo.started op mesh) ss' (Demo.cache op mesh) status).
  - reflexivity.
  - vm_compute. reflexivity.
  - repeat constructor.
  - exact Hrun.
Defined.

(** Inflate, not a continuous type, dragged to (150, 100) and back to
    (120, 100): the strength stays at that of the last sample, 0.02. *)
Lemma drag_leaves_strength_witness :
  let op := Demo.operator MESH_FILTER_INFLATE F32.one Demo.all_axes in
  let mesh := Demo.session [Demo.on_x 0; Demo.on_x 1; Demo.on_x 5] in
  let origin := (100, 100)%Z in
  let targets := [(150, 100)%Z; (120, 100)%Z] in
  op_strength (op_ptr (DemoInterface.dragged_op op origin targets mesh)) =
  F32.mul (F32.mul (F32.of_Z 20) f32_milli) F32.one.
Proof.
  intros op mesh origin targets.
  rewrite (drag_leaves_strength Demo.context (DemoInterface.fresh op)
             (DemoInterface.dragged_op op origin targets mesh)
             (DemoInterface.press origin)
             (DemoInterface.release origin origin)
             (map (DemoInterface.move origin) targets) mesh
             (DemoInterface.dragged_session op origin targets mesh)).
  - vm_compute. reflexivity.
  - repeat constructor.
  - reflexivity.
  - vm_compute. reflexivity.
Defined.

End ModalRecordsExample.

(** *** Replaying a drag *)

Lemma same_state_fields (s s' : SculptSession) :
  same_state s s' <->
  vert_co s = vert_co s' /\ vert_no s = vert_no s' /\
  vert_mask s = vert_mask s' /\ pbvh_type s = pbvh_type s' /\
  pbvh_nodes s = pbvh_nodes s' /\ undo_coords s = undo_coords s' /\
  laplacian_disp s = laplacian_disp s' /\ last_normal s = last_normal s' /\
  deform_modifiers_active s = deform_modifiers_active s' /\
  shapekey_active s = shapekey_active s' /\
  filter_cache s = filter_cache s'.
Proof.
  unfold same_state, set_events. split.
  - intros [= -> -> -> -> -> -> -> -> -> -> ->]. repeat split.
  - intros (-> & -> & -> & -> & -> & -> & -> & -> & -> & -> & ->).
    reflexivity.
Qed.

Lemma same_state_refl (s : SculptSession) : same_state s s.
Proof. reflexivity. Qed.

Lemma same_state_sym (s s' : SculptSession) :
  same_state s s' -> same_state s' s.
Proof. unfold same_state. congruence. Qed.

Lemma same_state_trans (a b c : SculptSession) :
  same_state a b -> same_state b c -> same_state a c.
Proof. unfold same_state. congruence. Qed.

Lemma same_state_emit_l (e : Event) (s s' : SculptSession) :
  same_state s s' -> same_state (emit e s) s'.
Proof. unfold same_state. intros <-. reflexivity. Qed.

Lemma same_state_emit (e e' : Event) (s s' : SculptSession) :
  same_state s s' -> same_state (emit e s) (emit e' s').
Proof.
  intros Hs. apply same_state_emit_l, same_state_sym, same_state_emit_l,
    same_state_sym, Hs.
Qed.

Section Blind.
Context `{EventsBlind}.
Variables (fc : FilterCache) (ft : eSculptMeshFilterType) (strength : float).
Hypothesis same_turns : schedule_repeats.

Lemma vertex_fade_blind (s s' : SculptSession) (v : nat) :
  same_state s s' ->
  vertex_fade fc s strength v = vertex_fade fc s' strength v.
Proof.
  intros Hs. unfold vertex_fade.
  rewrite (blind_automasking_factor_get s s' Hs).
  apply same_state_fields in Hs as (_ & _ & -> & _). reflexivity.
Qed.

Lemma mesh_filter_vertex_blind (s s' : SculptSession) (v : nat) :
  same_state s s' ->
  mesh_filter_vertex fc s ft strength v =
  mesh_filter_vertex fc s' ft strength v.
Proof.
  intros Hs. unfold mesh_filter_vertex.
  rewrite (vertex_fade_blind s s' v Hs).
  unfold mesh_filter_displacement, sharpen_disp, vertex_orig_co,
    SCULPT_orig_vert_data_update, SCULPT_vertex_co_get,
    SCULPT_vertex_normal_get.
  rewrite ?(blind_get_fset_projection s s' Hs),
    ?(blind_neighbor_coords_average_interior s s' Hs),
    ?(blind_neighbor_coords_average s s' Hs),
    ?(blind_vertex_neighbors s s' Hs),
    ?(blind_vertex_has_unique_face_set s s' Hs),
    ?(blind_relax_vertex s s' Hs),
    ?(blind_surface_smooth_laplacian_step s s' Hs).
  apply same_state_fields in Hs
    as (-> & -> & _ & _ & _ & -> & _).
  reflexivity.
Qed.

Lemma vertex_step_blind (s s' : SculptSession) (u : nat) :
  same_state s s' ->
  same_state (mesh_filter_vertex_step fc ft strength s u)
             (mesh_filter_vertex_step fc ft strength s' u).
Proof.
  intros Hs. unfold mesh_filter_vertex_step.
  rewrite (mesh_filter_vertex_blind s s' u Hs).
  destruct (mesh_filter_vertex fc s' ft strength u) as [[final [l|]]|];
    [| |exact Hs];
    apply same_state_fields in Hs
      as (Hco & ? & ? & ? & ? & ? & Hl & ? & ? & ? & ?);
    apply same_state_fields; cbn; rewrite Hco, ?Hl; repeat split; assumption.
Qed.

Lemma undo_push_node_blind (s s' : SculptSession) (node : nat) :
  same_state s s' ->
  same_state (SCULPT_undo_push_node node s) (SCULPT_undo_push_node node s').
Proof.
  intros Hs.
  apply same_state_fields in Hs
    as (Hco & Hno & ? & ? & Hn & Hu & ? & ? & ? & ? & ?).
  apply same_state_fields. unfold SCULPT_undo_push_node, node_unique_verts,
    SCULPT_vertex_co_get, SCULPT_vertex_normal_get. cbn.
  rewrite Hco, Hno, Hn, Hu. repeat split; assumption.
Qed.

Lemma same_state_pbvh_nodes (s s' : SculptSession) :
  same_state s s' -> pbvh_nodes s = pbvh_nodes s'.
Proof.
  intros Hs. apply same_state_fields in Hs as (_ & _ & _ & _ & Hn & _).
  exact Hn.
Qed.

Lemma mesh_filter_pass_blind (s s' : SculptSession) :
  same_state s s' ->
  same_state (mesh_filter_pass fc ft strength s)
             (mesh_filter_pass fc ft strength s').
Proof.
  intros Hs. apply (mesh_filter_pass_related fc ft strength same_state).
  - apply same_state_pbvh_nodes. exact Hs.
  - right. apply same_turns. exact Hs.
  - exact Hs.
  - intros x x' [node|u] Hx; cbn.
    + apply undo_push_node_blind. exact Hx.
    + apply vertex_step_blind. exact Hx.
Qed.

Lemma displace_step_blind (s s' : SculptSession) (u : nat) :
  same_state s s' ->
  same_state (surface_smooth_displace_vertex_step fc strength s u)
             (surface_smooth_displace_vertex_step fc strength s' u).
Proof.
  intros Hs. unfold surface_smooth_displace_vertex_step.
  rewrite (vertex_fade_blind s s' u Hs).
  destruct (F32.eqb _ _); [exact Hs|].
  rewrite (blind_surface_smooth_displace_step s s' Hs).
  unfold SCULPT_vertex_co_get.
  apply same_state_fields in Hs
    as (Hco & ? & ? & ? & ? & ? & ? & ? & ? & ? & ?).
  apply same_state_fields; cbn; rewrite Hco; repeat split; assumption.
Qed.

Lemma displace_pass_blind (s s' : SculptSession) :
  same_state s s' ->
  same_state (surface_smooth_displace_pass fc strength s)
             (surface_smooth_displace_pass fc strength s').
Proof.
  intros Hs. apply (displace_pass_related fc strength same_state).
  - apply same_state_pbvh_nodes. exact Hs.
  - right. apply same_turns. exact Hs.
  - exact Hs.
  - intros x x' u Hx. apply displace_step_blind. exact Hx.
Qed.

Lemma laplacian_init_blind (s s' : SculptSession) :
  same_state s s' ->
  same_state (SCULPT_surface_smooth_laplacian_init s)
             (SCULPT_surface_smooth_laplacian_init s').
Proof.
  intros Hs. unfold SCULPT_surface_smooth_laplacian_init,
    SCULPT_vertex_count_get.
  pose proof Hs as Hf.
  apply same_state_fields in Hf
    as (Hco & ? & ? & ? & ? & ? & Hl & ? & ? & ? & ?).
  rewrite Hco, Hl. destruct (Nat.eqb _ _); [exact Hs|].
  apply same_state_fields; cbn; repeat split; assumption.
Qed.

Lemma apply_passes_blind (s s' : SculptSession) :
  same_state s s' ->
  same_state (apply_passes fc ft strength s) (apply_passes fc ft strength s').
Proof.
  intros Hs. unfold apply_passes.
  assert (Hemit : same_state (emit EvVertexRandomAccessEnsure s)
                    (emit EvVertexRandomAccessEnsure s'))
    by (apply same_state_emit; exact Hs).
  destruct (ELEM_type ft [MESH_FILTER_SURFACE_SMOOTH]).
  - apply displace_pass_blind, mesh_filter_pass_blind, laplacian_init_blind,
      Hemit.
  - apply mesh_filter_pass_blind, Hemit.
Qed.

Lemma apply_epilogue_blind (s s' : SculptSession) :
  same_state s s' ->
  same_state (apply_epilogue fc s) (apply_epilogue fc s').
Proof.
  intros Hs. unfold apply_epilogue.
  apply same_state_fields in Hs
    as (? & ? & ? & ? & ? & ? & ? & ? & Hd & Hk & ?).
  cbn. rewrite Hd, Hk.
  destruct (_ || _); cbn; apply same_state_fields; cbn;
    repeat split; assumption.
Qed.

End Blind.

Lemma apply_blind `{EventsBlind} (op : wmOperator) (s s' t : SculptSession) :
  schedule_repeats ->
  same_state s s' ->
  sculpt_mesh_filter_apply op s = Some t ->
  exists t', sculpt_mesh_filter_apply op s' = Some t' /\ same_state t t'.
Proof.
  intros Hturns Hs Happly.
  destruct (filter_cache s) as [fc|] eqn:Hfc;
    [|unfold sculpt_mesh_filter_apply in Happly; rewrite Hfc in Happly;
      discriminate].
  assert (Hfc' : filter_cache s' = Some fc)
    by (apply same_state_fields in Hs;
        destruct Hs as (_ & _ & _ & _ & _ & _ & _ & _ & _ & _ & <-);
        exact Hfc).
  rewrite (sculpt_mesh_filter_apply_unfold _ _ _ Hfc) in Happly.
  injection Happly as <-.
  rewrite (sculpt_mesh_filter_apply_unfold _ _ _ Hfc').
  eexists. split; [reflexivity|].
  apply apply_epilogue_blind, apply_passes_blind; assumption.
Qed.

Section Replay.
Context `{EventsBlind} `{InterfaceExternals}.
Variable p : Z * Z.
Hypothesis same_turns : schedule_repeats.

Lemma replay_agrees (moves : list wmEvent) (start_mouse : float * float)
    (op_m op_m' : MeshFilterOperator) (s_m s_m' s_e : SculptSession)
    (fc : FilterCache) (status : OperatorStatus) :
  fst start_mouse = F32.of_Z (fst p) ->
  Forall (faithful_sample p) moves ->
  filter_cache s_m = Some fc ->
  same_state s_m s_e ->
  run_modal moves op_m s_m = Some (status, op_m', s_m') ->
  exists s_e',
    apply_history_items start_mouse (map sample_entry moves) (op_ptr op_m) s_e =
    Some (op_ptr op_m', s_e') /\
    same_state s_m' s_e'.
Proof.
  intros Hstart Hall. revert op_m s_m s_e fc.
  induction Hall as [|event moves (Hmove & Hpress & Hstore) _ IH];
    intros op_m s_m s_e fc Hfc Hs; cbn [run_modal map apply_history_items].
  - intros [= _ <- <-]. exists s_e. split; [reflexivity | exact Hs].
  - destruct (modal_move op_m event s_m fc Hmove Hfc)
      as (s1 & Happly & Hfc1 & ->).
    assert (Hfc_e : filter_cache s_e = Some fc)
      by (apply same_state_fields in Hs;
          destruct Hs as (_ & _ & _ & _ & _ & _ & _ & _ & _ & _ & <-);
          exact Hfc).
    rewrite (update_strength_succeeds _ _ fc) by exact Hfc_e.
    assert (Hstrength :
              RNA_float_store PROP_strength
                (motion_filter_strength (start_filter_strength fc) start_mouse
                   (mouse_event (sample_entry event))) =
              stored_motion_strength (start_filter_strength fc)
                (ev_prev_press_xy event) (ev_xy event)).
    { unfold stored_motion_strength, motion_filter_strength, sample_entry,
        history_entry, float2_of_xy. cbn [mouse_event fst].
      rewrite Hstart, Hstore, Hpress. reflexivity. }
    rewrite Hstrength.
    destruct (apply_blind _ _ s_e s1 same_turns
                (same_state_emit_l _ _ _ Hs) Happly) as (t & -> & Ht).
    intros Hrun.
    destruct (IH _ s1 t _ Hfc1 Ht Hrun) as (s_e' & Hitems & Hs').
    exists s_e'. split; [exact Hitems | exact Hs'].
Qed.

End Replay.

Lemma op_set_strength_same (op : wmOperator) :
  op_set_strength (op_strength op) op = op.
Proof. destruct op. reflexivity. Qed.

(** X11.  Redo reproduces the drag.  Take a continuous filter type, an
    operator with no history yet, one iteration per call and a start
    strength the property stores as it is; drag over at least one motion
    sample, all with the same press origin, whose horizontal positions, like
    the origin's, the history stores as they are; let the collaborators
    answer by the state of the session rather than by the calls made so far,
    and let the scheduler do the same, so that the tasks of a parallel range
    take their turns in the redo in the order they took them in the drag.
    Then [sculpt_mesh_filter_exec], run from the same session and context
    with the operator the drag left, replays the recorded history into the
    same mesh: the final sessions differ at most in the calls logged, and
    the operator's properties are again those the drag left. *)
Theorem redo_reproduces_drag `{EventsBlind} `{InterfaceExternals}
    (C : bContext) (op op1 : MeshFilterOperator) (press release : wmEvent)
    (moves : list wmEvent) (p : Z * Z) (ss ss1 : SculptSession) :
  sculpt_mesh_filter_is_continuous (op_type (op_ptr op)) = true ->
  event_history op = [] ->
  op_iteration_count (op_ptr op) = 1%Z ->
  RNA_float_store PROP_strength (op_strength (op_ptr op)) =
    op_strength (op_ptr op) ->
  RNA_float_store PROP_mouse_event (F32.of_Z (fst p)) = F32.of_Z (fst p) ->
  moves <> [] ->
  Forall (faithful_sample p) moves ->
  is_release release = true ->
  schedule_repeats ->
  drag C op press moves release ss = Some (OPERATOR_FINISHED, op1, ss1) ->
  exists op2 ss2,
    sculpt_mesh_filter_exec C op1 ss = Some (OPERATOR_FINISHED, op2, ss2) /\
    vert_co ss2 = vert_co ss1 /\ same_state ss2 ss1 /\ op2 = op1.
Proof.
  intros Hcont Hempty Hiter Hstore Hpress Hmoves Hall Hrel Hturns.
  assert (Hnorel : Forall (fun e => is_release e = false) moves).
  { eapply Forall_impl; [exact Hall|]. intros e (Hmove & _).
    apply move_is_no_release. exact Hmove. }
  unfold drag, sculpt_mesh_filter_invoke. cbn [op_ptr event_history].
  set (op_rna := op_set_start_mouse _ (op_ptr op)).
  destruct (start_status C op_rna ss) as [[_ Hst]|[_ Hst]];
    destruct (sculpt_mesh_filter_start C op_rna ss) as [ret s1] eqn:Hstart;
    cbn [fst] in Hst; subst ret; [discriminate|].
  destruct (start_sets_up C op_rna ss s1 Hstart)
    as (_ & _ & fc & Hfc & _ & Hstrength & _).
  rewrite run_modal_app.
  destruct (run_modal moves _ s1) as [[[status op_m] s_m]|] eqn:Hrun;
    [|discriminate].
  destruct (run_modal_moves moves _ s1 fc status op_m s_m Hfc Hnorel Hrun)
    as (-> & Hhist & Hptr & fc' & Hfc' & Hst').
  cbn [op_ptr event_history] in Hhist, Hptr.
  change (op_type op_rna) with (op_type (op_ptr op)) in Hhist.
  rewrite Hcont, Hempty in Hhist.
  assert (Hfilter : List.filter is_move moves = moves).
  { clear -Hall. induction Hall as [|e l (Hmove & _) _ IH]; cbn;
      [reflexivity|]. rewrite Hmove, IH. reflexivity. }
  rewrite Hfilter in Hhist, Hptr.
  assert (Hrec : exists first,
            ev_prev_press_xy first = p /\
            recorded_history [] moves =
            history_start_entry (float2_of_xy (ev_prev_press_xy first))
            :: map sample_entry moves).
  { destruct moves as [|first rest]; [contradiction|]. exists first.
    split; [apply Forall_inv in Hall; apply Hall | reflexivity]. }
  destruct Hrec as (first & Hfirst & Hrec). rewrite Hrec in Hhist.
  cbn [run_modal].
  destruct (modal_release op_m release s_m fc' Hrel Hfc') as (ss_m & Hend & ->).
  assert (Htype : op_type (op_ptr op_m) = op_type (op_ptr op))
    by (rewrite Hptr; destruct (last _); reflexivity).
  rewrite Htype, Hcont. intros [= <- <-].
  assert (Hop1 : op_set_strength
                   (RNA_float_store PROP_strength (start_filter_strength fc'))
                   (op_ptr op_m) = op_rna).
  { rewrite Hptr, Hst', Hstrength. cbn [op_strength op_rna].
    transitivity (op_set_strength (op_strength op_rna) op_rna);
      [|apply op_set_strength_same].
    subst op_rna. cbn [op_strength op_set_start_mouse]. rewrite Hstore.
    destruct (last _); reflexivity. }
  unfold sculpt_mesh_filter_exec. cbn [op_ptr event_history].
  rewrite Hop1, Hstart.
  cbn [op_iteration_count op_rna op_set_start_mouse]. rewrite Hiter.
  rewrite Hhist. cbn [length Nat.eqb negb].
  change (Z.to_nat 1) with 1. cbn [exec_iterations].
  unfold sculpt_mesh_filter_apply_with_history. cbn [event_history op_ptr].
  rewrite Hfc.
  destruct (replay_agrees p Hturns moves
              (mouse_event
                 (history_start_entry (float2_of_xy (ev_prev_press_xy first))))
              {| op_ptr := op_rna; event_history := event_history op |}
              op_m s1 s_m s1 fc OPERATOR_RUNNING_MODAL)
    as (s_e & Hitems & Hs); try assumption.
  { cbn. rewrite Hfirst. exact Hpress. }
  { apply same_state_refl. }
  cbn [op_ptr] in Hitems. rewrite Hitems.
  assert (Hfc_e : filter_cache s_e = Some fc').
  { apply same_state_fields in Hs.
    destruct Hs as (_ & _ & _ & _ & _ & _ & _ & _ & _ & _ & <-). exact Hfc'. }
  unfold set_no_orig_co. rewrite Hfc_e.
  unfold sculpt_mesh_filter_end, SCULPT_filter_cache_free in *.
  rewrite Hfc' in Hend. cbn [filter_cache set_filter_cache automasking
    fc_set_no_orig_co].
  injection Hend as <-.
  eexists _, _. split; [reflexivity|].
  assert (Hsame :
            same_state
              (emit EvFlushUpdateDone
                 (emit EvUndoPushEnd
                    (set_filter_cache None
                       (if automasking fc' is Some _
                        then emit EvAutomaskingCacheFree
                               (set_filter_cache
                                  (Some (fc_set_no_orig_co true fc')) s_e)
                        else set_filter_cache
                               (Some (fc_set_no_orig_co true fc')) s_e))))
              (emit EvFlushUpdateDone
                 (emit EvUndoPushEnd
                    (set_filter_cache None
                       (if automasking fc' is Some _
                        then emit EvAutomaskingCacheFree s_m else s_m))))).
  { apply same_state_fields in Hs.
    destruct Hs as (? & ? & ? & ? & ? & ? & ? & ? & ? & ? & ?).
    apply same_state_fields.
    destruct (automasking fc'); cbn; repeat split; congruence. }
  split; [|split; [exact Hsame | rewrite <- Hst', Hop1; reflexivity]].
  apply same_state_fields in Hsame. apply Hsame.
Qed.

Lemma demo_events_blind : @EventsBlind Demo.externals.
Proof.
  split; intros s s' Hs; apply same_state_fields in Hs;
    destruct Hs as (Hco & _ & _ & _ & _ & _ & Hl & _); intros; cbn;
    unfold Demo.relax_vertex, Demo.surface_smooth_laplacian_step,
      Demo.surface_smooth_displace_step, Demo.neighbor_coords_average,
      Demo.neighbors, Demo.co;
    rewrite ?Hco, ?Hl; reflexivity.
Qed.

Section ReplayExample.
#[local] Existing Instance Demo.externals.
#[local] Existing Instance DemoInterface.interface.

(** Smooth dragged from (100, 100) to (150, 100) and back to (120, 100),
    then executed again from the same mesh. *)
Lemma redo_reproduces_drag_witness :
  let op := Demo.operator MESH_FILTER_SMOOTH F32.one Demo.all_axes in
  let mesh := Demo.session [Demo.on_x 0; Demo.on_x 1; Demo.on_x 5] in
  let origin := (100, 100)%Z in
  let targets := [(150, 100)%Z; (120, 100)%Z] in
  let op1 := DemoInterface.dragged_op op origin targets mesh in
  let ss1 := DemoInterface.dragged_session op origin targets mesh in
  vert_co ss1 <> vert_co mesh /\
  exists op2 ss2,
    sculpt_mesh_filter_exec Demo.context op1 mesh =
    Some (OPERATOR_FINISHED, op2, ss2) /\
    vert_co ss2 = vert_co ss1 /\ same_state ss2 ss1 /\ op2 = op1.
Proof.
  intros op mesh origin targets op1 ss1. split.
  - vm_compute. discriminate.
  - apply (@redo_reproduces_drag Demo.externals demo_events_blind
             DemoInterface.interface Demo.context (DemoInterface.fresh op)
             op1 (DemoInterface.press origin)
             (DemoInterface.release origin origin)
             (map (DemoInterface.move origin) targets) origin mesh ss1).
    + reflexivity.
    + reflexivity.
    + reflexivity.
    + vm_compute. reflexivity.
    + reflexivity.
    + discriminate.
    + repeat constructor.
    + reflexivity.
    + intros s s' _. reflexivity.
    + vm_compute. reflexivity.
Defined.

(** Without a motion sample there is no history to replay: after a click
    the mesh is as it was, and executing the operator the click left runs
    one iteration at the start strength. *)
Lemma redo_of_a_click_moves_the_mesh :
  let op := Demo.operator MESH_FILTER_SMOOTH F32.one Demo.all_axes in
  let mesh := Demo.session [Demo.on_x 0; Demo.on_x 1; Demo.on_x 5] in
  let origin := (100, 100)%Z in
  let op1 := DemoInterface.dragged_op op origin [] mesh in
  let ss1 := DemoInterface.dragged_session op origin [] mesh in
  event_history op1 = [] /\
  vert_co ss1 = vert_co mesh /\
  exists op2 ss2,
    sculpt_mesh_filter_exec Demo.context op1 mesh =
    Some (OPERATOR_FINISHED, op2, ss2) /\
    vert_co ss2 <> vert_co ss1.
Proof.
  intros op mesh origin op1 ss1.
  split; [vm_compute; reflexivity|]. split; [vm_compute; reflexivity|].
  eexists _, _. split; [vm_compute; reflexivity|].
  vm_compute. discriminate.
Qed.

End ReplayExample.

(** *** Events the drag passes over *)

(** X12.  Only motion samples and the release count: dropping every other
    event from the stream changes nothing in what the modal callback
    answers, in the operator or in the session. *)
Theorem run_modal_ignores_other_events `{SculptExternals}
    `{InterfaceExternals} (events : list wmEvent) (op : MeshFilterOperator)
    (ss : SculptSession) :
  run_modal (List.filter (fun e => is_release e || is_move e) events) op ss =
  run_modal events op ss.
Proof.
  revert op ss. induction events as [|event events IH]; intros op ss;
    cbn [List.filter run_modal]; [reflexivity|].
  destruct (is_release event) eqn:Hrel; cbn [orb].
  - cbn [run_modal].
    destruct (sculpt_mesh_filter_modal op event ss) as [[[[] op'] ss']|];
      try reflexivity. apply IH.
  - destruct (is_move event) eqn:Hmove.
    + cbn [run_modal].
      destruct (sculpt_mesh_filter_modal op event ss) as [[[[] op'] ss']|];
        try reflexivity. apply IH.
    + rewrite (modal_other op event ss Hrel Hmove). apply IH.
Qed.

(** *** A sample without horizontal motion *)

Lemma f32_sub_self (a : float) :
  F32.is_finite a = true -> F32.is_zero (F32.sub a a) = true.
Proof.
  destruct a as [[]| | |s m e]; try discriminate; try reflexivity.
  intros _. unfold F32.sub, SFsub. rewrite Z.sub_diag. reflexivity.
Qed.

Lemma f32_neg_zero (z : float) :
  F32.is_zero z = true -> F32.is_zero (F32.neg z) = true.
Proof. destruct z; cbn; congruence. Qed.

Lemma f32_zero_finite (z : float) :
  F32.is_zero z = true -> F32.is_finite z = true.
Proof. destruct z; cbn; congruence. Qed.

Section StillSample.
Context `{SculptExternals} `{InterfaceExternals}.

(** No horizontal displacement, no strength. *)
Lemma motion_strength_still (start_strength : float) (press_xy xy : Z * Z) :
  fst xy = fst press_xy ->
  F32.is_finite (F32.of_Z (fst xy)) = true ->
  F32.is_finite start_strength = true ->
  F32.is_finite UI_DPI_FAC = true ->
  F32.is_zero
    (motion_filter_strength start_strength (float2_of_xy press_xy)
       (float2_of_xy xy)) = true.
Proof.
  intros Hx Hfin Hstart Hdpi.
  unfold motion_filter_strength, float2_of_xy. cbn [fst]. rewrite <- Hx.
  apply f32_mul_zero_l; [|exact Hdpi].
  apply f32_mul_zero_l; [|reflexivity].
  apply f32_mul_zero_r; [exact Hstart|].
  apply f32_neg_zero, f32_sub_self, Hfin.
Qed.

Lemma apply_passes_zero_strength (fc : FilterCache)
    (ft : eSculptMeshFilterType) (strength : float) (ss : SculptSession) :
  F32.is_zero strength = true ->
  ft <> MESH_FILTER_SURFACE_SMOOTH ->
  (forall v,
     F32.is_finite (F32.sub F32.one (vertex_mask_value ss v)) = true) ->
  (forall s v,
     F32.is_finite (SCULPT_automasking_factor_get (automasking fc) s v)
     = true) ->
  vert_co (apply_passes fc ft strength ss) = vert_co ss.
Proof.
  intros Hzero Hft Hmask Hauto. unfold apply_passes.
  replace (ELEM_type ft [MESH_FILTER_SURFACE_SMOOTH])
    with false by (destruct ft; try reflexivity; congruence).
  enough (Hkeep : vert_co (mesh_filter_pass fc ft strength
                             (emit EvVertexRandomAccessEnsure ss))
                  = vert_co ss /\
                  vert_mask (mesh_filter_pass fc ft strength
                               (emit EvVertexRandomAccessEnsure ss))
                  = vert_mask ss) by apply Hkeep.
  apply (mesh_filter_pass_preserves fc ft strength
           (fun x => vert_co x = vert_co ss /\ vert_mask x = vert_mask ss));
    [split; reflexivity|..].
  { intros x node _ Hx. exact Hx. }
  intros y u _ [Hco Hm]. unfold mesh_filter_vertex_step.
  rewrite mesh_filter_vertex_skips; [split; assumption| |exact Hft].
  apply fade_zero_of_zero_strength.
  - apply f32_eqb_zero. exact Hzero.
  - unfold vertex_mask_value. rewrite Hm. apply Hmask.
  - apply Hauto.
Qed.

End StillSample.

(** X13.  A motion sample whose horizontal position is that of the press
    asks for strength zero (the vertical position plays no part) and, the
    strength property keeping a zero a zero, moves nothing: the modal
    callback answers OPERATOR_RUNNING_MODAL and every coordinate is what it
    was.  This holds for the filter types that skip a vertex of zero fade,
    all but Surface Smooth, on a mesh whose mask values and automasking
    factors are finite. *)
Theorem still_sample_keeps_mesh `{SculptExternals} `{InterfaceExternals}
    (op : MeshFilterOperator) (event : wmEvent) (ss : SculptSession)
    (fc : FilterCache) :
  filter_cache ss = Some fc ->
  is_move event = true ->
  fst (ev_xy event) = fst (ev_prev_press_xy event) ->
  F32.is_finite (F32.of_Z (fst (ev_xy event))) = true ->
  F32.is_finite (start_filter_strength fc) = true ->
  F32.is_finite UI_DPI_FAC = true ->
  (forall z, F32.is_zero z = true ->
             F32.is_zero (RNA_float_store PROP_strength z) = true) ->
  op_type (op_ptr op) <> MESH_FILTER_SURFACE_SMOOTH ->
  (forall v,
     F32.is_finite (F32.sub F32.one (vertex_mask_value ss v)) = true) ->
  (forall s v,
     F32.is_finite (SCULPT_automasking_factor_get (automasking fc) s v)
     = true) ->
  exists op' ss',
    sculpt_mesh_filter_modal op event ss =
    Some (OPERATOR_RUNNING_MODAL, op', ss') /\
    F32.is_zero (op_strength (op_ptr op')) = true /\
    vert_co ss' = vert_co ss.
Proof.
  intros Hfc Hmove Hx Hfin Hstart Hdpi Hstore Hft Hmask Hauto.
  destruct (modal_move op event ss fc Hmove Hfc) as (s' & Happly & _ & ->).
  eexists _, s'. split; [reflexivity|].
  assert (Hzero : F32.is_zero
                    (stored_motion_strength (start_filter_strength fc)
                       (ev_prev_press_xy event) (ev_xy event)) = true)
    by (apply Hstore, motion_strength_still; assumption).
  split; [exact Hzero|].
  rewrite (sculpt_mesh_filter_apply_unfold _ _ fc) in Happly by exact Hfc.
  injection Happly as <-. rewrite apply_epilogue_vert_co.
  cbn [op_type op_strength op_set_strength].
  rewrite apply_passes_zero_strength; try assumption. reflexivity.
Qed.

Section StillSampleExample.
#[local] Existing Instance Demo.externals.
#[local] Existing Instance DemoInterface.interface.

(** Inflate started on three vertices, the pointer moved straight up. *)
Lemma still_sample_keeps_mesh_witness :
  let op := Demo.operator MESH_FILTER_INFLATE F32.one Demo.all_axes in
  let mesh := Demo.session [Demo.on_x 0; Demo.on_x 1; Demo.on_x 5] in
  exists op' ss',
    sculpt_mesh_filter_modal (DemoInterface.fresh op)
      (DemoInterface.move (100, 100)%Z (100, 180)%Z) (Demo.started op mesh) =
    Some (OPERATOR_RUNNING_MODAL, op', ss') /\
    F32.is_zero (op_strength (op_ptr op')) = true /\
    vert_co ss' = vert_co (Demo.started op mesh).
Proof.
  intros op mesh.
  apply (still_sample_keeps_mesh (DemoInterface.fresh op)
           (DemoInterface.move (100, 100)%Z (100, 180)%Z)
           (Demo.started op mesh) (Demo.cache op mesh)).
  - vm_compute. reflexivity.
  - reflexivity.
  - reflexivity.
  - vm_compute. reflexivity.
  - vm_compute. reflexivity.
  - reflexivity.
  - intros [[]| | |]; try discriminate; intros _; vm_compute; reflexivity.
  - discriminate.
  - intros v. vm_compute. reflexivity.
  - intros s v. reflexivity.
Defined.

End StillSampleExample.

(** *** Enhance Details and the sign of the strength *)

Lemma binary_round_aux_opp (sx : bool) (mx ex : Z) (lx : location) :
  SFopp (binary_round_aux F32.prec F32.emax sx mx ex lx) =
  binary_round_aux F32.prec F32.emax (negb sx) mx ex lx.
Proof.
  unfold binary_round_aux.
  destruct (shr_fexp _ _ mx ex lx) as [mrs' e'].
  destruct (shr_fexp _ _ _ e' loc_Exact) as [mrs'' e''].
  destruct (shr_m mrs''); [reflexivity| |reflexivity].
  destruct (_ <=? _)%Z; reflexivity.
Qed.

Lemma f32_mul_neg_r (a b : float) :
  F32.mul a (F32.neg b) = F32.neg (F32.mul a b).
Proof.
  unfold F32.mul, F32.neg.
  destruct a as [sa|sa| |sa ma ea], b as [sb|sb| |sb mb eb]; cbn;
    rewrite ?binary_round_aux_opp; try reflexivity;
    destruct sa, sb; reflexivity.
Qed.

Lemma f32_mul_neg_l (a b : float) :
  F32.mul (F32.neg a) b = F32.neg (F32.mul a b).
Proof.
  unfold F32.mul, F32.neg.
  destruct a as [sa|sa| |sa ma ea], b as [sb|sb| |sb mb eb]; cbn;
    rewrite ?binary_round_aux_opp; try reflexivity;
    destruct sa, sb; reflexivity.
Qed.

Lemma f32_eqb_zero_neg (a : float) :
  F32.eqb (F32.neg a) F32.zero = F32.eqb a F32.zero.
Proof. destruct a as [[]|[]| |[] m e]; reflexivity. Qed.

Lemma f32_fabsf_neg (a : float) : F32.fabsf (F32.neg a) = F32.fabsf a.
Proof. destruct a; reflexivity. Qed.

Section EnhanceDetailsSign.
Context `{SculptExternals}.

Lemma vertex_fade_neg (fc : FilterCache) (ss : SculptSession)
    (strength : float) (v : nat) :
  vertex_fade fc ss (F32.neg strength) v =
  F32.neg (vertex_fade fc ss strength v).
Proof. unfold vertex_fade. rewrite f32_mul_neg_r, f32_mul_neg_l. reflexivity. Qed.

Lemma enhance_details_vertex_neg (fc : FilterCache) (ss : SculptSession)
    (strength : float) (v : nat) :
  mesh_filter_vertex fc ss MESH_FILTER_ENHANCE_DETAILS (F32.neg strength) v =
  mesh_filter_vertex fc ss MESH_FILTER_ENHANCE_DETAILS strength v.
Proof.
  unfold mesh_filter_vertex. rewrite vertex_fade_neg, f32_eqb_zero_neg.
  destruct (_ && _); [reflexivity|]. cbn [andb ELEM_type BLI.ELEM existsb map
    filter_type_value Z.eqb orb]. cbn.
  rewrite f32_fabsf_neg. reflexivity.
Qed.

Lemma enhance_details_passes_neg (fc : FilterCache) (ss : SculptSession)
    (strength : float) :
  apply_passes fc MESH_FILTER_ENHANCE_DETAILS (F32.neg strength) ss =
  apply_passes fc MESH_FILTER_ENHANCE_DETAILS strength ss.
Proof.
  unfold apply_passes.
  replace (ELEM_type MESH_FILTER_ENHANCE_DETAILS [MESH_FILTER_SURFACE_SMOOTH])
    with false by reflexivity.
  apply (mesh_filter_pass_related fc MESH_FILTER_ENHANCE_DETAILS
           (F32.neg strength) eq); [reflexivity | right; reflexivity
                                   | reflexivity |].
  intros x x' [node|u] <-; cbn; [reflexivity|].
  unfold mesh_filter_vertex_step.
  rewrite enhance_details_vertex_neg. reflexivity.
Qed.

End EnhanceDetailsSign.

(** X14.  Enhance Details does not look at the sign of the strength: an
    iteration at strength [-s] leaves the session one at strength [s]
    leaves.  The fade enters the displacement as [-fabsf(fade)] only. *)
Theorem enhance_details_ignores_strength_sign `{SculptExternals}
    (op : wmOperator) (ss : SculptSession) :
  op_type op = MESH_FILTER_ENHANCE_DETAILS ->
  sculpt_mesh_filter_apply (op_set_strength (F32.neg (op_strength op)) op) ss =
  sculpt_mesh_filter_apply op ss.
Proof.
  intros Htype.
  destruct (filter_cache ss) as [fc|] eqn:Hfc;
    [|unfold sculpt_mesh_filter_apply; rewrite Hfc; reflexivity].
  rewrite !(sculpt_mesh_filter_apply_unfold _ _ fc) by exact Hfc.
  cbn [op_type op_strength op_set_strength]. rewrite Htype.
  rewrite enhance_details_passes_neg. reflexivity.
Qed.

Section EnhanceDetailsExample.
#[local] Existing Instance Demo.externals.

Lemma enhance_details_ignores_strength_sign_witness :
  let op := Demo.operator MESH_FILTER_ENHANCE_DETAILS F32.half Demo.all_axes in
  let mesh := Demo.session [Demo.on_x 0; Demo.on_x 1; Demo.on_x 5] in
  sculpt_mesh_filter_apply (op_set_strength (F32.neg (op_strength op)) op)
    (Demo.started op mesh) =
  sculpt_mesh_filter_apply op (Demo.started op mesh).
Proof.
  intros op mesh.
  apply (enhance_details_ignores_strength_sign op (Demo.started op mesh)).
  reflexivity.
Defined.

End EnhanceDetailsExample.

(** *** One undo step per run *)

Lemma undo_quiet_nil : undo_quiet [].
Proof. split; intros []. Qed.

Lemma undo_quiet_app (l l' : list Event) :
  undo_quiet l -> undo_quiet l' -> undo_quiet (l ++ l').
Proof.
  intros [Hb He] [Hb' He']. split; intros Hin; apply in_app_or in Hin; tauto.
Qed.

Lemma undo_quiet_cons (e : Event) (l : list Event) :
  e <> EvUndoPushBegin -> e <> EvUndoPushEnd -> undo_quiet l ->
  undo_quiet (e :: l).
Proof. intros Hb He [Hlb Hle]. split; intros [Hin|Hin]; tauto. Qed.

Lemma logs_quietly_refl (s : SculptSession) : logs_quietly s s.
Proof. exists []. split; [rewrite app_nil_r; reflexivity | apply undo_quiet_nil]. Qed.

Lemma logs_quietly_trans (a b c : SculptSession) :
  logs_quietly a b -> logs_quietly b c -> logs_quietly a c.
Proof.
  intros (l & Hl & Hq) (l' & Hl' & Hq'). exists (l ++ l'). split.
  - rewrite Hl', Hl, app_assoc. reflexivity.
  - apply undo_quiet_app; assumption.
Qed.

Lemma logs_quietly_same (s s' : SculptSession) :
  events s' = events s -> logs_quietly s s'.
Proof.
  intros Heq. exists []. split; [rewrite app_nil_r; exact Heq|].
  apply undo_quiet_nil.
Qed.

Lemma logs_quietly_emit (e : Event) (s : SculptSession) :
  e <> EvUndoPushBegin -> e <> EvUndoPushEnd -> logs_quietly s (emit e s).
Proof.
  intros Hb He. exists [e]. split; [reflexivity|].
  apply undo_quiet_cons; [assumption..|apply undo_quiet_nil].
Qed.

(** A session obtained by logging calls other than the undo ones. *)
Ltac log_quiet :=
  first
    [ apply logs_quietly_same; reflexivity
    | eexists; split;
      [ cbn; rewrite <- ?app_assoc; reflexivity
      | split; cbn; intros Hin;
        repeat (destruct Hin as [Hin|Hin]; [discriminate Hin|]); exact Hin ] ].

Section UndoBracket.
Context `{SculptExternals} `{InterfaceExternals}.

Lemma apply_logs_quietly (op : wmOperator) (s s' : SculptSession) :
  sculpt_mesh_filter_apply op s = Some s' -> logs_quietly s s'.
Proof.
  intros Happly. apply apply_events in Happly. eexists. split; [exact Happly|].
  destruct (_ || _); split; cbn; intros Hin;
    repeat (destruct Hin as [Hin|Hin]; [discriminate Hin|]); exact Hin.
Qed.

Lemma cache_init_logs_quietly (C : bContext) (undo_type : SculptUndoType)
    (mval : Z * Z) (area_normal_radius start_strength : float)
    (s : SculptSession) :
  logs_quietly s
    (SCULPT_filter_cache_init C undo_type mval area_normal_radius
       start_strength s).
Proof.
  unfold SCULPT_filter_cache_init.
  match goal with
  | |- context [BLI_task_parallel_range ?a ?b ?f ?t ?o ?x] =>
      assert (Hmid : logs_quietly s (BLI_task_parallel_range a b f t o x));
      [|set (mid := BLI_task_parallel_range a b f t o x) in *]
  end.
  { apply BLI_task_parallel_range_preserves.
    - destruct undo_type; cbn; destruct (pbvh_type s); log_quiet.
    - intros node x Hx.
      eapply logs_quietly_trans; [exact Hx|].
      apply logs_quietly_same. reflexivity. }
  destruct (SCULPT_stroke_get_location C _ mval) as [co|];
    [destruct (SCULPT_pbvh_calc_area_normal C _ co area_normal_radius)|];
    (eapply logs_quietly_trans; [exact Hmid | log_quiet]).
Qed.

(** A successful start opens the undo step. *)
Lemma start_opens_undo_step (C : bContext) (op : wmOperator)
    (ss s1 : SculptSession) :
  sculpt_mesh_filter_start C op ss = (OPERATOR_PASS_THROUGH, s1) ->
  exists pre mid,
    events s1 = events ss ++ pre ++ [EvUndoPushBegin] ++ mid /\
    undo_quiet pre /\ undo_quiet mid.
Proof.
  unfold sculpt_mesh_filter_start.
  destruct (op_deform_axis op =? 0)%Z; [discriminate|].
  intros Hstart. injection Hstart as <-.
  match goal with
  | |- context [SCULPT_filter_cache_init ?c ?u ?m ?r ?st
                  (SCULPT_undo_push_begin ?x)] =>
      destruct (cache_init_logs_quietly c u m r st (SCULPT_undo_push_begin x))
        as (mid & Hmid & Hquiet);
      set (init := SCULPT_filter_cache_init c u m r st
                     (SCULPT_undo_push_begin x)) in *;
      assert (Hpre : logs_quietly ss x)
  end.
  { destruct (ctx_automasking_enabled C), (_ || _); log_quiet. }
  destruct Hpre as (pre & Hpre & Hquiet_pre).
  exists pre, mid. split; [|split; assumption].
  cbn [events set_filter_cache]. rewrite Hmid.
  cbn [events SCULPT_undo_push_begin emit set_undo_coords]. rewrite Hpre.
  rewrite <- !app_assoc. reflexivity.
Qed.

(** The end closes it. *)
Lemma end_closes_undo_step (s s' : SculptSession) :
  sculpt_mesh_filter_end s = Some s' ->
  exists l, events s' = events s ++ l ++ [EvUndoPushEnd; EvFlushUpdateDone] /\
            undo_quiet l.
Proof.
  unfold sculpt_mesh_filter_end, SCULPT_filter_cache_free.
  destruct (filter_cache s) as [fc|]; [|discriminate]. intros [= <-].
  destruct (automasking fc).
  - exists [EvAutomaskingCacheFree]. split; [cbn; rewrite <- !app_assoc;
      reflexivity|].
    apply undo_quiet_cons; [discriminate..|apply undo_quiet_nil].
  - exists []. split; [cbn; rewrite <- !app_assoc; reflexivity|].
    apply undo_quiet_nil.
Qed.

Lemma one_undo_step_intro (ss s1 s2 s3 : SculptSession) (pre mid : list Event) :
  events s1 = events ss ++ pre ++ [EvUndoPushBegin] ++ mid ->
  undo_quiet pre -> undo_quiet mid ->
  logs_quietly s1 s2 ->
  sculpt_mesh_filter_end s2 = Some s3 ->
  one_undo_step ss s3.
Proof.
  intros Hstart Hpre Hmid (l & Hrun & Hl) Hend.
  destruct (end_closes_undo_step s2 s3 Hend) as (l' & Hend' & Hl').
  exists pre, (mid ++ l ++ l'), [EvFlushUpdateDone]. split; [|split; [|split]].
  - rewrite Hend', Hrun, Hstart. rewrite <- !app_assoc. reflexivity.
  - exact Hpre.
  - apply undo_quiet_app; [exact Hmid|]. apply undo_quiet_app; assumption.
  - apply undo_quiet_cons; [discriminate..|apply undo_quiet_nil].
Qed.

(** The motion samples and the events passed over log no undo call. *)
Lemma run_modal_logs (events : list wmEvent) (op op' : MeshFilterOperator)
    (s s' : SculptSession) (fc : FilterCache) (status : OperatorStatus) :
  filter_cache s = Some fc ->
  run_modal events op s = Some (status, op', s') ->
  (status = OPERATOR_RUNNING_MODAL /\ logs_quietly s s') \/
  (status = OPERATOR_FINISHED /\
   exists s2, logs_quietly s s2 /\ sculpt_mesh_filter_end s2 = Some s').
Proof.
  revert op s fc. induction events as [|event events IH]; intros op s fc Hfc;
    cbn [run_modal].
  - intros [= <- _ <-]. left. split; [reflexivity | apply logs_quietly_refl].
  - destruct (is_release event) eqn:Hrel.
    + destruct (modal_release op event s fc Hrel Hfc) as (s1 & Hend & ->).
      intros [= <- _ <-]. right. split; [reflexivity|].
      exists s. split; [apply logs_quietly_refl | exact Hend].
    + destruct (is_move event) eqn:Hmove.
      * destruct (modal_move op event s fc Hmove Hfc)
          as (s1 & Happly & Hfc1 & ->).
        intros Hrun. apply (IH _ _ _ Hfc1) in Hrun.
        assert (Hstep : logs_quietly s s1).
        { eapply logs_quietly_trans; [|apply (apply_logs_quietly _ _ _ Happly)].
          apply logs_quietly_emit; discriminate. }
        destruct Hrun as [[-> Hq]|(-> & s2 & Hq & Hend)].
        -- left. split; [reflexivity|].
           eapply logs_quietly_trans; eassumption.
        -- right. split; [reflexivity|]. exists s2.
           split; [eapply logs_quietly_trans; eassumption | exact Hend].
      * rewrite (modal_other op event s Hrel Hmove). apply (IH _ _ fc Hfc).
Qed.

Lemma apply_history_items_logs (start_mouse : float * float)
    (items : list OperatorStrokeElement) (op op' : wmOperator)
    (s s' : SculptSession) :
  apply_history_items start_mouse items op s = Some (op', s') ->
  logs_quietly s s'.
Proof.
  revert op s. induction items as [|item items IH]; intros op s;
    cbn [apply_history_items].
  - intros [= _ <-]. apply logs_quietly_refl.
  - destruct (sculpt_mesh_update_strength _ _ _ _) as [op1|]; [|discriminate].
    destruct (sculpt_mesh_filter_apply op1 s) as [s1|] eqn:Happly;
      [|discriminate].
    intros Hrest. eapply logs_quietly_trans.
    + apply (apply_logs_quietly _ _ _ Happly).
    + apply (IH _ _ Hrest).
Qed.

Lemma apply_with_history_logs (op op' : MeshFilterOperator)
    (s s' : SculptSession) :
  sculpt_mesh_filter_apply_with_history op s = Some (op', s') ->
  logs_quietly s s'.
Proof.
  unfold sculpt_mesh_filter_apply_with_history.
  destruct (event_history op) as [|first items].
  - destruct (sculpt_mesh_filter_apply (op_ptr op) s) as [s1|] eqn:Happly;
      [|discriminate].
    intros [= _ <-]. apply (apply_logs_quietly _ _ _ Happly).
  - destruct (filter_cache s); [|discriminate].
    destruct (apply_history_items _ _ _ _) as [[op1 s1]|] eqn:Hitems;
      [|discriminate].
    intros [= _ <-]. apply (apply_history_items_logs _ _ _ _ _ _ Hitems).
Qed.

Lemma exec_iterations_logs (iterations : nat) (op op' : MeshFilterOperator)
    (s s' : SculptSession) :
  exec_iterations iterations op s = Some (op', s') -> logs_quietly s s'.
Proof.
  revert op s. induction iterations as [|n IH]; intros op s;
    cbn [exec_iterations].
  - intros [= _ <-]. apply logs_quietly_refl.
  - destruct (sculpt_mesh_filter_apply_with_history op s) as [[op1 s1]|]
      eqn:Hhist; [|discriminate].
    unfold set_no_orig_co. destruct (filter_cache s1); [|discriminate].
    intros Hrest. eapply logs_quietly_trans.
    + apply (apply_with_history_logs _ _ _ _ Hhist).
    + eapply logs_quietly_trans; [|apply (IH _ _ Hrest)].
      apply logs_quietly_same. reflexivity.
Qed.

End UndoBracket.

(** X15.  A drag that finishes makes one undo step: among the calls it
    issues, the undo step is opened once, by the start, and closed once, by
    the release, whatever number of motion samples and other events came in
    between. *)
Theorem drag_makes_one_undo_step `{SculptExternals} `{InterfaceExternals}
    (C : bContext) (op op' : MeshFilterOperator) (press release : wmEvent)
    (events : list wmEvent) (ss ss' : SculptSession) :
  drag C op press events release ss = Some (OPERATOR_FINISHED, op', ss') ->
  one_undo_step ss ss'.
Proof.
  unfold drag, sculpt_mesh_filter_invoke. cbn [op_ptr event_history].
  set (op_rna := op_set_start_mouse _ (op_ptr op)).
  destruct (start_status C op_rna ss) as [[_ Hst]|[_ Hst]];
    destruct (sculpt_mesh_filter_start C op_rna ss) as [ret s1] eqn:Hstart;
    cbn [fst] in Hst; subst ret; [discriminate|].
  destruct (start_opens_undo_step C op_rna ss s1 Hstart)
    as (pre & mid & Hlog & Hpre & Hmid).
  destruct (start_takes_snapshots C op_rna ss s1 Hstart) as [[fc Hfc] _].
  intros Hrun.
  destruct (run_modal_logs _ _ _ _ _ _ _ Hfc Hrun)
    as [[Hst _]|(_ & s2 & Hq & Hend)]; [discriminate|].
  exact (one_undo_step_intro ss s1 s2 ss' pre mid Hlog Hpre Hmid Hq Hend).
Qed.

(** X16.  So does [sculpt_mesh_filter_exec]: however many iterations it
    runs and however long the history it replays, the undo step is opened
    once and closed once. *)
Theorem exec_makes_one_undo_step `{SculptExternals} `{InterfaceExternals}
    (C : bContext) (op op' : MeshFilterOperator) (ss ss' : SculptSession) :
  sculpt_mesh_filter_exec C op ss = Some (OPERATOR_FINISHED, op', ss') ->
  one_undo_step ss ss'.
Proof.
  unfold sculpt_mesh_filter_exec.
  destruct (start_status C (op_ptr op) ss) as [[_ Hst]|[_ Hst]];
    destruct (sculpt_mesh_filter_start C (op_ptr op) ss) as [ret s1]
      eqn:Hstart;
    cbn [fst] in Hst; subst ret; [discriminate|].
  destruct (start_opens_undo_step C (op_ptr op) ss s1 Hstart)
    as (pre & mid & Hlog & Hpre & Hmid).
  assert (Hpre_run : forall s2,
            (if negb (length (event_history op) =? 0)
             then Some s1 else set_no_orig_co s1) = Some s2 ->
            logs_quietly s1 s2).
  { intros s2. destruct (negb _).
    - intros [= <-]. apply logs_quietly_refl.
    - unfold set_no_orig_co. destruct (filter_cache s1); [|discriminate].
      intros [= <-]. apply logs_quietly_same. reflexivity. }
  destruct (if negb _ then _ else _) as [s2|]; [|discriminate].
  specialize (Hpre_run s2 eq_refl).
  destruct (exec_iterations _ op s2) as [[op3 s3]|] eqn:Hiter; [|discriminate].
  destruct (sculpt_mesh_filter_end s3) as [s4|] eqn:Hend; [|discriminate].
  intros [= _ <-].
  apply (one_undo_step_intro ss s1 s3 s4 pre mid Hlog Hpre Hmid); [|exact Hend].
  eapply logs_quietly_trans; [exact Hpre_run|].
  apply (exec_iterations_logs _ _ _ _ _ Hiter).
Qed.

Section UndoBracketExample.
#[local] Existing Instance Demo.externals.
#[local] Existing Instance DemoInterface.interface.

Lemma drag_makes_one_undo_step_witness :
  let op := Demo.operator MESH_FILTER_SMOOTH F32.one Demo.all_axes in
  let mesh := Demo.session [Demo.on_x 0; Demo.on_x 1; Demo.on_x 5] in
  let origin := (100, 100)%Z in
  let targets := [(150, 100)%Z; (120, 100)%Z] in
  one_undo_step mesh (DemoInterface.dragged_session op origin targets mesh).
Proof.
  intros op mesh origin targets.
  apply (drag_makes_one_undo_step Demo.context (DemoInterface.fresh op)
           (DemoInterface.dragged_op op origin targets mesh)
           (DemoInterface.press origin) (DemoInterface.release origin origin)
           (map (DemoInterface.move origin) targets) mesh).
  vm_compute. reflexivity.
Defined.

Lemma exec_makes_one_undo_step_witness :
  let op :=
    DemoInterface.dragged_op
      (Demo.operator MESH_FILTER_SMOOTH F32.one Demo.all_axes)
      (100, 100)%Z [(150, 100)%Z; (120, 100)%Z]
      (Demo.session [Demo.on_x 0; Demo.on_x 1; Demo.on_x 5]) in
  let mesh := Demo.session [Demo.on_x 0; Demo.on_x 1; Demo.on_x 5] in
  exists op' ss',
    sculpt_mesh_filter_exec Demo.context op mesh =
    Some (OPERATOR_FINISHED, op', ss') /\
    one_undo_step mesh ss'.
Proof.
  intros op mesh.
  destruct (sculpt_mesh_filter_exec Demo.context op mesh)
    as [[[status op'] ss']|] eqn:Hexec; [|vm_compute in Hexec; discriminate].
  assert (Hstatus : status = OPERATOR_FINISHED)
    by (vm_compute in Hexec; congruence).
  subst status. exists op', ss'. split; [reflexivity|].
  apply (exec_makes_one_undo_step Demo.context op op' mesh ss'). exact Hexec.
Defined.

End UndoBracketExample.

(** *** Filters that start over from the original mesh *)

(** Two caches that differ at most in the iteration counter. *)
Lemma cache_but_count_fields (fc fc' : FilterCache) :
  fc_set_iteration_count 0 fc' = fc_set_iteration_count 0 fc ->
  enabled_axis fc' = enabled_axis fc /\
  enabled_force_axis fc' = enabled_force_axis fc /\
  random_seed fc' = random_seed fc /\
  surface_smooth_shape_preservation fc' = surface_smooth_shape_preservation fc /\
  surface_smooth_current_vertex fc' = surface_smooth_current_vertex fc /\
  sharpen_smooth_ratio fc' = sharpen_smooth_ratio fc /\
  sharpen_intensify_detail_strength fc' = sharpen_intensify_detail_strength fc /\
  sharpen_curvature_smooth_iterations fc' = sharpen_curvature_smooth_iterations fc /\
  sharpen_factor fc' = sharpen_factor fc /\
  detail_directions fc' = detail_directions fc /\
  limit_surface_co fc' = limit_surface_co fc /\
  orientation fc' = orientation fc /\
  obmat fc' = obmat fc /\
  obmat_inv fc' = obmat_inv fc /\
  viewmat fc' = viewmat fc /\
  viewmat_inv fc' = viewmat_inv fc /\
  nodes fc' = nodes fc /\
  active_face_set fc' = active_face_set fc /\
  automasking fc' = automasking fc /\
  initial_normal fc' = initial_normal fc /\
  view_normal fc' = view_normal fc /\
  start_filter_strength fc' = start_filter_strength fc /\
  no_orig_co fc' = no_orig_co fc /\
  preserve_fset_boundaries fc' = preserve_fset_boundaries fc.
Proof.
  intros Hcache. repeat (match goal with |- _ /\ _ => split end).
  - exact (f_equal enabled_axis Hcache).
  - exact (f_equal enabled_force_axis Hcache).
  - exact (f_equal random_seed Hcache).
  - exact (f_equal surface_smooth_shape_preservation Hcache).
  - exact (f_equal surface_smooth_current_vertex Hcache).
  - exact (f_equal sharpen_smooth_ratio Hcache).
  - exact (f_equal sharpen_intensify_detail_strength Hcache).
  - exact (f_equal sharpen_curvature_smooth_iterations Hcache).
  - exact (f_equal sharpen_factor Hcache).
  - exact (f_equal detail_directions Hcache).
  - exact (f_equal limit_surface_co Hcache).
  - exact (f_equal orientation Hcache).
  - exact (f_equal obmat Hcache).
  - exact (f_equal obmat_inv Hcache).
  - exact (f_equal viewmat Hcache).
  - exact (f_equal viewmat_inv Hcache).
  - exact (f_equal nodes Hcache).
  - exact (f_equal active_face_set Hcache).
  - exact (f_equal automasking Hcache).
  - exact (f_equal initial_normal Hcache).
  - exact (f_equal view_normal Hcache).
  - exact (f_equal start_filter_strength Hcache).
  - exact (f_equal no_orig_co Hcache).
  - exact (f_equal preserve_fset_boundaries Hcache).
Qed.

Section FromOriginal.
Context `{SculptExternals}.
Variables (s0 : SculptSession) (fc : FilterCache).
Variables (ft : eSculptMeshFilterType) (strength : float).

Hypothesis from_original : displaces_from_original ft = true.
Hypothesis reads_snapshot : no_orig_co fc = false.
Hypothesis automasking_fixed :
  forall s s' v,
    SCULPT_automasking_factor_get (automasking fc) s v =
    SCULPT_automasking_factor_get (automasking fc) s' v.

(** What the vertex loop computes for a vertex with a snapshot depends on
    the snapshot and the mask alone, and not on the iteration counter. *)
Lemma vertex_from_original (fc' : FilterCache) (x : SculptSession) (v : nat) :
  fc_set_iteration_count 0 fc' = fc_set_iteration_count 0 fc ->
  undo_coords x = undo_coords s0 ->
  vert_mask x = vert_mask s0 ->
  snapshotted s0 v ->
  mesh_filter_vertex fc' x ft strength v =
  mesh_filter_vertex fc s0 ft strength v.
Proof.
  intros Hcache Hundo Hmask [od Hod].
  apply cache_but_count_fields in Hcache.
  destruct Hcache
    as (H0 & H1 & H2 & H3 & H4 & H5 & H6 & H7 & H8 & H9 & H10 & H11 & H12
        & H13 & H14 & H15 & H16 & H17 & H18 & H19 & H20 & H21 & H22 & H23).
  unfold mesh_filter_vertex, vertex_fade, vertex_orig_co,
    SCULPT_orig_vert_data_update, mesh_filter_displacement,
    mesh_filter_project_disp, SCULPT_filter_to_object_space,
    SCULPT_filter_to_orientation_space, sharpen_disp.
  rewrite Hundo, Hod, Hmask, H0, H2, H9, H10, H11, H12, H13, H14, H15, H18,
    H22, H23.
  rewrite (automasking_fixed s0 x v), reads_snapshot.
  destruct ft; try discriminate from_original; reflexivity.
Qed.

End FromOriginal.

Section OriginalKept.
Context `{SculptExternals}.
Variables (s0 : SculptSession) (fc : FilterCache).

Hypothesis all_snapshotted :
  forall v, In v (filter_verts fc s0) -> snapshotted s0 v.

Lemma original_kept_refl : original_kept s0 s0.
Proof. repeat split. Qed.

Lemma original_kept_ext (x x' : SculptSession) :
  undo_coords x' = undo_coords x -> vert_mask x' = vert_mask x ->
  pbvh_nodes x' = pbvh_nodes x -> length (vert_co x') = length (vert_co x) ->
  original_kept s0 x -> original_kept s0 x'.
Proof.
  intros H1 H2 H3 H4 (K1 & K2 & K3 & K4). repeat split; congruence.
Qed.

(** Taking the snapshot of a node of the cache again changes nothing. *)
Lemma push_node_noop (x : SculptSession) (node : nat) :
  original_kept s0 x -> In node (nodes fc) ->
  undo_coords (SCULPT_undo_push_node node x) = undo_coords x.
Proof.
  intros (Hundo & _ & Hnodes & _) Hnode. apply map_eq. intros w.
  unfold SCULPT_undo_push_node. cbn [undo_coords set_undo_coords].
  pose proof (undo_push_fold_lookup
                (fun w => {| od_co := SCULPT_vertex_co_get x w;
                             od_no := SCULPT_vertex_normal_get x w |})
                (node_unique_verts x node) (undo_coords x) w) as Hpush.
  cbn zeta in Hpush. destruct Hpush as (Ha & _ & Hc).
  destruct (undo_coords x !! w) as [od|] eqn:Hw; [apply Ha; reflexivity|].
  apply Hc; [reflexivity|]. intros Hin.
  destruct (all_snapshotted w) as [od Hod].
  - apply (node_verts_in_filter_verts s0 fc x node w); assumption.
  - rewrite Hundo in Hw. congruence.
Qed.

Lemma push_node_original_kept (x : SculptSession) (node : nat) :
  original_kept s0 x -> In node (nodes fc) ->
  original_kept s0 (SCULPT_orig_vert_data_init node x).
Proof.
  intros Hx Hnode. apply (original_kept_ext x); try reflexivity; [|exact Hx].
  apply push_node_noop; assumption.
Qed.

Lemma vertex_step_original_kept (fc' : FilterCache)
    (ft : eSculptMeshFilterType) (strength : float) (x : SculptSession)
    (u : nat) :
  original_kept s0 x ->
  original_kept s0 (mesh_filter_vertex_step fc' ft strength x u).
Proof.
  apply original_kept_ext; unfold mesh_filter_vertex_step;
    destruct (mesh_filter_vertex fc' x ft strength u) as [[final [l|]]|]; cbn;
    rewrite ?length_insert; reflexivity.
Qed.

Lemma displace_step_original_kept (fc' : FilterCache) (strength : float)
    (x : SculptSession) (u : nat) :
  original_kept s0 x ->
  original_kept s0 (surface_smooth_displace_vertex_step fc' strength x u).
Proof.
  apply original_kept_ext; unfold surface_smooth_displace_vertex_step;
    destruct (F32.eqb _ _); cbn; rewrite ?length_insert; reflexivity.
Qed.

(** Whatever the filter type, an iteration keeps the snapshots, the mask,
    the PBVH and the number of vertices. *)
Lemma apply_passes_original_kept (fc' : FilterCache)
    (ft : eSculptMeshFilterType) (strength : float) (x : SculptSession) :
  nodes fc' = nodes fc ->
  original_kept s0 x ->
  original_kept s0 (apply_passes fc' ft strength x).
Proof.
  intros Hnodes Hx.
  assert (Hpass : forall y, original_kept s0 y ->
                    original_kept s0 (mesh_filter_pass fc' ft strength y)).
  { intros y Hy. apply mesh_filter_pass_preserves; [exact Hy|..].
    - intros z node Hnode Hz. rewrite Hnodes in Hnode.
      apply push_node_original_kept; assumption.
    - intros; apply vertex_step_original_kept; assumption. }
  assert (Hpass2 : forall y, original_kept s0 y ->
                     original_kept s0
                       (surface_smooth_displace_pass fc' strength y)).
  { intros y Hy. apply displace_pass_preserves; [exact Hy|].
    intros; apply displace_step_original_kept; assumption. }
  unfold apply_passes.
  assert (H0 : original_kept s0 (emit EvVertexRandomAccessEnsure x))
    by (apply (original_kept_ext x); [reflexivity..|exact Hx]).
  destruct (ELEM_type ft [MESH_FILTER_SURFACE_SMOOTH]).
  - apply Hpass2, Hpass.
    apply (original_kept_ext (emit EvVertexRandomAccessEnsure x));
      try exact H0; unfold SCULPT_surface_smooth_laplacian_init;
      destruct (Nat.eqb _ _); reflexivity.
  - apply Hpass, H0.
Qed.

Lemma apply_original_kept (op : wmOperator) (x x' : SculptSession)
    (fc' : FilterCache) :
  filter_cache x = Some fc' ->
  fc_set_iteration_count 0 fc' = fc_set_iteration_count 0 fc ->
  original_kept s0 x ->
  sculpt_mesh_filter_apply op x = Some x' ->
  original_kept s0 x' /\
  exists fc'', filter_cache x' = Some fc'' /\
               fc_set_iteration_count 0 fc'' = fc_set_iteration_count 0 fc.
Proof.
  intros Hfc Hcache Hx Happly.
  rewrite (sculpt_mesh_filter_apply_unfold _ _ _ Hfc) in Happly.
  injection Happly as <-. split.
  - apply (original_kept_ext
             (apply_passes fc' (op_type op) (op_strength op) x)).
    + apply apply_epilogue_undo_coords.
    + unfold apply_epilogue. cbn. destruct (_ || _); reflexivity.
    + apply apply_epilogue_pbvh_nodes.
    + rewrite apply_epilogue_vert_co. reflexivity.
    + apply apply_passes_original_kept; [|exact Hx].
      exact (f_equal nodes Hcache).
  - eexists. split; [apply apply_epilogue_filter_cache|]. exact Hcache.
Qed.

Lemma apply_iterations_original_kept (ops : list wmOperator)
    (x x' : SculptSession) (fc' : FilterCache) :
  filter_cache x = Some fc' ->
  fc_set_iteration_count 0 fc' = fc_set_iteration_count 0 fc ->
  original_kept s0 x ->
  apply_iterations ops x = Some x' ->
  original_kept s0 x' /\
  exists fc'', filter_cache x' = Some fc'' /\
               fc_set_iteration_count 0 fc'' = fc_set_iteration_count 0 fc.
Proof.
  revert x fc'. induction ops as [|op ops IH]; intros x fc' Hfc Hcache Hx;
    cbn [apply_iterations].
  - intros [= <-]. split; [exact Hx|]. exists fc'. split; assumption.
  - destruct (sculpt_mesh_filter_apply op x) as [x1|] eqn:Happly;
      [|discriminate].
    destruct (apply_original_kept op x x1 fc' Hfc Hcache Hx Happly)
      as (Hx1 & fc1 & Hfc1 & Hcache1).
    apply (IH x1 fc1); assumption.
Qed.

End OriginalKept.

Section StartOver.
Context `{SculptExternals}.
Variables (s0 : SculptSession) (fc : FilterCache).
Variables (ft : eSculptMeshFilterType) (strength : float).

Hypothesis from_original : displaces_from_original ft = true.
Hypothesis reads_snapshot : no_orig_co fc = false.
Hypothesis automasking_fixed :
  forall s s' v,
    SCULPT_automasking_factor_get (automasking fc) s v =
    SCULPT_automasking_factor_get (automasking fc) s' v.
Hypothesis all_snapshotted :
  forall v, In v (filter_verts fc s0) -> snapshotted s0 v.

Variables (fc' : FilterCache) (v : nat) (final : float3) (l : option float3).

Hypothesis same_cache :
  fc_set_iteration_count 0 fc' = fc_set_iteration_count 0 fc.
Hypothesis target :
  mesh_filter_vertex fc s0 ft strength v = Some (final, l).
Hypothesis in_range : v < length (vert_co s0).

Lemma vertex_step_writes_target (x : SculptSession) :
  original_kept s0 x -> In v (filter_verts fc s0) ->
  vert_co (mesh_filter_vertex_step fc' ft strength x v) !! v = Some final.
Proof.
  intros (Hundo & Hmask & _ & Hlen) Hin. unfold mesh_filter_vertex_step.
  rewrite (vertex_from_original s0 fc ft strength from_original
             reads_snapshot automasking_fixed fc' x v same_cache Hundo Hmask
             (all_snapshotted v Hin)), target.
  destruct l; cbn; apply list_lookup_insert_eq; rewrite Hlen; exact in_range.
Qed.

Lemma pass_writes_target (x : SculptSession) :
  original_kept s0 x -> In v (filter_verts fc s0) ->
  vert_co (mesh_filter_pass fc' ft strength x) !! v = Some final.
Proof.
  intros Hx Hin. rewrite mesh_filter_pass_unfold.
  pose proof (f_equal nodes same_cache : nodes fc' = nodes fc) as Hnodes.
  assert (Hkeep : forall y u, original_kept s0 y ->
                    vert_co y !! v = Some final ->
                    vert_co (mesh_filter_vertex_step fc' ft strength y u) !! v
                    = Some final).
  { intros y u Hy Hr. destruct (decide (u = v)) as [->|Hne].
    - apply vertex_step_writes_target; assumption.
    - rewrite vertex_step_other by exact Hne. exact Hr. }
  eapply proj2, (fold_left_reaches (original_kept s0)
                   (fun y => vert_co y !! v = Some final)
                   (fun a => a = TASK_vertex v)).
  - intros y [node|u] Ha Hy; cbn.
    + apply (push_node_original_kept s0 fc all_snapshotted); [exact Hy|].
      apply mesh_filter_pass_turns_in in Ha
        as (node' & Hnode & [Heq|(u & _ & Hu)]); [|discriminate Hu].
      injection Heq as ->. rewrite <- Hnodes. exact Hnode.
    + apply vertex_step_original_kept. exact Hy.
  - intros y [node|u] _ Hy Hr; cbn; [exact Hr|]. apply Hkeep; assumption.
  - intros y a _ Hy ->. cbn. apply vertex_step_writes_target; assumption.
  - exact Hx.
  - right. exists (TASK_vertex v). split; [|reflexivity].
    apply mesh_filter_pass_turn_vertex.
    destruct Hx as (_ & _ & Hn & _).
    unfold filter_verts, node_unique_verts in *. rewrite Hnodes, Hn.
    exact Hin.
Qed.

End StartOver.

Section StartSnapshotsAll.
Context `{SculptExternals}.

Lemma push_nodes_snapshot_all (gathered order : list nat)
    (x : SculptSession) (v : nat) :
  In v (concat (map (node_unique_verts x) gathered)) ->
  snapshotted
    (BLI_task_parallel_range 0 (length gathered)
       (filter_cache_init_task_cb gathered)
       (fun ss node => SCULPT_undo_push_node node ss) order x) v.
Proof.
  intros Hin. unfold BLI_task_parallel_range.
  apply in_concat in Hin as (vs & Hvs & Hv).
  apply in_map_iff in Hvs as (node & <- & Hnode).
  eapply proj2, (fold_left_reaches
                   (fun y => pbvh_nodes y = pbvh_nodes x)
                   (fun y => snapshotted y v)
                   (fun n => n = node)).
  - intros y n _ Hy. exact Hy.
  - intros y n _ _ Hr. apply undo_push_node_keeps_snapshot. exact Hr.
  - intros y n _ Hy ->. apply undo_push_node_snapshots.
    unfold node_unique_verts in *. rewrite Hy. exact Hv.
  - reflexivity.
  - right. exists node. split; [|reflexivity].
    apply BLI_task_turns_in. rewrite Nat.sub_0_r.
    change (filter_cache_init_task_cb gathered)
      with (fun i => match gathered !! i with
                     | Some node => (fun n : nat => [n]) node
                     | None => []
                     end).
    apply range_tasks_in. exists node. split; [exact Hnode|].
    left. reflexivity.
Qed.

(** The snapshots taken in a fresh undo step hold the coordinates and the
    normals the mesh has when the range is forked. *)
Lemma push_nodes_record (gathered order : list nat) (y : SculptSession) :
  undo_coords y = ∅ ->
  let z :=
    BLI_task_parallel_range 0 (length gathered)
      (filter_cache_init_task_cb gathered)
      (fun ss node => SCULPT_undo_push_node node ss) order y in
  vert_co z = vert_co y /\ vert_no z = vert_no y /\
  forall v od,
    undo_coords z !! v = Some od ->
    od_co od = SCULPT_vertex_co_get y v /\
    od_no od = SCULPT_vertex_normal_get y v.
Proof.
  intros Hempty. cbv zeta.
  apply (BLI_task_parallel_range_preserves
           (fun z => vert_co z = vert_co y /\ vert_no z = vert_no y /\
                     forall v od,
                       undo_coords z !! v = Some od ->
                       od_co od = SCULPT_vertex_co_get y v /\
                       od_no od = SCULPT_vertex_normal_get y v)).
  - split; [reflexivity|]. split; [reflexivity|]. intros v od.
    rewrite Hempty, lookup_empty. discriminate.
  - intros node x (Hco & Hno & Hrec).
    split; [exact Hco|]. split; [exact Hno|]. intros v od.
    unfold SCULPT_undo_push_node. cbn [undo_coords set_undo_coords].
    pose proof (undo_push_fold_lookup
                  (fun w => {| od_co := SCULPT_vertex_co_get x w;
                               od_no := SCULPT_vertex_normal_get x w |})
                  (node_unique_verts x node) (undo_coords x) v) as Hpush.
    cbn zeta in Hpush. destruct Hpush as (Ha & Hb & Hc).
    destruct (undo_coords x !! v) as [od'|] eqn:Hv.
    + rewrite (Ha od' eq_refl). intros [= <-]. apply Hrec. exact Hv.
    + destruct (In_dec Nat.eq_dec v (node_unique_verts x node)) as [Hin|Hnin].
      * rewrite (Hb eq_refl Hin). intros [= <-]. cbn.
        unfold SCULPT_vertex_co_get, SCULPT_vertex_normal_get.
        rewrite Hco, Hno. split; reflexivity.
      * rewrite (Hc eq_refl Hnin). discriminate.
Qed.

Lemma cache_init_snapshots_all (C : bContext) (undo_type : SculptUndoType)
    (mval : Z * Z) (area_normal_radius start_strength : float)
    (x : SculptSession) (fc0 : FilterCache) (v : nat) :
  let init :=
    SCULPT_filter_cache_init C undo_type mval area_normal_radius
      start_strength x in
  filter_cache init = Some fc0 ->
  In v (concat (map (node_unique_verts x) (nodes fc0))) ->
  snapshotted init v.
Proof.
  cbv zeta. unfold SCULPT_filter_cache_init.
  match goal with
  | |- context [BLI_task_parallel_range 0 (length ?g)
                  (filter_cache_init_task_cb ?g) ?t ?o ?y] =>
      pose proof (push_nodes_snapshot_all g o y v) as Hmid;
      set (mid := BLI_task_parallel_range 0 (length g)
                    (filter_cache_init_task_cb g) t o y) in *
  end.
  destruct (SCULPT_stroke_get_location C _ mval) as [co|];
    [destruct (SCULPT_pbvh_calc_area_normal C _ co area_normal_radius)|];
    cbn [filter_cache set_filter_cache]; intros [= <-]; cbn; intros Hin;
    apply Hmid; destruct undo_type; cbn [pbvh_type set_filter_cache emit];
    destruct (pbvh_type x); exact Hin.
Qed.

(** The normals after the cache is built are those the PBVH has recomputed
    for the gathered nodes, on the mesh as it was; the snapshots of a fresh
    undo step hold the coordinates as they were and these normals. *)
Lemma cache_init_normals (C : bContext) (undo_type : SculptUndoType)
    (mval : Z * Z) (area_normal_radius start_strength : float)
    (s : SculptSession) :
  undo_coords s = ∅ ->
  let init :=
    SCULPT_filter_cache_init C undo_type mval area_normal_radius
      start_strength s in
  exists fc0 pre,
    filter_cache init = Some fc0 /\
    view_normal fc0 =
      normalize_v3_v3
        (BLI.mul_m3_v3 (BLI.copy_m3_m4 (invert_m4_m4 (ctx_object_to_world C)))
           (BLI.mul_m3_v3 (BLI.copy_m3_m4 (ctx_rv3d_viewinv C))
              (V3 F32.zero F32.zero F32.one))) /\
    normals_updated s (nodes fc0) pre init /\
    forall v od,
      undo_coords init !! v = Some od ->
      od_co od = SCULPT_vertex_co_get s v /\
      od_no od = SCULPT_vertex_normal_get init v.
Proof.
  intros Hempty. cbv zeta. unfold SCULPT_filter_cache_init.
  match goal with
  | |- context [pbvh_update_normals ?m ?p] => set (pre := p) in *
  end.
  match goal with
  | |- context [BLI_task_parallel_range 0 (length ?g)
                  (filter_cache_init_task_cb ?g) ?t ?o ?y] =>
      destruct (push_nodes_record g o y) as (Hco & Hno & Hrec);
      [|set (mid := BLI_task_parallel_range 0 (length g)
                      (filter_cache_init_task_cb g) t o y) in *]
  end.
  { subst pre. destruct undo_type; cbn; destruct (pbvh_type s); exact Hempty. }
  assert (Hpre : vert_co pre = vert_co s /\ vert_no pre = vert_no s /\
                 topology_kept s pre)
    by (subst pre; destruct undo_type; repeat split).
  destruct Hpre as (Hpco & Hpno & Hptop).
  assert (Hrec' : forall v od,
            undo_coords mid !! v = Some od ->
            od_co od = SCULPT_vertex_co_get s v /\
            od_no od = SCULPT_vertex_normal_get mid v).
  { intros v od Hod. destruct (Hrec v od Hod) as [H1 H2]. split.
    - rewrite H1. unfold SCULPT_vertex_co_get. rewrite <- Hpco.
      destruct (pbvh_type pre); reflexivity.
    - rewrite H2. unfold SCULPT_vertex_normal_get. rewrite Hno.
      reflexivity. }
  destruct (SCULPT_stroke_get_location C _ mval) as [co|];
    [destruct (SCULPT_pbvh_calc_area_normal C _ co area_normal_radius)|];
    (eexists; exists pre; split; [reflexivity|]; split; [reflexivity|];
     split; [|exact Hrec'];
     split; [exact Hpco|]; split; [exact Hpno|]; split; [exact Hptop|];
     split; [subst pre; eexists; split; reflexivity|];
     cbn; rewrite Hno;
     replace (pbvh_type s) with (pbvh_type pre)
       by (subst pre; destruct undo_type; reflexivity);
     destruct (pbvh_type pre); first [exact Hpno | reflexivity]).
Qed.

(** After a successful start every vertex of every node of the cache has
    its snapshot. *)
Lemma start_snapshots_all (C : bContext) (op : wmOperator)
    (ss s1 : SculptSession) (fc : FilterCache) (v : nat) :
  sculpt_mesh_filter_start C op ss = (OPERATOR_PASS_THROUGH, s1) ->
  filter_cache s1 = Some fc ->
  In v (filter_verts fc s1) -> snapshotted s1 v.
Proof.
  unfold sculpt_mesh_filter_start.
  destruct (op_deform_axis op =? 0)%Z; [discriminate|].
  intros Hstart. injection Hstart as <-.
  cbn [filter_cache set_filter_cache]. intros [= <-].
  match goal with
  | |- context [SCULPT_filter_cache_init ?c ?u ?m ?r ?st ?x] =>
      pose proof (cache_init_snapshots_all c u m r st x) as Hinit;
      destruct (cache_init_mesh c u m r st x) as (_ & Hl & _);
      destruct (cache_init_cache c u m r st x) as (fc0 & Hfc0 & _);
      set (init := SCULPT_filter_cache_init c u m r st x) in *
  end.
  cbv zeta in Hinit. specialize (Hinit fc0 v Hfc0).
  rewrite Hfc0. cbn [default from_option id].
  unfold filter_verts, snapshotted, node_unique_verts in *.
  cbn [undo_coords pbvh_nodes set_filter_cache].
  destruct Hl as (_ & _ & _ & Hn). rewrite Hn.
  intros Hin. apply Hinit.
  destruct (op_type op); unfold mesh_filter_sharpen_init in Hin;
    try destruct (sharpen_smooth _ _ _) as [directions factor];
    exact Hin.
Qed.

End StartSnapshotsAll.

(** What the start leaves of the normals and in the undo step. *)
Lemma start_updates_normals `{SculptExternals} (C : bContext)
    (op : wmOperator) (ss ss1 : SculptSession) (fc : FilterCache) :
  sculpt_mesh_filter_start C op ss = (OPERATOR_PASS_THROUGH, ss1) ->
  filter_cache ss1 = Some fc ->
  view_normal fc =
    normalize_v3_v3
      (BLI.mul_m3_v3 (BLI.copy_m3_m4 (invert_m4_m4 (ctx_object_to_world C)))
         (BLI.mul_m3_v3 (BLI.copy_m3_m4 (ctx_rv3d_viewinv C))
            (V3 F32.zero F32.zero F32.one))) /\
  (exists pre, normals_updated ss (nodes fc) pre ss1) /\
  forall v od,
    undo_coords ss1 !! v = Some od ->
    od_co od = SCULPT_vertex_co_get ss v /\
    od_no od = SCULPT_vertex_normal_get ss1 v.
Proof.
  unfold sculpt_mesh_filter_start.
  destruct (op_deform_axis op =? 0)%Z; [discriminate|].
  intros Hstart. injection Hstart as <-.
  cbn [filter_cache set_filter_cache]. intros [= <-].
  match goal with
  | |- context [SCULPT_filter_cache_init ?c ?u ?m ?r ?st ?x] =>
      destruct (cache_init_normals c u m r st x)
        as (fc0 & pre & Hfc0 & Hview0 & Hnorm & Hrec);
      [reflexivity|];
      set (init := SCULPT_filter_cache_init c u m r st x) in *;
      assert (Hx : vert_co x = vert_co ss /\ vert_no x = vert_no ss /\
                   topology_kept ss x)
  end.
  { destruct (ctx_automasking_enabled C), (_ || _); repeat split. }
  destruct Hx as (Hxco & Hxno & X1 & X2 & X3 & X4).
  destruct Hnorm as (Nco & Nno & (T1 & T2 & T3 & T4) & (fc1 & Hfc1 & Hn1)
                     & Hno).
  rewrite Hfc0. cbn [default from_option id].
  match goal with
  | |- view_normal ?F = _ /\ _ =>
      assert (HF : nodes F = nodes fc0 /\ view_normal F = view_normal fc0)
        by (destruct (op_type op); unfold mesh_filter_sharpen_init;
            try destruct (sharpen_smooth _ _ _) as [directions factor];
            split; reflexivity);
      destruct HF as [Hnodes Hview]
  end.
  rewrite Hview, Hnodes. split; [exact Hview0|]. split.
  - exists pre. unfold normals_updated, topology_kept.
    cbn [vert_no set_filter_cache].
    split; [congruence|]. split; [congruence|].
    split; [repeat split; congruence|].
    split; [exists fc1; split; assumption|].
    rewrite Hno, X3, Hxno. reflexivity.
  - intros v od Hod. destruct (Hrec v od Hod) as [H1 H2].
    unfold SCULPT_vertex_co_get, SCULPT_vertex_normal_get in *.
    cbn [vert_no set_filter_cache]. rewrite <- Hxco. split; assumption.
Qed.

(** X2.  When [sculpt_mesh_filter_start] answers OPERATOR_PASS_THROUGH the
    coordinates, the vertex count, the mask and the PBVH are as they were,
    and the session has a cache: iteration counter 0, the start strength and
    the orientation of the operator, the seed drawn from [rand()],
    [no_orig_co] clear, axis [it] enabled exactly when bit [it] of
    [deform_axis] is set, every gathered node an index into the PBVH
    leaves, and as view normal the Z axis taken through the view's inverse
    matrix and the object's, normalised.  The normals are those
    [BKE_pbvh_update_normals] recomputed for
    the gathered nodes, all marked for it, on the mesh as it was; on a
    multires PBVH the call is not made and they are as they were.  The undo
    step holds a snapshot for every vertex of the gathered nodes, taken
    after the normals were recomputed: it has the coordinate the vertex had
    and the normal the vertex has now. *)
Theorem start_builds_cache `{SculptExternals} (C : bContext) (op : wmOperator)
    (ss ss1 : SculptSession) :
  sculpt_mesh_filter_start C op ss = (OPERATOR_PASS_THROUGH, ss1) ->
  vert_co ss1 = vert_co ss /\ topology_kept ss ss1 /\
  exists fc,
    filter_cache ss1 = Some fc /\
    iteration_count fc = 0%Z /\
    start_filter_strength fc = op_strength op /\
    random_seed fc = ctx_rand C /\
    no_orig_co fc = false /\
    orientation fc = op_orientation op /\
    (forall it, it < 3 ->
       enabled_axis fc it = Z.testbit (op_deform_axis op) (Z.of_nat it)) /\
    Forall (fun node => node < length (pbvh_nodes ss)) (nodes fc) /\
    view_normal fc =
      normalize_v3_v3
        (BLI.mul_m3_v3 (BLI.copy_m3_m4 (invert_m4_m4 (ctx_object_to_world C)))
           (BLI.mul_m3_v3 (BLI.copy_m3_m4 (ctx_rv3d_viewinv C))
              (V3 F32.zero F32.zero F32.one))) /\
    (exists pre, normals_updated ss (nodes fc) pre ss1) /\
    forall v, In v (filter_verts fc ss1) ->
      exists od, undo_coords ss1 !! v = Some od /\
                 od_co od = SCULPT_vertex_co_get ss v /\
                 od_no od = SCULPT_vertex_normal_get ss1 v.
Proof.
  intros Hstart.
  destruct (start_sets_up C op ss ss1 Hstart)
    as (Hco & Hl & fc & Hfc & Hcount & Hstrength & Hseed & Horig & Hor
        & Haxis & Hnodes).
  destruct (start_updates_normals C op ss ss1 fc Hstart Hfc)
    as (Hview & Hnorm & Hrec).
  split; [exact Hco|]. split; [exact Hl|]. exists fc.
  split; [exact Hfc|]. split; [exact Hcount|]. split; [exact Hstrength|].
  split; [exact Hseed|]. split; [exact Horig|]. split; [exact Hor|].
  split; [exact Haxis|]. split; [exact Hnodes|]. split; [exact Hview|].
  split; [exact Hnorm|].
  intros v Hin.
  destruct (start_snapshots_all C op ss ss1 fc v Hstart Hfc Hin) as [od Hod].
  exists od. split; [exact Hod|]. apply Hrec. exact Hod.
Qed.

Section StartCacheExample.

(** Sharpen started with X and Z enabled on three vertices in two PBVH
    leaves, a PBVH that turns every normal it recomputes to the X axis and a
    scheduler that lets the second leaf go first: the snapshot of vertex 2
    has the coordinate of the vertex and the recomputed normal. *)
Lemma start_builds_cache_witness :
  let E := Demo.collaborators_with (fun _ => [1; 0])
             (fun ss _ => map (fun _ => Demo.on_x 1) (vert_no ss)) in
  let op :=
    Demo.operator MESH_FILTER_SHARPEN F32.one
      (Z.lor MESH_FILTER_DEFORM_X MESH_FILTER_DEFORM_Z) in
  let mesh :=
    Demo.session_of_leaves [Demo.on_x 0; Demo.on_x 1; Demo.on_x 5]
      [[0; 1]; [2]] in
  let ss1 := Demo.started_with E op mesh in
  vert_co ss1 = vert_co mesh /\
  vert_no ss1 = [Demo.on_x 1; Demo.on_x 1; Demo.on_x 1] /\
  vert_no ss1 <> vert_no mesh /\
  exists fc,
    filter_cache ss1 = Some fc /\
    iteration_count fc = 0%Z /\
    enabled_axis fc 0 = true /\ enabled_axis fc 1 = false /\
    enabled_axis fc 2 = true /\
    view_normal fc = V3 F32.zero F32.zero F32.one /\
    exists od, undo_coords ss1 !! 2 = Some od /\
               od_co od = Demo.on_x 5 /\ od_no od = Demo.on_x 1.
Proof.
  intros E op mesh ss1.
  destruct (@start_builds_cache E Demo.context op mesh ss1)
    as (Hco & _ & fc & Hfc & Hcount & _ & _ & _ & _ & Haxis & _ & Hview
        & _ & Hsnap).
  - vm_compute. reflexivity.
  - split; [exact Hco|].
    assert (Hfc' : filter_cache ss1 = Some (Demo.cache_with E op mesh))
      by (vm_compute; reflexivity).
    assert (Heq : fc = Demo.cache_with E op mesh) by congruence.
    split; [vm_compute; reflexivity|].
    split; [vm_compute; discriminate|]. exists fc.
    rewrite (Haxis 0), (Haxis 1), (Haxis 2) by lia.
    split; [exact Hfc|]. split; [exact Hcount|].
    split; [reflexivity|]. split; [reflexivity|]. split; [reflexivity|].
    split; [rewrite Hview; vm_compute; reflexivity|].
    destruct (Hsnap 2) as (od & Hod & Hodco & Hodno).
    + rewrite Heq. vm_compute. right. right. left. reflexivity.
    + exists od. split; [exact Hod|]. split; [exact Hodco | exact Hodno].
Defined.

End StartCacheExample.

(** X17.  For the filter types that displace from the original mesh (Scale,
    Inflate, Sphere, Random, Enhance Details, Erase Displacement) an
    iteration does not build on the ones before it.  After a start, let any
    iterations run, of whatever types and strengths, and then one of these:
    every vertex of the cache's nodes whose fade is not zero ends where the
    same iteration would have put it right after the start.  The
    automasking factor is taken not to depend on the state of the
    session. *)
Theorem iteration_starts_over `{SculptExternals} (C : bContext)
    (op0 op : wmOperator) (ops : list wmOperator)
    (ss s1 s2 t1 t2 : SculptSession) (fc : FilterCache) :
  sculpt_mesh_filter_start C op0 ss = (OPERATOR_PASS_THROUGH, s1) ->
  filter_cache s1 = Some fc ->
  displaces_from_original (op_type op) = true ->
  (forall s s' v,
     SCULPT_automasking_factor_get (automasking fc) s v =
     SCULPT_automasking_factor_get (automasking fc) s' v) ->
  apply_iterations ops s1 = Some s2 ->
  sculpt_mesh_filter_apply op s1 = Some t1 ->
  sculpt_mesh_filter_apply op s2 = Some t2 ->
  forall v,
    In v (filter_verts fc s1) ->
    F32.eqb (vertex_fade fc s1 (op_strength op) v) F32.zero = false ->
    vert_co t2 !! v = vert_co t1 !! v.
Proof.
  intros Hstart Hfc Hft Hauto Hiter Happly1 Happly2 v Hin Hfade.
  assert (Hsnap : forall w, In w (filter_verts fc s1) -> snapshotted s1 w)
    by (intros w; apply (start_snapshots_all C op0 ss s1 fc w Hstart Hfc)).
  assert (Horig : no_orig_co fc = false).
  { destruct (start_sets_up C op0 ss s1 Hstart)
      as (_ & _ & fc1 & Hfc1 & _ & _ & _ & Hno & _). congruence. }
  destruct (apply_iterations_original_kept s1 fc Hsnap ops s1 s2 fc Hfc
              eq_refl (original_kept_refl s1) Hiter)
    as (Hkept & fc2 & Hfc2 & Hcache).
  rewrite (sculpt_mesh_filter_apply_unfold _ _ _ Hfc) in Happly1.
  rewrite (sculpt_mesh_filter_apply_unfold _ _ _ Hfc2) in Happly2.
  injection Happly1 as <-. injection Happly2 as <-.
  rewrite !apply_epilogue_vert_co. unfold apply_passes.
  replace (ELEM_type (op_type op) [MESH_FILTER_SURFACE_SMOOTH])
    with false by (destruct (op_type op); try reflexivity; discriminate).
  destruct (decide (v < length (vert_co s1))) as [Hlt|Hge].
  - assert (Htarget : exists final l,
              mesh_filter_vertex fc s1 (op_type op) (op_strength op) v =
              Some (final, l)).
    { unfold mesh_filter_vertex. rewrite Hfade. cbn [andb].
      destruct (op_type op); try discriminate; cbn; eexists _, _;
        reflexivity. }
    destruct Htarget as (final & l & Htarget).
    rewrite (pass_writes_target s1 fc (op_type op) (op_strength op) Hft Horig
               Hauto Hsnap fc2 v final l Hcache Htarget Hlt);
      [|apply (original_kept_ext s1 s2);
        [reflexivity..|exact Hkept] | exact Hin].
    rewrite (pass_writes_target s1 fc (op_type op) (op_strength op) Hft Horig
               Hauto Hsnap fc v final l eq_refl Htarget Hlt);
      [reflexivity | | exact Hin].
    apply (original_kept_ext s1 s1); [reflexivity..|apply original_kept_refl].
  - assert (Hlen : forall fc' x,
              nodes fc' = nodes fc -> original_kept s1 x ->
              length (vert_co (mesh_filter_pass fc' (op_type op)
                                 (op_strength op)
                                 (emit EvVertexRandomAccessEnsure x)))
              = length (vert_co s1)).
    { intros fc' x Hnodes Hx.
      pose proof (apply_passes_original_kept s1 fc Hsnap fc' (op_type op)
                    (op_strength op) x Hnodes Hx) as (_ & _ & _ & Hlen).
      unfold apply_passes in Hlen.
      replace (ELEM_type (op_type op) [MESH_FILTER_SURFACE_SMOOTH])
        with false in Hlen
        by (destruct (op_type op); try reflexivity; discriminate).
      exact Hlen. }
    rewrite !(proj2 (lookup_ge_None _ _)); [reflexivity| |].
    + rewrite (Hlen fc s1 eq_refl (original_kept_refl s1)). lia.
    + rewrite (Hlen fc2 s2 (f_equal nodes Hcache) Hkept). lia.
Qed.

Section StartOverExample.
#[local] Existing Instance Demo.externals.

(** Inflate at strength 2, then Scale at 0.5, then Inflate at strength 1:
    vertex 1 ends where Inflate at strength 1 alone puts it. *)
Lemma iteration_starts_over_witness :
  let op0 := Demo.operator MESH_FILTER_INFLATE (F32.of_Z 2) Demo.all_axes in
  let op := Demo.operator MESH_FILTER_INFLATE F32.one Demo.all_axes in
  let ops := [op0; Demo.operator MESH_FILTER_SCALE F32.half Demo.all_axes] in
  let mesh := Demo.session [Demo.on_x 0; Demo.on_x 1; Demo.on_x 5] in
  let s1 := Demo.started op0 mesh in
  let s2 := default s1 (apply_iterations ops s1) in
  let t1 := default s1 (sculpt_mesh_filter_apply op s1) in
  let t2 := default s2 (sculpt_mesh_filter_apply op s2) in
  vert_co s2 !! 1 <> vert_co s1 !! 1 /\
  vert_co t2 !! 1 = vert_co t1 !! 1.
Proof.
  intros op0 op ops mesh s1 s2 t1 t2. split.
  - vm_compute. discriminate.
  - apply (iteration_starts_over Demo.context op0 op ops mesh s1 s2 t1 t2
             (Demo.cache op0 mesh)).
    + vm_compute. reflexivity.
    + vm_compute. reflexivity.
    + reflexivity.
    + intros s s' v. reflexivity.
    + vm_compute. reflexivity.
    + vm_compute. reflexivity.
    + vm_compute. reflexivity.
    + vm_compute. right. left. reflexivity.
    + vm_compute. reflexivity.
Defined.

End StartOverExample.
